(** * highdicom: frame codec, dimension index and segmentation engine

    A shallow embedding of
      - [highdicom/frame.py]        ([encode_frame], [decode_frame]),
      - [highdicom/seg/content.py]  ([DimensionIndexSequence.get_index_values]),
      - [highdicom/seg/sop.py]      ([Segmentation]: constructor, [add_segments],
                                     [_build_luts], the frame queries and the
                                     pixel reconstruction),
    followed by the properties established about them.

    Conventions.  Python integers are [Z]; sizes, counts and array shapes are
    [nat]; floating point numbers are the binary numbers of IEEE 754
    ([spec_float]) in the format of their dtype.  A numpy array is a dtype, a
    shape and its elements in C order, so that [array.flatten()] is the
    element list itself.  Byte strings are lists of integers in [0, 255].  A
    call that may raise returns a [result]; a method that mutates [self]
    before it may raise is a function from the object to the (possibly
    modified) object and a [result]. *)

From Stdlib Require Import ZArith List String Bool Lia Arith PeanoNat.
From Stdlib Require Import Sorting.Sorted Sorting.Permutation.
From Stdlib Require Import Floats.SpecFloat.
Import ListNotations.

Open Scope string_scope.
Open Scope list_scope.
Open Scope Z_scope.

(** ** Exceptions and results *)

Inductive exn : Type :=
| ValueError (msg : string)
| TypeError (msg : string)
| AttributeError (msg : string)
| IndexError (msg : string)
| KeyError (msg : string)
| RuntimeError (msg : string)
| NotImplementedError (msg : string)
| DicomAttributeError (msg : string).

Inductive result (A : Type) : Type :=
| Ok (a : A)
| Raise (e : exn).

Arguments Ok {A} a.
Arguments Raise {A} e.

Definition rbind {A B : Type} (r : result A) (k : A -> result B) : result B :=
  match r with
  | Ok a => k a
  | Raise e => Raise e
  end.

Definition is_raise {A : Type} (r : result A) : bool :=
  match r with
  | Ok _ => false
  | Raise _ => true
  end.

Declare Scope result_scope.
Delimit Scope result_scope with result.
Notation "'let?' x ':=' r 'in' k" := (rbind r (fun x => k))
  (at level 10, x pattern, r at level 100, k at level 200) : result_scope.
Notation "'check' b 'else' e 'in' k" := (if b then k else Raise e)
  (at level 10, b at level 100, e at level 100, k at level 200) : result_scope.
Open Scope result_scope.

(** ** Byte strings *)

Definition bytes := list Z.

Definition is_byte (b : Z) : Prop := 0 <= b < 256.

(** ** numpy arrays of integer samples *)

Inductive dtype : Type :=
| np_bool | np_uint8 | np_int8 | np_uint16 | np_int16 | np_uint32 | np_int32
| np_uint64 | np_int64.

Definition dtype_eqb (a b : dtype) : bool :=
  match a, b with
  | np_bool, np_bool | np_uint8, np_uint8 | np_int8, np_int8
  | np_uint16, np_uint16 | np_int16, np_int16
  | np_uint32, np_uint32 | np_int32, np_int32
  | np_uint64, np_uint64 | np_int64, np_int64 => true
  | _, _ => false
  end.

(** Bytes per element. *)
Definition itemsize (d : dtype) : nat :=
  match d with
  | np_bool | np_uint8 | np_int8 => 1
  | np_uint16 | np_int16 => 2
  | np_uint32 | np_int32 => 4
  | np_uint64 | np_int64 => 8
  end%nat.

Definition is_signed (d : dtype) : bool :=
  match d with
  | np_int8 | np_int16 | np_int32 | np_int64 => true
  | _ => false
  end.

(** The values an element of the dtype can hold. *)
Definition in_dtype_range (d : dtype) (v : Z) : Prop :=
  match d with
  | np_bool => 0 <= v <= 1
  | _ =>
      if is_signed d
      then - 2 ^ (8 * Z.of_nat (itemsize d) - 1) <= v
           < 2 ^ (8 * Z.of_nat (itemsize d) - 1)
      else 0 <= v < 2 ^ (8 * Z.of_nat (itemsize d))
  end.

Record ndarray : Type := mk_ndarray {
  arr_dtype : dtype;
  arr_shape : list nat;
  arr_data : list Z
}.

Definition ndim (a : ndarray) : nat := List.length (arr_shape a).

Definition prod_shape (sh : list nat) : nat := fold_right Nat.mul 1%nat sh.

(** [np.array_equal]: same shape and same elements, whatever the dtypes. *)
Definition array_equal (a b : ndarray) : Prop :=
  arr_shape a = arr_shape b /\ arr_data a = arr_data b.

(** *** pydicom's bit packing

    [pack_bits] of [pydicom.pixel_data_handlers.numpy_handler] (the version
    without a [pad] argument, on which the padding code of [add_segments]
    relies): only arrays of zeros and ones are accepted, the array is
    zero-padded to a multiple of 8 and every group of 8 samples becomes one
    byte whose bit 0 is the first sample of the group. *)

Definition bits_to_byte (b0 b1 b2 b3 b4 b5 b6 b7 : Z) : Z :=
  b0 + 2 * b1 + 4 * b2 + 8 * b3 + 16 * b4 + 32 * b5 + 64 * b6 + 128 * b7.

Fixpoint packbits_little (l : list Z) : bytes :=
  match l with
  | [] => []
  | b0 :: b1 :: b2 :: b3 :: b4 :: b5 :: b6 :: b7 :: rest =>
      bits_to_byte b0 b1 b2 b3 b4 b5 b6 b7 :: packbits_little rest
  | [b0; b1; b2; b3; b4; b5; b6] => [bits_to_byte b0 b1 b2 b3 b4 b5 b6 0]
  | [b0; b1; b2; b3; b4; b5] => [bits_to_byte b0 b1 b2 b3 b4 b5 0 0]
  | [b0; b1; b2; b3; b4] => [bits_to_byte b0 b1 b2 b3 b4 0 0 0]
  | [b0; b1; b2; b3] => [bits_to_byte b0 b1 b2 b3 0 0 0 0]
  | [b0; b1; b2] => [bits_to_byte b0 b1 b2 0 0 0 0 0]
  | [b0; b1] => [bits_to_byte b0 b1 0 0 0 0 0 0]
  | [b0] => [bits_to_byte b0 0 0 0 0 0 0 0]
  end.

Definition is_bit (v : Z) : bool := (v =? 0) || (v =? 1).

Definition pack_bits (flat : list Z) : result bytes :=
  check forallb is_bit flat
  else ValueError "Only binary arrays (containing ones or zeroes) can be packed."
  in Ok (packbits_little flat).

Definition byte_to_bits (b : Z) : list Z :=
  map (fun i => Z.b2z (Z.testbit b i)) [0; 1; 2; 3; 4; 5; 6; 7].

(** [unpack_bits]: every byte yields its 8 bits, bit 0 first. *)
Definition unpack_bits (bs : bytes) : list Z := flat_map byte_to_bits bs.

(** *** [ndarray.tobytes] and [np.frombuffer], little endian *)

Fixpoint le_bytes (w : nat) (v : Z) : bytes :=
  match w with
  | O => []
  | S w' => v mod 256 :: le_bytes w' (v / 256)
  end.

Definition tobytes (d : dtype) (flat : list Z) : bytes :=
  flat_map (le_bytes (itemsize d)) flat.

Fixpoint of_le_bytes (bs : bytes) : Z :=
  match bs with
  | [] => 0
  | b :: rest => b + 256 * of_le_bytes rest
  end.

Definition wrap_signed (w : nat) (signed : bool) (u : Z) : Z :=
  if signed && (2 ^ (8 * Z.of_nat w - 1) <=? u)
  then u - 2 ^ (8 * Z.of_nat w)
  else u.

(** [n] elements of [w] bytes each, read from the front of the buffer. *)
Fixpoint frombuffer (n w : nat) (signed : bool) (bs : bytes) : list Z :=
  match n with
  | O => []
  | S n' =>
      wrap_signed w signed (of_le_bytes (firstn w bs))
      :: frombuffer n' w signed (skipn w bs)
  end.

(** ** Pixel formats and transfer syntaxes *)

(** The transfer syntax UIDs the code names, and any other UID together with
    pydicom's [UID.is_encapsulated] for it. *)
Inductive TransferSyntax : Type :=
| ImplicitVRLittleEndian
| ExplicitVRLittleEndian
| JPEGBaseline
| JPEG2000Lossless
| RLELossless
| OtherTransferSyntax (uid : string) (encapsulated : bool).

Definition is_encapsulated (ts : TransferSyntax) : bool :=
  match ts with
  | ImplicitVRLittleEndian | ExplicitVRLittleEndian => false
  | JPEGBaseline | JPEG2000Lossless | RLELossless => true
  | OtherTransferSyntax _ e => e
  end.

(** Modelled from the spec: the enumerations of [highdicom/enum.py], which is
    not among the sources; the pixel format of the specification names a
    photometric interpretation, a pixel representation (unsigned or 2's
    complement) and a planar configuration. *)
Inductive PhotometricInterpretationValues : Type :=
| MONOCHROME1 | MONOCHROME2 | PALETTE_COLOR | RGB
| YBR_FULL | YBR_FULL_422 | YBR_PARTIAL_420 | YBR_ICT | YBR_RCT.

Inductive PixelRepresentationValues : Type :=
| UNSIGNED_INTEGER   (* 0 *)
| COMPLEMENT.        (* 1 *)

Inductive PlanarConfigurationValues : Type :=
| COLOR_BY_PIXEL     (* 0 *)
| COLOR_BY_PLANE.    (* 1 *)

Definition is_rgb (p : PhotometricInterpretationValues) : bool :=
  match p with RGB => true | _ => false end.

Definition is_ybr_full_422 (p : PhotometricInterpretationValues) : bool :=
  match p with YBR_FULL_422 => true | _ => false end.

Definition pr_signed (pr : PixelRepresentationValues) : bool :=
  match pr with UNSIGNED_INTEGER => false | COMPLEMENT => true end.

(** ** External collaborators

    The compression codecs (Pillow, pydicom's RLE encoder and pixel data
    handlers) and pydicom's encapsulation are libraries outside the
    repository; the embedding takes them as parameters. *)

Record PixelFormat : Type := mk_PixelFormat {
  pf_rows : nat;
  pf_columns : nat;
  pf_samples_per_pixel : nat;
  pf_bits_allocated : Z;
  pf_bits_stored : Z;
  pf_photometric_interpretation : PhotometricInterpretationValues;
  pf_pixel_representation : PixelRepresentationValues;
  pf_planar_configuration : option PlanarConfigurationValues;
  pf_number_of_frames : nat
}.

Record External : Type := mk_External {
  (** [Image.fromarray(array)] followed by [image.save(buf, format, **kwargs)] *)
  pil_save : string -> ndarray -> result bytes;
  (** [pydicom.pixel_data_handlers.rle_handler.rle_encode_frame] *)
  rle_encode_frame : ndarray -> result bytes;
  (** [Image.open] of a JPEG stream read without colour transformation *)
  pil_open_ycbcr : bytes -> result ndarray;
  (** [pydicom.encaps.encapsulate] and [pydicom.encaps.decode_data_sequence] *)
  encapsulate : list bytes -> bytes;
  decode_data_sequence : bytes -> list bytes;
  (** [Dataset.pixel_array] wherever the numpy handler for little endian
      native data below does not apply *)
  handler_pixel_array : TransferSyntax -> PixelFormat -> bytes -> result ndarray
}.

(** *** pydicom's numpy handler for native little endian pixel data *)

(** [pydicom.pixel_data_handlers.util.get_nr_frames]: a missing or zero
    Number of Frames counts as one frame. *)
Definition get_nr_frames (number_of_frames : nat) : nat :=
  match number_of_frames with O => 1 | n => n end%nat.

(** [get_expected_length(ds, unit='pixels')] *)
Definition get_expected_length_pixels (f : PixelFormat) : nat :=
  (pf_rows f * pf_columns f * pf_samples_per_pixel f
   * get_nr_frames (pf_number_of_frames f))%nat.

(** [get_expected_length(ds)], in bytes *)
Definition get_expected_length (f : PixelFormat) : nat :=
  let length := get_expected_length_pixels f in
  let length :=
    if pf_bits_allocated f =? 1
    then (length / 8 + (if (length mod 8 =? 0)%nat then 0 else 1))%nat
    else (length * Z.to_nat (pf_bits_allocated f / 8))%nat in
  if is_ybr_full_422 (pf_photometric_interpretation f)
  then (length / 3 * 2)%nat
  else length.

(** [pixel_dtype(ds)]: an unsigned or a signed integer of the allocated
    width, and [uint8] for one bit.  A width that is neither 1 nor a positive
    multiple of 8 is invalid; a multiple of 8 for which numpy has no integer
    type is not supported. *)
Definition pixel_dtype (f : PixelFormat) : result dtype :=
  let signed := pr_signed (pf_pixel_representation f) in
  let bits_allocated := pf_bits_allocated f in
  if bits_allocated =? 1 then Ok np_uint8
  else if (0 <? bits_allocated) && (bits_allocated mod 8 =? 0)
  then
    if bits_allocated =? 8 then Ok (if signed then np_int8 else np_uint8)
    else if bits_allocated =? 16
    then Ok (if signed then np_int16 else np_uint16)
    else if bits_allocated =? 32
    then Ok (if signed then np_int32 else np_uint32)
    else if bits_allocated =? 64
    then Ok (if signed then np_int64 else np_uint64)
    else Raise (NotImplementedError
      "The data type needed to contain the Pixel Data is not supported by numpy")
  else Raise (ValueError
    "Unable to determine the data type to use to contain the Pixel Data as the value for '(0028,0100) Bits Allocated' is invalid").

(** [reshape(samples, rows, cols).transpose(1, 2, 0)] of one frame, in C
    order. *)
Definition planes_to_pixels (rows cols samples : nat) (flat : list Z)
  : list Z :=
  flat_map
    (fun p => map (fun k => nth (k * (rows * cols) + p)%nat flat 0)
                  (seq 0 samples))
    (seq 0 (rows * cols)).

Fixpoint chunks (n size : nat) (l : list Z) : list (list Z) :=
  match n with
  | O => []
  | S n' => firstn size l :: chunks n' size (skipn size l)
  end.

(** [reshape_pixel_array(ds, arr)] *)
Definition reshape_pixel_array (f : PixelFormat) (d : dtype) (flat : list Z)
  : result ndarray :=
  let rows := pf_rows f in
  let cols := pf_columns f in
  let samples := pf_samples_per_pixel f in
  let frames := get_nr_frames (pf_number_of_frames f) in
  check (1 <=? samples)%nat
  else ValueError "Samples per Pixel must be at least 1" in
  check (List.length flat =? frames * rows * cols * samples)%nat
  else ValueError "cannot reshape array" in
  let lead := if (1 <? frames)%nat then [frames] else [] in
  if (samples =? 1)%nat
  then Ok (mk_ndarray d (lead ++ [rows; cols]) flat)
  else
    match pf_planar_configuration f with
    | Some COLOR_BY_PIXEL =>
        Ok (mk_ndarray d (lead ++ [rows; cols; samples]) flat)
    | Some COLOR_BY_PLANE =>
        Ok (mk_ndarray d (lead ++ [rows; cols; samples])
              (flat_map (planes_to_pixels rows cols samples)
                 (chunks frames (rows * cols * samples) flat)))
    | None => Raise (ValueError "invalid Planar Configuration")
    end.

(** [Dataset.pixel_array] through the numpy handler. *)
Definition numpy_pixel_array (f : PixelFormat) (value : bytes)
  : result ndarray :=
  let expected_len := get_expected_length f in
  let actual_length := List.length value in
  let padded_expected_len := (expected_len + expected_len mod 2)%nat in
  check negb ((actual_length <? padded_expected_len)%nat
              && negb (actual_length =? expected_len)%nat)
  else ValueError "The length of the pixel data is less than expected" in
  let? d := pixel_dtype f in
  let flat :=
    if pf_bits_allocated f =? 1
    then firstn (get_expected_length_pixels f) (unpack_bits value)
    else frombuffer (expected_len / itemsize d) (itemsize d) (is_signed d)
           (firstn expected_len value) in
  reshape_pixel_array f d flat.

(** [Dataset.pixel_array]: native little endian data other than
    [YBR_FULL_422] goes through the numpy handler above. *)
Definition pixel_array_of (ext : External) (ts : TransferSyntax)
    (f : PixelFormat) (value : bytes) : result ndarray :=
  match ts with
  | ImplicitVRLittleEndian | ExplicitVRLittleEndian =>
      if is_ybr_full_422 (pf_photometric_interpretation f)
      then handler_pixel_array ext ts f value
      else numpy_pixel_array f value
  | _ => handler_pixel_array ext ts f value
  end.

(** ** [highdicom/frame.py] *)

Definition supported_transfer_syntax (ts : TransferSyntax) : bool :=
  match ts with
  | ExplicitVRLittleEndian | ImplicitVRLittleEndian
  | JPEGBaseline | JPEG2000Lossless | RLELossless => true
  | OtherTransferSyntax _ _ => false
  end.

Definition uncompressed_transfer_syntax (ts : TransferSyntax) : bool :=
  match ts with
  | ExplicitVRLittleEndian | ImplicitVRLittleEndian => true
  | _ => false
  end.

Definition encode_frame (ext : External) (array : ndarray)
    (transfer_syntax_uid : TransferSyntax)
    (bits_allocated bits_stored : Z)
    (photometric_interpretation : PhotometricInterpretationValues)
    (pixel_representation : PixelRepresentationValues)
    (planar_configuration : option PlanarConfigurationValues)
  : result bytes :=
  match arr_shape array with
  | rows :: cols :: rest =>
      let? samples_per_pixel :=
        match rest with
        | [] => Ok 1%nat
        | s :: _ =>
            match planar_configuration with
            | None =>
                Raise (ValueError
                  "Planar configuration needs to be specified for encoding of color image frames.")
            | Some _ => Ok s
            end
        end in
      check supported_transfer_syntax transfer_syntax_uid
      else ValueError "Transfer Syntax is not supported." in
      if uncompressed_transfer_syntax transfer_syntax_uid
      then
        if bits_allocated =? 1
        then
          check ((rows * cols * samples_per_pixel) mod 8 =? 0)%nat
          else ValueError
            "Frame cannot be bit packed because its size is not a multiple of 8."
          in pack_bits (arr_data array)
        else Ok (tobytes (arr_dtype array) (arr_data array))
      else
        match transfer_syntax_uid with
        | JPEGBaseline => pil_save ext "jpeg" array
        | JPEG2000Lossless => pil_save ext "jpeg2000" array
        | RLELossless => rle_encode_frame ext array
        | _ => Raise (ValueError "Transfer Syntax is not supported.")
        end
  | _ => Raise (IndexError "tuple index out of range")
  end.

Definition decode_frame (ext : External) (value : bytes)
    (transfer_syntax_uid : TransferSyntax)
    (rows columns samples_per_pixel : nat)
    (bits_allocated bits_stored : Z)
    (photometric_interpretation : PhotometricInterpretationValues)
    (pixel_representation : PixelRepresentationValues)
    (planar_configuration : option PlanarConfigurationValues)
  : result ndarray :=
  check negb ((1 <? samples_per_pixel)%nat
              && match planar_configuration with None => true | _ => false end)
  else ValueError
    "Planar configuration needs to be specified for decoding of color image frames."
  in
  let ds := mk_PixelFormat rows columns samples_per_pixel
              bits_allocated bits_stored photometric_interpretation
              pixel_representation planar_configuration 0 in
  if is_encapsulated transfer_syntax_uid
  then
    match transfer_syntax_uid with
    | JPEGBaseline =>
        if is_rgb photometric_interpretation
        then pil_open_ycbcr ext value
        else pixel_array_of ext transfer_syntax_uid ds
               (encapsulate ext [value])
    | _ => pixel_array_of ext transfer_syntax_uid ds (encapsulate ext [value])
    end
  else pixel_array_of ext transfer_syntax_uid ds value.

(** ** [highdicom/seg/content.py]: the dimension index *)

(** Modelled from the spec: [CoordinateSystemNames] of [highdicom/enum.py],
    which is not among the sources; the specification fixes two coordinate
    systems, PATIENT and SLIDE. *)
Inductive CoordinateSystemNames : Type := PATIENT | SLIDE.

(** The attributes the dimension indices point to. *)
Inductive Keyword : Type :=
| ReferencedSegmentNumber
| ImagePositionPatient
| ColumnPositionInTotalImagePixelMatrix
| RowPositionInTotalImagePixelMatrix
| XOffsetInSlideCoordinateSystem
| YOffsetInSlideCoordinateSystem
| ZOffsetInSlideCoordinateSystem.

Definition Keyword_eqb (a b : Keyword) : bool :=
  match a, b with
  | ReferencedSegmentNumber, ReferencedSegmentNumber
  | ImagePositionPatient, ImagePositionPatient
  | ColumnPositionInTotalImagePixelMatrix, ColumnPositionInTotalImagePixelMatrix
  | RowPositionInTotalImagePixelMatrix, RowPositionInTotalImagePixelMatrix
  | XOffsetInSlideCoordinateSystem, XOffsetInSlideCoordinateSystem
  | YOffsetInSlideCoordinateSystem, YOffsetInSlideCoordinateSystem
  | ZOffsetInSlideCoordinateSystem, ZOffsetInSlideCoordinateSystem => true
  | _, _ => false
  end.

(** The item of a Plane Position (Slide) Sequence: its attributes and their
    values.  A value is a vector of coordinates (three for Image Position
    Patient, one for the others).  Coordinates are only compared and tested for
    equality, so they are taken as integers (a finite set of decimal values in
    a fixed unit). *)
Definition PlanePositionSequence := list (Keyword * list Z).

(** [DimensionIndexSequence(coordinate_system)]: the Dimension Index
    Pointers, in the order of the items. *)
Definition DimensionIndexSequence (coordinate_system : CoordinateSystemNames)
  : list Keyword :=
  match coordinate_system with
  | SLIDE =>
      [ ReferencedSegmentNumber;
        ColumnPositionInTotalImagePixelMatrix;
        RowPositionInTotalImagePixelMatrix;
        XOffsetInSlideCoordinateSystem;
        YOffsetInSlideCoordinateSystem;
        ZOffsetInSlideCoordinateSystem ]
  | PATIENT => [ ReferencedSegmentNumber; ImagePositionPatient ]
  end.

(** [p[0][pointer].value] *)
Fixpoint get_value (p : PlanePositionSequence) (pointer : Keyword)
  : result (list Z) :=
  match p with
  | [] => Raise (KeyError "attribute is missing from the plane position")
  | (k, v) :: rest => if Keyword_eqb k pointer then Ok v else get_value rest pointer
  end.

Fixpoint mapM {A B : Type} (f : A -> result B) (l : list A) : result (list B) :=
  match l with
  | [] => Ok []
  | x :: rest =>
      let? y := f x in
      let? ys := mapM f rest in
      Ok (y :: ys)
  end.

(** *** [np.unique(values, axis=0, return_index=True)]

    numpy flattens every entry along the first axis to one row, sorts the rows
    lexicographically with a stable sort, keeps each row that differs from its
    predecessor, and returns with it the index it came from: the first
    occurrence of the row. *)

Fixpoint lex_compare (a b : list Z) : comparison :=
  match a, b with
  | [], [] => Eq
  | [], _ :: _ => Lt
  | _ :: _, [] => Gt
  | x :: a', y :: b' =>
      match x ?= y with
      | Eq => lex_compare a' b'
      | c => c
      end
  end.

Definition row_leb (a b : list Z) : bool :=
  match lex_compare a b with Gt => false | _ => true end.

Definition row_eqb (a b : list Z) : bool :=
  match lex_compare a b with Eq => true | _ => false end.

Definition row_ltb (a b : list Z) : bool :=
  match lex_compare a b with Lt => true | _ => false end.

(** Stable insertion: the new entry comes from an earlier position than all
    entries of the list and goes in front of the entries it equals. *)
Fixpoint insert_row (x : list Z * nat) (l : list (list Z * nat))
  : list (list Z * nat) :=
  match l with
  | [] => [x]
  | y :: l' =>
      if row_leb (fst x) (fst y) then x :: y :: l' else y :: insert_row x l'
  end.

Definition stable_argsort (rows : list (list Z)) : list (list Z * nat) :=
  fold_right insert_row [] (combine rows (seq 0 (List.length rows))).

Fixpoint mask_changes (prev : option (list Z)) (l : list (list Z * nat))
  : list (list Z * nat) :=
  match l with
  | [] => []
  | (r, i) :: l' =>
      let keep :=
        match prev with
        | None => true
        | Some p => negb (row_eqb r p)
        end in
      if keep then (r, i) :: mask_changes (Some r) l'
      else mask_changes (Some r) l'
  end.

Definition np_unique_rows (rows : list (list Z)) : list (list Z) * list nat :=
  let kept := mask_changes None (stable_argsort rows) in
  (map fst kept, map snd kept).

(** [DimensionIndexSequence.get_index_values]: the values of the indexed
    attributes of every plane (all indices but the Referenced Segment Number)
    and the plane indices returned by [np.unique]. *)
Definition get_index_values (self : list Keyword)
    (plane_positions : list PlanePositionSequence)
  : result (list (list (list Z)) * list nat) :=
  let? plane_position_values :=
    mapM (fun p => mapM (get_value p) (tl self)) plane_positions in
  let '(_, plane_sort_indices) :=
    np_unique_rows (map (@List.concat Z) plane_position_values) in
  Ok (plane_position_values, plane_sort_indices).

(** ** [highdicom/seg/sop.py]: the data of a Segmentation *)

(** Modelled from the spec: the enumerations of [highdicom/seg/enum.py], which
    is not among the sources.  The specification has the segmentation types
    BINARY and FRACTIONAL; the other members are the ones the code names. *)
Inductive SegmentationTypeValues : Type := BINARY | FRACTIONAL.

Inductive SegmentationFractionalTypeValues : Type := PROBABILITY | OCCUPANCY.

Inductive SegmentsOverlapValues : Type :=
| SegmentsOverlap_YES | SegmentsOverlap_UNDEFINED | SegmentsOverlap_NO.

Inductive SpatialLocationsPreservedValues : Type :=
| Preserved_YES | Preserved_NO | Preserved_REORIENTED_ONLY | Preserved_UNKNOWN.

Definition SegmentationTypeValues_eqb (a b : SegmentationTypeValues) : bool :=
  match a, b with
  | BINARY, BINARY | FRACTIONAL, FRACTIONAL => true
  | _, _ => false
  end.

(** The attributes of a [SegmentDescription] the engine reads. *)
Record SegmentDescription : Type := mk_SegmentDescription {
  SegmentNumber : Z;
  SegmentLabel : string
}.

(** The attributes of a source image the engine reads.  [src_NumberOfFrames]
    is [None] when the image has no Number of Frames (a single-frame image).
    [src_frame_plane_positions] are the plane positions of the frames of a
    multi-frame image, as [get_plane_positions_of_image] returns them. *)
Record SourceImage : Type := mk_SourceImage {
  src_StudyInstanceUID : string;
  src_SeriesInstanceUID : string;
  src_SOPClassUID : string;
  src_SOPInstanceUID : string;
  src_Rows : nat;
  src_Columns : nat;
  src_NumberOfFrames : option nat;
  src_has_slide_attributes : bool;
  src_image_orientation : list Z;
  src_ImagePositionPatient : list Z;
  src_frame_plane_positions : list PlanePositionSequence
}.

(** Items of the Source Image Sequence of a derivation image.
    [ReferencedFrameNumber] is [None] when the attribute is absent and holds
    the values of the attribute otherwise (one value, or several for a
    MultiValue). *)
Record SourceImageItem : Type := mk_SourceImageItem {
  ReferencedSOPClassUID : string;
  ReferencedSOPInstanceUID : string;
  ReferencedFrameNumber : option (list Z);
  SpatialLocationsPreserved : option SpatialLocationsPreservedValues
}.

Record DerivationImageItem : Type := mk_DerivationImageItem {
  der_SourceImageSequence : list SourceImageItem
}.

(** An item of the Per-frame Functional Groups Sequence. *)
Record FrameItem : Type := mk_FrameItem {
  DimensionIndexValues : list Z;
  PlanePosition : PlanePositionSequence;
  DerivationImageSequence : list DerivationImageItem;
  ReferencedSegmentNumber_of : Z
}.

Record ReferencedSeriesItem : Type := mk_ReferencedSeriesItem {
  ref_SeriesInstanceUID : string;
  ReferencedInstanceSequence : list SourceImageItem
}.

Record ReferencedStudyItem : Type := mk_ReferencedStudyItem {
  ref_StudyInstanceUID : string;
  ref_ReferencedSeriesSequence : list ReferencedSeriesItem
}.

(** The attributes of a [Segmentation] object.  An attribute of type [option]
    is [None] while the object does not have it (or while its value is
    Python's [None]).  The last three attributes are the ones the [list_...]
    queries and [get_pixels] read; [_build_luts] assigns the attributes whose
    names start with an underscore. *)
Record Segmentation : Type := mk_Segmentation {
  _source_images : option (list SourceImage);
  TransferSyntaxUID : TransferSyntax;
  _coordinate_system : CoordinateSystemNames;
  StudyInstanceUID : string;
  SourceImageSequence : list SourceImageItem;
  ReferencedSeriesSequence : list ReferencedSeriesItem;
  StudiesContainingOtherReferencedInstancesSequence
    : option (list ReferencedStudyItem);
  Rows : nat;
  Columns : nat;
  SamplesPerPixel : nat;
  PhotometricInterpretation : PhotometricInterpretationValues;
  PixelRepresentation : PixelRepresentationValues;
  SegmentationType : SegmentationTypeValues;
  SegmentationFractionalType : option SegmentationFractionalTypeValues;
  MaximumFractionalValue : Z;
  BitsAllocated : Z;
  BitsStored : Z;
  HighBit : Z;
  SegmentSequence : list SegmentDescription;
  DimensionIndexSequence_of : list Keyword;
  _plane_orientation : list Z;
  _source_plane_orientation : option (list Z);
  NumberOfFrames : nat;
  PerFrameFunctionalGroupsSequence : list FrameItem;
  _segment_inventory : list Z;
  PixelData : bytes;
  SegmentsOverlap : option SegmentsOverlapValues;
  _ref_ins_lut : list (string * (string * string * string));
  _source_sop_instance_uids : list string;
  _single_source_frame_per_seg_frame : bool;
  _locations_preserved : option SpatialLocationsPreservedValues;
  _frame_lut : option (list (list Z));
  _lut_seg_col : option nat;
  _lut_src_instance_col : option nat;
  _lut_src_frame_col : option nat;
  frame_lut : option (list (list Z));
  lut_seg_col : option nat;
  lut_src_col : option nat
}.

(** Assignments to the attributes the methods modify. *)

Definition set_SegmentsOverlap (v : _) (self : Segmentation) : Segmentation :=
  mk_Segmentation (_source_images self) (TransferSyntaxUID self)
    (_coordinate_system self) (StudyInstanceUID self)
    (SourceImageSequence self) (ReferencedSeriesSequence self)
    (StudiesContainingOtherReferencedInstancesSequence self) (Rows self)
    (Columns self) (SamplesPerPixel self) (PhotometricInterpretation self)
    (PixelRepresentation self) (SegmentationType self)
    (SegmentationFractionalType self) (MaximumFractionalValue self)
    (BitsAllocated self) (BitsStored self) (HighBit self)
    (SegmentSequence self) (DimensionIndexSequence_of self)
    (_plane_orientation self) (_source_plane_orientation self)
    (NumberOfFrames self) (PerFrameFunctionalGroupsSequence self)
    (_segment_inventory self) (PixelData self) v (_ref_ins_lut self)
    (_source_sop_instance_uids self) (_single_source_frame_per_seg_frame self)
    (_locations_preserved self) (_frame_lut self) (_lut_seg_col self)
    (_lut_src_instance_col self) (_lut_src_frame_col self) (frame_lut self)
    (lut_seg_col self) (lut_src_col self).

Definition set_PixelData (v : _) (self : Segmentation) : Segmentation :=
  mk_Segmentation (_source_images self) (TransferSyntaxUID self)
    (_coordinate_system self) (StudyInstanceUID self)
    (SourceImageSequence self) (ReferencedSeriesSequence self)
    (StudiesContainingOtherReferencedInstancesSequence self) (Rows self)
    (Columns self) (SamplesPerPixel self) (PhotometricInterpretation self)
    (PixelRepresentation self) (SegmentationType self)
    (SegmentationFractionalType self) (MaximumFractionalValue self)
    (BitsAllocated self) (BitsStored self) (HighBit self)
    (SegmentSequence self) (DimensionIndexSequence_of self)
    (_plane_orientation self) (_source_plane_orientation self)
    (NumberOfFrames self) (PerFrameFunctionalGroupsSequence self)
    (_segment_inventory self) v (SegmentsOverlap self) (_ref_ins_lut self)
    (_source_sop_instance_uids self) (_single_source_frame_per_seg_frame self)
    (_locations_preserved self) (_frame_lut self) (_lut_seg_col self)
    (_lut_src_instance_col self) (_lut_src_frame_col self) (frame_lut self)
    (lut_seg_col self) (lut_src_col self).

Definition set_NumberOfFrames (v : _) (self : Segmentation) : Segmentation :=
  mk_Segmentation (_source_images self) (TransferSyntaxUID self)
    (_coordinate_system self) (StudyInstanceUID self)
    (SourceImageSequence self) (ReferencedSeriesSequence self)
    (StudiesContainingOtherReferencedInstancesSequence self) (Rows self)
    (Columns self) (SamplesPerPixel self) (PhotometricInterpretation self)
    (PixelRepresentation self) (SegmentationType self)
    (SegmentationFractionalType self) (MaximumFractionalValue self)
    (BitsAllocated self) (BitsStored self) (HighBit self)
    (SegmentSequence self) (DimensionIndexSequence_of self)
    (_plane_orientation self) (_source_plane_orientation self) v
    (PerFrameFunctionalGroupsSequence self) (_segment_inventory self)
    (PixelData self) (SegmentsOverlap self) (_ref_ins_lut self)
    (_source_sop_instance_uids self) (_single_source_frame_per_seg_frame self)
    (_locations_preserved self) (_frame_lut self) (_lut_seg_col self)
    (_lut_src_instance_col self) (_lut_src_frame_col self) (frame_lut self)
    (lut_seg_col self) (lut_src_col self).

Definition set_PerFrameFunctionalGroupsSequence (v : _) (self : Segmentation) : Segmentation :=
  mk_Segmentation (_source_images self) (TransferSyntaxUID self)
    (_coordinate_system self) (StudyInstanceUID self)
    (SourceImageSequence self) (ReferencedSeriesSequence self)
    (StudiesContainingOtherReferencedInstancesSequence self) (Rows self)
    (Columns self) (SamplesPerPixel self) (PhotometricInterpretation self)
    (PixelRepresentation self) (SegmentationType self)
    (SegmentationFractionalType self) (MaximumFractionalValue self)
    (BitsAllocated self) (BitsStored self) (HighBit self)
    (SegmentSequence self) (DimensionIndexSequence_of self)
    (_plane_orientation self) (_source_plane_orientation self)
    (NumberOfFrames self) v (_segment_inventory self) (PixelData self)
    (SegmentsOverlap self) (_ref_ins_lut self)
    (_source_sop_instance_uids self) (_single_source_frame_per_seg_frame self)
    (_locations_preserved self) (_frame_lut self) (_lut_seg_col self)
    (_lut_src_instance_col self) (_lut_src_frame_col self) (frame_lut self)
    (lut_seg_col self) (lut_src_col self).

Definition set_SegmentSequence (v : _) (self : Segmentation) : Segmentation :=
  mk_Segmentation (_source_images self) (TransferSyntaxUID self)
    (_coordinate_system self) (StudyInstanceUID self)
    (SourceImageSequence self) (ReferencedSeriesSequence self)
    (StudiesContainingOtherReferencedInstancesSequence self) (Rows self)
    (Columns self) (SamplesPerPixel self) (PhotometricInterpretation self)
    (PixelRepresentation self) (SegmentationType self)
    (SegmentationFractionalType self) (MaximumFractionalValue self)
    (BitsAllocated self) (BitsStored self) (HighBit self) v
    (DimensionIndexSequence_of self) (_plane_orientation self)
    (_source_plane_orientation self) (NumberOfFrames self)
    (PerFrameFunctionalGroupsSequence self) (_segment_inventory self)
    (PixelData self) (SegmentsOverlap self) (_ref_ins_lut self)
    (_source_sop_instance_uids self) (_single_source_frame_per_seg_frame self)
    (_locations_preserved self) (_frame_lut self) (_lut_seg_col self)
    (_lut_src_instance_col self) (_lut_src_frame_col self) (frame_lut self)
    (lut_seg_col self) (lut_src_col self).

Definition set_segment_inventory (v : _) (self : Segmentation) : Segmentation :=
  mk_Segmentation (_source_images self) (TransferSyntaxUID self)
    (_coordinate_system self) (StudyInstanceUID self)
    (SourceImageSequence self) (ReferencedSeriesSequence self)
    (StudiesContainingOtherReferencedInstancesSequence self) (Rows self)
    (Columns self) (SamplesPerPixel self) (PhotometricInterpretation self)
    (PixelRepresentation self) (SegmentationType self)
    (SegmentationFractionalType self) (MaximumFractionalValue self)
    (BitsAllocated self) (BitsStored self) (HighBit self)
    (SegmentSequence self) (DimensionIndexSequence_of self)
    (_plane_orientation self) (_source_plane_orientation self)
    (NumberOfFrames self) (PerFrameFunctionalGroupsSequence self) v
    (PixelData self) (SegmentsOverlap self) (_ref_ins_lut self)
    (_source_sop_instance_uids self) (_single_source_frame_per_seg_frame self)
    (_locations_preserved self) (_frame_lut self) (_lut_seg_col self)
    (_lut_src_instance_col self) (_lut_src_frame_col self) (frame_lut self)
    (lut_seg_col self) (lut_src_col self).

Definition set_ref_ins_lut (v : _) (self : Segmentation) : Segmentation :=
  mk_Segmentation (_source_images self) (TransferSyntaxUID self)
    (_coordinate_system self) (StudyInstanceUID self)
    (SourceImageSequence self) (ReferencedSeriesSequence self)
    (StudiesContainingOtherReferencedInstancesSequence self) (Rows self)
    (Columns self) (SamplesPerPixel self) (PhotometricInterpretation self)
    (PixelRepresentation self) (SegmentationType self)
    (SegmentationFractionalType self) (MaximumFractionalValue self)
    (BitsAllocated self) (BitsStored self) (HighBit self)
    (SegmentSequence self) (DimensionIndexSequence_of self)
    (_plane_orientation self) (_source_plane_orientation self)
    (NumberOfFrames self) (PerFrameFunctionalGroupsSequence self)
    (_segment_inventory self) (PixelData self) (SegmentsOverlap self) v
    (_source_sop_instance_uids self) (_single_source_frame_per_seg_frame self)
    (_locations_preserved self) (_frame_lut self) (_lut_seg_col self)
    (_lut_src_instance_col self) (_lut_src_frame_col self) (frame_lut self)
    (lut_seg_col self) (lut_src_col self).

Definition set_source_sop_instance_uids (v : _) (self : Segmentation) : Segmentation :=
  mk_Segmentation (_source_images self) (TransferSyntaxUID self)
    (_coordinate_system self) (StudyInstanceUID self)
    (SourceImageSequence self) (ReferencedSeriesSequence self)
    (StudiesContainingOtherReferencedInstancesSequence self) (Rows self)
    (Columns self) (SamplesPerPixel self) (PhotometricInterpretation self)
    (PixelRepresentation self) (SegmentationType self)
    (SegmentationFractionalType self) (MaximumFractionalValue self)
    (BitsAllocated self) (BitsStored self) (HighBit self)
    (SegmentSequence self) (DimensionIndexSequence_of self)
    (_plane_orientation self) (_source_plane_orientation self)
    (NumberOfFrames self) (PerFrameFunctionalGroupsSequence self)
    (_segment_inventory self) (PixelData self) (SegmentsOverlap self)
    (_ref_ins_lut self) v (_single_source_frame_per_seg_frame self)
    (_locations_preserved self) (_frame_lut self) (_lut_seg_col self)
    (_lut_src_instance_col self) (_lut_src_frame_col self) (frame_lut self)
    (lut_seg_col self) (lut_src_col self).

Definition set_single_source_frame_per_seg_frame (v : _) (self : Segmentation) : Segmentation :=
  mk_Segmentation (_source_images self) (TransferSyntaxUID self)
    (_coordinate_system self) (StudyInstanceUID self)
    (SourceImageSequence self) (ReferencedSeriesSequence self)
    (StudiesContainingOtherReferencedInstancesSequence self) (Rows self)
    (Columns self) (SamplesPerPixel self) (PhotometricInterpretation self)
    (PixelRepresentation self) (SegmentationType self)
    (SegmentationFractionalType self) (MaximumFractionalValue self)
    (BitsAllocated self) (BitsStored self) (HighBit self)
    (SegmentSequence self) (DimensionIndexSequence_of self)
    (_plane_orientation self) (_source_plane_orientation self)
    (NumberOfFrames self) (PerFrameFunctionalGroupsSequence self)
    (_segment_inventory self) (PixelData self) (SegmentsOverlap self)
    (_ref_ins_lut self) (_source_sop_instance_uids self) v
    (_locations_preserved self) (_frame_lut self) (_lut_seg_col self)
    (_lut_src_instance_col self) (_lut_src_frame_col self) (frame_lut self)
    (lut_seg_col self) (lut_src_col self).

Definition set_locations_preserved (v : _) (self : Segmentation) : Segmentation :=
  mk_Segmentation (_source_images self) (TransferSyntaxUID self)
    (_coordinate_system self) (StudyInstanceUID self)
    (SourceImageSequence self) (ReferencedSeriesSequence self)
    (StudiesContainingOtherReferencedInstancesSequence self) (Rows self)
    (Columns self) (SamplesPerPixel self) (PhotometricInterpretation self)
    (PixelRepresentation self) (SegmentationType self)
    (SegmentationFractionalType self) (MaximumFractionalValue self)
    (BitsAllocated self) (BitsStored self) (HighBit self)
    (SegmentSequence self) (DimensionIndexSequence_of self)
    (_plane_orientation self) (_source_plane_orientation self)
    (NumberOfFrames self) (PerFrameFunctionalGroupsSequence self)
    (_segment_inventory self) (PixelData self) (SegmentsOverlap self)
    (_ref_ins_lut self) (_source_sop_instance_uids self)
    (_single_source_frame_per_seg_frame self) v (_frame_lut self)
    (_lut_seg_col self) (_lut_src_instance_col self) (_lut_src_frame_col self)
    (frame_lut self) (lut_seg_col self) (lut_src_col self).

Definition set_frame_lut (v : _) (self : Segmentation) : Segmentation :=
  mk_Segmentation (_source_images self) (TransferSyntaxUID self)
    (_coordinate_system self) (StudyInstanceUID self)
    (SourceImageSequence self) (ReferencedSeriesSequence self)
    (StudiesContainingOtherReferencedInstancesSequence self) (Rows self)
    (Columns self) (SamplesPerPixel self) (PhotometricInterpretation self)
    (PixelRepresentation self) (SegmentationType self)
    (SegmentationFractionalType self) (MaximumFractionalValue self)
    (BitsAllocated self) (BitsStored self) (HighBit self)
    (SegmentSequence self) (DimensionIndexSequence_of self)
    (_plane_orientation self) (_source_plane_orientation self)
    (NumberOfFrames self) (PerFrameFunctionalGroupsSequence self)
    (_segment_inventory self) (PixelData self) (SegmentsOverlap self)
    (_ref_ins_lut self) (_source_sop_instance_uids self)
    (_single_source_frame_per_seg_frame self) (_locations_preserved self) v
    (_lut_seg_col self) (_lut_src_instance_col self) (_lut_src_frame_col self)
    (frame_lut self) (lut_seg_col self) (lut_src_col self).

Definition set_lut_seg_col (v : _) (self : Segmentation) : Segmentation :=
  mk_Segmentation (_source_images self) (TransferSyntaxUID self)
    (_coordinate_system self) (StudyInstanceUID self)
    (SourceImageSequence self) (ReferencedSeriesSequence self)
    (StudiesContainingOtherReferencedInstancesSequence self) (Rows self)
    (Columns self) (SamplesPerPixel self) (PhotometricInterpretation self)
    (PixelRepresentation self) (SegmentationType self)
    (SegmentationFractionalType self) (MaximumFractionalValue self)
    (BitsAllocated self) (BitsStored self) (HighBit self)
    (SegmentSequence self) (DimensionIndexSequence_of self)
    (_plane_orientation self) (_source_plane_orientation self)
    (NumberOfFrames self) (PerFrameFunctionalGroupsSequence self)
    (_segment_inventory self) (PixelData self) (SegmentsOverlap self)
    (_ref_ins_lut self) (_source_sop_instance_uids self)
    (_single_source_frame_per_seg_frame self) (_locations_preserved self)
    (_frame_lut self) v (_lut_src_instance_col self) (_lut_src_frame_col self)
    (frame_lut self) (lut_seg_col self) (lut_src_col self).

Definition set_lut_src_instance_col (v : _) (self : Segmentation) : Segmentation :=
  mk_Segmentation (_source_images self) (TransferSyntaxUID self)
    (_coordinate_system self) (StudyInstanceUID self)
    (SourceImageSequence self) (ReferencedSeriesSequence self)
    (StudiesContainingOtherReferencedInstancesSequence self) (Rows self)
    (Columns self) (SamplesPerPixel self) (PhotometricInterpretation self)
    (PixelRepresentation self) (SegmentationType self)
    (SegmentationFractionalType self) (MaximumFractionalValue self)
    (BitsAllocated self) (BitsStored self) (HighBit self)
    (SegmentSequence self) (DimensionIndexSequence_of self)
    (_plane_orientation self) (_source_plane_orientation self)
    (NumberOfFrames self) (PerFrameFunctionalGroupsSequence self)
    (_segment_inventory self) (PixelData self) (SegmentsOverlap self)
    (_ref_ins_lut self) (_source_sop_instance_uids self)
    (_single_source_frame_per_seg_frame self) (_locations_preserved self)
    (_frame_lut self) (_lut_seg_col self) v (_lut_src_frame_col self)
    (frame_lut self) (lut_seg_col self) (lut_src_col self).

Definition set_lut_src_frame_col (v : _) (self : Segmentation) : Segmentation :=
  mk_Segmentation (_source_images self) (TransferSyntaxUID self)
    (_coordinate_system self) (StudyInstanceUID self)
    (SourceImageSequence self) (ReferencedSeriesSequence self)
    (StudiesContainingOtherReferencedInstancesSequence self) (Rows self)
    (Columns self) (SamplesPerPixel self) (PhotometricInterpretation self)
    (PixelRepresentation self) (SegmentationType self)
    (SegmentationFractionalType self) (MaximumFractionalValue self)
    (BitsAllocated self) (BitsStored self) (HighBit self)
    (SegmentSequence self) (DimensionIndexSequence_of self)
    (_plane_orientation self) (_source_plane_orientation self)
    (NumberOfFrames self) (PerFrameFunctionalGroupsSequence self)
    (_segment_inventory self) (PixelData self) (SegmentsOverlap self)
    (_ref_ins_lut self) (_source_sop_instance_uids self)
    (_single_source_frame_per_seg_frame self) (_locations_preserved self)
    (_frame_lut self) (_lut_seg_col self) (_lut_src_instance_col self) v
    (frame_lut self) (lut_seg_col self) (lut_src_col self).

(** ** Methods: a state and exception monad over the object

    A method receives [self] and returns [self] as the method left it, with
    the value returned or the exception raised: attributes assigned before an
    exception is raised stay assigned. *)

Definition M (A : Type) : Type := Segmentation -> Segmentation * result A.

Definition ret {A : Type} (a : A) : M A := fun self => (self, Ok a).

Definition bind {A B : Type} (m : M A) (k : A -> M B) : M B :=
  fun self =>
    match m self with
    | (self', Ok a) => k a self'
    | (self', Raise e) => (self', Raise e)
    end.

Definition raise {A : Type} (e : exn) : M A := fun self => (self, Raise e).

Definition lift {A : Type} (r : result A) : M A := fun self => (self, r).

Definition get_self : M Segmentation := fun self => (self, Ok self).

Definition update (f : Segmentation -> Segmentation) : M unit :=
  fun self => (f self, Ok tt).

Declare Scope method_scope.
Delimit Scope method_scope with method.
Notation "x <- m ;; k" := (bind m (fun x => k))
  (at level 61, m at next level, right associativity) : method_scope.
Notation "' pat <- m ;; k" :=
  (bind m (fun x => match x with pat => k end))
  (at level 61, pat pattern, m at next level, right associativity)
  : method_scope.
Notation "m ;; k" := (bind m (fun _ => k))
  (at level 61, right associativity) : method_scope.

(** [for x in l: acc = body(acc, x)] *)
Fixpoint foldM {A S : Type} (body : S -> A -> M S) (acc : S) (l : list A)
  : M S :=
  match l with
  | [] => ret acc
  | x :: rest => bind (body acc x) (fun acc' => foldM body acc' rest)
  end.

(** ** Floating point numbers

    The floating point dtypes of numpy: half, single and double precision
    ([np.float_] is [np.float64]), with the precision and the exponent bound
    of their formats. *)
Inductive float_dtype : Type := np_float16 | np_float32 | np_float64.

Definition float_prec (d : float_dtype) : Z :=
  match d with np_float16 => 11 | np_float32 => 24 | np_float64 => 53 end.

Definition float_emax (d : float_dtype) : Z :=
  match d with np_float16 => 16 | np_float32 => 128 | np_float64 => 1024 end.

(** The number [m * 2 ** e] in the format of the dtype, rounded to the
    nearest number of the format where it is none; [float(n)] is
    [float_value d n 0]. *)
Definition float_value (d : float_dtype) (m e : Z) : spec_float :=
  binary_normalize (float_prec d) (float_emax d) m e false.

(** [x * y] in the format of the dtype. *)
Definition np_multiply (d : float_dtype) (x y : spec_float) : spec_float :=
  SFmul (float_prec d) (float_emax d) x y.

(** [np.minimum] and [np.maximum]: NaN when an argument is NaN. *)
Definition np_minimum (x y : spec_float) : spec_float :=
  match SFcompare x y with
  | Some Gt => y
  | Some _ => x
  | None => S754_nan
  end.

Definition np_maximum (x y : spec_float) : spec_float :=
  match SFcompare x y with
  | Some Lt => y
  | Some _ => x
  | None => S754_nan
  end.

(** [np.around]: the nearest integer, halves to the even one.  The result is
    a floating point number that is an integer, given here as that integer;
    NaN and the infinities stay what they are and have none. *)
Definition np_around (x : spec_float) : option Z :=
  match x with
  | S754_zero _ => Some 0
  | S754_finite s m e =>
      let n :=
        if 0 <=? e then Z.pos m * 2 ^ e
        else
          let d := 2 ^ (- e) in
          let q := Z.pos m / d in
          match Z.compare (2 * (Z.pos m mod d)) d with
          | Lt => q
          | Gt => q + 1
          | Eq => if Z.even q then q else q + 1
          end in
      Some (if s then - n else n)
  | S754_infinity _ | S754_nan => None
  end.

(** [astype(np.uint8)] of a rounded number: the number itself from 0 to 255.
    Outside this range the conversion is the one of the processor; it is
    taken as x86-64 makes it for the numbers [add_segments] can reach: the
    integer modulo 256, and 0 for NaN and the infinities. *)
Definition astype_uint8 (x : option Z) : Z :=
  match x with
  | Some n => n mod 256
  | None => 0
  end.

(** ** The pixel array passed to the constructor and to [add_segments]

    An array of an integer or boolean dtype, or an array of a floating point
    dtype with its samples in the format of the dtype. *)
Inductive PixelArray : Type :=
| IntPixels (a : ndarray)
| FloatPixels (d : float_dtype) (shape : list nat) (data : list spec_float).

Definition pa_shape (p : PixelArray) : list nat :=
  match p with
  | IntPixels a => arr_shape a
  | FloatPixels _ sh _ => sh
  end.

Definition pa_reshape (sh : list nat) (p : PixelArray) : PixelArray :=
  match p with
  | IntPixels a => IntPixels (mk_ndarray (arr_dtype a) sh (arr_data a))
  | FloatPixels d _ data => FloatPixels d sh data
  end.

Definition Z_mem (x : Z) (l : list Z) : bool := existsb (Z.eqb x) l.

(** [s.add(x)] for a set of integers kept as a list without repetitions. *)
Definition set_add (x : Z) (s : list Z) : list Z :=
  if Z_mem x s then s else s ++ [x].

(** [np.unique] of a one-dimensional integer array: the sorted distinct
    values. *)
Fixpoint insert_unique (x : Z) (l : list Z) : list Z :=
  match l with
  | [] => [x]
  | y :: l' =>
      if x <? y then x :: y :: l'
      else if x =? y then y :: l'
      else y :: insert_unique x l'
  end.

Definition np_unique (l : list Z) : list Z := fold_right insert_unique [] l.

Fixpoint list_Z_eqb (a b : list Z) : bool :=
  match a, b with
  | [], [] => true
  | x :: a', y :: b' => (x =? y) && list_Z_eqb a' b'
  | _, _ => false
  end.

(** [(np.diff(a) == 1).all()] *)
Fixpoint diff_all_one (a : list Z) : bool :=
  match a with
  | x :: (y :: _) as rest => (y - x =? 1) && diff_all_one rest
  | _ => true
  end.

Definition sum_Z (l : list Z) : Z := fold_right Z.add 0 l.

(** [planes[j]] for planes of [size] elements each, flattened. *)
Definition plane_at {A : Type} (size j : nat) (data : list A) : list A :=
  firstn size (skipn (j * size) data).

Definition pixel_format_of (self : Segmentation) : PixelFormat :=
  mk_PixelFormat (Rows self) (Columns self) (SamplesPerPixel self)
    (BitsAllocated self) (BitsStored self) (PhotometricInterpretation self)
    (PixelRepresentation self) None (NumberOfFrames self).

(** [self.pixel_array] *)
Definition pixel_array (ext : External) (self : Segmentation) : result ndarray :=
  pixel_array_of ext (TransferSyntaxUID self) (pixel_format_of self)
    (PixelData self).

(** ** [Segmentation._encode_pixels] *)
Definition _encode_pixels (ext : External) (self : Segmentation)
    (planes : ndarray) : result bytes :=
  if is_encapsulated (TransferSyntaxUID self)
  then
    let? planes :=
      match arr_shape planes with
      | [n; r; c] =>
          if (n =? 1)%nat
          then Ok (mk_ndarray (arr_dtype planes) [r; c] (arr_data planes))
          else Raise (ValueError
            "Only single frame can be encoded at at time in case of encapsulated format encoding.")
      | _ => Ok planes
      end in
    encode_frame ext planes (TransferSyntaxUID self) (BitsAllocated self)
      (BitsStored self) (PhotometricInterpretation self)
      (PixelRepresentation self) None
  else
    match SegmentationType self with
    | BINARY => pack_bits (arr_data planes)
    | FRACTIONAL => Ok (tobytes (arr_dtype planes) (arr_data planes))
    end.

(** ** [Segmentation._build_ref_instance_lut] and [_build_luts] *)

(** Assignment to a key of an [OrderedDict]: a key that is present keeps its
    place. *)
Fixpoint od_set {V : Type} (k : string) (v : V) (d : list (string * V))
  : list (string * V) :=
  match d with
  | [] => [(k, v)]
  | (k', v') :: rest =>
      if String.eqb k' k then (k', v) :: rest else (k', v') :: od_set k v rest
  end.

Definition add_referenced_series (study_uid : string)
    (d : list (string * (string * string * string)))
    (ref_series : ReferencedSeriesItem)
  : list (string * (string * string * string)) :=
  fold_left
    (fun d ref_ins =>
       od_set (ReferencedSOPInstanceUID ref_ins)
         (study_uid, ref_SeriesInstanceUID ref_series,
          ReferencedSOPInstanceUID ref_ins) d)
    (ReferencedInstanceSequence ref_series) d.

Definition _build_ref_instance_lut : M unit :=
  (self <- get_self ;;
   let lut :=
     fold_left (add_referenced_series (StudyInstanceUID self))
       (ReferencedSeriesSequence self) [] in
   let lut :=
     match StudiesContainingOtherReferencedInstancesSequence self with
     | None => lut
     | Some studies =>
         fold_left
           (fun d ref_study =>
              fold_left (add_referenced_series (ref_StudyInstanceUID ref_study))
                (ref_ReferencedSeriesSequence ref_study) d)
           studies lut
     end in
   update (set_ref_ins_lut lut) ;;
   update (set_source_sop_instance_uids (map fst lut)))%method.

(** [np.argwhere(array == value)] on a one-dimensional array, from index [i]. *)
Fixpoint argwhere_eq (value : string) (array : list string) (i : nat)
  : list nat :=
  match array with
  | [] => []
  | x :: rest =>
      if String.eqb x value then i :: argwhere_eq value rest (S i)
      else argwhere_eq value rest (S i)
  end.

Definition _get_src_uid_index (self : Segmentation) (sop_instance_uid : string)
  : result nat :=
  match argwhere_eq sop_instance_uid (_source_sop_instance_uids self) 0 with
  | [] => Raise (KeyError "No such source frame")
  | [i] => Ok i
  | _ => Raise (ValueError
                  "can only convert an array of size 1 to a Python scalar")
  end.

Definition string_mem (x : string) (l : list string) : bool :=
  existsb (String.eqb x) l.

Definition Preserved_eqb (a b : SpatialLocationsPreservedValues) : bool :=
  match a, b with
  | Preserved_YES, Preserved_YES | Preserved_NO, Preserved_NO
  | Preserved_REORIENTED_ONLY, Preserved_REORIENTED_ONLY
  | Preserved_UNKNOWN, Preserved_UNKNOWN => true
  | _, _ => false
  end.

Definition _NO_FRAME_REF_VALUE : Z := -1.

(** The source images of a frame item, in the order of the two nested loops
    over its Derivation Image Sequence. *)
Definition frame_source_images (frame_item : FrameItem) : list SourceImageItem :=
  flat_map der_SourceImageSequence (DerivationImageSequence frame_item).

Definition frame_source_instances_of (frame_item : FrameItem) : list string :=
  map ReferencedSOPInstanceUID (frame_source_images frame_item).

Definition frame_source_frames_of (frame_item : FrameItem) : list Z :=
  flat_map
    (fun src_im =>
       match ReferencedFrameNumber src_im with
       | Some fs => fs
       | None => [_NO_FRAME_REF_VALUE]
       end)
    (frame_source_images frame_item).

Definition frame_locations_preserved_of (frame_item : FrameItem)
  : list SpatialLocationsPreservedValues :=
  map
    (fun src_im =>
       match SpatialLocationsPreserved src_im with
       | Some v => v
       | None => Preserved_UNKNOWN
       end)
    (frame_source_images frame_item).

(** [len(set(l))] *)
Definition len_set_string (l : list string) : nat :=
  List.length (nodup string_dec l).

Definition len_set_Z (l : list Z) : nat := List.length (nodup Z.eq_dec l).

(** The condition under which [_build_luts] gives up the single source frame
    of a frame item. *)
Definition no_single_source_frame (frame_item : FrameItem) : bool :=
  negb (len_set_string (frame_source_instances_of frame_item) =? 1)%nat
  || negb (len_set_Z (frame_source_frames_of frame_item) =? 1)%nat.

Record LutColumns : Type := mk_LutColumns {
  segnum_col_data : list Z;
  source_instance_col_data : list Z;
  source_frame_col_data : list Z;
  locations_preserved : list SpatialLocationsPreservedValues
}.

(** The body of the loop of [_build_luts] over the frame items. *)
Definition _build_luts_frame (cols : LutColumns) (frame_item : FrameItem)
  : M LutColumns :=
  (let seg_num := ReferencedSegmentNumber_of frame_item in
   let frame_source_instances := frame_source_instances_of frame_item in
   let frame_source_frames := frame_source_frames_of frame_item in
   let cols :=
     mk_LutColumns (segnum_col_data cols ++ [seg_num])
       (source_instance_col_data cols) (source_frame_col_data cols)
       (locations_preserved cols ++ frame_locations_preserved_of frame_item) in
   if no_single_source_frame frame_item
   then
     update (set_single_source_frame_per_seg_frame false) ;;
     ret cols
   else
     self <- get_self ;;
     let ref_instance_uid := hd "" frame_source_instances in
     if negb (string_mem ref_instance_uid (_source_sop_instance_uids self))
     then raise (DicomAttributeError
       "SOP instance referenced in the source image sequence is not included in the Referenced Series Sequence or Studies Containing Other Referenced Instances Sequence.")
     else
       src_uid_ind <- lift (_get_src_uid_index self ref_instance_uid) ;;
       ret (mk_LutColumns (segnum_col_data cols)
              (source_instance_col_data cols ++ [Z.of_nat src_uid_ind])
              (source_frame_col_data cols ++ [hd 0 frame_source_frames])
              (locations_preserved cols)))%method.

(** [np.array([a, b, c]).T] for three columns of one length. *)
Fixpoint transpose3 (a b c : list Z) : list (list Z) :=
  match a, b, c with
  | x :: a', y :: b', z :: c' => [x; y; z] :: transpose3 a' b' c'
  | _, _, _ => []
  end.

Definition _build_luts : M unit :=
  (_build_ref_instance_lut ;;
   update (set_single_source_frame_per_seg_frame true) ;;
   self <- get_self ;;
   cols <- foldM _build_luts_frame (mk_LutColumns [] [] [] [])
             (PerFrameFunctionalGroupsSequence self) ;;
   update (set_locations_preserved
     (if existsb (Preserved_eqb Preserved_NO) (locations_preserved cols)
      then Some Preserved_NO
      else if forallb (Preserved_eqb Preserved_YES) (locations_preserved cols)
      then Some Preserved_YES
      else None)) ;;
   self <- get_self ;;
   if _single_source_frame_per_seg_frame self
   then
     update (set_frame_lut
       (Some (transpose3 (segnum_col_data cols)
                (source_instance_col_data cols)
                (source_frame_col_data cols)))) ;;
     update (set_lut_seg_col (Some 0%nat)) ;;
     update (set_lut_src_instance_col (Some 1%nat)) ;;
     update (set_lut_src_frame_col (Some 2%nat))
   else ret tt)%method.

(** ** [Segmentation.add_segments] *)

(** The checks of the rank and of the rows and columns of the pixel array. *)
Definition check_pixel_array_shape (self : Segmentation)
    (pixel_array : PixelArray) : result PixelArray :=
  let pixel_array :=
    if (List.length (pa_shape pixel_array) =? 2)%nat
    then pa_reshape (1%nat :: pa_shape pixel_array) pixel_array
    else pixel_array in
  match pa_shape pixel_array with
  | [_; rows; cols] =>
      check (rows =? Rows self)%nat && (cols =? Columns self)%nat
      else ValueError
        "Pixel array representing segments has the wrong number of rows and columns."
      in Ok pixel_array
  | _ => Raise (ValueError "Pixel array must be a 2D or 3D array.")
  end.

(** The segment number the next segment must have. *)
Definition seg_num_start_of (self : Segmentation) : Z :=
  match _segment_inventory self with
  | [] => 1
  | n :: rest => fold_left Z.max rest n + 1
  end.

(** The checks of the numbering of the segment descriptions. *)
Definition check_segment_numbers (self : Segmentation)
    (segment_descriptions : list SegmentDescription) : result (list Z) :=
  let seg_num_start := seg_num_start_of self in
  let described_segment_numbers := map SegmentNumber segment_descriptions in
  check diff_all_one described_segment_numbers
  else ValueError
    "Segment descriptions must be sorted by segment number and monotonically increasing by 1."
  in
  match described_segment_numbers with
  | [] => Raise (IndexError "index 0 is out of bounds for axis 0 with size 0")
  | first :: _ =>
      check first =? seg_num_start
      else (if seg_num_start =? 1
            then ValueError
              "Segment descriptions should be numbered starting from 1."
            else ValueError
              "Segment descriptions should be numbered to continue from existing segments.")
      in Ok described_segment_numbers
  end.

(** [np.min] and [np.max] of the samples of a floating point array: NaN when
    a sample is NaN. *)
Definition np_min (l : list spec_float) : result spec_float :=
  match l with
  | [] => Raise (ValueError
      "zero-size array to reduction operation minimum which has no identity")
  | x :: rest => Ok (fold_left np_minimum rest x)
  end.

Definition np_max (l : list spec_float) : result spec_float :=
  match l with
  | [] => Raise (ValueError
      "zero-size array to reduction operation maximum which has no identity")
  | x :: rest => Ok (fold_left np_maximum rest x)
  end.

(** The checks that depend on the dtype of the pixel array; the array comes
    back as the later steps see it.  A comparison with NaN is false, so that
    an array with a NaN passes the check of the range. *)
Definition classify_pixels (self : Segmentation) (pixel_array : PixelArray)
    (segment_descriptions : list SegmentDescription)
    (described_segment_numbers : list Z) : result PixelArray :=
  match pixel_array with
  | IntPixels a =>
      match arr_dtype a with
      | np_bool | np_uint8 | np_uint16 =>
          let segments_present :=
            np_unique (filter (fun v => 0 <? v) (arr_data a)) in
          if list_Z_eqb segments_present [1]
             && (List.length segment_descriptions =? 1)%nat
          then
            Ok (IntPixels
                  (mk_ndarray np_uint8 (arr_shape a)
                     (map (fun v => (v mod 256
                                     * hd 0 described_segment_numbers) mod 256)
                        (arr_data a))))
          else
            check forallb (fun v => Z_mem v described_segment_numbers)
                    segments_present
            else ValueError "Pixel array contains segments that lack descriptions."
            in Ok pixel_array
      | _ => Raise (TypeError "Pixel array has an invalid data type.")
      end
  | FloatPixels d sh data =>
      match d with
      | np_float32 | np_float64 =>
          let zero := float_value d 0 0 in
          let one := float_value d 1 0 in
          let? lowest := np_min data in
          let? highest := np_max data in
          check negb (SFltb lowest zero || SFltb one highest)
          else ValueError
            "Floating point pixel array values must be in the range [0, 1]."
          in
          check (List.length segment_descriptions =? 1)%nat
          else ValueError
            "When providing a float-valued pixel array, provide only a single segment description"
          in
          match SegmentationType self with
          | BINARY =>
              check negb (existsb (fun v => SFltb zero v && SFltb v one) data)
              else ValueError
                "Floating point pixel array values must be either 0.0 or 1.0 in case of BINARY segmentation type."
              in
              Ok (IntPixels
                    (mk_ndarray np_bool sh
                       (map (fun v => if SFeqb v zero then 0 else 1) data)))
          | FRACTIONAL => Ok pixel_array
          end
      | np_float16 => Raise (TypeError "Pixel array has an invalid data type.")
      end
  end.

(** The check that the new segments do not already exist. *)
Definition check_new_segments (self : Segmentation)
    (described_segment_numbers : list Z) : result unit :=
  check negb (existsb (fun n => Z_mem n (_segment_inventory self))
                described_segment_numbers)
  else ValueError "Segment with given segment number already exists"
  in Ok tt.

(** [DimensionIndexSequence.get_plane_positions_of_image] *)
Definition get_plane_positions_of_image (image : SourceImage)
  : result (list PlanePositionSequence) :=
  match src_NumberOfFrames image with
  | None => Raise (ValueError "Argument image must be a multi-frame image.")
  | Some _ => Ok (src_frame_plane_positions image)
  end.

(** [DimensionIndexSequence.get_plane_positions_of_series] *)
Definition get_plane_positions_of_series (images : list SourceImage)
  : result (list PlanePositionSequence) :=
  check negb (existsb
                (fun img => match src_NumberOfFrames img with
                            | Some _ => true
                            | None => false
                            end) images)
  else ValueError "Argument images must be a series of single-frame images."
  in
  Ok (map (fun img => [(ImagePositionPatient, src_ImagePositionPatient img)])
        images).

Fixpoint PlanePosition_eqb (a b : PlanePositionSequence) : bool :=
  match a, b with
  | [], [] => true
  | (k, v) :: a', (k', v') :: b' =>
      Keyword_eqb k k' && list_Z_eqb v v' && PlanePosition_eqb a' b'
  | _, _ => false
  end.

(** [all(plane_positions[i] == source_plane_positions[i]
         for i in range(len(plane_positions)))] *)
Fixpoint all_positions_equal
    (plane_positions source_plane_positions : list PlanePositionSequence)
  : result bool :=
  match plane_positions with
  | [] => Ok true
  | p :: rest =>
      match source_plane_positions with
      | [] => Raise (IndexError "list index out of range")
      | q :: source_rest =>
          if PlanePosition_eqb p q
          then all_positions_equal rest source_rest
          else Ok false
      end
  end.

(** The plane positions of the source images and of the planes of the pixel
    array, with the check of their number. *)
Definition resolve_plane_positions (source_images : list SourceImage)
    (pixel_array : PixelArray)
    (plane_positions : option (list PlanePositionSequence))
  : result (list PlanePositionSequence * list PlanePositionSequence) :=
  match source_images with
  | [] => Raise (IndexError "list index out of range")
  | src_image :: _ =>
      let is_multiframe :=
        match src_NumberOfFrames src_image with
        | Some _ => true
        | None => false
        end in
      let? source_plane_positions :=
        if is_multiframe
        then get_plane_positions_of_image src_image
        else get_plane_positions_of_series source_images in
      match plane_positions with
      | None =>
          check (hd 0%nat (pa_shape pixel_array)
                 =? List.length source_plane_positions)%nat
          else (if is_multiframe
                then ValueError
                  "Number of frames in pixel array does not match number of frames in source image."
                else ValueError
                  "Number of frames in pixel array does not match number of source images.")
          in Ok (source_plane_positions, source_plane_positions)
      | Some plane_positions =>
          check (hd 0%nat (pa_shape pixel_array)
                 =? List.length plane_positions)%nat
          else ValueError
            "Number of pixel array planes does not match number of provided plane positions."
          in Ok (source_plane_positions, plane_positions)
      end
  end.

(** [[np.unique(plane_position_values[:, index], axis=0)
      for index in range(plane_position_values.shape[1])]] *)
Definition dimension_position_values_of (n_index : nat)
    (plane_position_values : list (list (list Z)))
  : result (list (list (list Z))) :=
  match plane_position_values with
  | [] => Raise (IndexError "tuple index out of range")
  | _ :: _ =>
      Ok (map
            (fun index =>
               fst (np_unique_rows
                      (map (fun row => nth index row []) plane_position_values)))
            (seq 0 n_index))
  end.

(** [np.where(values == pos)[0][0]] (for vectors, [np.where((values ==
    pos).all(axis=1))[0][0]]) *)
Fixpoint where_first (values : list (list Z)) (pos : list Z) (i : nat)
  : result nat :=
  match values with
  | [] => Raise (IndexError
                   "Could not determine position of plane in three dimensional coordinate system based on dimension index values")
  | v :: rest => if list_Z_eqb v pos then Ok i else where_first rest pos (S i)
  end.

Fixpoint index_values_of (dimension_position_values : list (list (list Z)))
    (positions : list (list Z)) : result (list Z) :=
  match positions with
  | [] => Ok []
  | pos :: rest =>
      let? i := where_first (hd [] dimension_position_values) pos 0 in
      let? others := index_values_of (tl dimension_position_values) rest in
      Ok (Z.of_nat i + 1 :: others)
  end.

(** How the pixel data are extended: frame by frame, by collecting the
    encoded frames for a new encapsulation, or by collecting all samples to
    pack them again. *)
Inductive Encoding : Type :=
| Framewise
| Encapsulated (full_frames_list : list bytes)
| Repacked (full_pixel_array : list Z).

Definition framewise_encoding_of (self : Segmentation) : bool :=
  if negb (is_encapsulated (TransferSyntaxUID self))
  then
    match SegmentationType self with
    | FRACTIONAL => true
    | BINARY =>
        ((Rows self * Columns self * SamplesPerPixel self) mod 8 =? 0)%nat
    end
  else false.

(** The preparation of the pixel data before the loop over the segments. *)
Definition prepare_encoding (ext : External) : M Encoding :=
  (self <- get_self ;;
   if framewise_encoding_of self
   then
     (if (List.length (PixelData self)
          =? get_expected_length (pixel_format_of self) + 1)%nat
      then update (set_PixelData (removelast (PixelData self)))
      else ret tt) ;;
     ret Framewise
   else if is_encapsulated (TransferSyntaxUID self)
   then
     ret (Encapsulated
            (if (0 <? List.length (PixelData self))%nat
             then decode_data_sequence ext (PixelData self)
             else []))
   else
     if (0 <? List.length (PixelData self))%nat
     then
       a <- lift (pixel_array ext self) ;;
       ret (Repacked (arr_data a))
     else ret (Repacked []))%method.

(** The planes of one segment: their dtype and their samples. *)
Definition planes_of (self : Segmentation) (pixel_array : PixelArray)
    (segment_number : Z) : result (dtype * list Z) :=
  match pixel_array with
  | FloatPixels d _ data =>
      match d with
      | np_float32 | np_float64 =>
          Ok (np_uint8,
              map (fun v =>
                     astype_uint8
                       (np_around
                          (np_multiply d v
                             (float_value d (MaximumFractionalValue self) 0))))
                  data)
      | np_float16 => Raise (TypeError "Pixel array has an invalid data type.")
      end
  | IntPixels a =>
      match arr_dtype a with
      | np_uint8 | np_uint16 =>
          Ok (np_bool,
              map (fun v => if v =? segment_number then 1 else 0) (arr_data a))
      | np_bool => Ok (np_bool, arr_data a)
      | _ => Raise (TypeError "Pixel array has an invalid data type.")
      end
  end.

(** The derivation image of a frame whose spatial location is preserved. *)
Definition derivation_of (self : Segmentation) (source_images : list SourceImage)
    (plane_sort_index : list nat) (j : nat) : result DerivationImageItem :=
  let multi :=
    (List.length source_images <? List.length plane_sort_index)%nat in
  match nth_error (SourceImageSequence self) (if multi then 0%nat else j) with
  | None => Raise (IndexError "list index out of range")
  | Some src_img_item =>
      Ok (mk_DerivationImageItem
            [ mk_SourceImageItem
                (ReferencedSOPClassUID src_img_item)
                (ReferencedSOPInstanceUID src_img_item)
                (if multi then Some [Z.of_nat j + 1] else None)
                (Some Preserved_YES) ])
  end.

Section AddSegments.

Variable ext : External.
Variable source_images : list SourceImage.
Variable plane_positions : list PlanePositionSequence.
Variable plane_position_values : list (list (list Z)).
Variable plane_sort_index : list nat.
Variable dimension_position_values : list (list (list Z)).
Variable are_spatial_locations_preserved : bool.
Variable plane_size : nat.

(** The body of the loop over the sorted plane indices, for the planes of one
    segment; [contained_plane_index] grows by the planes that are kept. *)
Definition add_plane (segment_number : Z) (planes : list Z)
    (contained_plane_index : list nat) (j : nat) : M (list nat) :=
  (if sum_Z (plane_at plane_size j planes) =? 0
   then ret contained_plane_index
   else
     index_values <-
       lift (index_values_of dimension_position_values
               (nth j plane_position_values [])) ;;
     self <- get_self ;;
     derivation <-
       (if are_spatial_locations_preserved
        then
          d <- lift (derivation_of self source_images plane_sort_index j) ;;
          ret [d]
        else ret []) ;;
     let pffp_item :=
       mk_FrameItem (segment_number :: index_values)
         (nth j plane_positions []) derivation segment_number in
     update (fun self =>
               set_PerFrameFunctionalGroupsSequence
                 (PerFrameFunctionalGroupsSequence self ++ [pffp_item]) self) ;;
     update (fun self => set_NumberOfFrames (NumberOfFrames self + 1)%nat self) ;;
     ret (contained_plane_index ++ [j]))%method.

(** The body of the loop over the described segments. *)
Definition add_segment (pixel_array : PixelArray) (encoding : Encoding)
    (description : SegmentDescription) : M Encoding :=
  (let segment_number := SegmentNumber description in
   self <- get_self ;;
   '(planes_dtype, planes) <- lift (planes_of self pixel_array segment_number) ;;
   contained_plane_index <-
     foldM (add_plane segment_number planes) [] plane_sort_index ;;
   self <- get_self ;;
   encoding <-
     match encoding with
     | Framewise =>
         encoded <-
           lift (_encode_pixels ext self
                   (mk_ndarray planes_dtype
                      [List.length contained_plane_index;
                       Rows self; Columns self]
                      (flat_map (fun f => plane_at plane_size f planes)
                         contained_plane_index))) ;;
         update (set_PixelData (PixelData self ++ encoded)) ;;
         ret Framewise
     | Encapsulated full_frames_list =>
         encoded <-
           lift (mapM
                   (fun f =>
                      _encode_pixels ext self
                        (mk_ndarray planes_dtype [Rows self; Columns self]
                           (plane_at plane_size f planes)))
                   contained_plane_index) ;;
         ret (Encapsulated (full_frames_list ++ encoded))
     | Repacked full_pixel_array =>
         ret (Repacked
                (full_pixel_array
                 ++ flat_map (fun f => plane_at plane_size f planes)
                      contained_plane_index))
     end ;;
   self <- get_self ;;
   (if negb (Z_mem segment_number (_segment_inventory self))
    then update (set_SegmentSequence (SegmentSequence self ++ [description]))
    else ret tt) ;;
   update (fun self =>
             set_segment_inventory
               (set_add segment_number (_segment_inventory self)) self) ;;
   ret encoding)%method.

End AddSegments.

(** The pixel data after the loop: encoded anew where they were not extended
    frame by frame, and padded to an even length. *)
Definition finish_encoding (ext : External) (encoding : Encoding) : M unit :=
  (self <- get_self ;;
   match encoding with
   | Framewise => ret tt
   | Encapsulated full_frames_list =>
       update (set_PixelData (encapsulate ext full_frames_list))
   | Repacked full_pixel_array =>
       encoded <-
         lift (_encode_pixels ext self
                 (mk_ndarray np_uint8 [List.length full_pixel_array]
                    full_pixel_array)) ;;
       update (set_PixelData encoded)
   end ;;
   self <- get_self ;;
   if (List.length (PixelData self) mod 2 =? 1)%nat
   then update (set_PixelData (PixelData self ++ [48]))
   else ret tt)%method.

Definition add_segments (ext : External) (pixel_array : PixelArray)
    (segment_descriptions : list SegmentDescription)
    (plane_positions : option (list PlanePositionSequence)) : M unit :=
  (self <- get_self ;;
   match _source_images self with
   | None =>
       raise (AttributeError
         "Further segments may not be added to Segmentation objects created from existing datasets.")
   | Some source_images =>
       pixel_array <- lift (check_pixel_array_shape self pixel_array) ;;
       described_segment_numbers <-
         lift (check_segment_numbers self segment_descriptions) ;;
       pixel_array <-
         lift (classify_pixels self pixel_array segment_descriptions
                 described_segment_numbers) ;;
       lift (check_new_segments self described_segment_numbers) ;;
       update (set_SegmentsOverlap
                 (Some (match _segment_inventory self with
                        | [] => SegmentsOverlap_NO
                        | _ :: _ => SegmentsOverlap_UNDEFINED
                        end))) ;;
       '(source_plane_positions, plane_positions) <-
         lift (resolve_plane_positions source_images pixel_array
                 plane_positions) ;;
       '(plane_position_values, plane_sort_index) <-
         lift (get_index_values (DimensionIndexSequence_of self)
                 plane_positions) ;;
       positions_equal <-
         lift (all_positions_equal plane_positions source_plane_positions) ;;
       let are_spatial_locations_preserved :=
         positions_equal
         && match _source_plane_orientation self with
            | Some o => list_Z_eqb (_plane_orientation self) o
            | None => false
            end in
       dimension_position_values <-
         lift (dimension_position_values_of
                 (List.length (tl (DimensionIndexSequence_of self)))
                 plane_position_values) ;;
       encoding <- prepare_encoding ext ;;
       encoding <-
         foldM
           (add_segment ext source_images plane_positions plane_position_values
              plane_sort_index dimension_position_values
              are_spatial_locations_preserved
              (Rows self * Columns self) pixel_array)
           encoding segment_descriptions ;;
       finish_encoding ext encoding ;;
       _build_luts
   end)%method.

(** ** The frame queries *)

(** [self.number_of_segments] *)
Definition number_of_segments (self : Segmentation) : nat :=
  List.length (SegmentSequence self).

(** [n in self.segment_numbers], the range from 1 to the number of
    segments. *)
Definition in_segment_numbers (self : Segmentation) (n : Z) : bool :=
  (1 <=? n) && (n <=? Z.of_nat (number_of_segments self)).

(** [lut[:, col]] *)
Definition lut_column (lut : list (list Z)) (col : nat) : result (list Z) :=
  mapM (fun row =>
          match nth_error row col with
          | Some v => Ok v
          | None => Raise (IndexError "index is out of bounds for axis 1")
          end) lut.

(** [np.where(mask)[0]]: the positions at which the mask holds, counted from
    [i] for the first element. *)
Fixpoint np_where (mask : list bool) (i : nat) : list nat :=
  match mask with
  | [] => []
  | b :: rest => if b then i :: np_where rest (S i) else np_where rest (S i)
  end.

(** [Segmentation.list_seg_frames_for_segment_number] *)
Definition list_seg_frames_for_segment_number (self : Segmentation)
    (segment_number : Z) : result (list nat) :=
  check in_segment_numbers self segment_number
  else KeyError "No segment found with specified segment number" in
  match frame_lut self with
  | None => Raise (AttributeError "frame_lut")
  | Some lut =>
      match lut_seg_col self with
      | None => Raise (AttributeError "lut_seg_col")
      | Some col =>
          let? segments := lut_column lut col in
          Ok (np_where (map (fun v => v =? segment_number) segments) 0)
      end
  end.

(** ** [Segmentation._get_pixels_by_seg_frame] *)

Definition min_Z (l : list Z) : result Z :=
  match l with
  | [] => Raise (ValueError
      "zero-size array to reduction operation minimum which has no identity")
  | x :: rest => Ok (fold_left Z.min rest x)
  end.

Definition max_Z (l : list Z) : result Z :=
  match l with
  | [] => Raise (ValueError
      "zero-size array to reduction operation maximum which has no identity")
  | x :: rest => Ok (fold_left Z.max rest x)
  end.

(** The output array before segments are combined, as a list over the output
    frames of a list over the pixels of a list over the output segments:
    the sample of the stored frame the matrix names, and zero where the
    matrix names none. *)
Definition output_cells (self : Segmentation) (stored : ndarray)
    (out_frames out_segments : nat) (matrix : list Z) : list (list (list Z)) :=
  let size := (Rows self * Columns self)%nat in
  map
    (fun out_frm =>
       map
         (fun p =>
            map
              (fun out_seg =>
                 let seg_frame_num :=
                   nth (out_frm * out_segments + out_seg) matrix 0 in
                 if 1 <=? seg_frame_num
                 then
                   if (ndim stored =? 2)%nat
                   then nth p (arr_data stored) 0
                   else nth (Z.to_nat (seg_frame_num - 1) * size + p)
                          (arr_data stored) 0
                 else 0)
              (seq 0 out_segments))
         (seq 0 size))
    (seq 0 out_frames).

Fixpoint zip_mul (a b : list Z) : list Z :=
  match a, b with
  | x :: a', y :: b' => x * y :: zip_mul a' b'
  | _, _ => []
  end.

Definition max_of (l : list Z) : Z :=
  match l with
  | [] => 0
  | x :: rest => fold_left Z.max rest x
  end.

Definition _get_pixels_by_seg_frame (ext : External) (self : Segmentation)
    (seg_frames_matrix : ndarray) (segment_numbers : list Z)
    (combine_segments relabel : bool) : result ndarray :=
  check negb (combine_segments
              && negb (SegmentationTypeValues_eqb (SegmentationType self) BINARY))
  else ValueError "Cannot combine segments if the segmentation is not binary"
  in
  match arr_shape seg_frames_matrix with
  | [out_frames; out_segments] =>
      check negb (dtype_eqb (arr_dtype seg_frames_matrix) np_bool)
      else TypeError "Seg frames matrix must have an integer data type." in
      let? lowest := min_Z (arr_data seg_frames_matrix) in
      check negb (lowest <? -1)
      else ValueError
        "Seg frames matrix may not contain negative values other than -1." in
      let? highest := max_Z (arr_data seg_frames_matrix) in
      check negb (Z.of_nat (NumberOfFrames self) <? highest)
      else ValueError
        "Seg frames matrix contains values outside the range of segmentation frames in the image."
      in
      check (List.length segment_numbers =? out_segments)%nat
      else ValueError
        "Segment numbers array does not match the shape of the seg frames matrix."
      in
      let? lowest_segment := min_Z segment_numbers in
      let? highest_segment := max_Z segment_numbers in
      check negb ((lowest_segment <? 1)
                  || (Z.of_nat (number_of_segments self) <? highest_segment))
      else ValueError "Segment numbers array contains invalid values." in
      let? stored := pixel_array ext self in
      let cells :=
        output_cells self stored out_frames out_segments
          (arr_data seg_frames_matrix) in
      if combine_segments
      then
        check negb (existsb (existsb (fun l => 1 <? sum_Z l)) cells)
        else RuntimeError "Segments cannot be combined because they overlap" in
        let pixel_value_map :=
          if relabel
          then map Z.of_nat (seq 1 (List.length segment_numbers))
          else segment_numbers in
        Ok (mk_ndarray np_int64 [out_frames; Rows self; Columns self]
              (flat_map (map (fun l => max_of (zip_mul l pixel_value_map)))
                 cells))
      else
        Ok (mk_ndarray (arr_dtype stored)
              [out_frames; Rows self; Columns self; out_segments]
              (flat_map (@List.concat Z) cells))
  | _ => Raise (ValueError "Seg frames matrix must be a 2D array.")
  end.

(** ** [Segmentation.get_pixels_by_source_frame] *)

(** [lut[:, [a, b]]] *)
Definition lut_columns (lut : list (list Z)) (a b : nat)
  : result (list (list Z)) :=
  let? xs := lut_column lut a in
  let? ys := lut_column lut b in
  Ok (map (fun xy => [fst xy; snd xy]) (combine xs ys)).

(** [np.where(np.all(lut == qry, axis=1))[0]] *)
Definition rows_matching (lut : list (list Z)) (qry : list Z) : list nat :=
  np_where (map (fun row => list_Z_eqb row qry) lut) 0.

(** The entry of the matrix of frame numbers for one query row. *)
Definition seg_frame_entry (lut : list (list Z)) (qry : list Z) : result Z :=
  match rows_matching lut qry with
  | [] => Ok (-1)
  | [i] => Ok (Z.of_nat i + 1)
  | _ => Raise (RuntimeError
      "An unexpected error was encountered during indexing of the segmentation image.")
  end.

Definition get_attribute {A : Type} (name : string) (a : option A) : result A :=
  match a with
  | Some v => Ok v
  | None => Raise (AttributeError name)
  end.

Definition get_pixels_by_source_frame (ext : External) (self : Segmentation)
    (source_sop_instance_uids : list string)
    (source_frame_numbers : option (list Z))
    (segment_numbers : option (list Z))
    (combine_segments relabel : bool)
    (assert_locations_preserved assert_missing_frames_are_empty : bool)
  : result ndarray :=
  let? _ :=
    match _locations_preserved self with
    | None =>
        check assert_locations_preserved
        else RuntimeError
          "Indexing via source frames is not permissible since this image does not specify that spatial locations are preserved."
        in Ok tt
    | Some Preserved_NO =>
        Raise (RuntimeError
          "Indexing via source frames is not permissible since this image specifies that spatial locations are not preserved.")
    | Some _ => Ok tt
    end in
  check _single_source_frame_per_seg_frame self
  else RuntimeError
    "Indexing via source frames is not permissible since some frames in the segmentation specify multiple source frames."
  in
  let segment_numbers :=
    match segment_numbers with
    | Some l => l
    | None => map Z.of_nat (seq 1 (number_of_segments self))
    end in
  check negb (Nat.eqb (List.length segment_numbers) 0)
  else ValueError "Segment numbers may not be empty." in
  check negb (Nat.eqb (List.length source_sop_instance_uids) 0)
  else ValueError "Source SOP instance UIDs may not be empty." in
  let cols := List.length segment_numbers in
  let? seg_frames :=
    match source_frame_numbers with
    | None =>
        let? src_col :=
          get_attribute "_lut_src_instance_col" (_lut_src_instance_col self) in
        let? seg_col := get_attribute "_lut_seg_col" (_lut_seg_col self) in
        let? frame_lut := get_attribute "_frame_lut" (_frame_lut self) in
        let? lut := lut_columns frame_lut src_col seg_col in
        check (List.length (fst (np_unique_rows lut)) =? List.length lut)%nat
        else RuntimeError
          "Source SOP instance UIDs and segment numbers do not uniquely identify frames of the segmentation image."
        in
        mapM
          (fun sop_uid =>
             match _get_src_uid_index self sop_uid with
             | Raise (KeyError _) =>
                 if assert_missing_frames_are_empty
                 then Ok (repeat (-1) cols)
                 else Raise (KeyError
                   "SOP Instance UID does not match any referenced source frames.")
             | Raise e => Raise e
             | Ok src_uid_ind =>
                 mapM (fun seg_num =>
                         seg_frame_entry lut [Z.of_nat src_uid_ind; seg_num])
                   segment_numbers
             end)
          source_sop_instance_uids
    | Some source_frame_numbers =>
        check (List.length source_sop_instance_uids =? 1)%nat
        else ValueError
          "Only a single source SOP instance UID may be specified when frame numbers are specified."
        in
        let? src_uid_ind :=
          _get_src_uid_index self (hd "" source_sop_instance_uids) in
        let? col :=
          get_attribute "_lut_src_instance_col" (_lut_src_instance_col self) in
        let? frame_lut := get_attribute "_frame_lut" (_frame_lut self) in
        let? instances := lut_column frame_lut col in
        let lut :=
          map fst
            (filter (fun ri => snd ri =? Z.of_nat src_uid_ind)
               (combine frame_lut instances)) in
        let? frame_col :=
          get_attribute "_lut_src_frame_col" (_lut_src_frame_col self) in
        let? seg_col := get_attribute "_lut_seg_col" (_lut_seg_col self) in
        let? lut := lut_columns lut frame_col seg_col in
        check (List.length (fst (np_unique_rows lut)) =? List.length lut)%nat
        else RuntimeError
          "Source frame numbers and segment numbers do not uniquely identify frames of the segmentation image."
        in
        mapM
          (fun src_frm_num =>
             if negb (Z_mem src_frm_num (map (fun row => nth 1 row 0) lut))
             then
               if assert_missing_frames_are_empty
               then Ok (repeat (-1) cols)
               else Raise (KeyError
                 "Source frame number does not match any referenced source frame.")
             else
               mapM (fun seg_num => seg_frame_entry lut [src_frm_num; seg_num])
                 segment_numbers)
          source_frame_numbers
    end in
  _get_pixels_by_seg_frame ext self
    (mk_ndarray np_int32 [List.length seg_frames; cols]
       (List.concat seg_frames))
    segment_numbers combine_segments relabel.

(** ** [Segmentation.__init__] *)

(** [SegmentationTypeValues(segmentation_type)] *)
Definition SegmentationTypeValues_of (segmentation_type : string)
  : result SegmentationTypeValues :=
  if String.eqb segmentation_type "BINARY" then Ok BINARY
  else if String.eqb segmentation_type "FRACTIONAL" then Ok FRACTIONAL
  else Raise (ValueError "not a valid SegmentationTypeValues").

(** [SegmentationFractionalTypeValues(fractional_type)] *)
Definition SegmentationFractionalTypeValues_of (fractional_type : string)
  : result SegmentationFractionalTypeValues :=
  if String.eqb fractional_type "PROBABILITY" then Ok PROBABILITY
  else if String.eqb fractional_type "OCCUPANCY" then Ok OCCUPANCY
  else Raise (ValueError "not a valid SegmentationFractionalTypeValues").

Definition same_series_and_size (a b : SourceImage) : bool :=
  String.eqb (src_StudyInstanceUID a) (src_StudyInstanceUID b)
  && String.eqb (src_SeriesInstanceUID a) (src_SeriesInstanceUID b)
  && (src_Rows a =? src_Rows b)%nat
  && (src_Columns a =? src_Columns b)%nat.

(** [referenced_series[uid].append(ref)] on a [defaultdict(list)] *)
Fixpoint append_to_series (uid : string) (ref : SourceImageItem)
    (d : list ReferencedSeriesItem) : list ReferencedSeriesItem :=
  match d with
  | [] => [mk_ReferencedSeriesItem uid [ref]]
  | item :: rest =>
      if String.eqb (ref_SeriesInstanceUID item) uid
      then mk_ReferencedSeriesItem uid (ReferencedInstanceSequence item ++ [ref])
           :: rest
      else item :: append_to_series uid ref rest
  end.

Definition source_image_reference (s_img : SourceImage) : SourceImageItem :=
  mk_SourceImageItem (src_SOPClassUID s_img) (src_SOPInstanceUID s_img)
    None None.

Definition supported_by_segmentation (ts : TransferSyntax) : bool :=
  match ts with
  | ImplicitVRLittleEndian | ExplicitVRLittleEndian
  | JPEG2000Lossless | RLELossless => true
  | _ => false
  end.

(** The constructor up to its call of [add_segments]: the checks of the
    arguments and the attributes of the new object, which has no segments and
    no frames yet.  The constructor of the base class ([highdicom/base.py],
    not among the sources) is taken to store the transfer syntax and the
    attributes that identify the instance. *)
Definition Segmentation_new
    (source_images : list SourceImage) (pixel_array : PixelArray)
    (segmentation_type : string) (fractional_type : string)
    (max_fractional_value : Z) (transfer_syntax_uid : TransferSyntax)
    (plane_orientation : option (list Z))
  : result (Segmentation * PixelArray) :=
  match source_images with
  | [] => Raise (ValueError "At least one source image is required.")
  | src_img :: _ =>
      check forallb (same_series_and_size src_img) source_images
      else ValueError
        "Source images must all be part of the same series and must have the same image dimensions (number of rows/columns)."
      in
      let is_multiframe :=
        match src_NumberOfFrames src_img with
        | Some _ => true
        | None => false
        end in
      check negb (is_multiframe && (1 <? List.length source_images)%nat)
      else ValueError
        "Only one source image should be provided in case images are multi-frame images."
      in
      check supported_by_segmentation transfer_syntax_uid
      else ValueError "Transfer syntax is not supported" in
      let pixel_array :=
        if (List.length (pa_shape pixel_array) =? 2)%nat
        then pa_reshape (1%nat :: pa_shape pixel_array) pixel_array
        else pixel_array in
      let coordinate_system :=
        if src_has_slide_attributes src_img then SLIDE else PATIENT in
      let references := map source_image_reference source_images in
      let referenced_series :=
        fold_left
          (fun d s_img =>
             append_to_series (src_SeriesInstanceUID s_img)
               (source_image_reference s_img) d)
          source_images [] in
      match pa_shape pixel_array with
      | _ :: rows :: columns :: _ =>
          let? segmentation_type :=
            SegmentationTypeValues_of segmentation_type in
          let? (bits_allocated, high_bit, fractional, maximum) :=
            match segmentation_type with
            | BINARY =>
                check negb (is_encapsulated transfer_syntax_uid)
                else ValueError
                  "The chosen transfer syntax is not compatible with the BINARY segmentation type"
                in Ok (1, 0, None, 0)
            | FRACTIONAL =>
                let? segmentation_fractional_type :=
                  SegmentationFractionalTypeValues_of fractional_type in
                check negb (2 ^ 8 <? max_fractional_value)
                else ValueError
                  "Maximum fractional value must not exceed image bit depth."
                in Ok (8, 7, Some segmentation_fractional_type,
                       max_fractional_value)
            end in
          let source_plane_orientation := src_image_orientation src_img in
          let plane_orientation :=
            match plane_orientation with
            | Some o => o
            | None => source_plane_orientation
            end in
          Ok (mk_Segmentation
                (Some source_images)
                transfer_syntax_uid
                coordinate_system
                (src_StudyInstanceUID src_img)
                references
                referenced_series
                None
                rows columns 1%nat
                MONOCHROME2 UNSIGNED_INTEGER
                segmentation_type fractional maximum
                bits_allocated bits_allocated high_bit
                []
                (DimensionIndexSequence coordinate_system)
                plane_orientation (Some source_plane_orientation)
                0%nat [] [] []
                None
                [] [] false None None None None None
                None None None,
              pixel_array)
      | _ => Raise (IndexError "tuple index out of range")
      end
  end.

(** The constructor: the new object, to which [add_segments] adds the segments
    of the pixel array.  The two methods of the base class called last copy
    attributes of the patient, the study and the specimen from the source
    image. *)
Definition Segmentation_init (ext : External)
    (source_images : list SourceImage) (pixel_array : PixelArray)
    (segmentation_type : string)
    (segment_descriptions : list SegmentDescription)
    (fractional_type : string) (max_fractional_value : Z)
    (transfer_syntax_uid : TransferSyntax)
    (plane_orientation : option (list Z))
    (plane_positions : option (list PlanePositionSequence))
  : result Segmentation :=
  let? (self, pixel_array) :=
    Segmentation_new source_images pixel_array segmentation_type
      fractional_type max_fractional_value transfer_syntax_uid
      plane_orientation in
  match add_segments ext pixel_array segment_descriptions plane_positions self
  with
  | (self, Ok _) => Ok self
  | (_, Raise e) => Raise e
  end.

(** ** Vocabulary of the properties *)

(** The photometric interpretations of an image with one sample per pixel. *)
Definition monochrome (p : PhotometricInterpretationValues) : bool :=
  match p with
  | MONOCHROME1 | MONOCHROME2 | PALETTE_COLOR => true
  | _ => false
  end.

(** A plane of [rows] by [cols] samples that the pixel format can hold: with
    one bit allocated the samples are zeros and ones and their number is a
    multiple of 8; otherwise the dtype of the array has the allocated width
    and the signedness of the pixel representation (a boolean array has one
    byte per sample and fits both). *)
Definition valid_plane (array : ndarray) (rows cols : nat)
    (bits_allocated : Z) (pixel_representation : PixelRepresentationValues)
  : Prop :=
  arr_shape array = [rows; cols]
  /\ (0 < rows)%nat /\ (0 < cols)%nat
  /\ List.length (arr_data array) = (rows * cols)%nat
  /\ Forall (in_dtype_range (arr_dtype array)) (arr_data array)
  /\ if bits_allocated =? 1
     then forallb is_bit (arr_data array) = true
          /\ ((rows * cols) mod 8 = 0)%nat
     else bits_allocated = 8 * Z.of_nat (itemsize (arr_dtype array))
          /\ (arr_dtype array = np_bool
              \/ is_signed (arr_dtype array) = pr_signed pixel_representation).

(** The codec registered for a compressed transfer syntax. *)
Definition registered_codec (ext : External) (ts : TransferSyntax)
  : option (ndarray -> result bytes) :=
  match ts with
  | JPEGBaseline => Some (pil_save ext "jpeg")
  | JPEG2000Lossless => Some (pil_save ext "jpeg2000")
  | RLELossless => Some (rle_encode_frame ext)
  | _ => None
  end.

(** Codecs for examples: they store the samples as they are, one byte each,
    and the handler reads them back with the numpy handler. *)
Definition plain_codecs : External :=
  mk_External
    (fun _ a => Ok (tobytes (arr_dtype a) (arr_data a)))
    (fun a => Ok (tobytes (arr_dtype a) (arr_data a)))
    (fun _ => Raise (ValueError "cannot identify image file"))
    (fun frames => List.concat frames)
    (fun data => [data])
    (fun _ f value => numpy_pixel_array f value).

(** Codecs for examples of which the JPEG codec loses information, as the
    baseline process does: it stores every sample without its lowest bit.
    The other codecs are those of [plain_codecs]. *)
Definition lossy_jpeg_codecs : External :=
  mk_External
    (fun format a =>
       if String.eqb format "jpeg"
       then Ok (tobytes (arr_dtype a) (map (fun v => 2 * (v / 2)) (arr_data a)))
       else Ok (tobytes (arr_dtype a) (arr_data a)))
    (fun a => Ok (tobytes (arr_dtype a) (arr_data a)))
    (fun _ => Raise (ValueError "cannot identify image file"))
    (fun frames => List.concat frames)
    (fun data => [data])
    (fun _ f value => numpy_pixel_array f value).

(** The order of the sorted entries: by row, and by index among equal rows. *)
Definition entry_lt (x y : list Z * nat) : Prop :=
  lex_compare (fst x) (fst y) = Lt \/ (fst x = fst y /\ (snd x < snd y)%nat).


(** The rows of the entries are not below the row seen before them. *)
Definition above (prev : option (list Z)) (l : list (list Z * nat)) : Prop :=
  forall p, prev = Some p -> Forall (fun x => row_leb p (fst x) = true) l.

(** A method leaves a view of the object as it is, also when it raises. *)
Definition preserves {A T : Type} (f : Segmentation -> T) (m : M A) : Prop :=
  forall self, f (fst (m self)) = f self.

(** When the method returns from a state in [P], [Q] holds of the value and of
    the state it returns. *)
Definition returns {A : Type} (P : Segmentation -> Prop) (m : M A)
    (Q : A -> Segmentation -> Prop) : Prop :=
  forall self, P self -> forall self' a, m self = (self', Ok a) -> Q a self'.

(** The attributes no method assigns after the constructor. *)
Definition static (self : Segmentation) :=
  (_source_images self, TransferSyntaxUID self, _coordinate_system self,
   StudyInstanceUID self, SourceImageSequence self,
   ReferencedSeriesSequence self,
   StudiesContainingOtherReferencedInstancesSequence self,
   Rows self, Columns self, SamplesPerPixel self,
   PhotometricInterpretation self, PixelRepresentation self,
   SegmentationType self, SegmentationFractionalType self,
   MaximumFractionalValue self, BitsAllocated self, BitsStored self,
   HighBit self, DimensionIndexSequence_of self, _plane_orientation self,
   _source_plane_orientation self,
   frame_lut self, lut_seg_col self, lut_src_col self).

(** The pixel data without the trailing pad byte, as [add_segments] takes
    them before it appends frames: the last byte goes when the length is one
    more than the expected length of the frames. *)
Definition without_pad (self : Segmentation) : bytes :=
  if (List.length (PixelData self)
      =? get_expected_length (pixel_format_of self) + 1)%nat
  then removelast (PixelData self)
  else PixelData self.

(** The pad byte of a byte string of odd length. *)
Definition pad_of (data : bytes) : bytes :=
  if (List.length data mod 2 =? 1)%nat then [48] else [].

(** ** Objects for examples *)

(** A single-frame source image of a series, at height [z]. *)
Definition ct_image (uid : string) (rows cols : nat) (z : Z) : SourceImage :=
  mk_SourceImage "1.2.3" "1.2.3.1" "1.2.840.10008.5.1.4.1.1.2" uid rows cols
    None false [1; 0; 0; 0; 1; 0] [0; 0; z] [].

Definition description (n : Z) : SegmentDescription :=
  mk_SegmentDescription n "segment".

(** A fractional segmentation of two images of one pixel each; its one
    segment has a sample in the first image only. *)
Definition fractional_example : result Segmentation :=
  Segmentation_init plain_codecs
    [ct_image "1.2.3.1.1" 1 1 0; ct_image "1.2.3.1.2" 1 1 1]
    (FloatPixels np_float64 [2; 1; 1]%nat
        [float_value np_float64 1 0; float_value np_float64 0 0])
    "FRACTIONAL" [description 1] "PROBABILITY" 255 ImplicitVRLittleEndian
    None None.

(** A binary segmentation of one image of 2 by 4 pixels with the segments 1
    to 4. *)
Definition binary_example : result Segmentation :=
  Segmentation_init plain_codecs [ct_image "1.2.3.1.1" 2 4 0]
    (IntPixels (mk_ndarray np_uint8 [1; 2; 4]%nat [1; 2; 3; 4; 0; 0; 0; 0]))
    "BINARY" [description 1; description 2; description 3; description 4]
    "PROBABILITY" 255 ExplicitVRLittleEndian None None.

(** A call of a method raises. *)
Definition raises {A : Type} (m : M A) (self : Segmentation) : Prop :=
  exists self' e, m self = (self', Raise e).

(** Numbers that ascend by exactly 1 from each to the next. *)
Definition ascending_by_one (numbers : list Z) : Prop :=
  forall i, (S i < List.length numbers)%nat ->
            nth (S i) numbers 0 = nth i numbers 0 + 1.

(** The greatest number of a set. *)
Definition is_max (m : Z) (numbers : list Z) : Prop :=
  In m numbers /\ forall x, In x numbers -> x <= m.

(** The checks of [add_segments] that come before its first assignment. *)
Definition validation (self : Segmentation) (pixel_array : PixelArray)
    (segment_descriptions : list SegmentDescription) : result PixelArray :=
  let? pixel_array := check_pixel_array_shape self pixel_array in
  let? described_segment_numbers :=
    check_segment_numbers self segment_descriptions in
  let? pixel_array :=
    classify_pixels self pixel_array segment_descriptions
      described_segment_numbers in
  let? _ := check_new_segments self described_segment_numbers in
  Ok pixel_array.

(** The value [add_segments] assigns to Segments Overlap. *)
Definition assigned_overlap (self : Segmentation) : SegmentsOverlapValues :=
  match _segment_inventory self with
  | [] => SegmentsOverlap_NO
  | _ :: _ => SegmentsOverlap_UNDEFINED
  end.

Definition frame_of (segment_number : Z) (source_uid : string) : FrameItem :=
  mk_FrameItem [segment_number; 1] [(ImagePositionPatient, [0; 0; 0])]
    [mk_DerivationImageItem
       [mk_SourceImageItem "1.2.840.10008.5.1.4.1.1.2" source_uid None
          (Some Preserved_YES)]]
    segment_number.

(** A binary segmentation with three segments whose four frames belong to the
    segments 1, 2, 1, 2, in the order in which a dataset may store them; the
    lookup tables are built as for a dataset that is read. *)
Definition interleaved_example : result Segmentation :=
  let? self :=
    Segmentation_init plain_codecs
      [ct_image "1.2.3.1.1" 2 4 0; ct_image "1.2.3.1.2" 2 4 1]
      (IntPixels (mk_ndarray np_uint8 [2; 2; 4]%nat
                    [1; 2; 0; 0; 0; 0; 0; 0; 1; 2; 0; 0; 0; 0; 0; 0]))
      "BINARY" [description 1; description 2; description 3]
      "PROBABILITY" 255 ExplicitVRLittleEndian None None in
  match
    _build_luts
      (set_PerFrameFunctionalGroupsSequence
         [ frame_of 1 "1.2.3.1.1"; frame_of 2 "1.2.3.1.1";
           frame_of 1 "1.2.3.1.2"; frame_of 2 "1.2.3.1.2" ] self)
  with
  | (self, Ok _) => Ok self
  | (_, Raise e) => Raise e
  end.

(** A segmentation whose plane is not at the position of the source image:
    its frame has no derivation image. *)
Definition displaced_example : result Segmentation :=
  Segmentation_init plain_codecs [ct_image "1.2.3.1.1" 2 4 0]
    (IntPixels (mk_ndarray np_bool [1; 2; 4]%nat [1; 1; 0; 0; 0; 0; 0; 0]))
    "BINARY" [description 1] "PROBABILITY" 255 ExplicitVRLittleEndian None
    (Some [[(ImagePositionPatient, [0; 0; 9])]]).

(** The samples of one pixel of one output frame, by output segment: the pixel
    is shared when two of the segments have a positive sample there. *)
Definition shared_pixel (cell : list Z) : Prop :=
  exists k1 k2, k1 <> k2 /\ 0 < nth k1 cell 0 /\ 0 < nth k2 cell 0.

(** The value that stands for the segment of a column of the matrix in the
    label map. *)
Definition labels_of (relabel : bool) (segment_numbers : list Z) : list Z :=
  if relabel
  then map Z.of_nat (seq 1 (List.length segment_numbers))
  else segment_numbers.

(** The label of a pixel: the label of a segment that has a positive sample
    there, and zero when there is none. *)
Definition label_of_pixel (labels cell : list Z) (v : Z) : Prop :=
  (forall k, 0 < nth k cell 0 -> v = nth k labels 0)
  /\ ((forall k, nth k cell 0 = 0) -> v = 0)
  /\ (v = 0 \/ In v labels).

(** The segment and the plane position of a frame. *)
Definition frame_key (frame_item : FrameItem) : Z * PlanePositionSequence :=
  (ReferencedSegmentNumber_of frame_item, PlanePosition frame_item).

(** The sum of the samples of plane [j] of a segment, as [add_segments]
    derives the planes of the segment from the pixel array. *)
Definition plane_sum (self : Segmentation) (pixel_array : PixelArray)
    (description : SegmentDescription) (j : nat) : Z :=
  match planes_of self pixel_array (SegmentNumber description) with
  | Ok (_, planes) => sum_Z (plane_at (Rows self * Columns self) j planes)
  | Raise _ => 0
  end.

(** The planes of a segment that are not empty, in the order of the sorted
    plane indices. *)
Definition kept_planes (self : Segmentation) (pixel_array : PixelArray)
    (plane_sort_index : list nat) (description : SegmentDescription)
  : list nat :=
  filter (fun j => negb (plane_sum self pixel_array description j =? 0))
    plane_sort_index.

(** The bytes of the kept planes of a segment with framewise encoding. *)
Definition kept_planes_bytes (ext : External) (self : Segmentation)
    (pixel_array : PixelArray) (plane_sort_index : list nat)
    (description : SegmentDescription) : result bytes :=
  let? (planes_dtype, planes) :=
    planes_of self pixel_array (SegmentNumber description) in
  let kept := kept_planes self pixel_array plane_sort_index description in
  _encode_pixels ext self
    (mk_ndarray planes_dtype [List.length kept; Rows self; Columns self]
       (flat_map (fun f => plane_at (Rows self * Columns self) f planes) kept)).

(** The frames of the kept planes of a segment, encoded one by one, as the
    loop collects them when the pixel data are encapsulated. *)
Definition kept_planes_frames (ext : External) (self : Segmentation)
    (pixel_array : PixelArray) (plane_sort_index : list nat)
    (description : SegmentDescription) : result (list bytes) :=
  let? (planes_dtype, planes) :=
    planes_of self pixel_array (SegmentNumber description) in
  mapM (fun f =>
          _encode_pixels ext self
            (mk_ndarray planes_dtype [Rows self; Columns self]
               (plane_at (Rows self * Columns self) f planes)))
    (kept_planes self pixel_array plane_sort_index description).

(** The samples of the kept planes of a segment, as the loop collects them
    when all samples are packed again. *)
Definition kept_planes_samples (self : Segmentation)
    (pixel_array : PixelArray) (plane_sort_index : list nat)
    (description : SegmentDescription) : result (list Z) :=
  let? (planes_dtype, planes) :=
    planes_of self pixel_array (SegmentNumber description) in
  Ok (flat_map (fun f => plane_at (Rows self * Columns self) f planes)
        (kept_planes self pixel_array plane_sort_index description)).

(** What the loop over the segments has stored, by the way the pixel data are
    extended: the bytes appended to the pixel data, the frames or the samples
    appended to the collection. *)
Definition stored_by_loop (ext : External) (self : Segmentation)
    (pixel_array : PixelArray) (plane_sort_index : list nat)
    (descriptions : list SegmentDescription)
    (encoding encoding' : Encoding) (data data' : bytes) : Prop :=
  match encoding with
  | Framewise =>
      encoding' = Framewise
      /\ exists chunks,
          mapM (kept_planes_bytes ext self pixel_array plane_sort_index)
            descriptions = Ok chunks
          /\ data' = data ++ List.concat chunks
  | Encapsulated full_frames_list =>
      data' = data
      /\ exists frames,
          mapM (kept_planes_frames ext self pixel_array plane_sort_index)
            descriptions = Ok frames
          /\ encoding' = Encapsulated (full_frames_list ++ List.concat frames)
  | Repacked full_pixel_array =>
      data' = data
      /\ exists samples,
          mapM (kept_planes_samples self pixel_array plane_sort_index)
            descriptions = Ok samples
          /\ encoding' = Repacked (full_pixel_array ++ List.concat samples)
  end.

(** The pixel data a call stores, before the pad byte, from the way the pixel
    data are extended: the former data without pad byte and the bytes of the
    kept planes; the encapsulation of the former frames and the frames of the
    kept planes; the former samples and the samples of the kept planes, packed
    again. *)
Definition stored_pixel_data (ext : External) (self : Segmentation)
    (pixel_array : PixelArray) (plane_sort_index : list nat)
    (descriptions : list SegmentDescription) (encoding : Encoding)
  : result bytes :=
  match encoding with
  | Framewise =>
      let? chunks :=
        mapM (kept_planes_bytes ext self pixel_array plane_sort_index)
          descriptions in
      Ok (without_pad self ++ List.concat chunks)
  | Encapsulated full_frames_list =>
      let? frames :=
        mapM (kept_planes_frames ext self pixel_array plane_sort_index)
          descriptions in
      Ok (encapsulate ext (full_frames_list ++ List.concat frames))
  | Repacked full_pixel_array =>
      let? samples :=
        mapM (kept_planes_samples self pixel_array plane_sort_index)
          descriptions in
      let full_pixel_array := full_pixel_array ++ List.concat samples in
      _encode_pixels ext self
        (mk_ndarray np_uint8 [List.length full_pixel_array] full_pixel_array)
  end.


(** ** Objects the code builds *)

(** The objects the constructor returns, and the objects later calls of
    [add_segments] that return make of them. *)
Inductive constructed (ext : External) : Segmentation -> Prop :=
| constructed_init (source_images : list SourceImage)
    (pixel_array : PixelArray) (segmentation_type : string)
    (segment_descriptions : list SegmentDescription)
    (fractional_type : string) (max_fractional_value : Z)
    (transfer_syntax_uid : TransferSyntax)
    (plane_orientation : option (list Z))
    (plane_positions : option (list PlanePositionSequence))
    (self : Segmentation) :
    Segmentation_init ext source_images pixel_array segmentation_type
      segment_descriptions fractional_type max_fractional_value
      transfer_syntax_uid plane_orientation plane_positions = Ok self ->
    constructed ext self
| constructed_add_segments (self self' : Segmentation)
    (pixel_array : PixelArray)
    (segment_descriptions : list SegmentDescription)
    (plane_positions : option (list PlanePositionSequence)) :
    constructed ext self ->
    add_segments ext pixel_array segment_descriptions plane_positions self
    = (self', Ok tt) ->
    constructed ext self'.

(** The numbers from 1 to [n]. *)
Definition numbers_to (n : nat) : list Z := map Z.of_nat (seq 1 n).

(** ** [Segmentation.get_segment_description] *)
Definition get_segment_description (self : Segmentation) (segment_number : Z)
  : result SegmentDescription :=
  check negb ((segment_number <? 1)
              || (Z.of_nat (number_of_segments self) <? segment_number))
  else IndexError "invalid segment number for this dataset." in
  match nth_error (SegmentSequence self) (Z.to_nat (segment_number - 1)) with
  | Some description => Ok description
  | None => Raise (IndexError "list index out of range")
  end.

(** What [add_segments] leaves as it is until it rebuilds the lookup
    tables, the frame items and the frame count apart. *)
Definition kept_by_encoding (self : Segmentation) :=
  (static self, PerFrameFunctionalGroupsSequence self, NumberOfFrames self,
   SegmentSequence self, _segment_inventory self, SegmentsOverlap self).

(** The frame item [add_segments] makes for plane [j] of one of the described
    segments: the segment number and the index values of the plane, its
    position, and the derivation image when the spatial locations are
    preserved. *)
Definition frame_added (self : Segmentation)
    (source_images : list SourceImage)
    (plane_positions : list PlanePositionSequence)
    (plane_position_values : list (list (list Z)))
    (plane_sort_index : list nat)
    (dimension_position_values : list (list (list Z)))
    (are_spatial_locations_preserved : bool)
    (segment_descriptions : list SegmentDescription)
    (frame_item : FrameItem) : Prop :=
  exists description j index_values derivation,
    In description segment_descriptions
    /\ In j plane_sort_index
    /\ index_values_of dimension_position_values
         (nth j plane_position_values []) = Ok index_values
    /\ (if are_spatial_locations_preserved
        then exists d,
               derivation_of self source_images plane_sort_index j = Ok d
               /\ derivation = [d]
        else derivation = [])
    /\ frame_item
       = mk_FrameItem (SegmentNumber description :: index_values)
           (nth j plane_positions []) derivation (SegmentNumber description).

(** From [s] to [s'] a run has kept the attributes no method assigns and has
    appended frame items, each of which has the property [Q]. *)
Definition appends (self0 : Segmentation) (Q : FrameItem -> Prop)
    (s s' : Segmentation) : Prop :=
  static s' = static self0
  /\ exists items,
      PerFrameFunctionalGroupsSequence s'
      = PerFrameFunctionalGroupsSequence s ++ items
      /\ Forall Q items.

(** The segment descriptions and the segment numbers of the object after the
    loop of [add_segments] has come to a description: a description whose
    number is new is appended. *)
Definition register_segment
    (segments : list SegmentDescription * list Z)
    (description : SegmentDescription) : list SegmentDescription * list Z :=
  let (segment_sequence, segment_inventory) := segments in
  (if negb (Z_mem (SegmentNumber description) segment_inventory)
   then segment_sequence ++ [description]
   else segment_sequence,
   set_add (SegmentNumber description) segment_inventory).

(** The segments of an object are numbered from 1 without gaps, in the order
    of the Segment Sequence, and the inventory holds their numbers. *)
Definition segments_numbered (self : Segmentation) : Prop :=
  map SegmentNumber (SegmentSequence self)
  = numbers_to (number_of_segments self)
  /\ forall n, In n (_segment_inventory self)
               <-> 1 <= n <= Z.of_nat (number_of_segments self).

(** The image format the constructor gives a segmentation: one unsigned
    sample per pixel, 1 bit for BINARY and 8 bits for FRACTIONAL, and a
    transfer syntax the constructor accepts, which is a native one for
    BINARY. *)
Definition segmentation_format (self : Segmentation) : Prop :=
  SamplesPerPixel self = 1%nat
  /\ PhotometricInterpretation self = MONOCHROME2
  /\ PixelRepresentation self = UNSIGNED_INTEGER
  /\ BitsStored self = BitsAllocated self
  /\ supported_by_segmentation (TransferSyntaxUID self) = true
  /\ match SegmentationType self with
     | BINARY =>
         BitsAllocated self = 1 /\ HighBit self = 0
         /\ is_encapsulated (TransferSyntaxUID self) = false
     | FRACTIONAL =>
         BitsAllocated self = 8 /\ HighBit self = 7
         /\ MaximumFractionalValue self <= 256
         /\ SegmentationFractionalType self <> None
     end.

(** The attributes of an object that has no segments yet. *)
Definition fresh (self : Segmentation) : Prop :=
  NumberOfFrames self = 0%nat
  /\ PerFrameFunctionalGroupsSequence self = []
  /\ SegmentSequence self = []
  /\ _segment_inventory self = []
  /\ PixelData self = []
  /\ SegmentsOverlap self = None.



(** The SOP Instance UIDs an object references, in the Referenced Series
    Sequence and in the Studies Containing Other Referenced Instances
    Sequence. *)
Definition series_instance_uids (ref_series : ReferencedSeriesItem)
  : list string :=
  map ReferencedSOPInstanceUID (ReferencedInstanceSequence ref_series).

Definition referenced_instance_uids (self : Segmentation) : list string :=
  flat_map series_instance_uids (ReferencedSeriesSequence self)
  ++ match StudiesContainingOtherReferencedInstancesSequence self with
     | None => []
     | Some studies =>
         flat_map
           (fun ref_study =>
              flat_map series_instance_uids
                (ref_ReferencedSeriesSequence ref_study))
           studies
     end.

(** [Segmentation.get_source_sop_instances] *)
Definition get_source_sop_instances (self : Segmentation)
  : list (string * string * string) :=
  map snd (_ref_ins_lut self).

(** ** The lookup table of the frames *)

(** A frame item all of whose source images name one SOP instance and one
    frame number. *)
Definition single_source_frame (frame_item : FrameItem) : Prop :=
  frame_source_instances_of frame_item <> []
  /\ frame_source_frames_of frame_item <> []
  /\ (forall uid, In uid (frame_source_instances_of frame_item) ->
                  uid = hd "" (frame_source_instances_of frame_item))
  /\ (forall f, In f (frame_source_frames_of frame_item) ->
                f = hd 0 (frame_source_frames_of frame_item)).

(** The row of the lookup table for a frame item with a single source
    frame: the segment number, the position of the source instance among
    [uids] and the source frame number. *)
Definition lut_row (uids : list string) (frame_item : FrameItem)
    (row : list Z) : Prop :=
  exists i,
    nth_error uids i = Some (hd "" (frame_source_instances_of frame_item))
    /\ row = [ReferencedSegmentNumber_of frame_item; Z.of_nat i;
              hd 0 (frame_source_frames_of frame_item)].

(** The source images of all the frame items of an object. *)
Definition all_source_images (self : Segmentation) : list SourceImageItem :=
  flat_map frame_source_images (PerFrameFunctionalGroupsSequence self).

(** The derivation images of a frame item that [add_segments] makes: none,
    or one with a single source image that repeats the class and the
    instance of an item of the Source Image Sequence of the object, has at
    most one frame number and states that the spatial locations are
    preserved. *)
Definition derived_from (self : Segmentation) (frame_item : FrameItem)
  : Prop :=
  DerivationImageSequence frame_item = []
  \/ exists src_img_item frame_number,
       In src_img_item (SourceImageSequence self)
       /\ (frame_number = None
           \/ exists j : nat, frame_number = Some [Z.of_nat j + 1])
       /\ DerivationImageSequence frame_item
          = [ mk_DerivationImageItem
                [ mk_SourceImageItem
                    (ReferencedSOPClassUID src_img_item)
                    (ReferencedSOPInstanceUID src_img_item)
                    frame_number (Some Preserved_YES) ] ].

(** ** The queries by source instance *)

(** [array[mask]] for a boolean mask as long as the array. *)
Definition np_select {A : Type} (mask : list bool) (array : list A) : list A :=
  map snd (filter fst (combine mask array)).

(** [Segmentation.list_seg_frames_for_source_frame] *)
Definition list_seg_frames_for_source_frame (self : Segmentation)
    (source_sop_instance_uid : string) : result (list nat) :=
  let? src_ind := _get_src_uid_index self source_sop_instance_uid in
  let? lut := get_attribute "frame_lut" (frame_lut self) in
  let? col := get_attribute "lut_src_col" (lut_src_col self) in
  let? instances := lut_column lut col in
  Ok (np_where (map (fun v => v =? Z.of_nat src_ind) instances) 0).

(** [Segmentation.list_segments_in_source_frame] *)
Definition list_segments_in_source_frame (self : Segmentation)
    (source_sop_instance_uid : string) : result (list Z) :=
  let? src_ind := _get_src_uid_index self source_sop_instance_uid in
  let? lut := get_attribute "frame_lut" (frame_lut self) in
  let? src_col := get_attribute "lut_src_col" (lut_src_col self) in
  let? instances := lut_column lut src_col in
  let? seg_col := get_attribute "lut_seg_col" (lut_seg_col self) in
  let? segments := lut_column lut seg_col in
  Ok (np_select (map (fun v => v =? Z.of_nat src_ind) instances) segments).


(** ** The samples an object stores *)

(** A pixel array whose data fill its shape and, for an integer dtype, whose
    samples are values of its dtype, as every numpy array is. *)
Definition pa_well_formed (p : PixelArray) : Prop :=
  match p with
  | IntPixels a =>
      List.length (arr_data a) = prod_shape (arr_shape a)
      /\ Forall (in_dtype_range (arr_dtype a)) (arr_data a)
  | FloatPixels _ sh data => List.length data = prod_shape sh
  end.

(** The native pixel data of an object that stores the given samples: bit
    packed for BINARY, one byte per sample for FRACTIONAL. *)
Definition encode_samples (self : Segmentation) (samples : list Z) : bytes :=
  match SegmentationType self with
  | BINARY => packbits_little samples
  | FRACTIONAL => tobytes np_uint8 samples
  end.

(** The pixel data of the object are the samples of its frames, frame after
    frame, with a pad byte when their length is odd. *)
Definition holds_samples (self : Segmentation) (samples : list Z) : Prop :=
  List.length samples
  = (NumberOfFrames self * (Rows self * Columns self))%nat
  /\ Forall (in_dtype_range
               match SegmentationType self with
               | BINARY => np_bool
               | FRACTIONAL => np_uint8
               end) samples
  /\ PixelData self
     = encode_samples self samples ++ pad_of (encode_samples self samples).

(** The shape of [pixel_array] of an object. *)
Definition frames_shape (self : Segmentation) : list nat :=
  (if (1 <? NumberOfFrames self)%nat then [NumberOfFrames self] else [])
  ++ [Rows self; Columns self].

(** The samples a call of [add_segments] has to store: for every described
    segment in turn, the planes of the segment whose samples do not sum to 0,
    in the order of the sorted plane indices. *)
Definition kept_samples (self : Segmentation) (pixel_array : PixelArray)
    (segment_descriptions : list SegmentDescription)
    (plane_positions : option (list PlanePositionSequence))
  : result (list Z) :=
  match _source_images self with
  | None => Raise (AttributeError "_source_images")
  | Some source_images =>
      let? pixel_array := validation self pixel_array segment_descriptions in
      let? (_, plane_positions) :=
        resolve_plane_positions source_images pixel_array plane_positions in
      let? (_, plane_sort_index) :=
        get_index_values (DimensionIndexSequence_of self) plane_positions in
      let? samples :=
        mapM (kept_planes_samples self pixel_array plane_sort_index)
          segment_descriptions in
      Ok (List.concat samples)
  end.


(** ** The source instances of an object *)

(** The identifiers [get_source_sop_instances] gives for a source image. *)
Definition source_instance_triple (img : SourceImage)
  : string * string * string :=
  (src_StudyInstanceUID img, src_SeriesInstanceUID img,
   src_SOPInstanceUID img).

(** The references of an object are those the constructor makes for the
    source images, which belong to one study and one series: the study of
    the images, and referenced series items whose items are the references
    of images of that series; every image is referenced. *)
Definition references_of (source_images : list SourceImage)
    (self : Segmentation) : Prop :=
  _source_images self = Some source_images
  /\ (forall img, In img source_images ->
        src_StudyInstanceUID img = StudyInstanceUID self)
  /\ (forall img img', In img source_images -> In img' source_images ->
        src_SeriesInstanceUID img = src_SeriesInstanceUID img')
  /\ StudiesContainingOtherReferencedInstancesSequence self = None
  /\ (forall ref_series ref,
        In ref_series (ReferencedSeriesSequence self) ->
        In ref (ReferencedInstanceSequence ref_series) ->
        exists img,
          In img source_images
          /\ ref = source_image_reference img
          /\ src_SeriesInstanceUID img = ref_SeriesInstanceUID ref_series)
  /\ (forall img, In img source_images ->
        exists ref_series,
          In ref_series (ReferencedSeriesSequence self)
          /\ In (source_image_reference img)
               (ReferencedInstanceSequence ref_series)).


(** ** The planes an object gives back *)

(** The described segments and the planes of each that [add_segments]
    keeps, in the order of the frames. *)
Definition kept_pairs (self : Segmentation) (pixel_array : PixelArray)
    (plane_sort_index : list nat)
    (segment_descriptions : list SegmentDescription)
  : list (SegmentDescription * nat) :=
  flat_map
    (fun d => map (pair d) (kept_planes self pixel_array plane_sort_index d))
    segment_descriptions.

(** The samples of the planes of a segment, as [add_segments] derives them
    from the pixel array. *)
Definition planes_data (self : Segmentation) (pixel_array : PixelArray)
    (description : SegmentDescription) : list Z :=
  match planes_of self pixel_array (SegmentNumber description) with
  | Ok (_, planes) => planes
  | Raise _ => []
  end.

(** A frame item with one source image: the given instance, without frame
    number, marked as preserving the spatial locations. *)
Definition frame_of_source (segment_number : Z) (uid : string)
    (frame_item : FrameItem) : Prop :=
  ReferencedSegmentNumber_of frame_item = segment_number
  /\ frame_source_instances_of frame_item = [uid]
  /\ frame_source_frames_of frame_item = [_NO_FRAME_REF_VALUE]
  /\ frame_locations_preserved_of frame_item = [Preserved_YES].

(** * Properties *)

(** ** The frame codec: bits and bytes *)

Lemma is_bit_cases (v : Z) : is_bit v = true -> v = 0 \/ v = 1.
Proof.
  unfold is_bit. intros H. apply orb_true_iff in H.
  destruct H as [H | H]; apply Z.eqb_eq in H; auto.
Qed.

Lemma byte_of_bits (b0 b1 b2 b3 b4 b5 b6 b7 : Z) :
  is_bit b0 = true -> is_bit b1 = true -> is_bit b2 = true ->
  is_bit b3 = true -> is_bit b4 = true -> is_bit b5 = true ->
  is_bit b6 = true -> is_bit b7 = true ->
  byte_to_bits (bits_to_byte b0 b1 b2 b3 b4 b5 b6 b7)
  = [b0; b1; b2; b3; b4; b5; b6; b7].
Proof.
  intros H0 H1 H2 H3 H4 H5 H6 H7.
  destruct (is_bit_cases _ H0), (is_bit_cases _ H1), (is_bit_cases _ H2),
    (is_bit_cases _ H3), (is_bit_cases _ H4), (is_bit_cases _ H5),
    (is_bit_cases _ H6), (is_bit_cases _ H7); subst; reflexivity.
Qed.

(** Lists whose length is a multiple of 8, eight elements at a time. *)
Lemma list_by_eight (P : list Z -> Prop) :
  P [] ->
  (forall b0 b1 b2 b3 b4 b5 b6 b7 rest,
      P rest -> P (b0 :: b1 :: b2 :: b3 :: b4 :: b5 :: b6 :: b7 :: rest)) ->
  forall l, (List.length l mod 8 = 0)%nat -> P l.
Proof.
  intros Hnil Hcons l Hl.
  assert (Hn : exists n, List.length l = (8 * n)%nat).
  { exists (List.length l / 8)%nat.
    pose proof (Nat.div_mod_eq (List.length l) 8). lia. }
  destruct Hn as [n Hn]. clear Hl. revert l Hn.
  induction n as [| n IH]; intros l Hn.
  - destruct l; [exact Hnil | discriminate].
  - do 8 (destruct l as [| ? l]; [simpl in Hn; lia |]).
    apply Hcons, IH. simpl in Hn. lia.
Qed.

Lemma unpack_bits_packbits_little (l : list Z) :
  forallb is_bit l = true -> (List.length l mod 8 = 0)%nat ->
  unpack_bits (packbits_little l) = l.
Proof.
  intros Hbits Hlen. revert Hbits.
  pattern l. apply list_by_eight; [intros _; reflexivity | | exact Hlen].
  clear l Hlen. intros b0 b1 b2 b3 b4 b5 b6 b7 rest IH Hbits.
  cbn [forallb] in Hbits.
  repeat match type of Hbits with
         | _ && _ = true => apply andb_true_iff in Hbits;
                            let H := fresh "Hb" in destruct Hbits as [H Hbits]
         end.
  change (packbits_little (b0 :: b1 :: b2 :: b3 :: b4 :: b5 :: b6 :: b7 :: rest))
    with (bits_to_byte b0 b1 b2 b3 b4 b5 b6 b7 :: packbits_little rest).
  unfold unpack_bits. cbn [flat_map].
  rewrite byte_of_bits by assumption.
  unfold unpack_bits in IH. rewrite IH by assumption. reflexivity.
Qed.

Lemma length_packbits_little (l : list Z) :
  (List.length l mod 8 = 0)%nat ->
  (8 * List.length (packbits_little l) = List.length l)%nat.
Proof.
  intros Hlen. pattern l. apply list_by_eight; [reflexivity | | exact Hlen].
  intros b0 b1 b2 b3 b4 b5 b6 b7 rest IH.
  change (packbits_little (b0 :: b1 :: b2 :: b3 :: b4 :: b5 :: b6 :: b7 :: rest))
    with (bits_to_byte b0 b1 b2 b3 b4 b5 b6 b7 :: packbits_little rest).
  simpl List.length. lia.
Qed.

Lemma length_le_bytes (w : nat) (v : Z) : List.length (le_bytes w v) = w.
Proof.
  revert v. induction w as [| w IH]; intros v; simpl; [reflexivity |].
  now rewrite IH.
Qed.

Lemma of_le_bytes_le_bytes (w : nat) (v : Z) :
  of_le_bytes (le_bytes w v) = v mod 2 ^ (8 * Z.of_nat w).
Proof.
  revert v. induction w as [| w IH]; intros v.
  - simpl. now rewrite Z.mod_1_r.
  - cbn [le_bytes of_le_bytes]. rewrite IH.
    replace (8 * Z.of_nat (S w)) with (8 + 8 * Z.of_nat w) by lia.
    rewrite Z.pow_add_r by lia.
    change (2 ^ 8) with 256.
    rewrite Z.rem_mul_r by lia. reflexivity.
Qed.

Lemma wrap_signed_mod (d : dtype) (v : Z) :
  in_dtype_range d v ->
  wrap_signed (itemsize d) (is_signed d)
    (v mod 2 ^ (8 * Z.of_nat (itemsize d))) = v.
Proof.
  unfold wrap_signed. intros Hv.
  assert (Hp : 2 ^ (8 * Z.of_nat (itemsize d))
               = 2 * 2 ^ (8 * Z.of_nat (itemsize d) - 1)).
  { rewrite <- Z.pow_succ_r by (destruct d; simpl; lia).
    f_equal. lia. }
  assert (Hpos : 0 < 2 ^ (8 * Z.of_nat (itemsize d) - 1))
    by (apply Z.pow_pos_nonneg; destruct d; simpl; lia).
  destruct (is_signed d) eqn:Hs.
  - assert (Hr : - 2 ^ (8 * Z.of_nat (itemsize d) - 1) <= v
                 < 2 ^ (8 * Z.of_nat (itemsize d) - 1))
      by (destruct d; try discriminate Hs; exact Hv).
    cbn [andb].
    destruct (Z.leb_spec (2 ^ (8 * Z.of_nat (itemsize d) - 1))
                (v mod 2 ^ (8 * Z.of_nat (itemsize d)))) as [Hge | Hlt].
    + destruct (Z_lt_le_dec v 0) as [Hneg | Hnn].
      * rewrite <- (Z.mod_add v 1) by lia.
        rewrite Z.mod_small by lia. lia.
      * rewrite Z.mod_small in Hge by lia. lia.
    + destruct (Z_lt_le_dec v 0) as [Hneg | Hnn].
      * rewrite <- (Z.mod_add v 1) in Hlt by lia.
        rewrite Z.mod_small in Hlt by lia. lia.
      * apply Z.mod_small. lia.
  - cbn [andb]. apply Z.mod_small.
    destruct d; try discriminate Hs; simpl in Hv |- *; lia.
Qed.

Lemma firstn_le_bytes (w : nat) (v : Z) (rest : bytes) :
  firstn w (le_bytes w v ++ rest) = le_bytes w v.
Proof.
  rewrite firstn_app, length_le_bytes, Nat.sub_diag. cbn [firstn].
  rewrite app_nil_r. apply firstn_all2. rewrite length_le_bytes. lia.
Qed.

Lemma skipn_le_bytes (w : nat) (v : Z) (rest : bytes) :
  skipn w (le_bytes w v ++ rest) = rest.
Proof.
  rewrite skipn_app, length_le_bytes, Nat.sub_diag. cbn [skipn].
  rewrite skipn_all2 by (rewrite length_le_bytes; lia). reflexivity.
Qed.

Lemma frombuffer_tobytes (d : dtype) (l : list Z) :
  Forall (in_dtype_range d) l ->
  frombuffer (List.length l) (itemsize d) (is_signed d) (tobytes d l) = l.
Proof.
  induction 1 as [| v l Hv _ IH]; [reflexivity |].
  unfold tobytes in *. cbn [flat_map List.length frombuffer].
  rewrite firstn_le_bytes, skipn_le_bytes.
  rewrite of_le_bytes_le_bytes, wrap_signed_mod by exact Hv.
  now rewrite IH.
Qed.

Lemma length_tobytes (d : dtype) (l : list Z) :
  List.length (tobytes d l) = (List.length l * itemsize d)%nat.
Proof.
  unfold tobytes. induction l as [| v l IH]; [reflexivity |].
  cbn [flat_map]. rewrite length_app, length_le_bytes, IH. simpl. lia.
Qed.

(** ** The frame codec: round trip *)

Lemma frombuffer_tobytes_signed (d : dtype) (signed : bool) (l : list Z) :
  Forall (in_dtype_range d) l ->
  d = np_bool \/ is_signed d = signed ->
  frombuffer (List.length l) (itemsize d) signed (tobytes d l) = l.
Proof.
  intros Hl [Hd | Hd].
  - subst d. destruct signed; [| now apply frombuffer_tobytes].
    induction Hl as [| v l Hv _ IH]; [reflexivity |].
    unfold tobytes in *. cbn [flat_map List.length frombuffer].
    rewrite firstn_le_bytes, skipn_le_bytes, of_le_bytes_le_bytes, IH.
    f_equal. simpl in Hv. unfold wrap_signed. simpl itemsize.
    change (2 ^ (8 * Z.of_nat 1)) with 256.
    change (2 ^ (8 * Z.of_nat 1 - 1)) with 128.
    rewrite Z.mod_small by lia.
    destruct (Z.leb_spec 128 v); [lia | reflexivity].
  - subst signed. now apply frombuffer_tobytes.
Qed.

Lemma pixel_dtype_of_dtype (d : dtype) (f : PixelFormat) :
  pf_bits_allocated f = 8 * Z.of_nat (itemsize d) ->
  exists d', pixel_dtype f = Ok d'
             /\ itemsize d' = itemsize d
             /\ is_signed d' = pr_signed (pf_pixel_representation f).
Proof.
  intros Hb. unfold pixel_dtype. rewrite Hb.
  destruct (pf_pixel_representation f), d; simpl;
    eexists; repeat split; reflexivity.
Qed.

Lemma itemsize_pos (d : dtype) : (0 < itemsize d)%nat.
Proof. destruct d; simpl; lia. Qed.

Lemma numpy_pixel_array_packed (rows cols : nat) (bits_stored : Z)
    (pi : PhotometricInterpretationValues) (pr : PixelRepresentationValues)
    (pc : option PlanarConfigurationValues) (data : list Z) :
  monochrome pi = true ->
  List.length data = (rows * cols)%nat ->
  forallb is_bit data = true ->
  ((rows * cols) mod 8 = 0)%nat ->
  numpy_pixel_array (mk_PixelFormat rows cols 1 1 bits_stored pi pr pc 0)
    (packbits_little data)
  = Ok (mk_ndarray np_uint8 [rows; cols] data).
Proof.
  intros Hpi Hlen Hbits Hmod.
  assert (Hpk : (8 * List.length (packbits_little data) = rows * cols)%nat)
    by (rewrite length_packbits_little; [lia | rewrite Hlen; exact Hmod]).
  unfold numpy_pixel_array, get_expected_length, get_expected_length_pixels,
    pixel_dtype, reshape_pixel_array.
  cbn [pf_rows pf_columns pf_samples_per_pixel pf_bits_allocated
       pf_photometric_interpretation pf_number_of_frames
       pf_pixel_representation pf_planar_configuration get_nr_frames].
  change (1 =? 1) with true. cbv iota.
  replace (rows * cols * 1 * 1)%nat with (rows * cols)%nat by lia.
  rewrite Hmod. change (0 =? 0)%nat with true. cbv iota.
  replace (is_ybr_full_422 pi) with false by (destruct pi; try discriminate; reflexivity).
  assert (Hexp : (rows * cols / 8 + 0 = List.length (packbits_little data))%nat).
  { rewrite <- Hpk, Nat.mul_comm, Nat.div_mul by lia. lia. }
  rewrite Hexp, Nat.eqb_refl, andb_false_r. cbn [negb rbind].
  rewrite unpack_bits_packbits_little by (rewrite ?Hlen; assumption).
  rewrite <- Hlen, firstn_all.
  change (1 <=? 1)%nat with true. cbv iota.
  replace (List.length data =? 1 * rows * cols * 1)%nat with true
    by (symmetry; apply Nat.eqb_eq; lia).
  reflexivity.
Qed.

Lemma numpy_pixel_array_bytes (rows cols : nat) (bits_allocated bits_stored : Z)
    (pi : PhotometricInterpretationValues) (pr : PixelRepresentationValues)
    (pc : option PlanarConfigurationValues) (d : dtype) (data : list Z) :
  monochrome pi = true ->
  List.length data = (rows * cols)%nat ->
  Forall (in_dtype_range d) data ->
  bits_allocated = 8 * Z.of_nat (itemsize d) ->
  d = np_bool \/ is_signed d = pr_signed pr ->
  exists d',
    numpy_pixel_array
      (mk_PixelFormat rows cols 1 bits_allocated bits_stored pi pr pc 0)
      (tobytes d data)
    = Ok (mk_ndarray d' [rows; cols] data).
Proof.
  intros Hpi Hlen Hrange Hbits Hsign.
  set (f := mk_PixelFormat rows cols 1 bits_allocated bits_stored pi pr pc 0).
  destruct (pixel_dtype_of_dtype d f Hbits) as (d' & Hd' & Hsize & Hsigned).
  exists d'.
  pose proof (itemsize_pos d) as Hpos.
  assert (Hne : (bits_allocated =? 1) = false)
    by (apply Z.eqb_neq; lia).
  assert (Hexp : get_expected_length f = List.length (tobytes d data)).
  { unfold get_expected_length, get_expected_length_pixels. subst f.
    cbn [pf_rows pf_columns pf_samples_per_pixel pf_bits_allocated
         pf_photometric_interpretation pf_number_of_frames get_nr_frames].
    rewrite Hne.
    replace (is_ybr_full_422 pi) with false
      by (destruct pi; try discriminate; reflexivity).
    rewrite length_tobytes, Hlen, Hbits.
    replace (8 * Z.of_nat (itemsize d) / 8) with (Z.of_nat (itemsize d))
      by (rewrite Z.mul_comm, Z.div_mul; lia).
    rewrite Nat2Z.id. lia. }
  unfold numpy_pixel_array. rewrite Hexp, Nat.eqb_refl, andb_false_r.
  cbn [negb]. rewrite Hd'. cbn [rbind].
  replace (pf_bits_allocated f =? 1) with false by (symmetry; exact Hne).
  rewrite firstn_all, Hsize, Hsigned.
  rewrite length_tobytes, Nat.div_mul by lia.
  rewrite frombuffer_tobytes_signed by assumption.
  unfold reshape_pixel_array. subst f.
  cbn [pf_rows pf_columns pf_samples_per_pixel pf_number_of_frames
       get_nr_frames pf_planar_configuration].
  change (1 <=? 1)%nat with true. cbv iota.
  replace (List.length data =? 1 * rows * cols * 1)%nat with true
    by (symmetry; apply Nat.eqb_eq; lia).
  reflexivity.
Qed.

(** C1, as the code has it.  For every plane of [rows] by [cols] samples
    that is valid for the pixel format and a monochrome photometric
    interpretation: with an uncompressed transfer syntax [encode_frame]
    returns a byte string and [decode_frame], called on it with the same
    transfer syntax, bit depth, photometric interpretation, pixel
    representation and planar configuration, returns an array equal to the
    plane, in the bit-packed case (one bit allocated) and in the raw case (8
    bits allocated and more).  With a compressed transfer syntax
    [encode_frame] returns what the codec registered for it makes of the
    plane, and [decode_frame] what the pixel data handler makes of the
    encapsulated bytes, both unchanged: the plane comes back when the codec
    gives it back. *)
Theorem decode_frame_encode_frame (ext : External) (array : ndarray)
    (rows cols : nat) (ts : TransferSyntax) (bits_allocated bits_stored : Z)
    (pi : PhotometricInterpretationValues) (pr : PixelRepresentationValues)
    (pc : option PlanarConfigurationValues) :
  valid_plane array rows cols bits_allocated pr ->
  monochrome pi = true ->
  (uncompressed_transfer_syntax ts = true ->
   exists data decoded,
     encode_frame ext array ts bits_allocated bits_stored pi pr pc = Ok data
     /\ decode_frame ext data ts rows cols 1 bits_allocated bits_stored pi pr
          pc
        = Ok decoded
     /\ array_equal decoded array)
  /\ (forall codec,
        registered_codec ext ts = Some codec ->
        encode_frame ext array ts bits_allocated bits_stored pi pr pc
        = codec array
        /\ forall data,
             decode_frame ext data ts rows cols 1 bits_allocated bits_stored
               pi pr pc
             = handler_pixel_array ext ts
                 (mk_PixelFormat rows cols 1 bits_allocated bits_stored pi pr
                    pc 0)
                 (encapsulate ext [data])).
Proof.
  intros (Hshape & Hrows & Hcols & Hlen & Hrange & Hfmt) Hpi.
  assert (Hrgb : is_rgb pi = false)
    by (destruct pi; try discriminate; reflexivity).
  assert (Hybr : is_ybr_full_422 pi = false)
    by (destruct pi; try discriminate; reflexivity).
  split.
  - (* native pixel data *)
    intros Hunc.
    assert (Hts : supported_transfer_syntax ts = true)
      by (destruct ts; try discriminate Hunc; reflexivity).
    unfold encode_frame, decode_frame. rewrite Hshape, Hts, Hunc.
    change (1 <? 1)%nat with false. cbn [andb negb rbind].
    assert (Hdec : forall value,
               (if is_encapsulated ts
                then match ts with
                     | JPEGBaseline =>
                         if is_rgb pi then pil_open_ycbcr ext value
                         else pixel_array_of ext ts
                                (mk_PixelFormat rows cols 1 bits_allocated
                                   bits_stored pi pr pc 0)
                                (encapsulate ext [value])
                     | _ => pixel_array_of ext ts
                              (mk_PixelFormat rows cols 1 bits_allocated
                                 bits_stored pi pr pc 0)
                              (encapsulate ext [value])
                     end
                else pixel_array_of ext ts
                       (mk_PixelFormat rows cols 1 bits_allocated bits_stored
                          pi pr pc 0) value)
               = numpy_pixel_array
                   (mk_PixelFormat rows cols 1 bits_allocated bits_stored
                      pi pr pc 0) value).
    { intros value.
      destruct ts; try discriminate Hunc; cbn; rewrite Hybr; reflexivity. }
    destruct (bits_allocated =? 1) eqn:Hone.
    + destruct Hfmt as [Hbits Hmod].
      apply Z.eqb_eq in Hone. subst bits_allocated.
      replace (rows * cols * 1)%nat with (rows * cols)%nat by lia.
      rewrite Hmod. change (0 =? 0)%nat with true. cbv iota.
      unfold pack_bits. rewrite Hbits.
      eexists. eexists. split; [reflexivity |]. rewrite Hdec.
      rewrite numpy_pixel_array_packed by assumption.
      split; [reflexivity |]. split; [symmetry; exact Hshape | reflexivity].
    + destruct Hfmt as [Hbits Hsign].
      destruct (numpy_pixel_array_bytes rows cols bits_allocated bits_stored
                  pi pr pc (arr_dtype array) (arr_data array)
                  Hpi Hlen Hrange Hbits Hsign) as [d' Hd'].
      eexists. eexists. split; [reflexivity |]. rewrite Hdec, Hd'.
      split; [reflexivity |]. split; [symmetry; exact Hshape | reflexivity].
  - (* a registered codec *)
    intros codec Hcodec. unfold encode_frame, decode_frame. rewrite Hshape.
    change (1 <? 1)%nat with false. cbn [andb negb rbind].
    destruct ts; try discriminate Hcodec; injection Hcodec as <-;
      cbn; rewrite ?Hrgb; split; reflexivity.
Qed.

Ltac valid_plane_by_computation :=
  unfold valid_plane; simpl;
  repeat split; try lia; try reflexivity;
  try (repeat constructor; simpl; lia); try (right; reflexivity).

Lemma decode_frame_encode_frame_witness :
  (exists data decoded,
      encode_frame plain_codecs
        (mk_ndarray np_bool [2; 4]%nat [1; 0; 0; 1; 0; 0; 0; 1])
        ExplicitVRLittleEndian 1 1 MONOCHROME2 UNSIGNED_INTEGER None = Ok data
      /\ decode_frame plain_codecs data ExplicitVRLittleEndian 2 4 1 1 1
           MONOCHROME2 UNSIGNED_INTEGER None = Ok decoded
      /\ array_equal decoded
           (mk_ndarray np_bool [2; 4]%nat [1; 0; 0; 1; 0; 0; 0; 1]))
  /\ (exists data decoded,
         encode_frame plain_codecs
           (mk_ndarray np_uint8 [2; 3]%nat [0; 255; 7; 128; 64; 1])
           ImplicitVRLittleEndian 8 8 MONOCHROME2 UNSIGNED_INTEGER None
         = Ok data
         /\ decode_frame plain_codecs data ImplicitVRLittleEndian 2 3 1 8 8
              MONOCHROME2 UNSIGNED_INTEGER None = Ok decoded
         /\ array_equal decoded
              (mk_ndarray np_uint8 [2; 3]%nat [0; 255; 7; 128; 64; 1])).
Proof.
  split.
  - apply (decode_frame_encode_frame plain_codecs
             (mk_ndarray np_bool [2; 4]%nat [1; 0; 0; 1; 0; 0; 0; 1]) 2 4
             ExplicitVRLittleEndian 1 1 MONOCHROME2 UNSIGNED_INTEGER None);
      [ | reflexivity | reflexivity ].
    valid_plane_by_computation.
  - apply (decode_frame_encode_frame plain_codecs
             (mk_ndarray np_uint8 [2; 3]%nat [0; 255; 7; 128; 64; 1]) 2 3
             ImplicitVRLittleEndian 8 8 MONOCHROME2 UNSIGNED_INTEGER None);
      [ | reflexivity | reflexivity ].
    valid_plane_by_computation.
Defined.

(** C1 as stated fails for a compressed transfer syntax: [encode_frame] and
    [decode_frame] leave the samples to the codec and nothing in them makes
    up for a codec that loses information, as the JPEG baseline process
    does.  With a JPEG codec that drops the lowest bit of every sample the
    plane 0, 255, 7, 128, 64, 1 comes back as 0, 254, 6, 128, 64, 0. *)
Lemma decode_frame_encode_frame_lossy :
  valid_plane (mk_ndarray np_uint8 [2; 3]%nat [0; 255; 7; 128; 64; 1]) 2 3 8
    UNSIGNED_INTEGER
  /\ exists data decoded,
       encode_frame lossy_jpeg_codecs
         (mk_ndarray np_uint8 [2; 3]%nat [0; 255; 7; 128; 64; 1])
         JPEGBaseline 8 8 MONOCHROME2 UNSIGNED_INTEGER None = Ok data
       /\ decode_frame lossy_jpeg_codecs data JPEGBaseline 2 3 1 8 8
            MONOCHROME2 UNSIGNED_INTEGER None = Ok decoded
       /\ arr_data decoded = [0; 254; 6; 128; 64; 0]
       /\ ~ array_equal decoded
              (mk_ndarray np_uint8 [2; 3]%nat [0; 255; 7; 128; 64; 1]).
Proof.
  split; [valid_plane_by_computation |].
  eexists. eexists. split; [reflexivity |].
  split; [vm_compute; reflexivity |]. split; [reflexivity |].
  intros [_ H]. discriminate H.
Qed.

(** ** The dimension index: [np.unique] over the position vectors *)

Section LexOrder.

Lemma lex_compare_eq (a b : list Z) : lex_compare a b = Eq <-> a = b.
Proof.
  revert b. induction a as [| x a IH]; intros [| y b]; simpl;
    try (split; [discriminate | discriminate]); [tauto |].
  destruct (Z.compare_spec x y) as [Hxy | Hxy | Hxy].
  - subst y. rewrite IH. split; [intros ->; reflexivity | now inversion 1].
  - split; [discriminate | inversion 1; lia].
  - split; [discriminate | inversion 1; lia].
Qed.

Lemma lex_compare_refl (a : list Z) : lex_compare a a = Eq.
Proof. now apply lex_compare_eq. Qed.

Lemma lex_compare_antisym (a b : list Z) :
  lex_compare b a = CompOpp (lex_compare a b).
Proof.
  revert b. induction a as [| x a IH]; intros [| y b]; simpl; try reflexivity.
  rewrite (Z.compare_antisym x y).
  destruct (x ?= y); simpl; auto.
Qed.

Lemma lex_compare_trans (a b c : list Z) :
  lex_compare a b = Lt -> lex_compare b c = Lt -> lex_compare a c = Lt.
Proof.
  revert b c. induction a as [| x a IH]; intros [| y b] [| z c]; simpl;
    try discriminate; try reflexivity.
  destruct (Z.compare_spec x y) as [Hxy | Hxy | Hxy]; try discriminate;
    destruct (Z.compare_spec y z) as [Hyz | Hyz | Hyz]; try discriminate;
    intros H1 H2.
  - subst. rewrite Z.compare_refl. eauto.
  - subst. now apply Z.compare_lt_iff in Hyz as ->.
  - subst. now apply Z.compare_lt_iff in Hxy as ->.
  - assert (Hxz : x < z) by lia. now apply Z.compare_lt_iff in Hxz as ->.
Qed.

Lemma row_leb_cases (a b : list Z) :
  row_leb a b = true <-> lex_compare a b = Lt \/ a = b.
Proof.
  unfold row_leb. rewrite <- lex_compare_eq.
  destruct (lex_compare a b); split; auto; try discriminate.
  intros [H | H]; discriminate.
Qed.

Lemma row_leb_false (a b : list Z) :
  row_leb a b = false -> lex_compare b a = Lt.
Proof.
  unfold row_leb. rewrite (lex_compare_antisym a b).
  destruct (lex_compare a b); simpl; auto; discriminate.
Qed.

Lemma row_eqb_eq (a b : list Z) : row_eqb a b = true <-> a = b.
Proof.
  unfold row_eqb. rewrite <- lex_compare_eq.
  destruct (lex_compare a b); split; auto; discriminate.
Qed.

Lemma lex_compare_lt_irrefl (a : list Z) : lex_compare a a <> Lt.
Proof. rewrite lex_compare_refl. discriminate. Qed.

End LexOrder.

Lemma entry_lt_trans (x y z : list Z * nat) :
  entry_lt x y -> entry_lt y z -> entry_lt x z.
Proof.
  unfold entry_lt. intros [Hxy | [Hxy Hi]] [Hyz | [Hyz Hj]].
  - left. eapply lex_compare_trans; eauto.
  - left. now rewrite <- Hyz.
  - left. now rewrite Hxy.
  - right. split; [congruence | lia].
Qed.

Lemma in_insert_row (x z : list Z * nat) (l : list (list Z * nat)) :
  In z (insert_row x l) <-> z = x \/ In z l.
Proof.
  induction l as [| y l IH]; simpl.
  - intuition.
  - destruct (row_leb (fst x) (fst y)); simpl; rewrite ?IH; intuition.
Qed.

Lemma insert_row_sorted (x : list Z * nat) (l : list (list Z * nat)) :
  StronglySorted entry_lt l ->
  Forall (fun y => (snd x < snd y)%nat) l ->
  StronglySorted entry_lt (insert_row x l).
Proof.
  intros Hs Hx. induction Hs as [| y l Hs IH Hy]; simpl.
  - repeat constructor.
  - inversion Hx as [| ? ? Hxy Hxl]; subst.
    destruct (row_leb (fst x) (fst y)) eqn:Hle.
    + assert (Hlt : entry_lt x y).
      { apply row_leb_cases in Hle. destruct Hle; [left | right]; auto. }
      constructor; [constructor; assumption |].
      constructor; [exact Hlt |].
      eapply Forall_impl; [| exact Hy].
      intros z Hz. eapply entry_lt_trans; eauto.
    + constructor; [auto |].
      apply Forall_forall. intros z Hz. apply in_insert_row in Hz.
      destruct Hz as [-> | Hz].
      * left. now apply row_leb_false.
      * rewrite Forall_forall in Hy. auto.
Qed.

Lemma in_combine_seq (rows : list (list Z)) (start : nat) (r : list Z) (i : nat) :
  In (r, i) (combine rows (seq start (List.length rows)))
  <-> (start <= i)%nat /\ nth_error rows (i - start) = Some r.
Proof.
  revert start. induction rows as [| r0 rows IH]; intros start; simpl.
  - split; [tauto |]. intros [_ H]. destruct (i - start)%nat; discriminate.
  - rewrite IH. split.
    + intros [H | [Hle H]].
      * inversion H; subst. rewrite Nat.sub_diag. auto.
      * split; [lia |].
        replace (i - start)%nat with (S (i - S start)) by lia. exact H.
    + intros [Hle H]. destruct (i - start)%nat as [| k] eqn:Hk.
      * left. inversion H; subst. f_equal. lia.
      * right. split; [lia |].
        replace (i - S start)%nat with k by lia. exact H.
Qed.

Lemma fold_insert_row_sorted (entries : list (list Z * nat)) :
  StronglySorted (fun x y => (snd x < snd y)%nat) entries ->
  StronglySorted entry_lt (fold_right insert_row [] entries)
  /\ forall z, In z (fold_right insert_row [] entries) <-> In z entries.
Proof.
  induction 1 as [| x l Hs [IHs IHin] Hx]; simpl.
  - split; [constructor | tauto].
  - split.
    + apply insert_row_sorted; [exact IHs |].
      apply Forall_forall. intros y Hy. apply IHin in Hy.
      rewrite Forall_forall in Hx. auto.
    + intros z. rewrite in_insert_row, IHin. intuition.
Qed.

Lemma combine_seq_sorted (rows : list (list Z)) (start : nat) :
  StronglySorted (fun x y : list Z * nat => (snd x < snd y)%nat)
    (combine rows (seq start (List.length rows))).
Proof.
  revert start. induction rows as [| r rows IH]; intros start; simpl.
  - constructor.
  - constructor; [apply IH |].
    apply Forall_forall. intros [r' i] Hin. apply in_combine_seq in Hin.
    simpl. lia.
Qed.

Lemma stable_argsort_spec (rows : list (list Z)) :
  StronglySorted entry_lt (stable_argsort rows)
  /\ forall r i, In (r, i) (stable_argsort rows) <-> nth_error rows i = Some r.
Proof.
  unfold stable_argsort.
  destruct (fold_insert_row_sorted _ (combine_seq_sorted rows 0)) as [Hs Hin].
  split; [exact Hs |].
  intros r i. rewrite Hin, in_combine_seq, Nat.sub_0_r.
  split; [tauto | intros H; split; [lia | exact H]].
Qed.

Lemma above_tail (r : list Z) (i : nat) (l : list (list Z * nat)) :
  StronglySorted entry_lt ((r, i) :: l) -> above (Some r) l.
Proof.
  intros Hs p Hp. inversion Hp; subst p. inversion Hs as [| ? ? _ Hr]; subst.
  eapply Forall_impl; [| exact Hr]. intros x Hx. apply row_leb_cases.
  destruct Hx as [Hx | [Hx _]]; auto.
Qed.

Lemma above_head (prev : option (list Z)) (r : list Z) (i : nat)
    (l : list (list Z * nat)) (p : list Z) :
  above prev ((r, i) :: l) -> prev = Some p -> lex_compare p r = Lt \/ p = r.
Proof.
  intros Hprev Hp. specialize (Hprev p Hp). inversion Hprev; subst.
  now apply row_leb_cases.
Qed.

Lemma mask_changes_keep (prev : option (list Z)) (r : list Z) (i : nat)
    (l : list (list Z * nat)) :
  prev <> Some r ->
  mask_changes prev ((r, i) :: l) = (r, i) :: mask_changes (Some r) l.
Proof.
  intros Hne. simpl. destruct prev as [p |]; [| reflexivity].
  destruct (row_eqb r p) eqn:He; [| reflexivity].
  apply row_eqb_eq in He. subst p. now elim Hne.
Qed.

Lemma mask_changes_skip (r : list Z) (i : nat) (l : list (list Z * nat)) :
  mask_changes (Some r) ((r, i) :: l) = mask_changes (Some r) l.
Proof.
  simpl. now rewrite (proj2 (row_eqb_eq r r) eq_refl).
Qed.

Lemma option_row_dec (prev : option (list Z)) (r : list Z) :
  prev = Some r \/ prev <> Some r.
Proof.
  destruct prev as [p |]; [| right; discriminate].
  destruct (row_eqb r p) eqn:He.
  - apply row_eqb_eq in He. subst. now left.
  - right. intros H. inversion H; subst.
    rewrite (proj2 (row_eqb_eq r r) eq_refl) in He. discriminate.
Qed.

Lemma mask_changes_sorted (l : list (list Z * nat)) :
  StronglySorted entry_lt l ->
  forall prev, above prev l ->
    StronglySorted (fun x y => lex_compare (fst x) (fst y) = Lt)
      (mask_changes prev l)
    /\ (forall p, prev = Some p ->
          Forall (fun x => lex_compare p (fst x) = Lt) (mask_changes prev l)).
Proof.
  induction l as [| [r i] l IH]; intros Hs prev Hprev.
  - simpl. split; [constructor | intros; constructor].
  - pose proof (above_tail _ _ _ Hs) as Htail.
    assert (Hs' : StronglySorted entry_lt l) by (now inversion Hs).
    destruct (IH Hs' (Some r) Htail) as [IHs IHp].
    specialize (IHp r eq_refl).
    destruct (option_row_dec prev r) as [-> | Hne].
    + rewrite mask_changes_skip. split; [exact IHs |].
      intros p Hp. inversion Hp; subst. exact IHp.
    + rewrite mask_changes_keep by exact Hne. split.
      * constructor; assumption.
      * intros p Hp.
        destruct (above_head _ _ _ _ _ Hprev Hp) as [Hlt | ->];
          [| now elim Hne].
        constructor; [exact Hlt |].
        eapply Forall_impl; [| exact IHp].
        intros x Hx. eapply lex_compare_trans; eauto.
Qed.

Lemma mask_changes_first (l : list (list Z * nat)) :
  StronglySorted entry_lt l ->
  forall prev, above prev l ->
  forall x, In x (mask_changes prev l) ->
    In x l /\ prev <> Some (fst x)
    /\ forall y, In y l -> fst y = fst x -> (snd x <= snd y)%nat.
Proof.
  induction l as [| [r i] l IH]; intros Hs prev Hprev x Hx.
  - destruct Hx.
  - pose proof (above_tail _ _ _ Hs) as Htail.
    assert (Hs' : StronglySorted entry_lt l) by (now inversion Hs).
    assert (Hr : Forall (entry_lt (r, i)) l) by (now inversion Hs).
    rewrite Forall_forall in Hr.
    destruct (mask_changes_sorted l Hs' (Some r) Htail) as [_ Hlt].
    specialize (Hlt r eq_refl). rewrite Forall_forall in Hlt.
    assert (Hrest : In x (mask_changes (Some r) l) ->
              In x ((r, i) :: l) /\ prev <> Some (fst x)
              /\ forall y, In y ((r, i) :: l) -> fst y = fst x ->
                           (snd x <= snd y)%nat).
    { intros Hx'. destruct (IH Hs' (Some r) Htail x Hx') as (Hin & _ & Hmin).
      specialize (Hlt x Hx').
      split; [now right |]. split.
      - intros Hp.
        destruct (above_head _ _ _ _ _ Hprev Hp) as [Hlt' | Heq].
        + eapply lex_compare_lt_irrefl, lex_compare_trans; eauto.
        + rewrite Heq in Hlt. eapply lex_compare_lt_irrefl; eauto.
      - intros y [<- | Hy] Hfst; [| auto].
        simpl in Hfst. rewrite <- Hfst in Hlt.
        exfalso. eapply lex_compare_lt_irrefl; eauto. }
    destruct (option_row_dec prev r) as [-> | Hne].
    + rewrite mask_changes_skip in Hx. auto.
    + rewrite mask_changes_keep in Hx by exact Hne.
      destruct Hx as [<- | Hx]; [| auto].
      split; [now left |]. split; [exact Hne |].
      intros y [<- | Hy] Hfst; [simpl; lia |].
      destruct (Hr y Hy) as [Hlt' | [_ Hlt']]; simpl in *; [| lia].
      rewrite Hfst in Hlt'. exfalso. eapply lex_compare_lt_irrefl; eauto.
Qed.

Lemma mask_changes_covers (l : list (list Z * nat)) :
  forall prev y, In y l ->
    prev = Some (fst y)
    \/ exists x, In x (mask_changes prev l) /\ fst x = fst y.
Proof.
  induction l as [| [r i] l IH]; intros prev y Hy; [destruct Hy |].
  destruct (option_row_dec prev r) as [-> | Hne].
  - rewrite mask_changes_skip. destruct Hy as [<- | Hy]; [now left |].
    apply IH. exact Hy.
  - rewrite mask_changes_keep by exact Hne. right.
    destruct Hy as [<- | Hy].
    + exists (r, i). split; [now left | reflexivity].
    + destruct (IH (Some r) y Hy) as [Heq | (x & Hx & Hfx)].
      * exists (r, i). split; [now left |]. simpl. now inversion Heq.
      * exists x. split; [now right | exact Hfx].
Qed.

Lemma StronglySorted_map {A B : Type} (R : A -> A -> Prop) (R' : B -> B -> Prop)
    (f : A -> B) (l : list A) :
  (forall x y, In x l -> In y l -> R x y -> R' (f x) (f y)) ->
  StronglySorted R l -> StronglySorted R' (map f l).
Proof.
  intros Hf Hs. induction Hs as [| x l Hs IH Hx]; simpl; constructor.
  - apply IH. intros a b Ha Hb. apply Hf; now right.
  - rewrite Forall_forall in *. intros b Hb. apply in_map_iff in Hb.
    destruct Hb as (y & <- & Hy). apply Hf; [now left | now right | auto].
Qed.

Lemma StronglySorted_NoDup {A : Type} (R : A -> A -> Prop) (l : list A) :
  (forall x, ~ R x x) -> StronglySorted R l -> NoDup l.
Proof.
  intros Hirr Hs. induction Hs as [| x l Hs IH Hx]; constructor; [| exact IH].
  intros Hin. rewrite Forall_forall in Hx. exact (Hirr x (Hx x Hin)).
Qed.

(** The indices [np.unique] returns: the first occurrence of every row, in
    the ascending order of the rows. *)
Lemma np_unique_rows_indices (rows : list (list Z)) :
  let idx := snd (np_unique_rows rows) in
  let row i := nth i rows [] in
  (forall i, In i idx ->
     (i < List.length rows)%nat /\ forall j, (j < i)%nat -> row j <> row i)
  /\ (forall j, (j < List.length rows)%nat ->
        exists i, In i idx /\ row i = row j)
  /\ StronglySorted (fun i k => lex_compare (row i) (row k) = Lt) idx
  /\ fst (np_unique_rows rows) = map row idx.
Proof.
  unfold np_unique_rows. cbn [fst snd].
  destruct (stable_argsort_spec rows) as [Hsorted Hin].
  assert (Habove : above None (stable_argsort rows)) by (intros p Hp; discriminate).
  pose proof (mask_changes_first _ Hsorted None Habove) as Hfirst.
  pose proof (mask_changes_covers (stable_argsort rows) None) as Hcov.
  destruct (mask_changes_sorted _ Hsorted None Habove) as [Hkept _].
  set (kept := mask_changes None (stable_argsort rows)) in *.
  assert (Hrow : forall x, In x kept -> nth (snd x) rows [] = fst x
                                        /\ (snd x < List.length rows)%nat).
  { intros [r i] Hx. destruct (Hfirst _ Hx) as (Hx' & _).
    apply Hin in Hx'. simpl. split.
    - now apply nth_error_nth.
    - apply nth_error_Some. congruence. }
  repeat split.
  - apply in_map_iff in H. destruct H as (x & <- & Hx). now apply Hrow.
  - intros j Hj Heq. apply in_map_iff in H. destruct H as ([r i'] & <- & Hx).
    simpl in *. destruct (Hfirst _ Hx) as (_ & _ & Hmin).
    destruct (Hrow _ Hx) as [Hr Hi]. simpl in *.
    assert (Hjn : In (nth j rows [], j) (stable_argsort rows)).
    { apply Hin. apply nth_error_nth'. lia. }
    specialize (Hmin _ Hjn). simpl in Hmin. rewrite Hr in Heq.
    specialize (Hmin Heq). lia.
  - intros j Hj.
    assert (Hjn : In (nth j rows [], j) (stable_argsort rows)).
    { apply Hin. apply nth_error_nth'. lia. }
    destruct (Hcov _ Hjn) as [Hnone | (x & Hx & Hfx)]; [discriminate |].
    exists (snd x). split; [now apply in_map |].
    destruct (Hrow _ Hx) as [Hr _]. simpl in Hfx. congruence.
  - eapply StronglySorted_map; [| exact Hkept].
    intros x y Hx Hy Hlt. simpl.
    destruct (Hrow _ Hx) as [-> _]. destruct (Hrow _ Hy) as [-> _]. exact Hlt.
  - rewrite map_map. apply map_ext_in. intros x Hx.
    destruct (Hrow _ Hx) as [Hr _]. now rewrite Hr.
Qed.

Lemma np_unique_rows_permutation (rows : list (list Z)) :
  NoDup rows ->
  Permutation (snd (np_unique_rows rows)) (seq 0 (List.length rows)).
Proof.
  intros Hnd.
  destruct (np_unique_rows_indices rows) as (Hfirst & Hcov & Hsorted & _).
  apply NoDup_Permutation.
  - eapply StronglySorted_NoDup; [| exact Hsorted].
    intros x. apply lex_compare_lt_irrefl.
  - apply seq_NoDup.
  - intros i. rewrite in_seq. split.
    + intros Hi. destruct (Hfirst _ Hi). lia.
    + intros [_ Hi]. simpl in Hi. destruct (Hcov _ Hi) as (k & Hk & Heq).
      destruct (Hfirst _ Hk) as [Hkn _].
      rewrite NoDup_nth in Hnd. rewrite (Hnd k i Hkn Hi Heq) in Hk. exact Hk.
Qed.

Lemma np_unique_rows_length (rows : list (list Z)) :
  (List.length (snd (np_unique_rows rows)) <= List.length rows)%nat.
Proof.
  destruct (np_unique_rows_indices rows) as (Hfirst & _ & Hsorted & _).
  replace (List.length rows) with (List.length (seq 0%nat (List.length rows)))
    by apply length_seq.
  apply NoDup_incl_length.
  - eapply StronglySorted_NoDup; [| exact Hsorted].
    intros x. apply lex_compare_lt_irrefl.
  - intros i Hi. apply in_seq. destruct (Hfirst _ Hi). lia.
Qed.

Lemma mapM_Forall2 {A B : Type} (f : A -> result B) (l : list A) (ys : list B) :
  mapM f l = Ok ys <-> Forall2 (fun x y => f x = Ok y) l ys.
Proof.
  revert ys. induction l as [| x l IH]; intros ys; simpl.
  - split; [intros H; inversion H; constructor | inversion 1; reflexivity].
  - destruct (f x) as [y | e] eqn:Hx; simpl.
    + destruct (mapM f l) as [ys' | e] eqn:Hl; simpl.
      * split.
        -- intros H. inversion H; subst. constructor; [exact Hx |].
           now apply IH.
        -- inversion 1; subst. f_equal.
           assert (y0 = y) by congruence. subst.
           assert (Ok ys' = Ok l') by (now apply IH). congruence.
      * split; [discriminate |]. inversion 1; subst.
        assert (Raise e = Ok l') by (now apply IH). discriminate.
    + split; [discriminate |]. inversion 1; congruence.
Qed.

Lemma mapM_total {A B : Type} (f : A -> result B) (l : list A) :
  Forall (fun x => exists y, f x = Ok y) l -> exists ys, mapM f l = Ok ys.
Proof.
  induction 1 as [| x l [y Hy] _ [ys IH]]; simpl.
  - now exists [].
  - rewrite Hy, IH. now exists (y :: ys).
Qed.

(** C3, as the code has it.  For every list of plane positions that carry the
    indexed attributes, [get_index_values] returns the value vectors of the
    planes and a list of plane indices that holds, for every distinct value
    vector, the index of the first plane that has it, in the strictly ascending
    lexicographic order of the vectors.  Every plane has its vector
    represented; a plane whose position repeats an earlier one has no index of
    its own, so that the list is no longer than the planes, and it is a
    permutation of all plane indices when the vectors are pairwise
    different. *)
Theorem get_index_values_first_occurrences (self : list Keyword)
    (plane_positions : list PlanePositionSequence) :
  Forall (fun p => Forall (fun k => exists v, get_value p k = Ok v) (tl self))
    plane_positions ->
  exists values idx,
    get_index_values self plane_positions = Ok (values, idx)
    /\ Forall2 (fun p vs => mapM (get_value p) (tl self) = Ok vs)
         plane_positions values
    /\ let row i := nth i (map (@List.concat Z) values) [] in
       (forall i, In i idx ->
          (i < List.length plane_positions)%nat
          /\ forall j, (j < i)%nat -> row j <> row i)
       /\ (forall j, (j < List.length plane_positions)%nat ->
             exists i, In i idx /\ row i = row j)
       /\ StronglySorted (fun i k => lex_compare (row i) (row k) = Lt) idx
       /\ (List.length idx <= List.length plane_positions)%nat
       /\ (NoDup (map (@List.concat Z) values) ->
           Permutation idx (seq 0 (List.length plane_positions))).
Proof.
  intros Hattrs.
  assert (Hvalues : exists values,
             mapM (fun p => mapM (get_value p) (tl self)) plane_positions
             = Ok values).
  { apply mapM_total. eapply Forall_impl; [| exact Hattrs].
    intros p Hp. now apply mapM_total. }
  destruct Hvalues as [values Hvalues].
  unfold get_index_values. rewrite Hvalues. cbn [rbind].
  pose proof (np_unique_rows_indices (map (@List.concat Z) values))
    as (Hfirst & Hcov & Hsorted & _).
  pose proof (np_unique_rows_permutation (map (@List.concat Z) values)) as Hperm.
  pose proof (np_unique_rows_length (map (@List.concat Z) values)) as Hlen.
  destruct (np_unique_rows (map (@List.concat Z) values)) as [urows idx].
  cbn [snd] in *.
  apply mapM_Forall2 in Hvalues.
  assert (Hn : List.length (map (@List.concat Z) values)
               = List.length plane_positions).
  { rewrite length_map. symmetry. eapply Forall2_length; eauto. }
  rewrite Hn in *.
  exists values, idx. repeat split; auto.
  - now apply Hfirst.
  - now apply Hfirst.
Qed.

Lemma get_index_values_witness :
  let self := DimensionIndexSequence PATIENT in
  let plane_positions :=
    [ [(ImagePositionPatient, [0; 0; 5])];
      [(ImagePositionPatient, [0; 0; 2])];
      [(ImagePositionPatient, [0; 0; 5])] ] in
  Forall (fun p => Forall (fun k => exists v, get_value p k = Ok v) (tl self))
    plane_positions
  /\ exists values idx,
      get_index_values self plane_positions = Ok (values, idx)
      /\ Forall2 (fun p vs => mapM (get_value p) (tl self) = Ok vs)
           plane_positions values
      /\ let row i := nth i (map (@List.concat Z) values) [] in
         (forall i, In i idx ->
            (i < List.length plane_positions)%nat
            /\ forall j, (j < i)%nat -> row j <> row i)
         /\ (forall j, (j < List.length plane_positions)%nat ->
               exists i, In i idx /\ row i = row j)
         /\ StronglySorted (fun i k => lex_compare (row i) (row k) = Lt) idx
         /\ (List.length idx <= List.length plane_positions)%nat
         /\ (NoDup (map (@List.concat Z) values) ->
             Permutation idx (seq 0 (List.length plane_positions))).
Proof.
  intros self plane_positions.
  assert (H : Forall
                (fun p => Forall (fun k => exists v, get_value p k = Ok v)
                            (tl self)) plane_positions).
  { repeat constructor; eexists; reflexivity. }
  split; [exact H |].
  exact (get_index_values_first_occurrences self plane_positions H).
Defined.

(** C3 as stated fails: of two planes at one position, only the first gets an
    index. *)
Lemma get_index_values_repeated_position :
  let p := [(ImagePositionPatient, [0; 0; 0])] in
  exists values idx,
    get_index_values (DimensionIndexSequence PATIENT) [p; p] = Ok (values, idx)
    /\ idx = [0%nat]
    /\ List.length idx <> List.length [p; p]
    /\ ~ In 1%nat idx.
Proof.
  eexists. eexists. split; [reflexivity |].
  split; [reflexivity |]. split; [discriminate |].
  intros [H | []]. discriminate.
Qed.

(** ** Reasoning about methods *)

Section Methods.

Context {A B T : Type}.

Lemma bind_returns_inv (m : M A) (k : A -> M B) (self self' : Segmentation)
    (b : B) :
  bind m k self = (self', Ok b) ->
  exists self1 a, m self = (self1, Ok a) /\ k a self1 = (self', Ok b).
Proof.
  unfold bind. destruct (m self) as [self1 [a | e]]; [eauto | discriminate].
Qed.

Lemma preserves_ret (f : Segmentation -> T) (a : A) : preserves f (ret a).
Proof. intros self. reflexivity. Qed.

Lemma preserves_raise (f : Segmentation -> T) (e : exn) :
  preserves f (@raise A e).
Proof. intros self. reflexivity. Qed.

Lemma preserves_lift (f : Segmentation -> T) (r : result A) :
  preserves f (lift r).
Proof. intros self. reflexivity. Qed.

Lemma preserves_bind (f : Segmentation -> T) (m : M A) (k : A -> M B) :
  preserves f m -> (forall a, preserves f (k a)) -> preserves f (bind m k).
Proof.
  intros Hm Hk self. unfold bind. specialize (Hm self).
  destruct (m self) as [self1 [a | e]]; simpl in *; [| exact Hm].
  now rewrite Hk.
Qed.

Lemma returns_ret (P : Segmentation -> Prop) (a : A)
    (Q : A -> Segmentation -> Prop) :
  (forall self, P self -> Q a self) -> returns P (ret a) Q.
Proof. intros H self HP self' a' Heq. inversion Heq; subst. auto. Qed.

Lemma returns_raise (P : Segmentation -> Prop) (e : exn)
    (Q : A -> Segmentation -> Prop) :
  returns P (raise e) Q.
Proof. intros self _ self' a Heq. discriminate. Qed.

Lemma returns_lift (P : Segmentation -> Prop) (r : result A)
    (Q : A -> Segmentation -> Prop) :
  (forall self a, P self -> r = Ok a -> Q a self) -> returns P (lift r) Q.
Proof. intros H self HP self' a Heq. inversion Heq; subst. auto. Qed.

Lemma returns_bind (P : Segmentation -> Prop) (m : M A) (k : A -> M B)
    (R : A -> Segmentation -> Prop) (Q : B -> Segmentation -> Prop) :
  returns P m R -> (forall a, returns (R a) (k a) Q) -> returns P (bind m k) Q.
Proof.
  intros Hm Hk self HP self' b Heq.
  apply bind_returns_inv in Heq. destruct Heq as (self1 & a & H1 & H2).
  eapply Hk; eauto.
Qed.

Lemma returns_bind_last (P : Segmentation -> Prop) (m : M A) (k : A -> M B)
    (Q : B -> Segmentation -> Prop) :
  (forall a, returns (fun _ => True) (k a) Q) -> returns P (bind m k) Q.
Proof.
  intros Hk. apply returns_bind with (R := fun _ _ => True); [| exact Hk].
  intros self _ self' a _. exact I.
Qed.

Lemma returns_weaken (P P' : Segmentation -> Prop) (m : M A)
    (Q Q' : A -> Segmentation -> Prop) :
  returns P m Q -> (forall self, P' self -> P self) ->
  (forall a self, Q a self -> Q' a self) -> returns P' m Q'.
Proof. intros H HP HQ self HP' self' a Heq. eapply HQ, H; eauto. Qed.

End Methods.

Lemma preserves_get_self {T : Type} (f : Segmentation -> T) :
  preserves f get_self.
Proof. intros self. reflexivity. Qed.

Lemma preserves_update {T : Type} (f : Segmentation -> T)
    (g : Segmentation -> Segmentation) :
  (forall self, f (g self) = f self) -> preserves f (update g).
Proof. intros H self. apply H. Qed.

Lemma preserves_foldM {A S T : Type} (f : Segmentation -> T)
    (body : S -> A -> M S) (l : list A) :
  (forall acc x, preserves f (body acc x)) ->
  forall acc, preserves f (foldM body acc l).
Proof.
  intros Hbody. induction l as [| x l IH]; intros acc; simpl.
  - apply preserves_ret.
  - apply preserves_bind; [apply Hbody | intros acc'; apply IH].
Qed.

Lemma returns_get_self (P : Segmentation -> Prop)
    (Q : Segmentation -> Segmentation -> Prop) :
  (forall self, P self -> Q self self) -> returns P get_self Q.
Proof. intros H self HP self' a Heq. inversion Heq; subst. auto. Qed.

Lemma returns_update (P : Segmentation -> Prop)
    (g : Segmentation -> Segmentation) (Q : unit -> Segmentation -> Prop) :
  (forall self, P self -> Q tt (g self)) -> returns P (update g) Q.
Proof. intros H self HP self' a Heq. inversion Heq; subst. auto. Qed.

(** Goals [preserves f m] for a method made of the combinators, where every
    assignment leaves [f] as it is by computation. *)
Ltac preserves_step :=
  match goal with
  | |- preserves _ (bind _ _) => apply preserves_bind; [| intros ?]
  | |- preserves _ (ret _) => apply preserves_ret
  | |- preserves _ (raise _) => apply preserves_raise
  | |- preserves _ (lift _) => apply preserves_lift
  | |- preserves _ get_self => apply preserves_get_self
  | |- preserves _ (update _) => apply preserves_update; intros ?; reflexivity
  | |- preserves _ (foldM _ _ _) => apply preserves_foldM; intros ? ?
  | |- preserves _ (match ?x with _ => _ end) => destruct x
  | |- preserves _ (let _ := _ in _) => cbv zeta
  end.

Ltac preserves_auto := repeat preserves_step.

Lemma _build_luts_preserves_static : preserves static _build_luts.
Proof.
  unfold _build_luts, _build_ref_instance_lut, _build_luts_frame.
  preserves_auto.
Qed.

Lemma _build_luts_preserves_PixelData : preserves PixelData _build_luts.
Proof.
  unfold _build_luts, _build_ref_instance_lut, _build_luts_frame.
  preserves_auto.
Qed.

Lemma _build_luts_preserves_frames :
  preserves (fun self => (PerFrameFunctionalGroupsSequence self,
                          NumberOfFrames self, SegmentSequence self,
                          _segment_inventory self, SegmentsOverlap self))
    _build_luts.
Proof.
  unfold _build_luts, _build_ref_instance_lut, _build_luts_frame.
  preserves_auto.
Qed.

Lemma add_segments_preserves_static (ext : External) (pixel_array : PixelArray)
    (segment_descriptions : list SegmentDescription)
    (plane_positions : option (list PlanePositionSequence)) :
  preserves static
    (add_segments ext pixel_array segment_descriptions plane_positions).
Proof.
  unfold add_segments, prepare_encoding, add_segment, add_plane,
    finish_encoding.
  preserves_auto; apply _build_luts_preserves_static.
Qed.

(** ** The pixel data of [add_segments]: padding *)

Lemma returns_of_preserves {A T : Type} (f : Segmentation -> T) (m : M A)
    (X : T -> Prop) :
  preserves f m ->
  returns (fun self => X (f self)) m (fun _ self' => X (f self')).
Proof.
  intros Hm self HX self' a Heq. specialize (Hm self).
  rewrite Heq in Hm. simpl in Hm. now rewrite Hm.
Qed.

Lemma length_pad_of_even (data : bytes) :
  (List.length (data ++ pad_of data) mod 2 = 0)%nat.
Proof.
  unfold pad_of. destruct (Nat.eqb_spec (List.length data mod 2) 1) as [H | H].
  - rewrite length_app. change (List.length [48]) with 1%nat.
    rewrite Nat.Div0.add_mod, H. reflexivity.
  - rewrite app_nil_r.
    pose proof (Nat.mod_upper_bound (List.length data) 2). lia.
Qed.

Lemma finish_encoding_pads (ext : External) (encoding : Encoding) :
  returns (fun _ => True) (finish_encoding ext encoding)
    (fun _ self' => exists data, PixelData self' = data ++ pad_of data).
Proof.
  unfold finish_encoding.
  apply returns_bind_last. intros self0.
  apply returns_bind_last. intros _.
  apply returns_bind with (R := fun a self => a = self).
  { apply returns_get_self. reflexivity. }
  intros self.
  destruct (List.length (PixelData self) mod 2 =? 1)%nat eqn:Hodd.
  - apply returns_update. intros ? <-. exists (PixelData self).
    unfold pad_of. rewrite Hodd. reflexivity.
  - apply returns_ret. intros ? <-. exists (PixelData self).
    unfold pad_of. rewrite Hodd. symmetry. apply app_nil_r.
Qed.

Ltac skip_to_finish_encoding :=
  repeat match goal with
         | |- returns _ (bind (finish_encoding _ _) _) _ => fail 1
         | |- returns _ (bind _ _) _ => apply returns_bind_last; intros ?
         | |- returns _ (match ?x with _ => _ end) _ => destruct x
         | |- returns _ (raise _) _ => apply returns_raise
         end.

Lemma add_segments_pads (ext : External) (pixel_array : PixelArray)
    (segment_descriptions : list SegmentDescription)
    (plane_positions : option (list PlanePositionSequence)) :
  returns (fun _ => True)
    (add_segments ext pixel_array segment_descriptions plane_positions)
    (fun _ self' => exists data, PixelData self' = data ++ pad_of data).
Proof.
  unfold add_segments. skip_to_finish_encoding.
  eapply returns_bind; [apply finish_encoding_pads |].
  intros ?.
  apply (returns_of_preserves PixelData _build_luts
           (fun d => exists data, d = data ++ pad_of data)).
  apply _build_luts_preserves_PixelData.
Qed.


Lemma returns_bind_get_self {B : Type} (P : Segmentation -> Prop)
    (k : Segmentation -> M B) (Q : B -> Segmentation -> Prop) :
  (forall self, P self -> returns (fun s => s = self) (k self) Q) ->
  returns P (bind get_self k) Q.
Proof.
  intros Hk s HP s' b Heq. unfold bind, get_self in Heq.
  eapply Hk; eauto.
Qed.

Lemma returns_bind_lift {A B : Type} (P : Segmentation -> Prop) (r : result A)
    (k : A -> M B) (Q : B -> Segmentation -> Prop) :
  (forall a, r = Ok a -> returns P (k a) Q) -> returns P (bind (lift r) k) Q.
Proof.
  intros Hk s HP s' b Heq. unfold bind, lift in Heq.
  destruct r as [a | e]; [| discriminate]. eapply Hk; eauto.
Qed.

Lemma returns_bind_update {B : Type} (P : Segmentation -> Prop)
    (g : Segmentation -> Segmentation) (k : unit -> M B)
    (Q : B -> Segmentation -> Prop) :
  returns (fun s => exists s0, P s0 /\ s = g s0) (k tt) Q ->
  returns P (bind (update g) k) Q.
Proof.
  intros Hk s HP s' b Heq. unfold bind, update in Heq.
  eapply Hk; eauto.
Qed.

Lemma returns_bind_preserving {A B T : Type} (f : Segmentation -> T)
    (X : T -> Prop) (m : M A) (k : A -> M B) (Q : B -> Segmentation -> Prop) :
  preserves f m ->
  (forall a, returns (fun s => X (f s)) (k a) Q) ->
  returns (fun s => X (f s)) (bind m k) Q.
Proof.
  intros Hm Hk. eapply returns_bind; [| exact Hk].
  apply returns_weaken with (P := fun s => X (f s))
                            (Q := fun _ s => X (f s)); auto.
  now apply returns_of_preserves.
Qed.

Lemma add_plane_preserves_PixelData
    (source_images : list SourceImage)
    (plane_positions : list PlanePositionSequence)
    (plane_position_values : list (list (list Z)))
    (plane_sort_index : list nat)
    (dimension_position_values : list (list (list Z)))
    (are_spatial_locations_preserved : bool) (plane_size : nat)
    (segment_number : Z) (planes : list Z) (contained : list nat) (j : nat) :
  preserves PixelData
    (add_plane source_images plane_positions plane_position_values
       plane_sort_index dimension_position_values
       are_spatial_locations_preserved plane_size segment_number planes
       contained j).
Proof. unfold add_plane. preserves_auto. Qed.

(** With framewise encoding a segment only appends to the pixel data. *)
Lemma add_segment_framewise (ext : External)
    (source_images : list SourceImage)
    (plane_positions : list PlanePositionSequence)
    (plane_position_values : list (list (list Z)))
    (plane_sort_index : list nat)
    (dimension_position_values : list (list (list Z)))
    (are_spatial_locations_preserved : bool) (plane_size : nat)
    (pixel_array : PixelArray) (description : SegmentDescription)
    (base : bytes) :
  returns (fun s => exists extra, PixelData s = base ++ extra)
    (add_segment ext source_images plane_positions plane_position_values
       plane_sort_index dimension_position_values
       are_spatial_locations_preserved plane_size pixel_array Framewise
       description)
    (fun encoding s' =>
       encoding = Framewise /\ exists extra, PixelData s' = base ++ extra).
Proof.
  unfold add_segment.
  set (P := fun d : bytes => exists extra, d = base ++ extra).
  change (fun s => exists extra, PixelData s = base ++ extra)
    with (fun s => P (PixelData s)).
  apply returns_bind_preserving; [apply preserves_get_self | intros self0].
  apply returns_bind_preserving; [apply preserves_lift | intros [dt planes]].
  apply returns_bind_preserving;
    [apply preserves_foldM; intros; apply add_plane_preserves_PixelData
    | intros contained].
  apply returns_bind_get_self. intros self HP.
  eapply returns_bind with
    (R := fun enc s => enc = Framewise /\ P (PixelData s)).
  - apply returns_bind_lift. intros encoded _.
    apply returns_bind_update. apply returns_ret.
    intros s (s0 & -> & ->). split; [reflexivity |].
    destruct HP as [extra HP]. exists (extra ++ encoded).
    simpl. rewrite HP. now rewrite app_assoc.
  - intros encoding.
    apply returns_bind_get_self. intros self1 [-> HP1].
    eapply returns_bind with (R := fun _ s => P (PixelData s)).
    + destruct (negb (Z_mem (SegmentNumber description)
                        (_segment_inventory self1))).
      * apply returns_update. intros s ->. exact HP1.
      * apply returns_ret. intros s ->. exact HP1.
    + intros _. apply returns_bind_update. apply returns_ret.
      intros s (s0 & HP0 & ->). split; [reflexivity | exact HP0].
Qed.

Lemma add_segments_loop_framewise (ext : External)
    (source_images : list SourceImage)
    (plane_positions : list PlanePositionSequence)
    (plane_position_values : list (list (list Z)))
    (plane_sort_index : list nat)
    (dimension_position_values : list (list (list Z)))
    (are_spatial_locations_preserved : bool) (plane_size : nat)
    (pixel_array : PixelArray) (descriptions : list SegmentDescription)
    (base : bytes) :
  returns (fun s => exists extra, PixelData s = base ++ extra)
    (foldM
       (add_segment ext source_images plane_positions plane_position_values
          plane_sort_index dimension_position_values
          are_spatial_locations_preserved plane_size pixel_array)
       Framewise descriptions)
    (fun encoding s' =>
       encoding = Framewise /\ exists extra, PixelData s' = base ++ extra).
Proof.
  induction descriptions as [| d descriptions IH]; simpl.
  - apply returns_ret. auto.
  - eapply returns_bind; [apply add_segment_framewise |].
    intros encoding s [-> HP]. apply IH. exact HP.
Qed.

(** Rewriting with the attributes two objects share. *)
Ltac use_static H :=
  unfold static in H; injection H; intros;
  repeat match goal with
         | E : ?f ?s = ?f ?s0 |- _ => rewrite ?E; clear E
         end.

Lemma prepare_encoding_framewise (ext : External) (self0 : Segmentation) :
  framewise_encoding_of self0 = true ->
  returns (fun s => PixelData s = PixelData self0 /\ static s = static self0
                    /\ NumberOfFrames s = NumberOfFrames self0)
    (prepare_encoding ext)
    (fun encoding s' =>
       encoding = Framewise /\ PixelData s' = without_pad self0).
Proof.
  intros Hfw. unfold prepare_encoding.
  apply returns_bind_get_self. intros self (Hpd & Hst & Hnf).
  assert (Hfw' : framewise_encoding_of self = true).
  { rewrite <- Hfw. unfold framewise_encoding_of. now use_static Hst. }
  assert (Hfmt : pixel_format_of self = pixel_format_of self0).
  { unfold pixel_format_of. now use_static Hst. }
  rewrite Hfw', Hfmt.
  eapply returns_bind with (R := fun _ s => PixelData s = without_pad self0).
  - unfold without_pad. rewrite Hpd.
    destruct (List.length (PixelData self0)
              =? get_expected_length (pixel_format_of self0) + 1)%nat.
    + apply returns_update. intros s ->. reflexivity.
    + apply returns_ret. intros s ->. exact Hpd.
  - intros _. apply returns_ret. auto.
Qed.

Lemma returns_pure {A : Type} (fact : Prop) (P : Segmentation -> Prop)
    (m : M A) (Q : A -> Segmentation -> Prop) :
  (fact -> returns P m Q) -> returns (fun s => fact /\ P s) m Q.
Proof. intros H s [Hf HP]. now apply H. Qed.

Lemma finish_encoding_framewise (ext : External) (data : bytes) :
  returns (fun s => PixelData s = data) (finish_encoding ext Framewise)
    (fun _ s' => PixelData s' = data ++ pad_of data).
Proof.
  unfold finish_encoding.
  apply returns_bind_get_self. intros self0 Hd0.
  eapply returns_bind with (R := fun _ s => PixelData s = data).
  { apply returns_ret. intros s ->. exact Hd0. }
  intros _. apply returns_bind_get_self. intros self Hd.
  unfold pad_of. rewrite <- Hd.
  destruct (List.length (PixelData self) mod 2 =? 1)%nat.
  - apply returns_update. intros s ->. reflexivity.
  - apply returns_ret. intros s ->. symmetry. apply app_nil_r.
Qed.

(** With framewise encoding, [add_segments] takes the pad byte off the pixel
    data, appends to them and pads the result. *)
Lemma add_segments_framewise (ext : External) (pixel_array : PixelArray)
    (segment_descriptions : list SegmentDescription)
    (plane_positions : option (list PlanePositionSequence))
    (self0 : Segmentation) :
  framewise_encoding_of self0 = true ->
  returns (fun s => s = self0)
    (add_segments ext pixel_array segment_descriptions plane_positions)
    (fun _ s' =>
       exists new,
         PixelData s'
         = (without_pad self0 ++ new) ++ pad_of (without_pad self0 ++ new)).
Proof.
  intros Hfw. unfold add_segments.
  apply returns_bind_get_self. intros self ->.
  destruct (_source_images self0) as [source_images |];
    [| apply returns_raise].
  apply returns_bind_lift. intros pixel_array1 _.
  apply returns_bind_lift. intros described_segment_numbers _.
  apply returns_bind_lift. intros pixel_array2 _.
  apply returns_bind_lift. intros _ _.
  apply returns_bind_update.
  apply returns_bind_lift. intros [source_plane_positions plane_positions1] _.
  apply returns_bind_lift. intros [plane_position_values plane_sort_index] _.
  apply returns_bind_lift. intros positions_equal _.
  apply returns_bind_lift. intros dimension_position_values _.
  eapply returns_bind.
  { eapply returns_weaken;
      [apply (prepare_encoding_framewise ext self0 Hfw) | | intros a s H; exact H].
    intros s (s0 & -> & ->). repeat split. }
  intros encoding. apply returns_pure. intros ->.
  eapply returns_bind.
  { eapply returns_weaken;
      [apply add_segments_loop_framewise with (base := without_pad self0)
      | | intros a s H; exact H].
    intros s Hs. exists []. now rewrite app_nil_r. }
  intros encoding. apply returns_pure. intros ->.
  apply returns_weaken with
    (P := fun s => exists extra, PixelData s = without_pad self0 ++ extra)
    (Q := fun _ s' =>
            exists new,
              PixelData s'
              = (without_pad self0 ++ new) ++ pad_of (without_pad self0 ++ new));
    auto.
  intros s [extra Hs] s' a Heq.
  apply bind_returns_inv in Heq. destruct Heq as (s1 & [] & H1 & H2).
  exists extra.
  pose proof (finish_encoding_framewise ext _ s Hs _ _ H1) as Hfin.
  pose proof (_build_luts_preserves_PixelData s1) as Hb.
  rewrite H2 in Hb. simpl in Hb. congruence.
Qed.

(** ** The constructor and the checks of [add_segments] *)

(** C10.  A construction with the segmentation type BINARY and an
    encapsulated transfer syntax raises before the constructor calls
    [add_segments], so that no frame is encoded; a construction of a BINARY
    object that returns has a transfer syntax that is not encapsulated. *)
Theorem binary_rejects_encapsulated (ext : External)
    (source_images : list SourceImage) (pixel_array : PixelArray)
    (segment_descriptions : list SegmentDescription) (fractional_type : string)
    (max_fractional_value : Z) (transfer_syntax_uid : TransferSyntax)
    (plane_orientation : option (list Z))
    (plane_positions : option (list PlanePositionSequence)) :
  (is_encapsulated transfer_syntax_uid = true ->
   exists e,
     Segmentation_new source_images pixel_array "BINARY" fractional_type
       max_fractional_value transfer_syntax_uid plane_orientation = Raise e
     /\ Segmentation_init ext source_images pixel_array "BINARY"
          segment_descriptions fractional_type max_fractional_value
          transfer_syntax_uid plane_orientation plane_positions = Raise e)
  /\ (forall self,
        Segmentation_init ext source_images pixel_array "BINARY"
          segment_descriptions fractional_type max_fractional_value
          transfer_syntax_uid plane_orientation plane_positions = Ok self ->
        SegmentationType self = BINARY
        /\ TransferSyntaxUID self = transfer_syntax_uid
        /\ is_encapsulated transfer_syntax_uid = false).
Proof.
  assert (Hnew :
    is_encapsulated transfer_syntax_uid = true ->
    exists e,
      Segmentation_new source_images pixel_array "BINARY" fractional_type
        max_fractional_value transfer_syntax_uid plane_orientation = Raise e).
  { intros Henc. unfold Segmentation_new.
    destruct source_images as [| src_img rest]; [eauto |].
    destruct (forallb (same_series_and_size src_img) (src_img :: rest));
      [| eauto].
    destruct (negb _); [| eauto].
    destruct (supported_by_segmentation transfer_syntax_uid); [| eauto].
    destruct (pa_shape _) as [| n [| rows [| cols rest']]]; eauto.
    simpl. rewrite Henc. simpl. eauto. }
  split.
  - intros Henc. destruct (Hnew Henc) as [e He]. exists e.
    split; [exact He |]. unfold Segmentation_init. now rewrite He.
  - intros self Hinit. unfold Segmentation_init in Hinit.
    destruct (Segmentation_new source_images pixel_array "BINARY"
                fractional_type max_fractional_value transfer_syntax_uid
                plane_orientation) as [[self0 pixel_array1] | e] eqn:Hself0;
      [| discriminate].
    cbn [rbind] in Hinit.
    pose proof (add_segments_preserves_static ext pixel_array1
                  segment_descriptions plane_positions self0) as Hst.
    destruct (add_segments ext pixel_array1 segment_descriptions
                plane_positions self0) as [self1 [u | e]];
      [| discriminate].
    inversion Hinit; subst self1. simpl in Hst.
    assert (Hts : TransferSyntaxUID self = TransferSyntaxUID self0)
      by (unfold static in Hst; injection Hst; intros; assumption).
    assert (Hty : SegmentationType self = SegmentationType self0)
      by (unfold static in Hst; injection Hst; intros; assumption).
    rewrite Hts, Hty. clear Hst Hts Hty Hinit.
    destruct (is_encapsulated transfer_syntax_uid) eqn:Henc.
    + destruct (Hnew eq_refl) as [e He]. congruence.
    + unfold Segmentation_new in Hself0.
      destruct source_images as [| src_img rest]; [discriminate |].
      destruct (forallb _ _); [| discriminate].
      destruct (negb _); [| discriminate].
      destruct (supported_by_segmentation _); [| discriminate].
      destruct (pa_shape _) as [| n [| rows [| cols rest']]];
        try discriminate.
      simpl in Hself0. rewrite Henc in Hself0. simpl in Hself0.
      inversion Hself0; subst. auto.
Qed.

Lemma binary_rejects_encapsulated_witness :
  exists e,
    Segmentation_new [ct_image "1.2.3.1.1" 2 4 0]
      (IntPixels (mk_ndarray np_bool [2; 4]%nat [1; 0; 0; 0; 0; 0; 0; 1]))
      "BINARY" "PROBABILITY" 255 RLELossless None = Raise e
    /\ Segmentation_init plain_codecs [ct_image "1.2.3.1.1" 2 4 0]
         (IntPixels (mk_ndarray np_bool [2; 4]%nat [1; 0; 0; 0; 0; 0; 0; 1]))
         "BINARY" [description 1] "PROBABILITY" 255 RLELossless None None
       = Raise e.
Proof.
  apply (proj1 (binary_rejects_encapsulated plain_codecs
                  [ct_image "1.2.3.1.1" 2 4 0]
                  (IntPixels (mk_ndarray np_bool [2; 4]%nat
                                [1; 0; 0; 0; 0; 0; 0; 1]))
                  [description 1] "PROBABILITY" 255 RLELossless None None)).
  reflexivity.
Defined.

Lemma diff_all_one_ascending (numbers : list Z) :
  diff_all_one numbers = true <-> ascending_by_one numbers.
Proof.
  unfold ascending_by_one.
  induction numbers as [| x [| y rest] IH].
  - simpl. split; [intros _ i Hi; lia | reflexivity].
  - simpl. split; [intros _ i Hi; lia | reflexivity].
  - change (diff_all_one (x :: y :: rest))
      with ((y - x =? 1) && diff_all_one (y :: rest)).
    rewrite andb_true_iff, IH, Z.eqb_eq. split.
    + intros [Hxy Hrest] [| i] Hi.
      * simpl. lia.
      * apply (Hrest i). simpl in *. lia.
    + intros H. split.
      * specialize (H 0%nat). simpl in H. lia.
      * intros i Hi. apply (H (S i)). simpl in *. lia.
Qed.

Lemma fold_left_max_is_max (rest : list Z) (n : Z) :
  is_max (fold_left Z.max rest n) (n :: rest).
Proof.
  revert n. induction rest as [| x rest IH]; intros n.
  - simpl. split; [now left |]. intros y [<- | []]. lia.
  - simpl. destruct (IH (Z.max n x)) as [Hin Hle]. split.
    + destruct Hin as [Heq | Hin]; [| right; now right].
      destruct (Z.max_spec n x) as [[_ Hm] | [_ Hm]]; rewrite Hm in *.
      * right. now left.
      * now left.
    + intros y [<- | [<- | Hy]].
      * specialize (Hle (Z.max n x) (or_introl eq_refl)). lia.
      * specialize (Hle (Z.max n x) (or_introl eq_refl)). lia.
      * apply Hle. now right.
Qed.

Lemma is_max_unique (m m' : Z) (numbers : list Z) :
  is_max m numbers -> is_max m' numbers -> m = m'.
Proof.
  intros [Hin Hle] [Hin' Hle']. specialize (Hle _ Hin').
  specialize (Hle' _ Hin). lia.
Qed.

(** The number the code expects of the first new segment. *)
Lemma seg_num_start_of_spec (self : Segmentation) :
  (_segment_inventory self = [] /\ seg_num_start_of self = 1)
  \/ (exists m, is_max m (_segment_inventory self)
                /\ seg_num_start_of self = m + 1).
Proof.
  unfold seg_num_start_of. destruct (_segment_inventory self) as [| n rest].
  - now left.
  - right. exists (fold_left Z.max rest n).
    split; [apply fold_left_max_is_max | reflexivity].
Qed.

Lemma add_segments_validation (ext : External) (pixel_array : PixelArray)
    (segment_descriptions : list SegmentDescription)
    (plane_positions : option (list PlanePositionSequence))
    (self : Segmentation) (e : exn) :
  _source_images self <> None ->
  validation self pixel_array segment_descriptions = Raise e ->
  add_segments ext pixel_array segment_descriptions plane_positions self
  = (self, Raise e).
Proof.
  intros Hsrc Hval. unfold add_segments, validation in *.
  unfold bind at 1. unfold get_self at 1.
  destruct (_source_images self) as [source_images |]; [| now elim Hsrc].
  unfold bind at 1. unfold lift at 1.
  destruct (check_pixel_array_shape self pixel_array) as [pixel_array1 | e1];
    [| now inversion Hval].
  cbn [rbind] in Hval.
  unfold bind at 1. unfold lift at 1.
  destruct (check_segment_numbers self segment_descriptions)
    as [described_segment_numbers | e2]; [| now inversion Hval].
  cbn [rbind] in Hval.
  unfold bind at 1. unfold lift at 1.
  destruct (classify_pixels self pixel_array1 segment_descriptions
              described_segment_numbers) as [pixel_array2 | e3];
    [| now inversion Hval].
  cbn [rbind] in Hval.
  unfold bind at 1. unfold lift at 1.
  destruct (check_new_segments self described_segment_numbers) as [u | e4];
    [discriminate | now inversion Hval].
Qed.

Lemma add_segments_raises_of_validation (ext : External)
    (pixel_array : PixelArray)
    (segment_descriptions : list SegmentDescription)
    (plane_positions : option (list PlanePositionSequence))
    (self : Segmentation) :
  (forall pixel_array1,
      check_pixel_array_shape self pixel_array = Ok pixel_array1 ->
      exists e, check_segment_numbers self segment_descriptions = Raise e) ->
  raises (add_segments ext pixel_array segment_descriptions plane_positions)
    self.
Proof.
  intros Hnum. unfold raises, add_segments.
  unfold bind at 1. unfold get_self at 1.
  destruct (_source_images self) as [source_images |];
    [| eexists; eexists; reflexivity].
  unfold bind at 1. unfold lift at 1.
  destruct (check_pixel_array_shape self pixel_array) as [pixel_array1 | e1];
    [| eexists; eexists; reflexivity].
  destruct (Hnum pixel_array1 eq_refl) as [e He].
  unfold bind at 1. unfold lift at 1. rewrite He.
  eexists. eexists. reflexivity.
Qed.

(** C6.  [add_segments] raises for every list of segment descriptions whose
    numbers do not ascend by exactly 1 from each to the next, and for every
    list whose first number is not one more than the greatest number of the
    segments of the object (or not 1 when the object has no segments): the
    number 3 is refused by an object without segments, and the number 5 is
    accepted after the segments 1 to 4. *)
Theorem add_segments_segment_numbering (ext : External) :
  (forall pixel_array segment_descriptions plane_positions self,
      ~ ascending_by_one (map SegmentNumber segment_descriptions) ->
      raises (add_segments ext pixel_array segment_descriptions plane_positions)
        self)
  /\ (forall pixel_array first rest plane_positions self,
        (_segment_inventory self = [] /\ SegmentNumber first <> 1)
        \/ (exists m, is_max m (_segment_inventory self)
                      /\ SegmentNumber first <> m + 1) ->
        raises (add_segments ext pixel_array (first :: rest) plane_positions)
          self)
  /\ (forall pixel_array plane_positions self0 pixel_array1,
        Segmentation_new [ct_image "1.2.3.1.1" 2 4 0] pixel_array
          "BINARY" "PROBABILITY" 255 ExplicitVRLittleEndian None
        = Ok (self0, pixel_array1) ->
        _segment_inventory self0 = []
        /\ raises (add_segments ext pixel_array1 [description 3]
                     plane_positions) self0)
  /\ (exists self self',
        binary_example = Ok self
        /\ map SegmentNumber (SegmentSequence self) = [1; 2; 3; 4]
        /\ add_segments ext
             (IntPixels (mk_ndarray np_bool [1; 2; 4]%nat
                           [0; 0; 0; 0; 1; 1; 0; 0]))
             [description 5] None self = (self', Ok tt)
        /\ map SegmentNumber (SegmentSequence self') = [1; 2; 3; 4; 5]).
Proof.
  assert (Hfirst :
    forall pixel_array first rest plane_positions self,
      SegmentNumber first <> seg_num_start_of self ->
      raises (add_segments ext pixel_array (first :: rest) plane_positions)
        self).
  { intros pixel_array first rest plane_positions self Hne.
    apply add_segments_raises_of_validation. intros _ _.
    unfold check_segment_numbers.
    destruct (diff_all_one (map SegmentNumber (first :: rest)));
      [| eauto].
    cbn [map]. apply Z.eqb_neq in Hne. rewrite Hne.
    destruct (seg_num_start_of self =? 1); eauto. }
  split; [| split; [| split]].
  - intros pixel_array segment_descriptions plane_positions self Hasc.
    apply add_segments_raises_of_validation. intros _ _.
    unfold check_segment_numbers.
    destruct (diff_all_one (map SegmentNumber segment_descriptions)) eqn:Hd.
    + apply diff_all_one_ascending in Hd. contradiction.
    + eauto.
  - intros pixel_array first rest plane_positions self Hcase.
    apply Hfirst.
    destruct (seg_num_start_of_spec self) as [[Hnil Hs] | (m & Hm & Hs)];
      destruct Hcase as [[Hnil' Hne] | (m' & Hm' & Hne)]; rewrite Hs.
    + exact Hne.
    + rewrite Hnil in Hm'. destruct Hm' as [[] _].
    + rewrite Hnil' in Hm. destruct Hm as [[] _].
    + now rewrite (is_max_unique _ _ _ Hm Hm').
  - intros pixel_array plane_positions self0 pixel_array1 Hnew.
    assert (Hinv : _segment_inventory self0 = []).
    { unfold Segmentation_new in Hnew.
      cbn [forallb] in Hnew.
      destruct (same_series_and_size _ _ && true); [| discriminate].
      cbn in Hnew.
      destruct (pa_shape _) as [| n [| rows [| cols rest']]];
        try discriminate.
      inversion Hnew; subst. reflexivity. }
    split; [exact Hinv |].
    apply Hfirst. unfold seg_num_start_of. rewrite Hinv. discriminate.
  - eexists. eexists.
    split; [vm_compute; reflexivity |].
    split; [reflexivity |].
    split; [vm_compute; reflexivity |].
    reflexivity.
Qed.

Lemma add_segments_segment_numbering_witness :
  exists self,
    binary_example = Ok self
    /\ raises (add_segments plain_codecs
                 (IntPixels (mk_ndarray np_uint8 [2; 4]%nat
                               [5; 5; 0; 0; 7; 7; 0; 0]))
                 [description 5; description 7] None) self.
Proof.
  eexists. split; [vm_compute; reflexivity |].
  apply (proj1 (add_segments_segment_numbering plain_codecs)).
  intros H. specialize (H 0%nat). simpl in H. lia.
Defined.

Lemma add_segments_positions (ext : External) (pixel_array : PixelArray)
    (segment_descriptions : list SegmentDescription)
    (plane_positions : option (list PlanePositionSequence))
    (self : Segmentation) (source_images : list SourceImage)
    (pixel_array2 : PixelArray) (e : exn) :
  _source_images self = Some source_images ->
  validation self pixel_array segment_descriptions = Ok pixel_array2 ->
  resolve_plane_positions source_images pixel_array2 plane_positions
  = Raise e ->
  add_segments ext pixel_array segment_descriptions plane_positions self
  = (set_SegmentsOverlap (Some (assigned_overlap self)) self, Raise e).
Proof.
  intros Hsrc Hval Hres. unfold add_segments, validation in *.
  unfold bind at 1. unfold get_self at 1. rewrite Hsrc.
  unfold bind at 1. unfold lift at 1.
  destruct (check_pixel_array_shape self pixel_array) as [pixel_array1 | e1];
    [| discriminate].
  cbn [rbind] in Hval.
  unfold bind at 1. unfold lift at 1.
  destruct (check_segment_numbers self segment_descriptions)
    as [described_segment_numbers | e2]; [| discriminate].
  cbn [rbind] in Hval.
  unfold bind at 1. unfold lift at 1.
  destruct (classify_pixels self pixel_array1 segment_descriptions
              described_segment_numbers) as [pixel_array3 | e3];
    [| discriminate].
  cbn [rbind] in Hval.
  unfold bind at 1. unfold lift at 1.
  destruct (check_new_segments self described_segment_numbers) as [u | e4];
    [| discriminate].
  cbn [rbind] in Hval. inversion Hval; subst pixel_array3.
  unfold bind at 1. unfold update at 1.
  unfold bind at 1. unfold lift at 1. rewrite Hres. reflexivity.
Qed.

(** C4, as the code has it.  A call of [add_segments] that fails in a check
    made before the first assignment (an object created from an existing
    dataset; the rank, the rows and columns of the array; the numbering of the
    descriptions; values without description; the dtype; floating point values
    out of range; a segment that exists) leaves the object as it was.  A call
    that passes these checks and fails while the plane positions are resolved
    (their number does not match the planes) has assigned Segments Overlap and
    leaves the object as it was in every other attribute. *)
Theorem add_segments_failed_checks (ext : External) (pixel_array : PixelArray)
    (segment_descriptions : list SegmentDescription)
    (plane_positions : option (list PlanePositionSequence))
    (self : Segmentation) :
  (_source_images self = None ->
   exists e,
     add_segments ext pixel_array segment_descriptions plane_positions self
     = (self, Raise e))
  /\ (forall e,
        _source_images self <> None ->
        validation self pixel_array segment_descriptions = Raise e ->
        add_segments ext pixel_array segment_descriptions plane_positions self
        = (self, Raise e))
  /\ (forall source_images pixel_array2 e,
        _source_images self = Some source_images ->
        validation self pixel_array segment_descriptions = Ok pixel_array2 ->
        resolve_plane_positions source_images pixel_array2 plane_positions
        = Raise e ->
        add_segments ext pixel_array segment_descriptions plane_positions self
        = (set_SegmentsOverlap (Some (assigned_overlap self)) self, Raise e)).
Proof.
  split; [| split].
  - intros Hsrc. unfold add_segments. unfold bind at 1. unfold get_self at 1.
    rewrite Hsrc. eexists. reflexivity.
  - intros e. apply add_segments_validation.
  - intros source_images pixel_array2 e. apply add_segments_positions.
Qed.

Lemma add_segments_failed_checks_witness :
  exists self,
    binary_example = Ok self
    /\ add_segments plain_codecs
         (IntPixels (mk_ndarray np_bool [2; 4]%nat [0; 0; 0; 0; 1; 1; 0; 0]))
         [description 7] None self
       = (self,
          Raise (ValueError
            "Segment descriptions should be numbered to continue from existing segments.")).
Proof.
  eexists. split; [vm_compute; reflexivity |].
  apply (proj1 (proj2 (add_segments_failed_checks plain_codecs _ _ _ _))).
  - discriminate.
  - reflexivity.
Defined.

(** C4 as stated fails: a call with a number of plane positions that does not
    match the planes raises, and the object has Segments Overlap changed from
    NO to UNDEFINED. *)
Lemma add_segments_count_mismatch_assigns :
  exists self self',
    binary_example = Ok self
    /\ add_segments plain_codecs
         (IntPixels (mk_ndarray np_bool [2; 4]%nat [0; 0; 0; 0; 1; 1; 0; 0]))
         [description 5] (Some []) self
       = (self',
          Raise (ValueError
            "Number of pixel array planes does not match number of provided plane positions."))
    /\ SegmentsOverlap self = Some SegmentsOverlap_NO
    /\ SegmentsOverlap self' = Some SegmentsOverlap_UNDEFINED
    /\ self' <> self.
Proof.
  eexists. eexists.
  split; [vm_compute; reflexivity |].
  split; [vm_compute; reflexivity |].
  split; [reflexivity |]. split; [reflexivity |].
  intros H. apply (f_equal SegmentsOverlap) in H. discriminate H.
Qed.

(** ** The lookup tables and the queries by source frame *)

Lemma _build_luts_frame_flag (cols : LutColumns) (frame_item : FrameItem)
    (self self' : Segmentation) (cols' : LutColumns) :
  _build_luts_frame cols frame_item self = (self', Ok cols') ->
  _single_source_frame_per_seg_frame self'
  = if no_single_source_frame frame_item then false
    else _single_source_frame_per_seg_frame self.
Proof.
  unfold _build_luts_frame.
  destruct (no_single_source_frame frame_item).
  - unfold bind, update, ret. intros H. inversion H; subst. reflexivity.
  - unfold bind at 1. unfold get_self at 1.
    destruct (negb (string_mem _ _)); [discriminate |].
    unfold bind, lift, ret.
    destruct (_get_src_uid_index self _); [| discriminate].
    intros H. inversion H; subst. reflexivity.
Qed.

Lemma _build_luts_loop_flag (frames : list FrameItem) :
  forall cols self self' cols',
    foldM _build_luts_frame cols frames self = (self', Ok cols') ->
    _single_source_frame_per_seg_frame self = false
    \/ Exists (fun frame_item => no_single_source_frame frame_item = true)
         frames ->
    _single_source_frame_per_seg_frame self' = false.
Proof.
  induction frames as [| frame_item frames IH];
    intros cols self self' cols' Hloop Hcase.
  - simpl in Hloop. inversion Hloop; subst.
    destruct Hcase as [H | H]; [exact H | inversion H].
  - simpl in Hloop. apply bind_returns_inv in Hloop.
    destruct Hloop as (self1 & cols1 & Hframe & Hrest).
    apply _build_luts_frame_flag in Hframe.
    eapply IH; [exact Hrest |].
    destruct Hcase as [H | H].
    + left. rewrite Hframe, H. now destruct (no_single_source_frame _).
    + inversion H as [? ? Hamb | ? ? Hex]; subst.
      * left. now rewrite Hframe, Hamb.
      * now right.
Qed.

Lemma _build_luts_flag (self self' : Segmentation) :
  _build_luts self = (self', Ok tt) ->
  Exists (fun frame_item => no_single_source_frame frame_item = true)
    (PerFrameFunctionalGroupsSequence self) ->
  _single_source_frame_per_seg_frame self' = false.
Proof.
  intros Hbuild Hex. unfold _build_luts in Hbuild.
  apply bind_returns_inv in Hbuild.
  destruct Hbuild as (self1 & [] & Href & Hbuild).
  assert (Hframes : PerFrameFunctionalGroupsSequence self1
                    = PerFrameFunctionalGroupsSequence self).
  { assert (Hp : preserves PerFrameFunctionalGroupsSequence
                   _build_ref_instance_lut)
      by (unfold _build_ref_instance_lut; preserves_auto).
    specialize (Hp self). now rewrite Href in Hp. }
  apply bind_returns_inv in Hbuild.
  destruct Hbuild as (self2 & [] & Hset & Hbuild).
  unfold update in Hset. inversion Hset; subst self2. clear Hset.
  apply bind_returns_inv in Hbuild.
  destruct Hbuild as (self3 & self3' & Hget & Hbuild).
  unfold get_self in Hget. inversion Hget; subst self3 self3'. clear Hget.
  apply bind_returns_inv in Hbuild.
  destruct Hbuild as (self4 & cols & Hloop & Hbuild).
  cbn [PerFrameFunctionalGroupsSequence
         set_single_source_frame_per_seg_frame] in Hloop.
  rewrite Hframes in Hloop.
  assert (Hflag : _single_source_frame_per_seg_frame self4 = false)
    by (eapply _build_luts_loop_flag; [exact Hloop | now right]).
  apply bind_returns_inv in Hbuild.
  destruct Hbuild as (self5 & [] & Hloc & Hbuild).
  unfold update in Hloc. inversion Hloc; subst self5. clear Hloc.
  apply bind_returns_inv in Hbuild.
  destruct Hbuild as (self6 & self6' & Hget & Hbuild).
  unfold get_self in Hget. inversion Hget; subst self6 self6'. clear Hget.
  cbn [_single_source_frame_per_seg_frame set_locations_preserved] in Hbuild.
  rewrite Hflag in Hbuild. unfold ret in Hbuild.
  inversion Hbuild; subst. exact Hflag.
Qed.


(** ** The frames of a segment *)

Lemma np_where_spec (mask : list bool) (start i : nat) :
  In i (np_where mask start)
  <-> (start <= i)%nat /\ nth_error mask (i - start) = Some true.
Proof.
  revert start. induction mask as [| b mask IH]; intros start; simpl.
  - split; [tauto |]. intros [_ H]. destruct (i - start)%nat; discriminate.
  - assert (Hrest : In i (np_where mask (S start))
                    <-> (S start <= i)%nat
                        /\ nth_error mask (i - S start) = Some true)
      by apply IH.
    destruct (i - start)%nat as [| k] eqn:Hk.
    + destruct b; simpl; rewrite ?Hrest; split; intros H.
      * split; [| reflexivity]. destruct H as [H | H]; lia.
      * left. lia.
      * lia.
      * destruct H as [_ H]. discriminate.
    + replace (i - S start)%nat with k in Hrest by lia.
      destruct b; simpl; rewrite ?Hrest; split; intros H.
      * destruct H as [H | H]; [lia |]. split; [lia | tauto].
      * right. split; [lia | tauto].
      * split; [lia | tauto].
      * split; [lia | tauto].
Qed.

Lemma np_where_sorted (mask : list bool) (start : nat) :
  StronglySorted lt (np_where mask start).
Proof.
  revert start. induction mask as [| b mask IH]; intros start; simpl.
  - constructor.
  - destruct b; [| apply IH]. constructor; [apply IH |].
    apply Forall_forall. intros i Hi. apply np_where_spec in Hi. lia.
Qed.

(** C2.  The frames of the segments 1, 2, 1, 2 and the query for the
    segment 2: [list_seg_frames_for_segment_number] reads the attributes
    [frame_lut] and [lut_seg_col], which no method assigns ([_build_luts]
    assigns [_frame_lut] and [_lut_seg_col]), so that the call raises
    [AttributeError] and returns no frame numbers, on the object with the
    frames in this order and on the object as the constructor returns it,
    with the frames 1, 1, 2, 2. *)
Theorem list_seg_frames_for_segment_number_raises :
  exists self,
    interleaved_example = Ok self
    /\ map ReferencedSegmentNumber_of (PerFrameFunctionalGroupsSequence self)
       = [1; 2; 1; 2]
    /\ number_of_segments self = 3%nat
    /\ (exists lut, _frame_lut self = Some lut
                    /\ _lut_seg_col self = Some 0%nat
                    /\ lut_column lut 0 = Ok [1; 2; 1; 2])
    /\ frame_lut self = None
    /\ list_seg_frames_for_segment_number self 2
       = Raise (AttributeError "frame_lut")
    /\ exists constructed_self,
         Segmentation_init plain_codecs
           [ct_image "1.2.3.1.1" 2 4 0; ct_image "1.2.3.1.2" 2 4 1]
           (IntPixels (mk_ndarray np_uint8 [2; 2; 4]%nat
                         [1; 2; 0; 0; 0; 0; 0; 0; 1; 2; 0; 0; 0; 0; 0; 0]))
           "BINARY" [description 1; description 2; description 3]
           "PROBABILITY" 255 ExplicitVRLittleEndian None None
         = Ok constructed_self
         /\ map ReferencedSegmentNumber_of
              (PerFrameFunctionalGroupsSequence constructed_self)
            = [1; 1; 2; 2]
         /\ list_seg_frames_for_segment_number constructed_self 2
            = Raise (AttributeError "frame_lut").
Proof.
  eexists.
  split; [vm_compute; reflexivity |].
  split; [reflexivity |]. split; [reflexivity |].
  split; [eexists; repeat split; reflexivity |].
  split; [reflexivity |]. split; [reflexivity |].
  eexists. split; [vm_compute; reflexivity |]. split; reflexivity.
Qed.

(** ** The reconstruction of pixels with combined segments *)

Lemma nth_zip_mul (a b : list Z) (k : nat) :
  nth k (zip_mul a b) 0 = nth k a 0 * nth k b 0.
Proof.
  revert b k. induction a as [| x a IH]; intros [| y b] [| k]; simpl;
    try reflexivity; try lia.
  apply IH.
Qed.

Lemma length_zip_mul (a b : list Z) :
  List.length a = List.length b ->
  List.length (zip_mul a b) = List.length a.
Proof.
  revert b. induction a as [| x a IH]; intros [| y b]; simpl;
    try reflexivity; try discriminate.
  intros H. f_equal. apply IH. lia.
Qed.

Lemma max_of_is_max (l : list Z) : l <> [] -> is_max (max_of l) l.
Proof.
  destruct l as [| x rest]; [congruence |]. intros _.
  apply fold_left_max_is_max.
Qed.

Lemma sum_Z_nonneg (l : list Z) : Forall (fun v => 0 <= v) l -> 0 <= sum_Z l.
Proof. induction 1; simpl; lia. Qed.

Lemma sum_Z_ge_nth (l : list Z) (k : nat) :
  Forall (fun v => 0 <= v) l -> nth k l 0 <= sum_Z l.
Proof.
  intros Hl. revert k. induction Hl as [| x l Hx Hl IH]; intros [| k]; simpl;
    try lia.
  - pose proof (sum_Z_nonneg l Hl). lia.
  - specialize (IH k). lia.
Qed.

Lemma sum_Z_ge_two (l : list Z) (k1 k2 : nat) :
  Forall (fun v => 0 <= v) l -> (k1 < k2)%nat ->
  nth k1 l 0 + nth k2 l 0 <= sum_Z l.
Proof.
  intros Hl. revert k1 k2.
  induction Hl as [| x l Hx Hl IH]; intros k1 k2 Hlt.
  - destruct k1, k2; simpl; lia.
  - destruct k2 as [| k2]; [lia |]. destruct k1 as [| k1]; simpl.
    + pose proof (sum_Z_ge_nth l k2 Hl). lia.
    + specialize (IH k1 k2). lia.
Qed.

Lemma sum_Z_positive (l : list Z) :
  0 < sum_Z l -> exists k, 0 < nth k l 0.
Proof.
  induction l as [| x l IH]; simpl; [lia |].
  intros H. destruct (Z_lt_le_dec 0 x) as [Hx | Hx].
  - now exists 0%nat.
  - destruct IH as [k Hk]; [lia |]. now exists (S k).
Qed.

Lemma shared_pixel_sum (cell : list Z) :
  Forall (fun v => v = 0 \/ v = 1) cell ->
  (1 <? sum_Z cell) = true <-> shared_pixel cell.
Proof.
  intros Hbits. rewrite Z.ltb_lt. split.
  - induction Hbits as [| x l Hx Hl IH]; simpl; [lia |].
    intros Hsum. destruct Hx as [-> | ->].
    + destruct IH as (k1 & k2 & Hne & H1 & H2); [lia |].
      exists (S k1), (S k2). simpl. repeat split; auto.
    + destruct (sum_Z_positive l) as [k Hk]; [lia |].
      exists 0%nat, (S k). simpl. repeat split; auto; lia.
  - intros (k1 & k2 & Hne & H1 & H2).
    assert (Hnn : Forall (fun v => 0 <= v) cell).
    { eapply Forall_impl; [| exact Hbits]. intros v [-> | ->]; lia. }
    destruct (Nat.lt_total k1 k2) as [Hlt | [Heq | Hgt]]; [| contradiction |].
    + pose proof (sum_Z_ge_two cell k1 k2 Hnn Hlt). lia.
    + pose proof (sum_Z_ge_two cell k2 k1 Hnn Hgt). lia.
Qed.

Lemma nth_bit (cell : list Z) (k : nat) :
  Forall (fun v => v = 0 \/ v = 1) cell -> nth k cell 0 = 0 \/ nth k cell 0 = 1.
Proof.
  intros H. revert k. induction H as [| x l Hx _ IH]; intros [| k]; simpl; auto.
Qed.

(** The maximum of the scaled samples of a pixel that is not shared is the
    label of the pixel. *)
Lemma max_of_zip_mul_label (labels cell : list Z) :
  Forall (fun v => v = 0 \/ v = 1) cell ->
  Forall (fun n => 1 <= n) labels ->
  List.length cell = List.length labels ->
  cell <> [] ->
  ~ shared_pixel cell ->
  label_of_pixel labels cell (max_of (zip_mul cell labels)).
Proof.
  intros Hbits Hlabels Hlen Hne Hshared.
  assert (Hne' : zip_mul cell labels <> []).
  { intros H. apply (f_equal (@List.length Z)) in H.
    rewrite length_zip_mul in H by exact Hlen.
    destruct cell; [congruence | discriminate]. }
  destruct (max_of_is_max _ Hne') as [Hin Hmax].
  set (v := max_of (zip_mul cell labels)) in *.
  apply (In_nth _ _ 0) in Hin. destruct Hin as (j & Hj & Hvj).
  rewrite nth_zip_mul in Hvj.
  rewrite length_zip_mul in Hj by exact Hlen.
  assert (Hlabel : forall k, (k < List.length labels)%nat -> 1 <= nth k labels 0).
  { intros k Hk. rewrite Forall_forall in Hlabels.
    apply Hlabels, nth_In, Hk. }
  assert (Hpos : forall k, 0 < nth k cell 0 ->
                           (k < List.length cell)%nat /\ nth k cell 0 = 1).
  { intros k Hk. split.
    - destruct (Nat.lt_ge_cases k (List.length cell)) as [H | H]; [exact H |].
      rewrite nth_overflow in Hk by exact H. lia.
    - destruct (nth_bit cell k Hbits); lia. }
  repeat split.
  - intros k Hk. destruct (Hpos k Hk) as [Hkl Hk1].
    assert (Hzk : nth k (zip_mul cell labels) 0 <= v).
    { apply Hmax, nth_In. now rewrite length_zip_mul. }
    rewrite nth_zip_mul, Hk1 in Hzk.
    pose proof (Hlabel k ltac:(lia)) as Hlk.
    destruct (nth_bit cell j Hbits) as [Hj0 | Hj1].
    + rewrite Hj0 in Hvj. lia.
    + destruct (Nat.eq_dec j k) as [-> | Hjk].
      * rewrite Hk1 in Hvj. lia.
      * exfalso. apply Hshared. exists j, k. repeat split; auto; lia.
  - intros Hzero. rewrite (Hzero j) in Hvj. lia.
  - destruct (nth_bit cell j Hbits) as [Hj0 | Hj1].
    + left. rewrite Hj0 in Hvj. lia.
    + right. rewrite Hj1, Z.mul_1_l in Hvj. rewrite <- Hvj.
      apply nth_In. lia.
Qed.

Lemma fold_left_min_le (rest : list Z) (x y : Z) :
  In y (x :: rest) -> fold_left Z.min rest x <= y.
Proof.
  revert x y. induction rest as [| z rest IH]; intros x y Hin.
  - destruct Hin as [-> | []]. simpl. lia.
  - simpl.
    assert (H : fold_left Z.min rest (Z.min x z) <= Z.min x z)
      by (apply IH; now left).
    destruct Hin as [-> | [-> | Hin]]; [lia | lia |].
    apply IH. now right.
Qed.

Lemma existsb_concat {A : Type} (P : A -> bool) (l : list (list A)) :
  existsb (existsb P) l = existsb P (List.concat l).
Proof.
  induction l as [| x l IH]; simpl; [reflexivity |].
  now rewrite existsb_app, IH.
Qed.

Lemma flat_map_map_concat {A B : Type} (g : A -> B) (l : list (list A)) :
  flat_map (map g) l = map g (List.concat l).
Proof.
  induction l as [| x l IH]; simpl; [reflexivity |].
  now rewrite map_app, IH.
Qed.

(** The pixels of the output array hold samples of the stored frames, one per
    output segment. *)
Lemma output_cells_cell (self : Segmentation) (stored : ndarray)
    (out_frames out_segments : nat) (matrix : list Z) (cell : list Z) :
  Forall (fun v => v = 0 \/ v = 1) (arr_data stored) ->
  In cell (List.concat
             (output_cells self stored out_frames out_segments matrix)) ->
  List.length cell = out_segments /\ Forall (fun v => v = 0 \/ v = 1) cell.
Proof.
  intros Hbits Hin. apply in_concat in Hin. destruct Hin as (frame & Hf & Hc).
  unfold output_cells in Hf. apply in_map_iff in Hf.
  destruct Hf as (out_frm & <- & _).
  apply in_map_iff in Hc. destruct Hc as (p & <- & _).
  split; [now rewrite length_map, length_seq |].
  apply Forall_forall. intros v Hv. apply in_map_iff in Hv.
  destruct Hv as (out_seg & <- & _).
  destruct (1 <=? _); [| now left].
  destruct (ndim stored =? 2)%nat; now apply nth_bit.
Qed.

(** What a call that returns without combining tells about the same call with
    [combine_segments]. *)
Lemma _get_pixels_by_seg_frame_checked (ext : External) (self : Segmentation)
    (seg_frames_matrix : ndarray) (segment_numbers : list Z) (relabel : bool)
    (out_frames out_segments : nat) (uncombined stored : ndarray) :
  arr_shape seg_frames_matrix = [out_frames; out_segments] ->
  _get_pixels_by_seg_frame ext self seg_frames_matrix segment_numbers false
    relabel = Ok uncombined ->
  pixel_array ext self = Ok stored ->
  List.length segment_numbers = out_segments
  /\ segment_numbers <> []
  /\ Forall (fun n => 1 <= n) segment_numbers
  /\ (SegmentationType self = BINARY ->
      _get_pixels_by_seg_frame ext self seg_frames_matrix segment_numbers true
        relabel
      = let cells :=
          output_cells self stored out_frames out_segments
            (arr_data seg_frames_matrix) in
        check negb (existsb (existsb (fun l => 1 <? sum_Z l)) cells)
        else RuntimeError "Segments cannot be combined because they overlap" in
        Ok (mk_ndarray np_int64 [out_frames; Rows self; Columns self]
              (flat_map
                 (map (fun l =>
                         max_of (zip_mul l (labels_of relabel segment_numbers))))
                 cells))).
Proof.
  intros Hshape Hcall Hstored.
  unfold _get_pixels_by_seg_frame in *. rewrite Hshape in *.
  cbn [andb negb] in Hcall.
  destruct (negb (dtype_eqb (arr_dtype seg_frames_matrix) np_bool));
    [| discriminate].
  destruct (min_Z (arr_data seg_frames_matrix)) as [lowest |];
    [| discriminate].
  cbn [rbind] in *.
  destruct (negb (lowest <? -1)); [| discriminate].
  destruct (max_Z (arr_data seg_frames_matrix)) as [highest |];
    [| discriminate].
  cbn [rbind] in *.
  destruct (negb (Z.of_nat (NumberOfFrames self) <? highest));
    [| discriminate].
  destruct (Nat.eqb_spec (List.length segment_numbers) out_segments)
    as [Hlen | Hlen]; [| discriminate].
  destruct (min_Z segment_numbers) as [lowest_segment |] eqn:Hmin;
    [| discriminate].
  cbn [rbind] in *.
  destruct (max_Z segment_numbers) as [highest_segment |];
    [| discriminate].
  cbn [rbind] in *.
  destruct (negb ((lowest_segment <? 1) || _)) eqn:Hrange; [| discriminate].
  rewrite Hstored in *. cbn [rbind] in *.
  apply negb_true_iff, orb_false_iff in Hrange.
  destruct Hrange as [Hlow _]. apply Z.ltb_ge in Hlow.
  destruct segment_numbers as [| n rest]; [discriminate |].
  inversion Hmin; subst lowest_segment.
  repeat split.
  - exact Hlen.
  - discriminate.
  - apply Forall_forall. intros y Hy.
    pose proof (fold_left_min_le rest n y Hy). lia.
  - intros Hbinary. rewrite Hbinary. reflexivity.
Qed.

Lemma labels_of_spec (relabel : bool) (segment_numbers : list Z) :
  Forall (fun n => 1 <= n) segment_numbers ->
  List.length (labels_of relabel segment_numbers) = List.length segment_numbers
  /\ Forall (fun n => 1 <= n) (labels_of relabel segment_numbers)
  /\ (relabel = true ->
      forall v, In v (labels_of relabel segment_numbers) ->
                1 <= v <= Z.of_nat (List.length segment_numbers)).
Proof.
  intros Hsegs. destruct relabel; simpl.
  - rewrite length_map, length_seq.
    assert (Hrange : forall v,
              In v (map Z.of_nat (seq 1 (List.length segment_numbers))) ->
              1 <= v <= Z.of_nat (List.length segment_numbers)).
    { intros v Hv. apply in_map_iff in Hv.
      destruct Hv as (k & <- & Hk). apply in_seq in Hk. lia. }
    split; [reflexivity |]. split.
    + apply Forall_forall. intros v Hv. apply Hrange, Hv.
    + intros _. exact Hrange.
  - split; [reflexivity |]. split; [exact Hsegs | discriminate].
Qed.

(** C5, as the code has it.  With [combine_segments] a call of
    [_get_pixels_by_seg_frame] raises whenever the segmentation type is not
    BINARY, whatever the other arguments are.  For a BINARY object whose
    stored samples are zeros and ones and arguments that pass the checks
    (the call without combining returns), it raises the overlap error when
    some pixel of an output frame is positive in two of the selected
    segments, and otherwise returns a label map with one value per pixel:
    the label of the segment that is positive there (its place in
    [segment_numbers] counted from 1 with [relabel], its segment number
    without) and 0 where no segment is.  The values are therefore 0 or
    labels, between 0 and [len(segment_numbers)] with [relabel], and the
    maximum of the map is the greatest label when the segment that has it is
    positive at a pixel of an output frame. *)
Theorem combine_segments_label_map (ext : External) (self : Segmentation)
    (seg_frames_matrix : ndarray) (segment_numbers : list Z)
    (relabel : bool) :
  let combined :=
    _get_pixels_by_seg_frame ext self seg_frames_matrix segment_numbers true
      relabel in
  (SegmentationType self <> BINARY ->
   combined
   = Raise (ValueError
              "Cannot combine segments if the segmentation is not binary"))
  /\ (forall (out_frames out_segments : nat) (uncombined stored : ndarray),
        SegmentationType self = BINARY ->
        arr_shape seg_frames_matrix = [out_frames; out_segments] ->
        _get_pixels_by_seg_frame ext self seg_frames_matrix segment_numbers
          false relabel = Ok uncombined ->
        pixel_array ext self = Ok stored ->
        Forall (fun v => v = 0 \/ v = 1) (arr_data stored) ->
        let pixels :=
          List.concat (output_cells self stored out_frames out_segments
                         (arr_data seg_frames_matrix)) in
        (Exists shared_pixel pixels ->
         combined
         = Raise (RuntimeError
                    "Segments cannot be combined because they overlap"))
        /\ (~ Exists shared_pixel pixels ->
            exists values,
              combined
              = Ok (mk_ndarray np_int64 [out_frames; Rows self; Columns self]
                      values)
              /\ Forall2 (label_of_pixel (labels_of relabel segment_numbers))
                   pixels values
              /\ Forall (fun v => v = 0
                                  \/ In v (labels_of relabel segment_numbers))
                   values
              /\ (relabel = true ->
                  Forall (fun v =>
                            0 <= v <= Z.of_nat (List.length segment_numbers))
                    values)
              /\ (forall k cell,
                     In cell pixels -> 0 < nth k cell 0 ->
                     is_max (nth k (labels_of relabel segment_numbers) 0)
                       (labels_of relabel segment_numbers) ->
                     max_of values
                     = nth k (labels_of relabel segment_numbers) 0))).
Proof.
  intros combined. split.
  - intros Hty. subst combined. unfold _get_pixels_by_seg_frame.
    destruct (SegmentationType self); [congruence | reflexivity].
  - intros out_frames out_segments uncombined stored Hbinary Hshape Hcall
      Hstored Hbits pixels.
    destruct (_get_pixels_by_seg_frame_checked ext self seg_frames_matrix
                segment_numbers relabel out_frames out_segments uncombined
                stored Hshape Hcall Hstored)
      as (Hlen & Hne & Hsegs & Hcombined).
    specialize (Hcombined Hbinary). subst combined. rewrite Hcombined.
    cbv zeta. rewrite existsb_concat, flat_map_map_concat.
    fold pixels.
    assert (Hcell : forall cell, In cell pixels ->
              List.length cell = out_segments
              /\ Forall (fun v => v = 0 \/ v = 1) cell).
    { intros cell Hin. eapply output_cells_cell; eauto. }
    destruct (labels_of_spec relabel segment_numbers Hsegs)
      as (Hllen & Hlpos & Hlrange).
    split.
    + intros Hex. apply Exists_exists in Hex.
      destruct Hex as (cell & Hin & Hshared).
      replace (existsb (fun l => 1 <? sum_Z l) pixels) with true;
        [reflexivity |].
      symmetry. apply existsb_exists. exists cell. split; [exact Hin |].
      apply shared_pixel_sum; [now apply Hcell | exact Hshared].
    + intros Hnone.
      assert (Hfree : forall cell, In cell pixels -> ~ shared_pixel cell).
      { intros cell Hin Hshared. apply Hnone, Exists_exists. eauto. }
      replace (existsb (fun l => 1 <? sum_Z l) pixels) with false.
      2:{ symmetry. apply not_true_iff_false. intros Hex.
          apply existsb_exists in Hex. destruct Hex as (cell & Hin & Hsum).
          apply (Hfree cell Hin).
          apply shared_pixel_sum; [now apply Hcell | exact Hsum]. }
      cbn [negb]. eexists. split; [reflexivity |].
      assert (Hlabel : forall cell, In cell pixels ->
                label_of_pixel (labels_of relabel segment_numbers) cell
                  (max_of (zip_mul cell (labels_of relabel segment_numbers)))).
      { intros cell Hin. destruct (Hcell cell Hin) as [Hclen Hcbits].
        apply max_of_zip_mul_label; auto.
        - congruence.
        - intros ->. simpl in Hclen. subst out_segments.
          destruct segment_numbers; [congruence | discriminate]. }
      split; [| split; [| split]].
      * clear - Hlabel. induction pixels as [| cell rest IH]; simpl;
          constructor.
        -- apply Hlabel. now left.
        -- apply IH. intros c Hc. apply Hlabel. now right.
      * apply Forall_forall. intros v Hv. apply in_map_iff in Hv.
        destruct Hv as (cell & <- & Hin). apply (Hlabel cell Hin).
      * intros Hrel. apply Forall_forall. intros v Hv. apply in_map_iff in Hv.
        destruct Hv as (cell & <- & Hin).
        destruct (Hlabel cell Hin) as (_ & _ & [Hzero | Hl]).
        -- rewrite Hzero. lia.
        -- specialize (Hlrange Hrel _ Hl). lia.
      * intros k cell Hin Hpos [Hmem Hgreatest].
        set (labels := labels_of relabel segment_numbers) in *.
        set (label := fun c => max_of (zip_mul c labels)).
        assert (Hvalues : map label pixels <> []).
        { destruct pixels; [destruct Hin | discriminate]. }
        destruct (max_of_is_max _ Hvalues) as [Hin_max Hle_max].
        assert (Hcell_k : label cell = nth k labels 0).
        { apply (Hlabel cell Hin). exact Hpos. }
        assert (Hlow : nth k labels 0 <= max_of (map label pixels)).
        { rewrite <- Hcell_k. apply Hle_max, in_map, Hin. }
        assert (Hone : 1 <= nth k labels 0).
        { rewrite Forall_forall in Hlpos. apply Hlpos, Hmem. }
        apply in_map_iff in Hin_max.
        destruct Hin_max as (c & Hc & Hcin).
        destruct (Hlabel c Hcin) as (_ & _ & [Hzero | Hl]).
        -- change (label c = 0) in Hzero. lia.
        -- change (In (label c) labels) in Hl. rewrite Hc in Hl.
           specialize (Hgreatest _ Hl). lia.
Qed.

Lemma combine_segments_label_map_witness :
  (exists self,
      fractional_example = Ok self
      /\ SegmentationType self <> BINARY
      /\ _get_pixels_by_seg_frame plain_codecs self
           (mk_ndarray np_int32 [1; 1]%nat [1]) [1] true false
         = Raise (ValueError
                    "Cannot combine segments if the segmentation is not binary"))
  /\ exists self stored uncombined,
       binary_example = Ok self
       /\ pixel_array plain_codecs self = Ok stored
       /\ _get_pixels_by_seg_frame plain_codecs self
            (mk_ndarray np_int32 [1; 2]%nat [2; 4]) [2; 4] false true
          = Ok uncombined
       /\ let pixels :=
            List.concat (output_cells self stored 1 2 [2; 4]) in
          (Exists shared_pixel pixels ->
           _get_pixels_by_seg_frame plain_codecs self
             (mk_ndarray np_int32 [1; 2]%nat [2; 4]) [2; 4] true true
           = Raise (RuntimeError
                      "Segments cannot be combined because they overlap"))
          /\ (~ Exists shared_pixel pixels ->
              exists values,
                _get_pixels_by_seg_frame plain_codecs self
                  (mk_ndarray np_int32 [1; 2]%nat [2; 4]) [2; 4] true true
                = Ok (mk_ndarray np_int64 [1%nat; Rows self; Columns self]
                        values)
                /\ Forall2 (label_of_pixel (labels_of true [2; 4]))
                     pixels values
                /\ Forall (fun v => v = 0 \/ In v (labels_of true [2; 4]))
                     values
                /\ (true = true ->
                    Forall (fun v => 0 <= v <= Z.of_nat (List.length [2; 4]))
                      values)
                /\ (forall k cell,
                       In cell pixels -> 0 < nth k cell 0 ->
                       is_max (nth k (labels_of true [2; 4]) 0)
                         (labels_of true [2; 4]) ->
                       max_of values = nth k (labels_of true [2; 4]) 0)).
Proof.
  split.
  - eexists. split; [vm_compute; reflexivity |]. split; [discriminate |].
    match goal with
    | |- _get_pixels_by_seg_frame _ ?s ?m ?numbers true ?r = _ =>
        apply (proj1 (combine_segments_label_map plain_codecs s m numbers r))
    end.
    discriminate.
  - eexists. eexists. eexists.
    split; [vm_compute; reflexivity |].
    split; [vm_compute; reflexivity |].
    split; [vm_compute; reflexivity |].
    eapply (proj2 (combine_segments_label_map plain_codecs _
                     (mk_ndarray np_int32 [1; 2]%nat [2; 4]) [2; 4] true)
              1%nat 2%nat).
    + reflexivity.
    + reflexivity.
    + vm_compute. reflexivity.
    + vm_compute. reflexivity.
    + repeat (apply Forall_cons; [first [now left | now right] |]).
      apply Forall_nil.
Defined.

(** C5 as stated fails: the label map of the segments 1 and 2, of which only
    the first has a frame in the matrix, has the maximum 1, with and without
    [relabel], and not 2. *)
Lemma combine_segments_maximum :
  exists self values,
    binary_example = Ok self
    /\ _get_pixels_by_seg_frame plain_codecs self
         (mk_ndarray np_int32 [1; 2]%nat [1; -1]) [1; 2] true true
       = Ok (mk_ndarray np_int64 [1; 2; 4]%nat values)
    /\ _get_pixels_by_seg_frame plain_codecs self
         (mk_ndarray np_int32 [1; 2]%nat [1; -1]) [1; 2] true false
       = Ok (mk_ndarray np_int64 [1; 2; 4]%nat values)
    /\ max_of values = 1
    /\ max_of values <> Z.of_nat (List.length [1; 2])
    /\ max_of values <> max_of [1; 2].
Proof.
  eexists. eexists.
  split; [vm_compute; reflexivity |].
  split; [vm_compute; reflexivity |].
  split; [vm_compute; reflexivity |].
  split; [reflexivity |]. split; discriminate.
Qed.

(** ** The frames [add_segments] stores *)

Lemma get_self_inv (s s' a : Segmentation) :
  get_self s = (s', Ok a) -> s' = s /\ a = s.
Proof. unfold get_self. intros H. inversion H. auto. Qed.

Lemma lift_inv {A : Type} (r : result A) (s s' : Segmentation) (a : A) :
  lift r s = (s', Ok a) -> s' = s /\ r = Ok a.
Proof. unfold lift. intros H. inversion H. auto. Qed.

Lemma update_inv (g : Segmentation -> Segmentation) (s s' : Segmentation)
    (u : unit) :
  update g s = (s', Ok u) -> s' = g s.
Proof. unfold update. intros H. inversion H. auto. Qed.

Lemma ret_inv {A : Type} (x a : A) (s s' : Segmentation) :
  ret x s = (s', Ok a) -> s' = s /\ a = x.
Proof. unfold ret. intros H. inversion H. auto. Qed.

(** Taking a run that returns apart, step by step. *)
Ltac run_step H :=
  lazymatch type of H with
  | bind _ _ _ = (_, Ok _) =>
      let s := fresh "s" in let a := fresh "a" in let H1 := fresh "Hrun" in
      apply bind_returns_inv in H; destruct H as (s & a & H1 & H);
      run_step H1
  | get_self _ = (_, Ok _) =>
      apply get_self_inv in H; destruct H as [? ?]; subst
  | lift _ _ = (_, Ok _) =>
      let E := fresh "Hlift" in
      apply lift_inv in H; destruct H as [? E]; subst
  | update _ _ = (_, Ok _) => apply update_inv in H; subst
  | ret _ _ = (_, Ok _) => apply ret_inv in H; destruct H as [? ?]; subst
  | raise _ _ = (_, Ok _) => discriminate H
  | _ => idtac
  end.

Ltac run H := repeat (progress run_step H).

Lemma static_encode_pixels (ext : External) (s s0 : Segmentation)
    (planes : ndarray) :
  static s = static s0 ->
  _encode_pixels ext s planes = _encode_pixels ext s0 planes.
Proof. intros Hst. unfold _encode_pixels. now use_static Hst. Qed.

Lemma static_planes_of (s s0 : Segmentation) (pixel_array : PixelArray)
    (n : Z) :
  static s = static s0 -> planes_of s pixel_array n = planes_of s0 pixel_array n.
Proof. intros Hst. unfold planes_of. now use_static Hst. Qed.

Section StoredFrames.

Variable ext : External.
Variable source_images : list SourceImage.
Variable plane_positions : list PlanePositionSequence.
Variable plane_position_values : list (list (list Z)).
Variable plane_sort_index : list nat.
Variable dimension_position_values : list (list (list Z)).
Variable are_spatial_locations_preserved : bool.
Variable plane_size : nat.

Let add_plane' :=
  add_plane source_images plane_positions plane_position_values
    plane_sort_index dimension_position_values are_spatial_locations_preserved
    plane_size.

(** A plane that is empty changes nothing; a plane that is not adds one frame
    item and counts one frame. *)
Lemma add_plane_spec (segment_number : Z) (planes : list Z)
    (contained contained' : list nat) (j : nat) (s s' : Segmentation) :
  add_plane' segment_number planes contained j s = (s', Ok contained') ->
  static s' = static s /\ PixelData s' = PixelData s
  /\ SegmentSequence s' = SegmentSequence s
  /\ if sum_Z (plane_at plane_size j planes) =? 0
     then s' = s /\ contained' = contained
     else contained' = contained ++ [j]
          /\ NumberOfFrames s' = (NumberOfFrames s + 1)%nat
          /\ exists item,
              PerFrameFunctionalGroupsSequence s'
              = PerFrameFunctionalGroupsSequence s ++ [item]
              /\ frame_key item = (segment_number, nth j plane_positions []).
Proof.
  unfold add_plane', add_plane.
  destruct (sum_Z (plane_at plane_size j planes) =? 0).
  - intros H. run H. auto.
  - intros H. run_step H. run_step H. run_step H.
    match goal with
    | Hr : (if are_spatial_locations_preserved then _ else _) ?s1 = (?s2, _)
      |- _ =>
        assert (s2 = s1)
          by (destruct are_spatial_locations_preserved; run Hr; auto);
        subst s2; clear Hr
    end.
    run H. repeat split. eexists. split; reflexivity.
Qed.

Lemma add_plane_loop (segment_number : Z) (planes : list Z)
    (indices : list nat) :
  forall contained contained' s s',
    foldM (add_plane' segment_number planes) contained indices s
    = (s', Ok contained') ->
    let kept :=
      filter (fun j => negb (sum_Z (plane_at plane_size j planes) =? 0))
        indices in
    static s' = static s /\ PixelData s' = PixelData s
    /\ SegmentSequence s' = SegmentSequence s
    /\ contained' = contained ++ kept
    /\ exists items,
        PerFrameFunctionalGroupsSequence s'
        = PerFrameFunctionalGroupsSequence s ++ items
        /\ map frame_key items
           = map (fun j => (segment_number, nth j plane_positions [])) kept
        /\ NumberOfFrames s' = (NumberOfFrames s + List.length items)%nat.
Proof.
  induction indices as [| j indices IH]; intros contained contained' s s' H.
  - simpl in H. run H. simpl. rewrite app_nil_r.
    repeat split. exists []. rewrite app_nil_r. auto.
  - simpl in H. apply bind_returns_inv in H.
    destruct H as (s1 & contained1 & Hplane & Hrest).
    apply add_plane_spec in Hplane.
    destruct Hplane as (Hst1 & Hpd1 & Hseg1 & Hplane).
    specialize (IH _ _ _ _ Hrest). cbv zeta in IH.
    destruct IH as (Hst & Hpd & Hseg & Hcont & items & Hitems & Hkeys & Hnf).
    cbn [filter].
    destruct (sum_Z (plane_at plane_size j planes) =? 0); cbn [negb].
    + destruct Hplane as [-> ->]. repeat split; auto. exists items. auto.
    + destruct Hplane as (-> & Hnf1 & item & Hitem & Hkey).
      repeat split; try congruence.
      * now rewrite Hcont, <- app_assoc.
      * exists (item :: items). cbn [map List.length].
        rewrite Hitems, Hitem, <- app_assoc. repeat split; [congruence | lia].
Qed.

End StoredFrames.

Lemma static_Rows_Columns (s s0 : Segmentation) :
  static s = static s0 -> Rows s = Rows s0 /\ Columns s = Columns s0.
Proof. intros Hst. unfold static in Hst. injection Hst. intros. auto. Qed.

Lemma mapM_ext {A B : Type} (f g : A -> result B) (l : list A) :
  (forall x, f x = g x) -> mapM f l = mapM g l.
Proof.
  intros Hfg. induction l as [| x l IH]; [reflexivity |].
  cbn [mapM]. now rewrite Hfg, IH.
Qed.

Section StoredSegments.

Variable ext : External.
Variable source_images : list SourceImage.
Variable plane_positions : list PlanePositionSequence.
Variable plane_position_values : list (list (list Z)).
Variable plane_sort_index : list nat.
Variable dimension_position_values : list (list (list Z)).
Variable are_spatial_locations_preserved : bool.
Variable pixel_array : PixelArray.
Variable self0 : Segmentation.

Let add_segment' :=
  add_segment ext source_images plane_positions plane_position_values
    plane_sort_index dimension_position_values are_spatial_locations_preserved
    (Rows self0 * Columns self0) pixel_array.

(** One round of the loop over the segments: it adds the frame items of the
    planes of the segment that are not empty, and stores these planes only. *)
Lemma add_segment_spec (encoding encoding' : Encoding)
    (description : SegmentDescription) (s s' : Segmentation) :
  static s = static self0 ->
  add_segment' encoding description s = (s', Ok encoding') ->
  let kept := kept_planes self0 pixel_array plane_sort_index description in
  static s' = static self0
  /\ (exists items,
         PerFrameFunctionalGroupsSequence s'
         = PerFrameFunctionalGroupsSequence s ++ items
         /\ map frame_key items
            = map (fun j => (SegmentNumber description,
                             nth j plane_positions [])) kept
         /\ NumberOfFrames s' = (NumberOfFrames s + List.length items)%nat)
  /\ stored_by_loop ext self0 pixel_array plane_sort_index [description]
       encoding encoding' (PixelData s) (PixelData s').
Proof.
  intros Hst H. unfold add_segment', add_segment in H.
  run_step H. run_step H. destruct a as [planes_dtype planes].
  rewrite (static_planes_of _ _ _ _ Hst) in Hlift.
  apply bind_returns_inv in H. destruct H as (s1 & contained & Hloop & H).
  apply add_plane_loop in Hloop. cbv zeta in Hloop.
  destruct Hloop as (Hst1 & Hpd1 & Hseg1 & Hcont & items & Hitems & Hkeys & Hnf).
  simpl in Hcont.
  assert (Hkept :
    filter (fun j => negb (sum_Z (plane_at (Rows self0 * Columns self0) j planes)
                           =? 0)) plane_sort_index
    = kept_planes self0 pixel_array plane_sort_index description).
  { unfold kept_planes, plane_sum. now rewrite Hlift. }
  rewrite Hkept in *. clear Hkept. subst contained.
  run_step H.
  apply bind_returns_inv in H. destruct H as (s2 & enc2 & Henc & H).
  assert (Hst1' : static s1 = static self0) by congruence.
  destruct (static_Rows_Columns _ _ Hst1') as [Hrows Hcols].
  assert (Hstep :
    static s2 = static self0
    /\ PerFrameFunctionalGroupsSequence s2 = PerFrameFunctionalGroupsSequence s1
    /\ NumberOfFrames s2 = NumberOfFrames s1
    /\ stored_by_loop ext self0 pixel_array plane_sort_index [description]
         encoding enc2 (PixelData s) (PixelData s2)).
  { destruct encoding as [| full_frames_list | full_pixel_array].
    - run Henc. split; [auto |]. split; [auto |]. split; [auto |].
      split; [reflexivity |].
      rewrite (static_encode_pixels ext _ _ _ Hst1'), Hrows, Hcols in Hlift0.
      eexists. split.
      + cbn [mapM]. unfold kept_planes_bytes. rewrite Hlift. cbn [rbind].
        rewrite Hlift0. reflexivity.
      + cbn. now rewrite Hpd1, app_nil_r.
    - run Henc. split; [auto |]. split; [auto |]. split; [auto |].
      split; [now rewrite Hpd1 |].
      rewrite Hrows, Hcols in Hlift0.
      rewrite (mapM_ext _
                 (fun f =>
                    _encode_pixels ext self0
                      (mk_ndarray planes_dtype [Rows self0; Columns self0]
                         (plane_at (Rows self0 * Columns self0) f planes))))
        in Hlift0
        by (intros f; apply static_encode_pixels; exact Hst1').
      eexists. split.
      + cbn [mapM]. unfold kept_planes_frames. rewrite Hlift. cbn [rbind].
        rewrite Hlift0. reflexivity.
      + cbn. now rewrite app_nil_r.
    - run Henc. split; [auto |]. split; [auto |]. split; [auto |].
      split; [now rewrite Hpd1 |].
      eexists. split.
      + cbn [mapM]. unfold kept_planes_samples. rewrite Hlift. cbn [rbind].
        reflexivity.
      + cbn. now rewrite app_nil_r. }
  destruct Hstep as (Hst2 & Hframes2 & Hnf2 & Hfw).
  run_step H.
  apply bind_returns_inv in H. destruct H as (s3 & u & Hseq & H).
  assert (Hs3 : static s3 = static s2
                /\ PerFrameFunctionalGroupsSequence s3
                   = PerFrameFunctionalGroupsSequence s2
                /\ NumberOfFrames s3 = NumberOfFrames s2
                /\ PixelData s3 = PixelData s2).
  { destruct (negb (Z_mem (SegmentNumber description) (_segment_inventory s2)));
      run Hseq; repeat split. }
  destruct Hs3 as (Hst3 & Hframes3 & Hnf3 & Hpd3).
  run H. cbn [static]. split; [| split].
  - rewrite <- Hst2, <- Hst3. reflexivity.
  - exists items. cbn. rewrite Hframes3, Hframes2, Hnf3, Hnf2. auto.
  - replace (PixelData (set_segment_inventory _ s3)) with (PixelData s2)
      by (rewrite <- Hpd3; reflexivity).
    exact Hfw.
Qed.

Lemma add_segments_loop_spec (descriptions : list SegmentDescription) :
  forall encoding encoding' s s',
    static s = static self0 ->
    foldM add_segment' encoding descriptions s = (s', Ok encoding') ->
    static s' = static self0
    /\ (exists items,
           PerFrameFunctionalGroupsSequence s'
           = PerFrameFunctionalGroupsSequence s ++ items
           /\ map frame_key items
              = flat_map
                  (fun d =>
                     map (fun j => (SegmentNumber d, nth j plane_positions []))
                       (kept_planes self0 pixel_array plane_sort_index d))
                  descriptions
           /\ NumberOfFrames s' = (NumberOfFrames s + List.length items)%nat)
    /\ stored_by_loop ext self0 pixel_array plane_sort_index descriptions
         encoding encoding' (PixelData s) (PixelData s').
Proof.
  induction descriptions as [| d descriptions IH];
    intros encoding encoding' s s' Hst H.
  - simpl in H. run H. split; [exact Hst |]. split.
    + exists []. rewrite app_nil_r. auto.
    + match goal with
      | |- stored_by_loop _ _ _ _ _ ?e _ _ _ => destruct e
      end; cbn; (split; [reflexivity |]); exists [];
        cbn; now rewrite app_nil_r.
  - simpl in H. apply bind_returns_inv in H.
    destruct H as (s1 & enc1 & Hseg & H).
    apply add_segment_spec in Hseg; [| exact Hst]. cbv zeta in Hseg.
    destruct Hseg as (Hst1 & (items1 & Hitems1 & Hkeys1 & Hnf1) & Hfw1).
    destruct (IH _ _ _ _ Hst1 H)
      as (Hst2 & (items2 & Hitems2 & Hkeys2 & Hnf2) & Hfw2).
    split; [exact Hst2 |]. split.
    + exists (items1 ++ items2). rewrite Hitems2, Hitems1, <- app_assoc.
      split; [reflexivity |]. split.
      * cbn [flat_map]. now rewrite map_app, Hkeys1, Hkeys2.
      * rewrite length_app. lia.
    + unfold stored_by_loop in *. cbn [mapM] in *.
      destruct encoding as [| full_frames_list | full_pixel_array].
      * destruct Hfw1 as (-> & chunks1 & Hc1 & Hpd1).
        destruct Hfw2 as (-> & chunks & Hc & Hpd2).
        split; [reflexivity |].
        destruct (kept_planes_bytes ext self0 pixel_array plane_sort_index d)
          as [chunk |]; [| discriminate].
        cbn in Hc1. inversion Hc1; subst chunks1.
        exists (chunk :: chunks). rewrite Hc. split; [reflexivity |].
        cbn in Hpd1. rewrite app_nil_r in Hpd1.
        cbn [List.concat]. now rewrite Hpd2, Hpd1, <- app_assoc.
      * destruct Hfw1 as (Hpd1 & frames1 & Hc1 & ->).
        destruct Hfw2 as (Hpd2 & frames & Hc & ->).
        split; [congruence |].
        destruct (kept_planes_frames ext self0 pixel_array plane_sort_index d)
          as [frame |]; [| discriminate].
        cbn in Hc1. inversion Hc1; subst frames1.
        exists (frame :: frames). rewrite Hc. split; [reflexivity |].
        cbn [List.concat]. now rewrite app_nil_r, <- app_assoc.
      * destruct Hfw1 as (Hpd1 & samples1 & Hc1 & ->).
        destruct Hfw2 as (Hpd2 & samples & Hc & ->).
        split; [congruence |].
        destruct (kept_planes_samples self0 pixel_array plane_sort_index d)
          as [sample |]; [| discriminate].
        cbn in Hc1. inversion Hc1; subst samples1.
        exists (sample :: samples). rewrite Hc. split; [reflexivity |].
        cbn [List.concat]. now rewrite app_nil_r, <- app_assoc.
Qed.

End StoredSegments.

Lemma prepare_encoding_spec (ext : External) (s s1 : Segmentation)
    (encoding : Encoding) :
  prepare_encoding ext s = (s1, Ok encoding) ->
  static s1 = static s
  /\ PerFrameFunctionalGroupsSequence s1 = PerFrameFunctionalGroupsSequence s
  /\ NumberOfFrames s1 = NumberOfFrames s
  /\ PixelData s1 = match encoding with
                    | Framewise => without_pad s
                    | _ => PixelData s
                    end.
Proof.
  unfold prepare_encoding. intros H. run_step H.
  destruct (framewise_encoding_of s).
  - apply bind_returns_inv in H. destruct H as (s2 & u & Hcut & H).
    unfold without_pad.
    destruct (List.length (PixelData s)
              =? get_expected_length (pixel_format_of s) + 1)%nat;
      run Hcut; run H; repeat split.
  - destruct (is_encapsulated (TransferSyntaxUID s)).
    + run H. repeat split.
    + destruct (0 <? List.length (PixelData s))%nat; run H; repeat split.
Qed.

Lemma finish_encoding_spec (ext : External) (encoding : Encoding)
    (s s' : Segmentation) (u : unit) :
  finish_encoding ext encoding s = (s', Ok u) ->
  static s' = static s
  /\ PerFrameFunctionalGroupsSequence s' = PerFrameFunctionalGroupsSequence s
  /\ NumberOfFrames s' = NumberOfFrames s
  /\ exists data,
      match encoding with
      | Framewise => data = PixelData s
      | Encapsulated full_frames_list =>
          data = encapsulate ext full_frames_list
      | Repacked full_pixel_array =>
          _encode_pixels ext s
            (mk_ndarray np_uint8 [List.length full_pixel_array]
               full_pixel_array) = Ok data
      end
      /\ PixelData s' = data ++ pad_of data.
Proof.
  unfold finish_encoding. intros H. run_step H.
  apply bind_returns_inv in H. destruct H as (s1 & u1 & Henc & H).
  assert (Hs1 :
    static s1 = static s
    /\ PerFrameFunctionalGroupsSequence s1 = PerFrameFunctionalGroupsSequence s
    /\ NumberOfFrames s1 = NumberOfFrames s
    /\ match encoding with
       | Framewise => PixelData s1 = PixelData s
       | Encapsulated full_frames_list =>
           PixelData s1 = encapsulate ext full_frames_list
       | Repacked full_pixel_array =>
           _encode_pixels ext s
             (mk_ndarray np_uint8 [List.length full_pixel_array]
                full_pixel_array) = Ok (PixelData s1)
       end).
  { destruct encoding; run Henc; repeat split. exact Hlift. }
  destruct Hs1 as (Hst & Hframes & Hnf & Hdata).
  run_step H.
  assert (Hpad :
    static s' = static s1
    /\ PerFrameFunctionalGroupsSequence s'
       = PerFrameFunctionalGroupsSequence s1
    /\ NumberOfFrames s' = NumberOfFrames s1
    /\ PixelData s' = PixelData s1 ++ pad_of (PixelData s1)).
  { unfold pad_of.
    destruct (List.length (PixelData s1) mod 2 =? 1)%nat; run H; repeat split.
    symmetry. apply app_nil_r. }
  destruct Hpad as (Hst' & Hframes' & Hnf' & Hpd').
  split; [congruence |]. split; [congruence |]. split; [congruence |].
  exists (PixelData s1). split; [| exact Hpd'].
  destruct encoding; auto.
Qed.

Lemma resolve_plane_positions_length (source_images : list SourceImage)
    (pixel_array : PixelArray)
    (plane_positions : option (list PlanePositionSequence))
    (source_plane_positions positions : list PlanePositionSequence) :
  resolve_plane_positions source_images pixel_array plane_positions
  = Ok (source_plane_positions, positions) ->
  List.length positions = hd 0%nat (pa_shape pixel_array).
Proof.
  unfold resolve_plane_positions.
  destruct source_images as [| src_image rest]; [discriminate |].
  match goal with
  | |- context [rbind ?r _] => destruct r as [spp | e]; [| discriminate]
  end.
  cbn [rbind].
  destruct plane_positions as [given |].
  - destruct (hd 0%nat (pa_shape pixel_array) =? List.length given)%nat eqn:E;
      [| discriminate].
    intros H. inversion H; subst. apply Nat.eqb_eq in E. now symmetry.
  - destruct (hd 0%nat (pa_shape pixel_array) =? List.length spp)%nat eqn:E.
    + intros H. inversion H; subst. apply Nat.eqb_eq in E. now symmetry.
    + destruct (src_NumberOfFrames src_image); discriminate.
Qed.

Lemma get_index_values_length (self : list Keyword)
    (plane_positions : list PlanePositionSequence)
    (values : list (list (list Z))) (plane_sort_index : list nat) :
  get_index_values self plane_positions = Ok (values, plane_sort_index) ->
  List.length values = List.length plane_positions
  /\ plane_sort_index = snd (np_unique_rows (map (@List.concat Z) values)).
Proof.
  unfold get_index_values.
  destruct (mapM (fun p => mapM (get_value p) (tl self)) plane_positions)
    as [vs | e] eqn:Hvs; [| discriminate].
  cbn [rbind].
  destruct (np_unique_rows (map (@List.concat Z) vs)) as [urows idx] eqn:Hu.
  intros H. inversion H; subst. rewrite Hu. split; [| reflexivity].
  apply mapM_Forall2 in Hvs. symmetry. eapply Forall2_length. exact Hvs.
Qed.

(** The planes kept of a list of plane indices are the planes kept of any
    rearrangement of it, rearranged. *)
Lemma filter_Permutation {A : Type} (keep : A -> bool) (xs ys : list A) :
  Permutation xs ys -> Permutation (filter keep xs) (filter keep ys).
Proof.
  intros Hperm.
  induction Hperm as [| x xs ys Hp IH | x y xs | xs ys zs Hp1 IH1 Hp2 IH2].
  - constructor.
  - cbn [filter]. destruct (keep x); [now constructor | exact IH].
  - cbn [filter]. destruct (keep x), (keep y);
      first [apply perm_swap | apply Permutation_refl].
  - eapply Permutation_trans; eauto.
Qed.

(** A run of [add_segments] that returns, taken apart. *)
Lemma add_segments_returns_inv (ext : External) (pixel_array : PixelArray)
    (segment_descriptions : list SegmentDescription)
    (plane_positions : option (list PlanePositionSequence))
    (self self' : Segmentation) (u : unit) :
  add_segments ext pixel_array segment_descriptions plane_positions self
  = (self', Ok u) ->
  exists source_images pixel_array2 source_plane_positions positions values
         plane_sort_index positions_equal dimension_position_values
         encoding s1 encoding' s2 s3,
    _source_images self = Some source_images
    /\ validation self pixel_array segment_descriptions = Ok pixel_array2
    /\ resolve_plane_positions source_images pixel_array2 plane_positions
       = Ok (source_plane_positions, positions)
    /\ get_index_values (DimensionIndexSequence_of self) positions
       = Ok (values, plane_sort_index)
    /\ prepare_encoding ext
         (set_SegmentsOverlap (Some (assigned_overlap self)) self)
       = (s1, Ok encoding)
    /\ foldM
         (add_segment ext source_images positions values plane_sort_index
            dimension_position_values
            (positions_equal
             && match _source_plane_orientation self with
                | Some o => list_Z_eqb (_plane_orientation self) o
                | None => false
                end)
            (Rows self * Columns self) pixel_array2)
         encoding segment_descriptions s1
       = (s2, Ok encoding')
    /\ finish_encoding ext encoding' s2 = (s3, Ok tt)
    /\ _build_luts s3 = (self', Ok u).
Proof.
  intros H. unfold add_segments in H. run_step H.
  destruct (_source_images self) as [source_images |] eqn:Hsrc;
    [| discriminate H].
  do 5 run_step H.
  apply bind_returns_inv in H.
  destruct H as (s & [source_plane_positions positions] & Hres & H).
  run_step Hres.
  apply bind_returns_inv in H.
  destruct H as (s & [values plane_sort_index] & Hidx & H).
  run_step Hidx.
  apply bind_returns_inv in H.
  destruct H as (s & positions_equal & Heq & H). run_step Heq.
  apply bind_returns_inv in H.
  destruct H as (s & dimension_position_values & Hdim & H). run_step Hdim.
  apply bind_returns_inv in H. destruct H as (s1 & encoding & Hprep & H).
  apply bind_returns_inv in H. destruct H as (s2 & encoding' & Hloop & H).
  apply bind_returns_inv in H. destruct H as (s3 & [] & Hfin & H).
  exists source_images, a1, source_plane_positions, positions, values,
    plane_sort_index, positions_equal, dimension_position_values, encoding,
    s1, encoding', s2, s3.
  split; [reflexivity |]. split.
  { unfold validation. rewrite Hlift. cbn [rbind]. rewrite Hlift0.
    cbn [rbind]. rewrite Hlift1. cbn [rbind]. rewrite Hlift2. reflexivity. }
  repeat (split; [eassumption |]). exact H.
Qed.

(** The pixel data a call of [add_segments] that returns leaves: the data
    the loop over the segments has stored for the kept planes, and the pad
    byte of these data. *)
Lemma add_segments_stored_data (ext : External) (pixel_array : PixelArray)
    (segment_descriptions : list SegmentDescription)
    (plane_positions : option (list PlanePositionSequence))
    (self self' : Segmentation) (u : unit) :
  add_segments ext pixel_array segment_descriptions plane_positions self
  = (self', Ok u) ->
  exists source_images pixel_array2 source_plane_positions positions values
         plane_sort_index encoding s1 data,
    _source_images self = Some source_images
    /\ validation self pixel_array segment_descriptions = Ok pixel_array2
    /\ resolve_plane_positions source_images pixel_array2 plane_positions
       = Ok (source_plane_positions, positions)
    /\ get_index_values (DimensionIndexSequence_of self) positions
       = Ok (values, plane_sort_index)
    /\ prepare_encoding ext
         (set_SegmentsOverlap (Some (assigned_overlap self)) self)
       = (s1, Ok encoding)
    /\ stored_pixel_data ext self pixel_array2 plane_sort_index
         segment_descriptions encoding = Ok data
    /\ PixelData self' = data ++ pad_of data.
Proof.
  intros Hrun.
  destruct (add_segments_returns_inv _ _ _ _ _ _ _ Hrun)
    as (source_images & pixel_array2 & source_plane_positions & positions
        & values & plane_sort_index & positions_equal
        & dimension_position_values & encoding & s1 & encoding' & s2 & s3
        & Hsrc & Hval & Hres & Hidx & Hprep & Hloop & Hfin & Hluts).
  exists source_images, pixel_array2, source_plane_positions, positions,
    values, plane_sort_index, encoding, s1.
  destruct (prepare_encoding_spec _ _ _ _ Hprep)
    as (Hst1 & Hframes1 & Hnf1 & Hpd1).
  apply add_segments_loop_spec with (self0 := self) in Hloop;
    [| exact Hst1].
  destruct Hloop as (Hst2 & _ & Hstored).
  destruct (finish_encoding_spec _ _ _ _ _ Hfin)
    as (Hst3 & Hframes3 & Hnf3 & data & Hdata & Hpd3).
  pose proof (_build_luts_preserves_PixelData s3) as Hbpd.
  rewrite Hluts in Hbpd. cbn [fst] in Hbpd.
  exists data. do 5 (split; [assumption |]).
  split; [| congruence].
  unfold stored_by_loop in Hstored. unfold stored_pixel_data.
  destruct encoding as [| full_frames_list | full_pixel_array].
  - destruct Hstored as (-> & chunks & -> & Hpd2). cbn [rbind].
    subst data. rewrite Hpd2, Hpd1. reflexivity.
  - destruct Hstored as (_ & frames & -> & ->). cbn [rbind].
    now subst data.
  - destruct Hstored as (_ & samples & -> & ->). cbn [rbind]. cbv zeta.
    rewrite <- Hdata. symmetry. apply static_encode_pixels. exact Hst2.
Qed.

(** C7.  For every call of [add_segments] that returns, the frame items the
    call appends are those of the planes whose samples do not sum to 0, for
    every described segment in turn and in the order of the plane indices; the
    frame count grows by their number, and the pixel data the call stores are
    made of these planes only (appended frame by frame, encapsulated with the
    former frames, or packed again with the former samples).  A plane whose
    samples sum to 0 gets no frame item and no stored frame.  With one
    described segment and an array of 3 planes at pairwise different
    positions, of which the middle plane is empty and the two others are not,
    the planes 0 and 2 are kept: the call appends exactly 2 frame items and
    adds exactly 2 to the frame count. *)
Theorem add_segments_skips_empty_planes (ext : External)
    (pixel_array : PixelArray)
    (segment_descriptions : list SegmentDescription)
    (plane_positions : option (list PlanePositionSequence))
    (self self' : Segmentation) :
  add_segments ext pixel_array segment_descriptions plane_positions self
  = (self', Ok tt) ->
  exists source_images pixel_array2 source_plane_positions positions values
         plane_sort_index,
    _source_images self = Some source_images
    /\ validation self pixel_array segment_descriptions = Ok pixel_array2
    /\ resolve_plane_positions source_images pixel_array2 plane_positions
       = Ok (source_plane_positions, positions)
    /\ get_index_values (DimensionIndexSequence_of self) positions
       = Ok (values, plane_sort_index)
    /\ (exists items,
           PerFrameFunctionalGroupsSequence self'
           = PerFrameFunctionalGroupsSequence self ++ items
           /\ map frame_key items
              = flat_map
                  (fun d =>
                     map (fun j => (SegmentNumber d, nth j positions []))
                       (kept_planes self pixel_array2 plane_sort_index d))
                  segment_descriptions
           /\ NumberOfFrames self'
              = (NumberOfFrames self + List.length items)%nat)
    /\ (forall d j,
           plane_sum self pixel_array2 d j = 0 ->
           ~ In j (kept_planes self pixel_array2 plane_sort_index d))
    /\ (exists encoding s1 data,
           prepare_encoding ext
             (set_SegmentsOverlap (Some (assigned_overlap self)) self)
           = (s1, Ok encoding)
           /\ stored_pixel_data ext self pixel_array2 plane_sort_index
                segment_descriptions encoding = Ok data
           /\ PixelData self' = data ++ pad_of data)
    /\ (forall d,
           segment_descriptions = [d] ->
           hd 0%nat (pa_shape pixel_array2) = 3%nat ->
           NoDup (map (@List.concat Z) values) ->
           plane_sum self pixel_array2 d 0 <> 0 ->
           plane_sum self pixel_array2 d 1 = 0 ->
           plane_sum self pixel_array2 d 2 <> 0 ->
           Permutation (kept_planes self pixel_array2 plane_sort_index d)
             [0; 2]%nat
           /\ NumberOfFrames self' = (NumberOfFrames self + 2)%nat
           /\ List.length (PerFrameFunctionalGroupsSequence self')
              = (List.length (PerFrameFunctionalGroupsSequence self) + 2)%nat).
Proof.
  intros Hrun.
  destruct (add_segments_returns_inv _ _ _ _ _ _ _ Hrun)
    as (source_images & pixel_array2 & source_plane_positions & positions
        & values & plane_sort_index & positions_equal
        & dimension_position_values & encoding & s1 & encoding' & s2 & s3
        & Hsrc & Hval & Hres & Hidx & Hprep & Hloop & Hfin & Hluts).
  exists source_images, pixel_array2, source_plane_positions, positions,
    values, plane_sort_index.
  do 4 (split; [assumption |]).
  destruct (prepare_encoding_spec _ _ _ _ Hprep)
    as (Hst1 & Hframes1 & Hnf1 & Hpd1).
  apply add_segments_loop_spec with (self0 := self) in Hloop;
    [| exact Hst1].
  destruct Hloop as (Hst2 & (items & Hitems & Hkeys & Hnf2) & Hstored).
  destruct (finish_encoding_spec _ _ _ _ _ Hfin)
    as (Hst3 & Hframes3 & Hnf3 & data & Hdata & Hpd3).
  pose proof (_build_luts_preserves_frames s3) as Hb.
  pose proof (_build_luts_preserves_PixelData s3) as Hbpd.
  rewrite Hluts in Hb, Hbpd. cbn [fst] in Hb, Hbpd.
  injection Hb as Hframes' Hnf' _ _ _.
  assert (Hall :
    PerFrameFunctionalGroupsSequence self'
    = PerFrameFunctionalGroupsSequence self ++ items
    /\ NumberOfFrames self' = (NumberOfFrames self + List.length items)%nat).
  { split.
    - rewrite Hframes', Hframes3, Hitems, Hframes1. reflexivity.
    - rewrite Hnf', Hnf3, Hnf2, Hnf1. reflexivity. }
  destruct Hall as [Hitems' Hcount].
  split; [exists items; auto |].
  split.
  { intros d j Hzero Hin. unfold kept_planes in Hin.
    apply filter_In in Hin. destruct Hin as [_ Hne].
    rewrite Hzero in Hne. discriminate Hne. }
  split.
  { exists encoding, s1, data. split; [exact Hprep |].
    split; [| congruence].
    unfold stored_by_loop in Hstored. unfold stored_pixel_data.
    destruct encoding as [| full_frames_list | full_pixel_array].
    - destruct Hstored as (-> & chunks & -> & Hpd2). cbn [rbind].
      subst data. rewrite Hpd2, Hpd1. reflexivity.
    - destruct Hstored as (_ & frames & -> & ->). cbn [rbind].
      now subst data.
    - destruct Hstored as (_ & samples & -> & ->). cbn [rbind]. cbv zeta.
      rewrite <- Hdata. symmetry. apply static_encode_pixels. exact Hst2. }
  intros d -> Hshape Hdistinct Hfirst Hmiddle Hlast.
  assert (Hkept :
    Permutation (kept_planes self pixel_array2 plane_sort_index d)
      [0; 2]%nat).
  { destruct (get_index_values_length _ _ _ _ Hidx) as [Hlen ->].
    pose proof (np_unique_rows_permutation _ Hdistinct) as Hperm.
    rewrite length_map, Hlen,
      (resolve_plane_positions_length _ _ _ _ _ Hres), Hshape in Hperm.
    unfold kept_planes.
    eapply Permutation_trans; [apply filter_Permutation; exact Hperm |].
    cbn [seq filter]. rewrite Hmiddle.
    apply Z.eqb_neq in Hfirst, Hlast. rewrite Hfirst, Hlast.
    apply Permutation_refl. }
  split; [exact Hkept |].
  assert (Hlen : List.length items = 2%nat).
  { rewrite <- (length_map frame_key), Hkeys. cbn [flat_map].
    rewrite app_nil_r, length_map. apply (Permutation_length Hkept). }
  split.
  - rewrite Hcount, Hlen. reflexivity.
  - rewrite Hitems', length_app, Hlen. reflexivity.
Qed.

Lemma add_segments_skips_empty_planes_witness :
  exists self pixel_array self',
    Segmentation_new
      [ct_image "1.2.3.1.1" 1 1 0; ct_image "1.2.3.1.2" 1 1 1;
       ct_image "1.2.3.1.3" 1 1 2]
      (FloatPixels np_float64 [3; 1; 1]%nat
          [float_value np_float64 1 0; float_value np_float64 0 0;
           float_value np_float64 1 (-1)])
      "FRACTIONAL" "PROBABILITY" 255 ImplicitVRLittleEndian None
    = Ok (self, pixel_array)
    /\ add_segments plain_codecs pixel_array [description 1] None self
       = (self', Ok tt)
    /\ NumberOfFrames self = 0%nat
    /\ map frame_key (PerFrameFunctionalGroupsSequence self')
       = [(1, [(ImagePositionPatient, [0; 0; 0])]);
          (1, [(ImagePositionPatient, [0; 0; 2])])]
    /\ PixelData self' = [255; 128]
    /\ NumberOfFrames self' = (NumberOfFrames self + 2)%nat
    /\ List.length (PerFrameFunctionalGroupsSequence self')
       = (List.length (PerFrameFunctionalGroupsSequence self) + 2)%nat.
Proof.
  eexists. eexists. eexists.
  split; [vm_compute; reflexivity |].
  split; [vm_compute; reflexivity |].
  split; [reflexivity |].
  split; [reflexivity |].
  split; [reflexivity |].
  match goal with
  | |- NumberOfFrames ?s' = (NumberOfFrames ?s + 2)%nat /\ _ =>
      destruct (add_segments_skips_empty_planes plain_codecs
                  (FloatPixels np_float64 [3; 1; 1]%nat
                      [float_value np_float64 1 0; float_value np_float64 0 0;
                       float_value np_float64 1 (-1)])
                  [description 1] None s s')
        as (source_images & pixel_array2 & source_plane_positions & positions
            & values & plane_sort_index & Hsrc & Hval & Hres & Hidx & _ & _
            & _ & Hkept)
  end.
  - vm_compute. reflexivity.
  - vm_compute in Hsrc. inversion Hsrc; subst source_images.
    vm_compute in Hval. inversion Hval; subst pixel_array2.
    vm_compute in Hres. inversion Hres; subst source_plane_positions positions.
    vm_compute in Hidx. inversion Hidx; subst values plane_sort_index.
    apply (Hkept (description 1)).
    + reflexivity.
    + reflexivity.
    + repeat (apply NoDup_cons; [simpl; intuition discriminate |]).
      apply NoDup_nil.
    + vm_compute. discriminate.
    + vm_compute. reflexivity.
    + vm_compute. discriminate.
Defined.

(** ** The pad byte of the pixel data *)

(** C9.  After every call of [add_segments] that returns, and after every
    construction that returns, the length of the pixel data is even: the
    pixel data are the data the call has stored for the way the frames are
    encoded, followed by one pad byte when the length of these data is odd
    and by nothing otherwise.  With framewise encoding the stored data are
    the former pixel data without their trailing pad byte (present when
    their length is one more than the expected length of the frames),
    followed by the encoded bytes of the planes the call keeps and by
    nothing else. *)
Theorem add_segments_pixel_data_even (ext : External) :
  (forall pixel_array segment_descriptions plane_positions self self',
      add_segments ext pixel_array segment_descriptions plane_positions self
      = (self', Ok tt) ->
      (List.length (PixelData self') mod 2 = 0)%nat
      /\ exists source_images pixel_array2 source_plane_positions positions
                values plane_sort_index encoding s1 data,
          _source_images self = Some source_images
          /\ validation self pixel_array segment_descriptions
             = Ok pixel_array2
          /\ resolve_plane_positions source_images pixel_array2
               plane_positions
             = Ok (source_plane_positions, positions)
          /\ get_index_values (DimensionIndexSequence_of self) positions
             = Ok (values, plane_sort_index)
          /\ prepare_encoding ext
               (set_SegmentsOverlap (Some (assigned_overlap self)) self)
             = (s1, Ok encoding)
          /\ stored_pixel_data ext self pixel_array2 plane_sort_index
               segment_descriptions encoding = Ok data
          /\ PixelData self'
             = data
               ++ (if (List.length data mod 2 =? 1)%nat then [48] else [])
          /\ (framewise_encoding_of self = true ->
              encoding = Framewise
              /\ exists chunks,
                  mapM (kept_planes_bytes ext self pixel_array2
                          plane_sort_index)
                    segment_descriptions
                  = Ok chunks
                  /\ data
                     = (if (List.length (PixelData self)
                            =? get_expected_length (pixel_format_of self) + 1)%nat
                        then removelast (PixelData self)
                        else PixelData self)
                       ++ List.concat chunks))
  /\ (forall source_images pixel_array segmentation_type segment_descriptions
        fractional_type max_fractional_value transfer_syntax_uid
        plane_orientation plane_positions self,
        Segmentation_init ext source_images pixel_array segmentation_type
          segment_descriptions fractional_type max_fractional_value
          transfer_syntax_uid plane_orientation plane_positions = Ok self ->
        (List.length (PixelData self) mod 2 = 0)%nat).
Proof.
  assert (Heven :
    forall pixel_array segment_descriptions plane_positions self self' u,
      add_segments ext pixel_array segment_descriptions plane_positions self
      = (self', Ok u) ->
      (List.length (PixelData self') mod 2 = 0)%nat).
  { intros pixel_array segment_descriptions plane_positions self self' u Heq.
    destruct (add_segments_stored_data _ _ _ _ _ _ _ Heq)
      as (? & ? & ? & ? & ? & ? & ? & ? & data & _ & _ & _ & _ & _ & _ & ->).
    apply length_pad_of_even. }
  split.
  - intros pixel_array segment_descriptions plane_positions self self' Heq.
    split; [eapply Heven; eauto |].
    destruct (add_segments_stored_data _ _ _ _ _ _ _ Heq)
      as (source_images & pixel_array2 & source_plane_positions & positions
          & values & plane_sort_index & encoding & s1 & data & Hsrc & Hval
          & Hres & Hidx & Hprep & Hdata & Hpd).
    exists source_images, pixel_array2, source_plane_positions, positions,
      values, plane_sort_index, encoding, s1, data.
    do 6 (split; [assumption |]). split; [exact Hpd |].
    intros Hfw.
    assert (Hframewise : encoding = Framewise).
    { eapply (prepare_encoding_framewise ext self Hfw
                (set_SegmentsOverlap (Some (assigned_overlap self)) self));
        [| exact Hprep].
      repeat split. }
    split; [exact Hframewise |].
    subst encoding. unfold stored_pixel_data in Hdata.
    destruct (mapM (kept_planes_bytes ext self pixel_array2 plane_sort_index)
                segment_descriptions) as [chunks |] eqn:Hchunks;
      [| discriminate].
    cbn [rbind] in Hdata. injection Hdata as <-.
    exists chunks. split; reflexivity.
  - intros source_images pixel_array segmentation_type segment_descriptions
      fractional_type max_fractional_value transfer_syntax_uid
      plane_orientation plane_positions self Heq.
    unfold Segmentation_init in Heq.
    destruct (Segmentation_new source_images pixel_array segmentation_type
                fractional_type max_fractional_value transfer_syntax_uid
                plane_orientation) as [[self0 pixel_array1] | e];
      [| discriminate].
    cbn [rbind] in Heq.
    destruct (add_segments ext pixel_array1 segment_descriptions
                plane_positions self0) as [self1 [u | e]] eqn:Hadd;
      [| discriminate].
    inversion Heq; subst. eapply Heven; eauto.
Qed.

Lemma add_segments_pixel_data_even_witness :
  exists self self',
    fractional_example = Ok self
    /\ PixelData self = [255; 48]
    /\ add_segments plain_codecs
         (FloatPixels np_float64 [2; 1; 1]%nat
            [float_value np_float64 0 0; float_value np_float64 1 (-1)])
         [description 2] None self = (self', Ok tt)
    /\ PixelData self' = [255; 128]
    /\ framewise_encoding_of self = true
    /\ (List.length (PixelData self') mod 2 = 0)%nat
    /\ exists source_images pixel_array2 source_plane_positions positions
              values plane_sort_index encoding s1 data,
        _source_images self = Some source_images
        /\ validation self
             (FloatPixels np_float64 [2; 1; 1]%nat
                [float_value np_float64 0 0; float_value np_float64 1 (-1)])
             [description 2]
           = Ok pixel_array2
        /\ resolve_plane_positions source_images pixel_array2 None
           = Ok (source_plane_positions, positions)
        /\ get_index_values (DimensionIndexSequence_of self) positions
           = Ok (values, plane_sort_index)
        /\ prepare_encoding plain_codecs
             (set_SegmentsOverlap (Some (assigned_overlap self)) self)
           = (s1, Ok encoding)
        /\ stored_pixel_data plain_codecs self pixel_array2 plane_sort_index
             [description 2] encoding = Ok data
        /\ PixelData self'
           = data ++ (if (List.length data mod 2 =? 1)%nat then [48] else [])
        /\ (framewise_encoding_of self = true ->
            encoding = Framewise
            /\ exists chunks,
                mapM (kept_planes_bytes plain_codecs self pixel_array2
                        plane_sort_index)
                  [description 2]
                = Ok chunks
                /\ data
                   = (if (List.length (PixelData self)
                          =? get_expected_length (pixel_format_of self) + 1)%nat
                      then removelast (PixelData self)
                      else PixelData self)
                     ++ List.concat chunks).
Proof.
  eexists. eexists.
  split; [vm_compute; reflexivity |].
  split; [reflexivity |].
  split; [vm_compute; reflexivity |].
  split; [reflexivity |].
  split; [reflexivity |].
  apply (proj1 (add_segments_pixel_data_even plain_codecs)
           (FloatPixels np_float64 [2; 1; 1]%nat
              [float_value np_float64 0 0; float_value np_float64 1 (-1)])
           [description 2] None).
  vm_compute. reflexivity.
Defined.

(** ** The flag for a single source frame after later calls *)





(** * Further properties of the code *)

(** ** The checks of [add_segments] *)

Lemma diff_all_one_from_first (first : Z) (rest : list Z) :
  diff_all_one (first :: rest) = true ->
  forall n, In n (first :: rest) -> first <= n.
Proof.
  revert first. induction rest as [| y rest IH]; intros first Hdiff n Hn.
  - destruct Hn as [<- | []]. lia.
  - cbn [diff_all_one] in Hdiff. apply andb_true_iff in Hdiff.
    destruct Hdiff as [Hstep Hrest]. apply Z.eqb_eq in Hstep.
    destruct Hn as [<- | Hn]; [lia |].
    specialize (IH y Hrest n Hn). lia.
Qed.

Lemma Z_mem_In (x : Z) (l : list Z) : Z_mem x l = true <-> In x l.
Proof.
  unfold Z_mem. rewrite existsb_exists. split.
  - intros (y & Hy & Heq). apply Z.eqb_eq in Heq. now subst.
  - intros Hin. exists x. split; [exact Hin | apply Z.eqb_refl].
Qed.

(** X1.  The check of [add_segments] that no described segment exists yet
    never fails after the check of the numbering: numbers that ascend from
    one more than the greatest number of the object are all new, whatever
    the segments of the object are. *)
Theorem check_new_segments_after_numbering (self : Segmentation)
    (segment_descriptions : list SegmentDescription)
    (described_segment_numbers : list Z) :
  check_segment_numbers self segment_descriptions
  = Ok described_segment_numbers ->
  check_new_segments self described_segment_numbers = Ok tt.
Proof.
  unfold check_segment_numbers, check_new_segments. intros Hcheck.
  destruct (diff_all_one (map SegmentNumber segment_descriptions)) eqn:Hdiff;
    [| discriminate].
  destruct (map SegmentNumber segment_descriptions) as [| first rest] eqn:Hmap;
    [discriminate |].
  destruct (first =? seg_num_start_of self) eqn:Hfirst; [| discriminate].
  inversion Hcheck; subst described_segment_numbers. clear Hcheck.
  apply Z.eqb_eq in Hfirst.
  replace (existsb (fun n => Z_mem n (_segment_inventory self)) (first :: rest))
    with false; [reflexivity |].
  symmetry. apply not_true_iff_false. intros Hex.
  apply existsb_exists in Hex. destruct Hex as (n & Hn & Hmem).
  apply Z_mem_In in Hmem.
  pose proof (diff_all_one_from_first first rest Hdiff n Hn) as Hle.
  destruct (seg_num_start_of_spec self) as [[Hnil _] | (m & [_ Hmax] & Hstart)].
  - rewrite Hnil in Hmem. destruct Hmem.
  - specialize (Hmax n Hmem). lia.
Qed.

Lemma check_new_segments_after_numbering_witness :
  exists self,
    binary_example = Ok self
    /\ _segment_inventory self = [1; 2; 3; 4]
    /\ check_segment_numbers self [description 5; description 6] = Ok [5; 6]
    /\ check_new_segments self [5; 6] = Ok tt.
Proof.
  eexists. split; [vm_compute; reflexivity |].
  split; [reflexivity |]. split; [reflexivity |].
  apply (check_new_segments_after_numbering _ [description 5; description 6]).
  reflexivity.
Defined.

(** ** The position of a plane along the dimension indices *)

Lemma list_Z_eqb_eq (a b : list Z) : list_Z_eqb a b = true <-> a = b.
Proof.
  revert b. induction a as [| x a IH]; intros [| y b]; simpl;
    try (split; [discriminate | discriminate]); [tauto |].
  rewrite andb_true_iff, Z.eqb_eq, IH. split.
  - intros [-> ->]. reflexivity.
  - intros H. inversion H. auto.
Qed.

Lemma where_first_In (values : list (list Z)) (pos : list Z) (i : nat) :
  In pos values ->
  exists k, where_first values pos i = Ok k
            /\ (i <= k < i + List.length values)%nat
            /\ nth (k - i) values [] = pos.
Proof.
  revert i. induction values as [| v values IH]; intros i Hin; [destruct Hin |].
  cbn [where_first].
  destruct (list_Z_eqb v pos) eqn:Heq.
  - apply list_Z_eqb_eq in Heq. exists i. split; [reflexivity |].
    split; [simpl; lia |]. now rewrite Nat.sub_diag.
  - destruct Hin as [-> | Hin].
    + assert (Hrefl : list_Z_eqb pos pos = true) by now apply list_Z_eqb_eq.
      congruence.
    + destruct (IH (S i) Hin) as (k & Hk & Hrange & Hnth).
      exists k. split; [exact Hk |]. split; [simpl; lia |].
      replace (k - i)%nat with (S (k - S i)) by lia. exact Hnth.
Qed.

Lemma index_values_of_found (cols : list (list (list Z)))
    (positions : list (list Z)) :
  Forall2 (fun col pos => In pos col) cols positions ->
  exists index_values,
    index_values_of cols positions = Ok index_values
    /\ Forall2
         (fun col_pos v =>
            1 <= v <= Z.of_nat (List.length (fst col_pos))
            /\ nth (Z.to_nat (v - 1)) (fst col_pos) [] = snd col_pos)
         (combine cols positions) index_values.
Proof.
  induction 1 as [| col pos cols positions Hin _ (ivs & Hivs & Hall)].
  - exists []. split; [reflexivity | constructor].
  - cbn [index_values_of hd tl].
    destruct (where_first_In col pos 0 Hin) as (k & -> & Hrange & Hnth).
    cbn [rbind]. rewrite Hivs. cbn [rbind].
    eexists. split; [reflexivity |].
    cbn [combine]. constructor; [| exact Hall].
    cbn [fst snd]. split; [lia |].
    replace (Z.to_nat (Z.of_nat k + 1 - 1)) with (k - 0)%nat by lia.
    exact Hnth.
Qed.

Lemma mapM_length {A B : Type} (f : A -> result B) (l : list A) (ys : list B) :
  mapM f l = Ok ys -> List.length ys = List.length l.
Proof.
  intros H. apply mapM_Forall2 in H. symmetry. eapply Forall2_length. exact H.
Qed.

Lemma Forall2_nth_error_l {A B : Type} (P : A -> B -> Prop) (l : list A)
    (l' : list B) (k : nat) (x : A) :
  Forall2 P l l' -> nth_error l k = Some x ->
  exists y, nth_error l' k = Some y /\ P x y.
Proof.
  intros Hall. revert k. induction Hall as [| a b l l' Hab _ IH]; intros k Hk.
  - destruct k; discriminate.
  - destruct k as [| k]; simpl in *.
    + inversion Hk; subst. eauto.
    + now apply IH.
Qed.

Lemma Forall2_nth_error_r {A B : Type} (P : A -> B -> Prop) (l : list A)
    (l' : list B) (k : nat) (y : B) :
  Forall2 P l l' -> nth_error l' k = Some y ->
  exists x, nth_error l k = Some x /\ P x y.
Proof.
  intros Hall. revert k. induction Hall as [| a b l l' Hab _ IH]; intros k Hk.
  - destruct k; discriminate.
  - destruct k as [| k]; simpl in *.
    + inversion Hk; subst. eauto.
    + now apply IH.
Qed.

Lemma nth_map_lt {A B : Type} (f : A -> B) (l : list A) (j : nat) (d : B)
    (d' : A) :
  (j < List.length l)%nat -> nth j (map f l) d = f (nth j l d').
Proof.
  intros Hj. rewrite (nth_indep _ d (f d')) by (now rewrite length_map).
  apply map_nth.
Qed.

Lemma Forall2_of_nth {A B : Type} (P : A -> B -> Prop) (da : A) (db : B)
    (l : list A) (l' : list B) :
  List.length l = List.length l' ->
  (forall k, (k < List.length l)%nat -> P (nth k l da) (nth k l' db)) ->
  Forall2 P l l'.
Proof.
  revert l'. induction l as [| x l IH]; intros [| y l'] Hlen Hnth;
    try discriminate; constructor.
  - apply (Hnth 0%nat). simpl. lia.
  - apply IH; [simpl in Hlen; lia |].
    intros k Hk. apply (Hnth (S k)). simpl. lia.
Qed.

(** The distinct values of a column hold the value of every plane, and are
    no more than the planes. *)
Lemma np_unique_rows_holds (rows : list (list Z)) (j : nat) :
  (j < List.length rows)%nat ->
  In (nth j rows []) (fst (np_unique_rows rows))
  /\ (List.length (fst (np_unique_rows rows)) <= List.length rows)%nat.
Proof.
  intros Hj.
  destruct (np_unique_rows_indices rows) as (_ & Hcov & _ & Hfst).
  pose proof (np_unique_rows_length rows) as Hlen.
  cbv zeta in *. rewrite Hfst. split.
  - destruct (Hcov j Hj) as (i & Hi & Heq). rewrite <- Heq.
    apply (in_map (fun i => nth i rows [])). exact Hi.
  - now rewrite length_map.
Qed.

(** X2.  Once [get_index_values] has returned the value vectors of the
    planes, the position of every plane along every dimension index is found
    among the distinct values that [add_segments] computes: the lookup does
    not raise, it gives one value for every index but the segment number, and
    each value is the rank, counted from 1, of the plane's value among the
    distinct values of that index, so that it lies between 1 and the number of
    planes. *)
Theorem plane_index_values_found (self : list Keyword)
    (plane_positions : list PlanePositionSequence)
    (values : list (list (list Z))) (plane_sort_index : list nat)
    (dimension_position_values : list (list (list Z))) (j : nat) :
  get_index_values self plane_positions = Ok (values, plane_sort_index) ->
  dimension_position_values_of (List.length (tl self)) values
  = Ok dimension_position_values ->
  (j < List.length plane_positions)%nat ->
  exists index_values,
    index_values_of dimension_position_values (nth j values [])
    = Ok index_values
    /\ List.length index_values = List.length (tl self)
    /\ Forall (fun v => 1 <= v <= Z.of_nat (List.length plane_positions))
         index_values
    /\ forall k, (k < List.length (tl self))%nat ->
         nth (Z.to_nat (nth k index_values 0 - 1))
           (nth k dimension_position_values []) []
         = nth k (nth j values []) [].
Proof.
  intros Hidx Hdim Hj.
  unfold get_index_values in Hidx.
  destruct (mapM (fun p => mapM (get_value p) (tl self)) plane_positions)
    as [vs |] eqn:Hvs; [| discriminate].
  cbn [rbind] in Hidx.
  destruct (np_unique_rows (map (@List.concat Z) vs)) as [urows idx].
  inversion Hidx; subst vs idx. clear Hidx.
  pose proof (mapM_length _ _ _ Hvs) as Hlen.
  assert (Hrow : List.length (nth j values []) = List.length (tl self)).
  { apply mapM_Forall2 in Hvs.
    assert (Hj' : (j < List.length values)%nat) by lia.
    destruct (Forall2_nth_error_r _ _ _ _ _ Hvs (nth_error_nth' values [] Hj'))
      as (p & _ & Hp).
    now apply mapM_length in Hp. }
  unfold dimension_position_values_of in Hdim.
  destruct values as [| row0 rest] eqn:Hvalues; [simpl in Hlen; lia |].
  rewrite <- Hvalues in *. inversion Hdim; subst dimension_position_values.
  clear Hdim.
  set (column := fun index => map (fun row => nth index row []) values) in *.
  assert (Hcol : forall k, (k < List.length (tl self))%nat ->
            In (nth k (nth j values []) [])
               (fst (np_unique_rows (column k)))
            /\ (List.length (fst (np_unique_rows (column k)))
                <= List.length plane_positions)%nat).
  { intros k Hk.
    assert (Hjc : (j < List.length (column k))%nat)
      by (unfold column; rewrite length_map; lia).
    destruct (np_unique_rows_holds (column k) j Hjc) as [Hin Hle].
    unfold column in Hin at 1.
    rewrite (nth_map_lt _ _ _ _ []) in Hin by lia.
    split; [exact Hin |].
    unfold column in Hle at 2. rewrite length_map in Hle. lia. }
  destruct (index_values_of_found
              (map (fun index => fst (np_unique_rows (column index)))
                 (seq 0 (List.length (tl self))))
              (nth j values []))
    as (index_values & Hfound & Hall).
  { apply Forall2_of_nth with (da := []) (db := []).
    - now rewrite length_map, length_seq.
    - intros k Hk. rewrite length_map, length_seq in Hk.
      rewrite (nth_map_lt _ _ _ _ 0%nat) by (now rewrite length_seq).
      rewrite seq_nth by exact Hk.
      apply Hcol. exact Hk. }
  exists index_values. split; [exact Hfound |].
  assert (Hivlen : List.length index_values = List.length (tl self)).
  { apply Forall2_length in Hall.
    rewrite length_combine, length_map, length_seq, Hrow, Nat.min_id in Hall.
    now symmetry. }
  split; [exact Hivlen |].
  assert (Hk : forall k, (k < List.length (tl self))%nat ->
            1 <= nth k index_values 0
                 <= Z.of_nat (List.length
                                (fst (np_unique_rows (column k))))
            /\ nth (Z.to_nat (nth k index_values 0 - 1))
                 (fst (np_unique_rows (column k))) []
               = nth k (nth j values []) []).
  { intros k Hlt.
    assert (Hnth :
      nth_error
        (combine
           (map (fun index => fst (np_unique_rows (column index)))
              (seq 0 (List.length (tl self))))
           (nth j values []))
        k
      = Some (fst (np_unique_rows (column k)), nth k (nth j values []) [])).
    { rewrite (nth_error_nth' _ ([], [])).
      - rewrite combine_nth by (now rewrite length_map, length_seq).
        rewrite (nth_map_lt _ _ _ _ 0%nat) by (now rewrite length_seq).
        rewrite seq_nth by exact Hlt.
        reflexivity.
      - now rewrite length_combine, length_map, length_seq, Hrow, Nat.min_id. }
    destruct (Forall2_nth_error_l _ _ _ _ _ Hall Hnth)
      as (v & Hv & Hrange & Hval).
    cbn [fst snd] in *.
    rewrite (nth_error_nth _ _ 0 Hv). auto. }
  split.
  - apply Forall_forall. intros v Hv.
    apply (In_nth _ _ 0) in Hv. destruct Hv as (k & Hlt & <-).
    rewrite Hivlen in Hlt.
    destruct (Hk k Hlt) as [Hrange _]. destruct (Hcol k Hlt) as [_ Hle]. lia.
  - intros k Hlt. destruct (Hk k Hlt) as [_ Hval].
    rewrite (nth_map_lt _ _ _ _ 0%nat) by (now rewrite length_seq).
    rewrite seq_nth by exact Hlt.
    exact Hval.
Qed.

Lemma plane_index_values_found_witness :
  let self := DimensionIndexSequence PATIENT in
  let plane_positions :=
    [ [(ImagePositionPatient, [0; 0; 5])];
      [(ImagePositionPatient, [0; 0; 2])];
      [(ImagePositionPatient, [0; 0; 7])] ] in
  exists values plane_sort_index dimension_position_values,
    get_index_values self plane_positions = Ok (values, plane_sort_index)
    /\ dimension_position_values_of 1 values = Ok dimension_position_values
    /\ dimension_position_values = [[[0; 0; 2]; [0; 0; 5]; [0; 0; 7]]]
    /\ index_values_of dimension_position_values (nth 0 values []) = Ok [2]
    /\ exists index_values,
        index_values_of dimension_position_values (nth 2 values [])
        = Ok index_values
        /\ List.length index_values = List.length (tl self)
        /\ Forall (fun v => 1 <= v <= Z.of_nat (List.length plane_positions))
             index_values
        /\ forall k, (k < List.length (tl self))%nat ->
             nth (Z.to_nat (nth k index_values 0 - 1))
               (nth k dimension_position_values []) []
             = nth k (nth 2 values []) [].
Proof.
  intros self plane_positions.
  eexists. eexists. eexists.
  split; [reflexivity |]. split; [reflexivity |].
  split; [reflexivity |]. split; [reflexivity |].
  eapply (plane_index_values_found self plane_positions).
  - reflexivity.
  - reflexivity.
  - simpl. lia.
Defined.

(** ** Runs of [add_segments] that return *)

Lemma prepare_encoding_keeps (ext : External) :
  preserves kept_by_encoding (prepare_encoding ext).
Proof. unfold prepare_encoding. preserves_auto. Qed.

Lemma finish_encoding_keeps (ext : External) (encoding : Encoding) :
  preserves kept_by_encoding (finish_encoding ext encoding).
Proof. unfold finish_encoding. preserves_auto. Qed.

Lemma _build_luts_keeps : preserves kept_by_encoding _build_luts.
Proof.
  unfold _build_luts, _build_ref_instance_lut, _build_luts_frame.
  preserves_auto.
Qed.

Lemma static_derivation_of (s s0 : Segmentation)
    (source_images : list SourceImage) (plane_sort_index : list nat)
    (j : nat) :
  static s = static s0 ->
  derivation_of s source_images plane_sort_index j
  = derivation_of s0 source_images plane_sort_index j.
Proof. intros Hst. unfold derivation_of. now use_static Hst. Qed.

Section FrameItems.

Variable ext : External.
Variable source_images : list SourceImage.
Variable plane_positions : list PlanePositionSequence.
Variable plane_position_values : list (list (list Z)).
Variable plane_sort_index : list nat.
Variable dimension_position_values : list (list (list Z)).
Variable are_spatial_locations_preserved : bool.
Variable plane_size : nat.
Variable self0 : Segmentation.

Let added :=
  frame_added self0 source_images plane_positions plane_position_values
    plane_sort_index dimension_position_values are_spatial_locations_preserved.

Let appended (descriptions : list SegmentDescription) :=
  appends self0 (added descriptions).

Lemma add_plane_item (description : SegmentDescription) (planes : list Z)
    (contained contained' : list nat) (j : nat) (s s' : Segmentation) :
  static s = static self0 ->
  In j plane_sort_index ->
  add_plane source_images plane_positions plane_position_values
    plane_sort_index dimension_position_values are_spatial_locations_preserved
    plane_size (SegmentNumber description) planes contained j s
  = (s', Ok contained') ->
  appended [description] s s'.
Proof.
  intros Hst Hj H. unfold add_plane in H.
  destruct (sum_Z (plane_at plane_size j planes) =? 0).
  - run H. split; [exact Hst |]. exists []. now rewrite app_nil_r.
  - unfold appended, appends. run_step H. run_step H.
    apply bind_returns_inv in H. destruct H as (s1 & derivation & Hder & H).
    assert (Hs1 :
      s1 = s
      /\ if are_spatial_locations_preserved
         then exists d,
                derivation_of self0 source_images plane_sort_index j = Ok d
                /\ derivation = [d]
         else derivation = []).
    { destruct are_spatial_locations_preserved; run Hder.
      - split; [reflexivity |]. eexists. split; [| reflexivity].
        rewrite <- (static_derivation_of _ _ _ _ _ Hst). eassumption.
      - auto. }
    destruct Hs1 as [-> Hderivation].
    run H. split; [exact Hst |].
    eexists. split; [reflexivity |].
    constructor; [| constructor].
    exists description, j. eexists. eexists.
    split; [now left |]. split; [exact Hj |].
    split; [eassumption |]. split; [exact Hderivation | reflexivity].
Qed.

Lemma appended_trans (descriptions : list SegmentDescription)
    (s s1 s' : Segmentation) :
  appended descriptions s s1 -> appended descriptions s1 s' ->
  appended descriptions s s'.
Proof.
  unfold appended, appends.
  intros (_ & items1 & Hitems1 & Hall1) (Hst & items2 & Hitems2 & Hall2).
  split; [exact Hst |]. exists (items1 ++ items2).
  rewrite Hitems2, Hitems1, <- app_assoc. split; [reflexivity |].
  apply Forall_app. auto.
Qed.

Lemma appended_same (descriptions : list SegmentDescription)
    (s s' : Segmentation) :
  static s' = static self0 ->
  PerFrameFunctionalGroupsSequence s' = PerFrameFunctionalGroupsSequence s ->
  appended descriptions s s'.
Proof.
  intros Hst Hframes. split; [exact Hst |]. exists [].
  rewrite app_nil_r. auto.
Qed.

Lemma added_incl (descriptions descriptions' : list SegmentDescription)
    (s s' : Segmentation) :
  incl descriptions descriptions' ->
  appended descriptions s s' -> appended descriptions' s s'.
Proof.
  unfold appended, appends.
  intros Hincl (Hst & items & Hitems & Hall). split; [exact Hst |].
  exists items. split; [exact Hitems |].
  eapply Forall_impl; [| exact Hall].
  intros item (d & j & ivs & der & Hd & Hrest).
  exists d, j, ivs, der. split; [apply Hincl, Hd | exact Hrest].
Qed.

Lemma add_plane_loop_items (description : SegmentDescription)
    (planes : list Z) (indices : list nat) :
  incl indices plane_sort_index ->
  forall contained contained' s s',
    static s = static self0 ->
    foldM
      (add_plane source_images plane_positions plane_position_values
         plane_sort_index dimension_position_values
         are_spatial_locations_preserved plane_size
         (SegmentNumber description) planes)
      contained indices s
    = (s', Ok contained') ->
    appended [description] s s'.
Proof.
  induction indices as [| j indices IH];
    intros Hincl contained contained' s s' Hst H.
  - simpl in H. run H. now apply appended_same.
  - simpl in H. apply bind_returns_inv in H.
    destruct H as (s1 & contained1 & Hplane & Hrest).
    apply add_plane_item in Hplane;
      [| exact Hst | apply Hincl; now left].
    eapply appended_trans; [exact Hplane |].
    eapply IH; [| apply Hplane | exact Hrest].
    intros x Hx. apply Hincl. now right.
Qed.

Lemma add_segment_items (pixel_array : PixelArray)
    (encoding encoding' : Encoding) (description : SegmentDescription)
    (s s' : Segmentation) :
  static s = static self0 ->
  add_segment ext source_images plane_positions plane_position_values
    plane_sort_index dimension_position_values are_spatial_locations_preserved
    plane_size pixel_array encoding description s
  = (s', Ok encoding') ->
  appended [description] s s'.
Proof.
  intros Hst H. unfold add_segment in H.
  run_step H. run_step H. destruct a as [planes_dtype planes].
  apply bind_returns_inv in H. destruct H as (s1 & contained & Hloop & H).
  apply add_plane_loop_items in Hloop; [| apply incl_refl | exact Hst].
  eapply appended_trans; [exact Hloop |].
  destruct Hloop as [Hst1 _].
  match type of H with
  | ?m s1 = _ =>
      assert (Hkeep : preserves
                (fun s => (static s, PerFrameFunctionalGroupsSequence s)) m)
  end.
  { preserves_auto. }
  specialize (Hkeep s1). rewrite H in Hkeep. cbn [fst] in Hkeep.
  pose proof (f_equal fst Hkeep) as Hst'.
  pose proof (f_equal snd Hkeep) as Hframes. cbn [fst snd] in Hst', Hframes.
  apply appended_same; congruence.
Qed.

Lemma add_segments_loop_items (pixel_array : PixelArray)
    (descriptions : list SegmentDescription) :
  forall encoding encoding' s s',
    static s = static self0 ->
    foldM
      (add_segment ext source_images plane_positions plane_position_values
         plane_sort_index dimension_position_values
         are_spatial_locations_preserved plane_size pixel_array)
      encoding descriptions s
    = (s', Ok encoding') ->
    appended descriptions s s'.
Proof.
  induction descriptions as [| d descriptions IH];
    intros encoding encoding' s s' Hst H.
  - simpl in H. run H. now apply appended_same.
  - simpl in H. apply bind_returns_inv in H.
    destruct H as (s1 & encoding1 & Hseg & Hrest).
    apply add_segment_items in Hseg; [| exact Hst].
    eapply appended_trans.
    + eapply added_incl; [| exact Hseg].
      intros x [<- | []]. now left.
    + eapply added_incl; [| eapply IH; [apply Hseg | exact Hrest]].
      intros x Hx. now right.
Qed.

End FrameItems.

(** ** The segments a run of [add_segments] registers *)

Lemma add_segment_registers (ext : External)
    (source_images : list SourceImage)
    (plane_positions : list PlanePositionSequence)
    (plane_position_values : list (list (list Z)))
    (plane_sort_index : list nat)
    (dimension_position_values : list (list (list Z)))
    (are_spatial_locations_preserved : bool) (plane_size : nat)
    (pixel_array : PixelArray) (encoding encoding' : Encoding)
    (description : SegmentDescription) (s s' : Segmentation) :
  add_segment ext source_images plane_positions plane_position_values
    plane_sort_index dimension_position_values are_spatial_locations_preserved
    plane_size pixel_array encoding description s
  = (s', Ok encoding') ->
  (SegmentSequence s', _segment_inventory s')
  = register_segment (SegmentSequence s, _segment_inventory s) description.
Proof.
  intros H. unfold add_segment in H.
  run_step H. run_step H. destruct a as [planes_dtype planes].
  apply bind_returns_inv in H. destruct H as (s1 & contained & Hloop & H).
  assert (Hs1 : (SegmentSequence s1, _segment_inventory s1)
                = (SegmentSequence s, _segment_inventory s)).
  { match type of Hloop with
    | ?m s = _ =>
        assert (Hkeep : preserves
                  (fun s => (SegmentSequence s, _segment_inventory s)) m)
    end.
    { apply preserves_foldM. intros. unfold add_plane. preserves_auto. }
    specialize (Hkeep s). now rewrite Hloop in Hkeep. }
  run_step H.
  apply bind_returns_inv in H. destruct H as (s2 & encoding2 & Henc & H).
  assert (Hs2 : (SegmentSequence s2, _segment_inventory s2)
                = (SegmentSequence s1, _segment_inventory s1)).
  { destruct encoding; run Henc; reflexivity. }
  run_step H.
  apply bind_returns_inv in H. destruct H as (s3 & u & Hseq & H).
  rewrite Hs1 in Hs2. injection Hs2 as Hseq2 Hinv2.
  unfold register_segment. rewrite <- Hseq2, <- Hinv2.
  destruct (negb (Z_mem (SegmentNumber description) (_segment_inventory s2)));
    run Hseq; run H; reflexivity.
Qed.

Lemma add_segments_loop_registers (ext : External)
    (source_images : list SourceImage)
    (plane_positions : list PlanePositionSequence)
    (plane_position_values : list (list (list Z)))
    (plane_sort_index : list nat)
    (dimension_position_values : list (list (list Z)))
    (are_spatial_locations_preserved : bool) (plane_size : nat)
    (pixel_array : PixelArray) (descriptions : list SegmentDescription) :
  forall encoding encoding' s s',
    foldM
      (add_segment ext source_images plane_positions plane_position_values
         plane_sort_index dimension_position_values
         are_spatial_locations_preserved plane_size pixel_array)
      encoding descriptions s
    = (s', Ok encoding') ->
    (SegmentSequence s', _segment_inventory s')
    = fold_left register_segment descriptions
        (SegmentSequence s, _segment_inventory s).
Proof.
  induction descriptions as [| d descriptions IH];
    intros encoding encoding' s s' H.
  - simpl in H. run H. reflexivity.
  - simpl in H. apply bind_returns_inv in H.
    destruct H as (s1 & encoding1 & Hseg & Hrest).
    apply add_segment_registers in Hseg.
    cbn [fold_left]. rewrite <- Hseg. eapply IH. exact Hrest.
Qed.

(** A run of [add_segments] that returns, with all it has computed. *)
Lemma add_segments_run (ext : External) (pixel_array : PixelArray)
    (segment_descriptions : list SegmentDescription)
    (plane_positions : option (list PlanePositionSequence))
    (self self' : Segmentation) (u : unit) :
  add_segments ext pixel_array segment_descriptions plane_positions self
  = (self', Ok u) ->
  exists source_images pixel_array2 source_plane_positions positions values
         plane_sort_index positions_equal dimension_position_values
         encoding s1 encoding' s2 s3,
    _source_images self = Some source_images
    /\ validation self pixel_array segment_descriptions = Ok pixel_array2
    /\ resolve_plane_positions source_images pixel_array2 plane_positions
       = Ok (source_plane_positions, positions)
    /\ get_index_values (DimensionIndexSequence_of self) positions
       = Ok (values, plane_sort_index)
    /\ all_positions_equal positions source_plane_positions
       = Ok positions_equal
    /\ dimension_position_values_of
         (List.length (tl (DimensionIndexSequence_of self))) values
       = Ok dimension_position_values
    /\ prepare_encoding ext
         (set_SegmentsOverlap (Some (assigned_overlap self)) self)
       = (s1, Ok encoding)
    /\ foldM
         (add_segment ext source_images positions values plane_sort_index
            dimension_position_values
            (positions_equal
             && match _source_plane_orientation self with
                | Some o => list_Z_eqb (_plane_orientation self) o
                | None => false
                end)
            (Rows self * Columns self) pixel_array2)
         encoding segment_descriptions s1
       = (s2, Ok encoding')
    /\ finish_encoding ext encoding' s2 = (s3, Ok tt)
    /\ _build_luts s3 = (self', Ok u).
Proof.
  intros H. unfold add_segments in H. run_step H.
  destruct (_source_images self) as [source_images |] eqn:Hsrc;
    [| discriminate H].
  apply bind_returns_inv in H. destruct H as (s & px1 & Hshape & H).
  run_step Hshape.
  apply bind_returns_inv in H. destruct H as (s & numbers & Hnum & H).
  run_step Hnum.
  apply bind_returns_inv in H. destruct H as (s & px2 & Hclass & H).
  run_step Hclass.
  apply bind_returns_inv in H. destruct H as (s & [] & Hnew & H).
  run_step Hnew.
  apply bind_returns_inv in H. destruct H as (s & [] & Hoverlap & H).
  run_step Hoverlap.
  apply bind_returns_inv in H.
  destruct H as (s & [source_plane_positions positions] & Hres & H).
  run_step Hres.
  apply bind_returns_inv in H.
  destruct H as (s & [values plane_sort_index] & Hidx & H).
  run_step Hidx.
  apply bind_returns_inv in H.
  destruct H as (s & positions_equal & Heq & H). run_step Heq.
  apply bind_returns_inv in H.
  destruct H as (s & dimension_position_values & Hdim & H). run_step Hdim.
  apply bind_returns_inv in H. destruct H as (s1 & encoding & Hprep & H).
  apply bind_returns_inv in H. destruct H as (s2 & encoding' & Hloop & H).
  apply bind_returns_inv in H. destruct H as (s3 & [] & Hfin & H).
  exists source_images, px2, source_plane_positions, positions, values,
    plane_sort_index, positions_equal, dimension_position_values, encoding,
    s1, encoding', s2, s3.
  split; [reflexivity |]. split.
  { unfold validation.
    repeat match goal with
           | E : _ = Ok _ |- _ => rewrite E; cbn [rbind]; clear E
           end.
    reflexivity. }
  repeat (split; [eassumption |]). exact H.
Qed.

Lemma add_segments_loop_keeps_overlap (ext : External)
    (source_images : list SourceImage)
    (plane_positions : list PlanePositionSequence)
    (plane_position_values : list (list (list Z)))
    (plane_sort_index : list nat)
    (dimension_position_values : list (list (list Z)))
    (are_spatial_locations_preserved : bool) (plane_size : nat)
    (pixel_array : PixelArray) (descriptions : list SegmentDescription)
    (encoding : Encoding) :
  preserves SegmentsOverlap
    (foldM
       (add_segment ext source_images plane_positions plane_position_values
          plane_sort_index dimension_position_values
          are_spatial_locations_preserved plane_size pixel_array)
       encoding descriptions).
Proof.
  apply preserves_foldM. intros. unfold add_segment, add_plane.
  preserves_auto.
Qed.

Lemma kept_by_encoding_eq (s s' : Segmentation) :
  kept_by_encoding s' = kept_by_encoding s ->
  static s' = static s
  /\ PerFrameFunctionalGroupsSequence s' = PerFrameFunctionalGroupsSequence s
  /\ NumberOfFrames s' = NumberOfFrames s
  /\ SegmentSequence s' = SegmentSequence s
  /\ _segment_inventory s' = _segment_inventory s
  /\ SegmentsOverlap s' = SegmentsOverlap s.
Proof.
  intros H. unfold kept_by_encoding in H.
  pose proof (f_equal (fun t => fst (fst (fst (fst (fst t))))) H) as H1.
  pose proof (f_equal (fun t => snd (fst (fst (fst (fst t))))) H) as H2.
  pose proof (f_equal (fun t => snd (fst (fst (fst t)))) H) as H3.
  pose proof (f_equal (fun t => snd (fst (fst t))) H) as H4.
  pose proof (f_equal (fun t => snd (fst t)) H) as H5.
  pose proof (f_equal snd H) as H6.
  cbn [fst snd] in H1, H2, H3, H4, H5, H6.
  repeat split; assumption.
Qed.

(** What a run of [add_segments] that returns has made of the object. *)
Lemma add_segments_effect (ext : External) (pixel_array : PixelArray)
    (segment_descriptions : list SegmentDescription)
    (plane_positions : option (list PlanePositionSequence))
    (self self' : Segmentation) (u : unit) :
  add_segments ext pixel_array segment_descriptions plane_positions self
  = (self', Ok u) ->
  exists source_images pixel_array2 source_plane_positions positions values
         plane_sort_index positions_equal dimension_position_values items s3,
    _source_images self = Some source_images
    /\ validation self pixel_array segment_descriptions = Ok pixel_array2
    /\ resolve_plane_positions source_images pixel_array2 plane_positions
       = Ok (source_plane_positions, positions)
    /\ get_index_values (DimensionIndexSequence_of self) positions
       = Ok (values, plane_sort_index)
    /\ all_positions_equal positions source_plane_positions
       = Ok positions_equal
    /\ dimension_position_values_of
         (List.length (tl (DimensionIndexSequence_of self))) values
       = Ok dimension_position_values
    /\ static self' = static self
    /\ PerFrameFunctionalGroupsSequence self'
       = PerFrameFunctionalGroupsSequence self ++ items
    /\ NumberOfFrames self' = (NumberOfFrames self + List.length items)%nat
    /\ Forall
         (frame_added self source_images positions values plane_sort_index
            dimension_position_values
            (positions_equal
             && match _source_plane_orientation self with
                | Some o => list_Z_eqb (_plane_orientation self) o
                | None => false
                end)
            segment_descriptions)
         items
    /\ (SegmentSequence self', _segment_inventory self')
       = fold_left register_segment segment_descriptions
           (SegmentSequence self, _segment_inventory self)
    /\ SegmentsOverlap self' = Some (assigned_overlap self)
    /\ _build_luts s3 = (self', Ok u)
    /\ kept_by_encoding s3 = kept_by_encoding self'.
Proof.
  intros Hrun.
  destruct (add_segments_run _ _ _ _ _ _ _ Hrun)
    as (source_images & pixel_array2 & source_plane_positions & positions
        & values & plane_sort_index & positions_equal
        & dimension_position_values & encoding & s1 & encoding' & s2 & s3
        & Hsrc & Hval & Hres & Hidx & Heq & Hdim & Hprep & Hloop & Hfin
        & Hluts).
  pose proof (prepare_encoding_keeps ext
                (set_SegmentsOverlap (Some (assigned_overlap self)) self))
    as Hk1.
  rewrite Hprep in Hk1. cbn [fst] in Hk1.
  pose proof (finish_encoding_keeps ext encoding' s2) as Hk3.
  rewrite Hfin in Hk3. cbn [fst] in Hk3.
  pose proof (_build_luts_keeps s3) as Hk4.
  rewrite Hluts in Hk4. cbn [fst] in Hk4.
  pose proof (add_segments_loop_keeps_overlap ext source_images positions
                values plane_sort_index dimension_position_values
                (positions_equal
                 && match _source_plane_orientation self with
                    | Some o => list_Z_eqb (_plane_orientation self) o
                    | None => false
                    end)
                (Rows self * Columns self) pixel_array2 segment_descriptions
                encoding s1) as Hover.
  rewrite Hloop in Hover. cbn [fst] in Hover.
  apply kept_by_encoding_eq in Hk1, Hk3.
  pose proof (kept_by_encoding_eq _ _ Hk4) as Hk4'.
  destruct Hk1 as (Hst1 & Hframes1 & Hnf1 & Hseg1 & Hinv1 & Hover1).
  destruct Hk3 as (Hst3 & Hframes3 & Hnf3 & Hseg3 & Hinv3 & Hover3).
  destruct Hk4' as (Hst4 & Hframes4 & Hnf4 & Hseg4 & Hinv4 & Hover4).
  cbn in Hst1, Hframes1, Hnf1, Hseg1, Hinv1, Hover1.
  change (static (set_SegmentsOverlap (Some (assigned_overlap self)) self))
    with (static self) in Hst1.
  pose proof (add_segments_loop_items ext source_images positions values
                plane_sort_index dimension_position_values _ _ self
                pixel_array2 segment_descriptions _ _ _ _ Hst1 Hloop)
    as (Hst2 & items & Hitems & Hadded).
  pose proof (add_segments_loop_registers _ _ _ _ _ _ _ _ _ _ _ _ _ _ Hloop)
    as Hreg.
  apply add_segments_loop_spec with (self0 := self) in Hloop;
    [| exact Hst1].
  destruct Hloop as (_ & (items' & Hitems' & _ & Hcount) & _).
  assert (items' = items)
    by (eapply app_inv_head; rewrite <- Hitems, <- Hitems'; reflexivity).
  subst items'.
  exists source_images, pixel_array2, source_plane_positions, positions,
    values, plane_sort_index, positions_equal, dimension_position_values,
    items, s3.
  do 6 (split; [assumption |]).
  split; [congruence |]. split; [congruence |]. split; [congruence |].
  split; [exact Hadded |]. split; [congruence |]. split; [congruence |].
  split; [exact Hluts |]. now symmetry.
Qed.

(** ** The numbering of the segments *)

Lemma numbers_to_S (n : nat) :
  numbers_to (S n) = numbers_to n ++ [Z.of_nat (S n)].
Proof. unfold numbers_to. now rewrite seq_S, map_app. Qed.

Lemma length_numbers_to (n : nat) : List.length (numbers_to n) = n.
Proof. unfold numbers_to. now rewrite length_map, length_seq. Qed.

Lemma diff_all_one_numbers (numbers : list Z) :
  forall n,
    diff_all_one numbers = true ->
    hd_error numbers = Some (Z.of_nat (S n)) ->
    numbers = map Z.of_nat (seq (S n) (List.length numbers)).
Proof.
  induction numbers as [| x rest IH]; intros n Hdiff Hhd; [discriminate |].
  cbn [hd_error] in Hhd. inversion Hhd; subst x. clear Hhd.
  destruct rest as [| y rest'].
  - reflexivity.
  - cbn [diff_all_one] in Hdiff. apply andb_true_iff in Hdiff.
    destruct Hdiff as [Hstep Hrest]. apply Z.eqb_eq in Hstep.
    cbn [List.length seq map]. f_equal.
    apply (IH (S n)); [exact Hrest |].
    cbn [hd_error]. f_equal. lia.
Qed.

Lemma seg_num_start_of_numbered (self : Segmentation) :
  segments_numbered self ->
  seg_num_start_of self = Z.of_nat (S (number_of_segments self)).
Proof.
  intros [_ Hinv].
  destruct (seg_num_start_of_spec self) as [[Hnil ->] | (m & [Hin Hmax] & ->)].
  - destruct (number_of_segments self) as [| n]; [reflexivity |].
    assert (H1 : In 1 (_segment_inventory self)) by (apply Hinv; lia).
    rewrite Hnil in H1. destruct H1.
  - assert (Hm : 1 <= m <= Z.of_nat (number_of_segments self))
      by (now apply Hinv).
    assert (Hn : In (Z.of_nat (number_of_segments self))
                   (_segment_inventory self)) by (apply Hinv; lia).
    specialize (Hmax _ Hn). lia.
Qed.

Lemma register_segments_numbered (descriptions : list SegmentDescription) :
  forall (segments : list SegmentDescription) (inventory : list Z),
    map SegmentNumber segments = numbers_to (List.length segments) ->
    (forall n, In n inventory <-> 1 <= n <= Z.of_nat (List.length segments)) ->
    map SegmentNumber descriptions
    = map Z.of_nat (seq (S (List.length segments))
                      (List.length descriptions)) ->
    let (segments', inventory') :=
      fold_left register_segment descriptions (segments, inventory) in
    segments' = segments ++ descriptions
    /\ map SegmentNumber segments' = numbers_to (List.length segments')
    /\ forall n, In n inventory'
                 <-> 1 <= n <= Z.of_nat (List.length segments').
Proof.
  induction descriptions as [| d descriptions IH];
    intros segments inventory Hseq Hinv Hnum.
  - cbn [fold_left]. rewrite app_nil_r. auto.
  - cbn [fold_left register_segment].
    cbn [map List.length seq] in Hnum. injection Hnum as Hd Hrest.
    assert (Hnew : Z_mem (SegmentNumber d) inventory = false).
    { apply not_true_iff_false. intros Hmem. apply Z_mem_In, Hinv in Hmem.
      lia. }
    unfold set_add. rewrite Hnew. cbn [negb].
    specialize (IH (segments ++ [d]) (inventory ++ [SegmentNumber d])).
    rewrite length_app in IH. cbn [List.length] in IH.
    replace (List.length segments + 1)%nat with (S (List.length segments))
      in IH by lia.
    destruct (fold_left register_segment descriptions
                (segments ++ [d], inventory ++ [SegmentNumber d]))
      as [segments' inventory'].
    destruct IH as (Happ & Hseq' & Hinv').
    + rewrite map_app, Hseq, numbers_to_S. cbn [map]. now rewrite Hd.
    + intros n. rewrite in_app_iff, Hinv. cbn [In]. lia.
    + exact Hrest.
    + split; [| split; assumption].
      rewrite Happ, <- app_assoc. reflexivity.
Qed.

Lemma validation_numbers (self : Segmentation) (pixel_array : PixelArray)
    (segment_descriptions : list SegmentDescription)
    (pixel_array2 : PixelArray) :
  validation self pixel_array segment_descriptions = Ok pixel_array2 ->
  check_segment_numbers self segment_descriptions
  = Ok (map SegmentNumber segment_descriptions).
Proof.
  unfold validation. intros H.
  destruct (check_pixel_array_shape self pixel_array); [| discriminate].
  cbn [rbind] in H.
  destruct (check_segment_numbers self segment_descriptions) as [numbers |]
    eqn:Hnum; [| discriminate].
  f_equal. unfold check_segment_numbers in Hnum.
  destruct (diff_all_one _); [| discriminate].
  destruct (map SegmentNumber segment_descriptions) as [| first rest];
    [discriminate |].
  destruct (first =? seg_num_start_of self); [| discriminate].
  now inversion Hnum.
Qed.

(** A run of [add_segments] that returns keeps the numbering, and appends
    the described segments. *)
Lemma add_segments_numbered (ext : External) (pixel_array : PixelArray)
    (segment_descriptions : list SegmentDescription)
    (plane_positions : option (list PlanePositionSequence))
    (self self' : Segmentation) (u : unit) :
  segments_numbered self ->
  add_segments ext pixel_array segment_descriptions plane_positions self
  = (self', Ok u) ->
  segments_numbered self'
  /\ SegmentSequence self' = SegmentSequence self ++ segment_descriptions
  /\ segment_descriptions <> [].
Proof.
  intros Hnumbered Hrun.
  destruct (add_segments_effect _ _ _ _ _ _ _ Hrun)
    as (source_images & pixel_array2 & source_plane_positions & positions
        & values & plane_sort_index & positions_equal
        & dimension_position_values & items & s3 & _ & Hval & _ & _ & _ & _
        & _ & _ & _ & _ & Hreg & _).
  apply validation_numbers in Hval.
  pose proof (seg_num_start_of_numbered self Hnumbered) as Hstart.
  assert (Hnum :
    map SegmentNumber segment_descriptions
    = map Z.of_nat (seq (S (number_of_segments self))
                      (List.length segment_descriptions))
    /\ segment_descriptions <> []).
  { unfold check_segment_numbers in Hval.
    destruct (diff_all_one (map SegmentNumber segment_descriptions)) eqn:Hdiff;
      [| discriminate].
    destruct (map SegmentNumber segment_descriptions) as [| first rest]
      eqn:Hmap; [discriminate |].
    destruct (first =? seg_num_start_of self) eqn:Hfirst; [| discriminate].
    apply Z.eqb_eq in Hfirst. split.
    - rewrite <- (length_map SegmentNumber), Hmap.
      apply diff_all_one_numbers; [exact Hdiff |].
      cbn [hd_error]. congruence.
    - intros ->. discriminate. }
  destruct Hnum as [Hnum Hne].
  destruct Hnumbered as [Hseq Hinv].
  pose proof (register_segments_numbered segment_descriptions
                (SegmentSequence self) (_segment_inventory self)
                Hseq Hinv Hnum) as Hfold.
  rewrite <- Hreg in Hfold. destruct Hfold as (Happ & Hseq' & Hinv').
  split; [split; assumption |]. split; assumption.
Qed.

(** ** The objects the constructor builds *)

Lemma Segmentation_init_inv (ext : External)
    (source_images : list SourceImage) (pixel_array : PixelArray)
    (segmentation_type : string)
    (segment_descriptions : list SegmentDescription)
    (fractional_type : string) (max_fractional_value : Z)
    (transfer_syntax_uid : TransferSyntax)
    (plane_orientation : option (list Z))
    (plane_positions : option (list PlanePositionSequence))
    (self : Segmentation) :
  Segmentation_init ext source_images pixel_array segmentation_type
    segment_descriptions fractional_type max_fractional_value
    transfer_syntax_uid plane_orientation plane_positions = Ok self ->
  exists self0 pixel_array1,
    Segmentation_new source_images pixel_array segmentation_type
      fractional_type max_fractional_value transfer_syntax_uid
      plane_orientation = Ok (self0, pixel_array1)
    /\ add_segments ext pixel_array1 segment_descriptions plane_positions self0
       = (self, Ok tt).
Proof.
  unfold Segmentation_init. intros H.
  destruct (Segmentation_new _ _ _ _ _ _ _) as [[self0 pixel_array1] |];
    [| discriminate].
  cbn [rbind] in H. exists self0, pixel_array1. split; [reflexivity |].
  destruct (add_segments ext pixel_array1 segment_descriptions plane_positions
              self0) as [self1 [[] |]]; [| discriminate].
  now inversion H.
Qed.

Lemma Segmentation_new_spec
    (source_images : list SourceImage) (pixel_array : PixelArray)
    (segmentation_type : string) (fractional_type : string)
    (max_fractional_value : Z) (transfer_syntax_uid : TransferSyntax)
    (plane_orientation : option (list Z))
    (self : Segmentation) (pixel_array1 : PixelArray) :
  Segmentation_new source_images pixel_array segmentation_type
    fractional_type max_fractional_value transfer_syntax_uid
    plane_orientation = Ok (self, pixel_array1) ->
  fresh self /\ segmentation_format self
  /\ _source_images self = Some source_images
  /\ TransferSyntaxUID self = transfer_syntax_uid
  /\ frame_lut self = None /\ lut_seg_col self = None
  /\ lut_src_col self = None
  /\ SourceImageSequence self = map source_image_reference source_images
  /\ StudiesContainingOtherReferencedInstancesSequence self = None
  /\ _source_plane_orientation self
     = Some (src_image_orientation (hd (ct_image "" 0 0 0) source_images))
  /\ _plane_orientation self
     = match plane_orientation with
       | Some o => o
       | None => src_image_orientation (hd (ct_image "" 0 0 0) source_images)
       end
  /\ DimensionIndexSequence_of self
     = DimensionIndexSequence (_coordinate_system self).
Proof.
  unfold Segmentation_new. intros H.
  destruct source_images as [| src_img rest]; [discriminate |].
  destruct (forallb (same_series_and_size src_img) (src_img :: rest));
    [| discriminate].
  destruct (negb _); [| discriminate].
  destruct (supported_by_segmentation transfer_syntax_uid) eqn:Hts;
    [| discriminate].
  destruct (pa_shape _) as [| n [| rows [| columns shape]]];
    try discriminate.
  destruct (SegmentationTypeValues_of segmentation_type) as [[] |];
    [| | discriminate]; cbn [rbind] in H.
  - destruct (negb (is_encapsulated transfer_syntax_uid)) eqn:Henc;
      [| discriminate].
    apply negb_true_iff in Henc.
    cbn [rbind] in H. inversion H; subst. clear H.
    unfold fresh, segmentation_format. cbn.
    repeat split; auto.
  - destruct (SegmentationFractionalTypeValues_of fractional_type);
      [| discriminate].
    cbn [rbind] in H.
    destruct (negb (2 ^ 8 <? max_fractional_value)) eqn:Hmax;
      [| discriminate].
    apply negb_true_iff, Z.ltb_ge in Hmax.
    cbn [rbind] in H. inversion H; subst. clear H.
    unfold fresh, segmentation_format. cbn.
    repeat split; auto. discriminate.
Qed.

Lemma segmentation_format_static (s s' : Segmentation) :
  static s' = static s -> segmentation_format s -> segmentation_format s'.
Proof. intros Hst. unfold segmentation_format. now use_static Hst. Qed.

Lemma public_luts_static (s s' : Segmentation) :
  static s' = static s ->
  frame_lut s' = frame_lut s /\ lut_seg_col s' = lut_seg_col s
  /\ lut_src_col s' = lut_src_col s /\ _source_images s' = _source_images s.
Proof.
  intros Hst. unfold static in Hst. injection Hst. intros. auto.
Qed.

(** What holds of every object the constructor and later calls of
    [add_segments] build. *)
Lemma constructed_invariant (ext : External) (self : Segmentation) :
  constructed ext self ->
  NumberOfFrames self = List.length (PerFrameFunctionalGroupsSequence self)
  /\ segments_numbered self
  /\ (1 <= number_of_segments self)%nat
  /\ segmentation_format self
  /\ (exists source_images, _source_images self = Some source_images)
  /\ frame_lut self = None /\ lut_seg_col self = None
  /\ lut_src_col self = None.
Proof.
  assert (Hstep :
    forall pixel_array segment_descriptions plane_positions self0 self1,
      NumberOfFrames self0
      = List.length (PerFrameFunctionalGroupsSequence self0) ->
      segments_numbered self0 ->
      segmentation_format self0 ->
      (exists source_images, _source_images self0 = Some source_images) ->
      frame_lut self0 = None -> lut_seg_col self0 = None ->
      lut_src_col self0 = None ->
      add_segments ext pixel_array segment_descriptions plane_positions self0
      = (self1, Ok tt) ->
      NumberOfFrames self1
      = List.length (PerFrameFunctionalGroupsSequence self1)
      /\ segments_numbered self1
      /\ (1 <= number_of_segments self1)%nat
      /\ segmentation_format self1
      /\ (exists source_images, _source_images self1 = Some source_images)
      /\ frame_lut self1 = None /\ lut_seg_col self1 = None
      /\ lut_src_col self1 = None).
  { intros pixel_array segment_descriptions plane_positions self0 self1
      Hcount Hnum Hfmt Hsrc Hlut Hseg Hsrccol Hrun.
    destruct (add_segments_numbered _ _ _ _ _ _ _ Hnum Hrun)
      as (Hnum1 & Happ & Hne).
    destruct (add_segments_effect _ _ _ _ _ _ _ Hrun)
      as (source_images & pixel_array2 & source_plane_positions & positions
          & values & plane_sort_index & positions_equal
          & dimension_position_values & items & s3 & _ & _ & _ & _ & _ & _
          & Hst & Hitems & Hnf & _).
    destruct (public_luts_static _ _ Hst) as (Hl1 & Hl2 & Hl3 & Hl4).
    split; [rewrite Hnf, Hitems, length_app, Hcount; reflexivity |].
    split; [exact Hnum1 |]. split.
    { unfold number_of_segments. rewrite Happ, length_app.
      destruct segment_descriptions; [congruence | simpl; lia]. }
    split; [eapply segmentation_format_static; eauto |].
    split; [rewrite Hl4; exact Hsrc |].
    repeat split; congruence. }
  induction 1 as [source_images pixel_array segmentation_type
                    segment_descriptions fractional_type max_fractional_value
                    transfer_syntax_uid plane_orientation plane_positions
                    self Hinit
                 | self self' pixel_array segment_descriptions
                     plane_positions Hc IH Hrun].
  - destruct (Segmentation_init_inv _ _ _ _ _ _ _ _ _ _ _ Hinit)
      as (self0 & pixel_array1 & Hnew & Hrun).
    destruct (Segmentation_new_spec _ _ _ _ _ _ _ _ _ Hnew)
      as ((Hnf & Hframes & Hseq & Hinv & _) & Hfmt & Hsrc & _ & Hl1 & Hl2
          & Hl3 & _).
    eapply Hstep; eauto.
    + now rewrite Hnf, Hframes.
    + unfold segments_numbered, number_of_segments. rewrite Hseq, Hinv.
      split; [reflexivity |]. intros n. simpl. lia.
  - destruct IH as (Hcount & Hnum & _ & Hfmt & Hsrc & Hl1 & Hl2 & Hl3).
    eapply Hstep; eauto.
Qed.

(** X3.  A call of [add_segments] assigns none of the attributes that fix
    the image format and the references of the object, whether it returns or
    raises: the rows and columns, the transfer syntax, the segmentation type,
    the bit depth, the maximum fractional value, the dimension index and the
    referenced source instances are after the call what they were before. *)
Theorem add_segments_keeps_image_format (ext : External)
    (pixel_array : PixelArray)
    (segment_descriptions : list SegmentDescription)
    (plane_positions : option (list PlanePositionSequence))
    (self : Segmentation) :
  let self' :=
    fst (add_segments ext pixel_array segment_descriptions plane_positions
           self) in
  Rows self' = Rows self /\ Columns self' = Columns self
  /\ SamplesPerPixel self' = SamplesPerPixel self
  /\ TransferSyntaxUID self' = TransferSyntaxUID self
  /\ SegmentationType self' = SegmentationType self
  /\ SegmentationFractionalType self' = SegmentationFractionalType self
  /\ MaximumFractionalValue self' = MaximumFractionalValue self
  /\ BitsAllocated self' = BitsAllocated self
  /\ BitsStored self' = BitsStored self
  /\ HighBit self' = HighBit self
  /\ PhotometricInterpretation self' = PhotometricInterpretation self
  /\ PixelRepresentation self' = PixelRepresentation self
  /\ DimensionIndexSequence_of self' = DimensionIndexSequence_of self
  /\ SourceImageSequence self' = SourceImageSequence self
  /\ ReferencedSeriesSequence self' = ReferencedSeriesSequence self
  /\ StudyInstanceUID self' = StudyInstanceUID self.
Proof.
  intros self'.
  pose proof (add_segments_preserves_static ext pixel_array
                segment_descriptions plane_positions self) as Hst.
  fold self' in Hst. unfold static in Hst. injection Hst. intros.
  repeat split; assumption.
Qed.

(** X4.  On every object the constructor has built, also after later calls
    of [add_segments] that return, the Number of Frames is the number of
    items of the Per-frame Functional Groups Sequence. *)
Theorem constructed_frame_count (ext : External) (self : Segmentation) :
  constructed ext self ->
  NumberOfFrames self = List.length (PerFrameFunctionalGroupsSequence self).
Proof. intros Hc. apply (constructed_invariant ext self Hc). Qed.

(** X5.  On every object the constructor has built, also after later calls
    of [add_segments] that return, there is at least one segment, the items
    of the Segment Sequence have the numbers 1, 2, ... in this order, the
    inventory of segment numbers holds exactly these numbers, and a number
    is among [segment_numbers] exactly when a described segment has it. *)
Theorem constructed_segments_numbered (ext : External) (self : Segmentation) :
  constructed ext self ->
  (1 <= number_of_segments self)%nat
  /\ map SegmentNumber (SegmentSequence self)
     = numbers_to (number_of_segments self)
  /\ (forall n, In n (_segment_inventory self)
                <-> 1 <= n <= Z.of_nat (number_of_segments self))
  /\ (forall n, in_segment_numbers self n = true
                <-> exists description,
                      In description (SegmentSequence self)
                      /\ SegmentNumber description = n).
Proof.
  intros Hc.
  destruct (constructed_invariant ext self Hc)
    as (_ & [Hseq Hinv] & Hone & _).
  split; [exact Hone |]. split; [exact Hseq |]. split; [exact Hinv |].
  intros n. unfold in_segment_numbers.
  rewrite andb_true_iff, Z.leb_le, Z.leb_le.
  transitivity (In n (map SegmentNumber (SegmentSequence self))).
  - rewrite Hseq. unfold numbers_to. rewrite in_map_iff. split.
    + intros Hn. exists (Z.to_nat n). split; [lia |]. apply in_seq. lia.
    + intros (k & <- & Hk). apply in_seq in Hk. lia.
  - rewrite in_map_iff. split; intros (d & H1 & H2); exists d; auto.
Qed.

Lemma constructed_frame_count_witness :
  exists self,
    binary_example = Ok self
    /\ NumberOfFrames self = 4%nat
    /\ NumberOfFrames self
       = List.length (PerFrameFunctionalGroupsSequence self).
Proof.
  eexists. split; [vm_compute; reflexivity |].
  split; [reflexivity |].
  apply (constructed_frame_count plain_codecs).
  apply (constructed_init plain_codecs [ct_image "1.2.3.1.1" 2 4 0]
           (IntPixels (mk_ndarray np_uint8 [1; 2; 4]%nat
                         [1; 2; 3; 4; 0; 0; 0; 0]))
           "BINARY"
           [description 1; description 2; description 3; description 4]
           "PROBABILITY" 255 ExplicitVRLittleEndian None None).
  vm_compute. reflexivity.
Defined.

Lemma constructed_segments_numbered_witness :
  exists self self',
    binary_example = Ok self
    /\ add_segments plain_codecs
         (IntPixels (mk_ndarray np_bool [1; 2; 4]%nat
                       [0; 0; 0; 0; 1; 1; 0; 0]))
         [description 5] None self = (self', Ok tt)
    /\ map SegmentNumber (SegmentSequence self') = [1; 2; 3; 4; 5]
    /\ (1 <= number_of_segments self')%nat
    /\ map SegmentNumber (SegmentSequence self')
       = numbers_to (number_of_segments self')
    /\ (forall n, In n (_segment_inventory self')
                  <-> 1 <= n <= Z.of_nat (number_of_segments self'))
    /\ (forall n, in_segment_numbers self' n = true
                  <-> exists description,
                        In description (SegmentSequence self')
                        /\ SegmentNumber description = n).
Proof.
  eexists. eexists. split; [vm_compute; reflexivity |].
  match goal with
  | |- add_segments _ _ _ _ ?s = _ /\ _ => pose (self := s)
  end.
  split; [vm_compute; reflexivity |].
  split; [reflexivity |].
  apply (constructed_segments_numbered plain_codecs).
  apply (constructed_add_segments plain_codecs self _
           (IntPixels (mk_ndarray np_bool [1; 2; 4]%nat
                         [0; 0; 0; 0; 1; 1; 0; 0]))
           [description 5] None).
  - apply (constructed_init plain_codecs [ct_image "1.2.3.1.1" 2 4 0]
             (IntPixels (mk_ndarray np_uint8 [1; 2; 4]%nat
                           [1; 2; 3; 4; 0; 0; 0; 0]))
             "BINARY"
             [description 1; description 2; description 3; description 4]
             "PROBABILITY" 255 ExplicitVRLittleEndian None None).
    vm_compute. reflexivity.
  - vm_compute. reflexivity.
Defined.

(** X6.  On every object the constructor has built, also after later calls
    of [add_segments] that return, [get_segment_description] returns for
    every number from 1 to the number of segments the description that has
    this segment number; for every other number it raises an [IndexError]. *)
Theorem get_segment_description_numbered (ext : External)
    (self : Segmentation) (segment_number : Z) :
  constructed ext self ->
  (1 <= segment_number <= Z.of_nat (number_of_segments self) ->
   exists description,
     get_segment_description self segment_number = Ok description
     /\ In description (SegmentSequence self)
     /\ SegmentNumber description = segment_number)
  /\ (segment_number < 1
      \/ Z.of_nat (number_of_segments self) < segment_number ->
      exists msg,
        get_segment_description self segment_number = Raise (IndexError msg)).
Proof.
  intros Hc.
  destruct (constructed_invariant ext self Hc) as (_ & [Hseq _] & _).
  unfold get_segment_description. split.
  - intros Hn.
    replace (segment_number <? 1) with false by (symmetry; apply Z.ltb_ge; lia).
    replace (Z.of_nat (number_of_segments self) <? segment_number) with false
      by (symmetry; apply Z.ltb_ge; lia).
    cbn [orb negb].
    assert (Hlt : (Z.to_nat (segment_number - 1)
                   < List.length (SegmentSequence self))%nat)
      by (unfold number_of_segments in Hn; lia).
    destruct (nth_error (SegmentSequence self) (Z.to_nat (segment_number - 1)))
      as [description |] eqn:Hnth;
      [| apply nth_error_None in Hnth; lia].
    exists description. split; [reflexivity |].
    split; [eapply nth_error_In; eassumption |].
    assert (Hmap : nth_error (map SegmentNumber (SegmentSequence self))
                     (Z.to_nat (segment_number - 1))
                   = Some (SegmentNumber description))
      by (now rewrite nth_error_map, Hnth).
    rewrite Hseq in Hmap. unfold numbers_to in Hmap.
    rewrite nth_error_map in Hmap.
    rewrite (nth_error_nth' _ 0%nat) in Hmap by (now rewrite length_seq).
    rewrite seq_nth in Hmap by exact Hlt.
    cbn [option_map] in Hmap. inversion Hmap. lia.
  - intros Hout.
    replace ((segment_number <? 1)
             || (Z.of_nat (number_of_segments self) <? segment_number))
      with true; [cbn [negb]; eauto |].
    symmetry. apply orb_true_iff.
    destruct Hout; [left | right]; apply Z.ltb_lt; lia.
Qed.

Lemma get_segment_description_numbered_witness :
  exists self,
    binary_example = Ok self
    /\ get_segment_description self 3 = Ok (description 3)
    /\ (1 <= 3 <= Z.of_nat (number_of_segments self) ->
        exists d,
          get_segment_description self 3 = Ok d
          /\ In d (SegmentSequence self) /\ SegmentNumber d = 3)
    /\ (5 < 1 \/ Z.of_nat (number_of_segments self) < 5 ->
        exists msg, get_segment_description self 5 = Raise (IndexError msg)).
Proof.
  eexists. split; [vm_compute; reflexivity |].
  match goal with
  | |- get_segment_description ?s _ = _ /\ _ => pose (self := s)
  end.
  split; [reflexivity |].
  assert (Hc : constructed plain_codecs self).
  { apply (constructed_init plain_codecs [ct_image "1.2.3.1.1" 2 4 0]
             (IntPixels (mk_ndarray np_uint8 [1; 2; 4]%nat
                           [1; 2; 3; 4; 0; 0; 0; 0]))
             "BINARY"
             [description 1; description 2; description 3; description 4]
             "PROBABILITY" 255 ExplicitVRLittleEndian None None).
    vm_compute. reflexivity. }
  split.
  - apply (get_segment_description_numbered plain_codecs self 3 Hc).
  - apply (get_segment_description_numbered plain_codecs self 5 Hc).
Defined.

(** X7.  The constructor leaves Segments Overlap at NO, and every later call
    of [add_segments] that returns leaves it at UNDEFINED: the value is NO
    exactly as long as all segments come from one pixel array. *)
Theorem segments_overlap_assigned (ext : External) :
  (forall source_images pixel_array segmentation_type segment_descriptions
          fractional_type max_fractional_value transfer_syntax_uid
          plane_orientation plane_positions self,
      Segmentation_init ext source_images pixel_array segmentation_type
        segment_descriptions fractional_type max_fractional_value
        transfer_syntax_uid plane_orientation plane_positions = Ok self ->
      SegmentsOverlap self = Some SegmentsOverlap_NO)
  /\ (forall self self' pixel_array segment_descriptions plane_positions,
        constructed ext self ->
        add_segments ext pixel_array segment_descriptions plane_positions self
        = (self', Ok tt) ->
        SegmentsOverlap self' = Some SegmentsOverlap_UNDEFINED).
Proof.
  split.
  - intros source_images pixel_array segmentation_type segment_descriptions
      fractional_type max_fractional_value transfer_syntax_uid
      plane_orientation plane_positions self Hinit.
    destruct (Segmentation_init_inv _ _ _ _ _ _ _ _ _ _ _ Hinit)
      as (self0 & pixel_array1 & Hnew & Hrun).
    destruct (Segmentation_new_spec _ _ _ _ _ _ _ _ _ Hnew)
      as ((_ & _ & _ & Hinv & _) & _).
    destruct (add_segments_effect _ _ _ _ _ _ _ Hrun)
      as (? & ? & ? & ? & ? & ? & ? & ? & ? & ? & _ & _ & _ & _ & _ & _
          & _ & _ & _ & _ & _ & Hover & _).
    rewrite Hover. unfold assigned_overlap. now rewrite Hinv.
  - intros self self' pixel_array segment_descriptions plane_positions Hc Hrun.
    destruct (constructed_invariant ext self Hc)
      as (_ & [_ Hinv] & Hone & _).
    destruct (add_segments_effect _ _ _ _ _ _ _ Hrun)
      as (? & ? & ? & ? & ? & ? & ? & ? & ? & ? & _ & _ & _ & _ & _ & _
          & _ & _ & _ & _ & _ & Hover & _).
    rewrite Hover. unfold assigned_overlap.
    destruct (_segment_inventory self) as [| n rest] eqn:Hinventory;
      [| reflexivity].
    assert (H1 : In 1 []) by (apply Hinv; lia). destruct H1.
Qed.

Lemma segments_overlap_assigned_witness :
  exists self self',
    binary_example = Ok self
    /\ SegmentsOverlap self = Some SegmentsOverlap_NO
    /\ add_segments plain_codecs
         (IntPixels (mk_ndarray np_bool [1; 2; 4]%nat
                       [0; 0; 0; 0; 1; 1; 0; 0]))
         [description 5] None self = (self', Ok tt)
    /\ SegmentsOverlap self' = Some SegmentsOverlap_UNDEFINED.
Proof.
  eexists. eexists. split; [vm_compute; reflexivity |].
  match goal with
  | |- SegmentsOverlap ?s = _ /\ _ => pose (self := s)
  end.
  assert (Hinit :
    Segmentation_init plain_codecs [ct_image "1.2.3.1.1" 2 4 0]
      (IntPixels (mk_ndarray np_uint8 [1; 2; 4]%nat
                    [1; 2; 3; 4; 0; 0; 0; 0]))
      "BINARY" [description 1; description 2; description 3; description 4]
      "PROBABILITY" 255 ExplicitVRLittleEndian None None = Ok self)
    by (vm_compute; reflexivity).
  split.
  - exact (proj1 (segments_overlap_assigned plain_codecs) _ _ _ _ _ _ _ _ _ _
             Hinit).
  - split; [vm_compute; reflexivity |].
    apply (proj2 (segments_overlap_assigned plain_codecs) self _
             (IntPixels (mk_ndarray np_bool [1; 2; 4]%nat
                           [0; 0; 0; 0; 1; 1; 0; 0]))
             [description 5] None).
    + eapply constructed_init. exact Hinit.
    + vm_compute. reflexivity.
Defined.

(** ** The lookup table of the referenced instances *)

Section OrderedDict.

Context {V : Type}.

Lemma od_set_keys (k : string) (v : V) (d : list (string * V)) :
  map fst (od_set k v d)
  = if string_mem k (map fst d) then map fst d else map fst d ++ [k].
Proof.
  induction d as [| [k' v'] d IH]; [reflexivity |].
  unfold string_mem in *.
  cbn [od_set map fst existsb].
  rewrite (String.eqb_sym k k').
  destruct (String.eqb k' k) eqn:Heq; cbn [orb map fst].
  - reflexivity.
  - rewrite IH.
    destruct (existsb (String.eqb k) (map fst d)); reflexivity.
Qed.

Lemma od_set_values (P : string * V -> Prop) (k : string) (v : V)
    (d : list (string * V)) :
  P (k, v) -> Forall P d -> Forall P (od_set k v d).
Proof.
  intros Hkv Hd. induction Hd as [| [k' v'] d Hx Hd IH]; cbn [od_set].
  - constructor; [exact Hkv | constructor].
  - destruct (String.eqb k' k) eqn:Heq.
    + apply String.eqb_eq in Heq. subst k'. constructor; assumption.
    + constructor; assumption.
Qed.

End OrderedDict.

Lemma string_mem_In (x : string) (l : list string) :
  string_mem x l = true <-> In x l.
Proof.
  unfold string_mem. rewrite existsb_exists. split.
  - intros (y & Hy & Heq). apply String.eqb_eq in Heq. now subst.
  - intros Hin. exists x. split; [exact Hin | apply String.eqb_refl].
Qed.

(** An assignment keeps the keys distinct, adds its key and keeps a property
    of the entries that the new entry has. *)
Lemma od_set_table {V : Type} (P : string * V -> Prop) (k : string) (v : V)
    (d : list (string * V)) :
  P (k, v) ->
  (NoDup (map fst d) -> NoDup (map fst (od_set k v d)))
  /\ (forall uid, In uid (map fst (od_set k v d))
                  <-> In uid (map fst d) \/ In uid [k])
  /\ (Forall P d -> Forall P (od_set k v d)).
Proof.
  intros Hkv. rewrite od_set_keys.
  destruct (string_mem k (map fst d)) eqn:Hmem.
  - apply string_mem_In in Hmem.
    split; [auto |]. split; [| apply od_set_values; exact Hkv].
    intros uid. simpl. split; [tauto |].
    intros [H | [H | []]]; [exact H | now subst].
  - assert (Hnot : ~ In k (map fst d)).
    { intros Hin. apply string_mem_In in Hin. congruence. }
    split.
    + intros Hnd. apply NoDup_app; [exact Hnd | repeat constructor; simpl; tauto |].
      intros x Hx [Hk | []]. now subst.
    + split; [| apply od_set_values; exact Hkv].
      intros uid. rewrite in_app_iff. tauto.
Qed.

Section TableKeys.

Context {V A : Type}.
Variable step : list (string * V) -> A -> list (string * V).
Variable keys_of : A -> list string.
Variable P : string * V -> Prop.

Lemma fold_left_keys (l : list A) :
  (forall d a,
      (NoDup (map fst d) -> NoDup (map fst (step d a)))
      /\ (forall uid, In uid (map fst (step d a))
                      <-> In uid (map fst d) \/ In uid (keys_of a))
      /\ (Forall P d -> Forall P (step d a))) ->
  forall d,
    (NoDup (map fst d) -> NoDup (map fst (fold_left step l d)))
    /\ (forall uid, In uid (map fst (fold_left step l d))
                    <-> In uid (map fst d) \/ In uid (flat_map keys_of l))
    /\ (Forall P d -> Forall P (fold_left step l d)).
Proof.
  intros Hstep. induction l as [| a l IH]; intros d; cbn [fold_left flat_map].
  - split; [auto |]. split; [| auto]. intros uid. simpl. tauto.
  - destruct (Hstep d a) as (Hnd & Hin & Hall).
    destruct (IH (step d a)) as (Hnd' & Hin' & Hall').
    split; [auto |]. split; [| auto].
    intros uid. rewrite Hin', Hin, in_app_iff. tauto.
Qed.

End TableKeys.

Lemma add_referenced_series_table (study_uid : string)
    (d : list (string * (string * string * string)))
    (ref_series : ReferencedSeriesItem) :
  (NoDup (map fst d)
   -> NoDup (map fst (add_referenced_series study_uid d ref_series)))
  /\ (forall uid,
        In uid (map fst (add_referenced_series study_uid d ref_series))
        <-> In uid (map fst d) \/ In uid (series_instance_uids ref_series))
  /\ (Forall (fun kv => snd (snd kv) = fst kv) d
      -> Forall (fun kv => snd (snd kv) = fst kv)
           (add_referenced_series study_uid d ref_series)).
Proof.
  unfold add_referenced_series, series_instance_uids.
  pose proof (fold_left_keys
    (fun d ref_ins =>
       od_set (ReferencedSOPInstanceUID ref_ins)
         (study_uid, ref_SeriesInstanceUID ref_series,
          ReferencedSOPInstanceUID ref_ins) d)
    (fun ref_ins => [ReferencedSOPInstanceUID ref_ins])
    (fun kv => snd (snd kv) = fst kv)
    (ReferencedInstanceSequence ref_series)) as Hfold.
  assert (Hflat : forall l : list SourceImageItem,
             flat_map (fun ref_ins => [ReferencedSOPInstanceUID ref_ins]) l
             = map ReferencedSOPInstanceUID l).
  { induction l as [| x l IH]; [reflexivity |]. simpl. now rewrite IH. }
  rewrite Hflat in Hfold. apply Hfold.
  intros d' ref_ins. apply od_set_table. reflexivity.
Qed.

Lemma argwhere_eq_absent (value : string) (array : list string) (i : nat) :
  ~ In value array -> argwhere_eq value array i = [].
Proof.
  revert i. induction array as [| x rest IH]; intros i Hnot; [reflexivity |].
  cbn [argwhere_eq].
  destruct (String.eqb x value) eqn:Heq.
  - apply String.eqb_eq in Heq. subst x. exfalso. apply Hnot. now left.
  - apply IH. intros Hin. apply Hnot. now right.
Qed.

Lemma argwhere_eq_unique (value : string) (array : list string) (i : nat) :
  NoDup array -> In value array ->
  exists k, argwhere_eq value array i = [(i + k)%nat]
            /\ nth_error array k = Some value.
Proof.
  revert i. induction array as [| x rest IH]; intros i Hnd Hin; [destruct Hin |].
  inversion Hnd as [| ? ? Hx Hrest]; subst.
  cbn [argwhere_eq].
  destruct (String.eqb x value) eqn:Heq.
  - apply String.eqb_eq in Heq. subst x. exists 0%nat.
    rewrite (argwhere_eq_absent value rest (S i) Hx), Nat.add_0_r.
    split; reflexivity.
  - destruct Hin as [Hin | Hin].
    + subst x. rewrite String.eqb_refl in Heq. discriminate.
    + destruct (IH (S i) Hrest Hin) as (k & Hk & Hnth).
      exists (S k). rewrite Hk. split; [f_equal; lia | exact Hnth].
Qed.

(** The table built by [_build_ref_instance_lut]. *)
Lemma _build_ref_instance_lut_table (self : Segmentation) :
  exists lut : list (string * (string * string * string)),
    _build_ref_instance_lut self
    = (set_source_sop_instance_uids (map fst lut) (set_ref_ins_lut lut self),
       Ok tt)
    /\ NoDup (map fst lut)
    /\ (forall uid, In uid (map fst lut)
                    <-> In uid (referenced_instance_uids self))
    /\ Forall (fun kv => snd (snd kv) = fst kv) lut.
Proof.
  set (lut1 := fold_left (add_referenced_series (StudyInstanceUID self))
                 (ReferencedSeriesSequence self) []).
  assert (H1 : NoDup (map fst lut1)
               /\ (forall uid, In uid (map fst lut1)
                     <-> In uid (flat_map series_instance_uids
                                   (ReferencedSeriesSequence self)))
               /\ Forall (fun kv => snd (snd kv) = fst kv) lut1).
  { destruct (fold_left_keys
                (add_referenced_series (StudyInstanceUID self))
                series_instance_uids (fun kv => snd (snd kv) = fst kv)
                (ReferencedSeriesSequence self)
                (add_referenced_series_table (StudyInstanceUID self)) [])
      as (Hnd & Hin & Hall).
    split; [apply Hnd; constructor |].
    split; [| apply Hall; constructor].
    intros uid. destruct (Hin uid) as [Ha Hb]. split; intros H.
    - destruct (Ha H) as [[] | H']; exact H'.
    - apply Hb. now right. }
  destruct H1 as (Hnd1 & Hin1 & Hall1).
  unfold _build_ref_instance_lut, referenced_instance_uids.
  cbv [bind get_self update ret]. fold lut1.
  destruct (StudiesContainingOtherReferencedInstancesSequence self)
    as [studies |].
  - eexists. split; [reflexivity |].
    destruct (fold_left_keys
                (fun d ref_study =>
                   fold_left
                     (add_referenced_series (ref_StudyInstanceUID ref_study))
                     (ref_ReferencedSeriesSequence ref_study) d)
                (fun ref_study =>
                   flat_map series_instance_uids
                     (ref_ReferencedSeriesSequence ref_study))
                (fun kv => snd (snd kv) = fst kv) studies) with (d := lut1)
      as (Hnd & Hin & Hall).
    { intros d ref_study.
      apply (fold_left_keys
               (add_referenced_series (ref_StudyInstanceUID ref_study))
               series_instance_uids (fun kv => snd (snd kv) = fst kv)
               (ref_ReferencedSeriesSequence ref_study)
               (add_referenced_series_table (ref_StudyInstanceUID ref_study))). }
    split; [auto |]. split; [| auto].
    intros uid. destruct (Hin uid) as [Ha Hb]. rewrite in_app_iff, <- Hin1.
    split; [exact Ha | exact Hb].
  - exists lut1. split; [reflexivity |].
    split; [exact Hnd1 |]. split; [| exact Hall1].
    intros uid. rewrite app_nil_r. apply Hin1.
Qed.

(** X8. [_build_ref_instance_lut] always returns, and the table it leaves
    can be read back: the keys [_source_sop_instance_uids] are pairwise
    different and are exactly the SOP Instance UIDs referenced in the
    Referenced Series Sequence and the Studies Containing Other Referenced
    Instances Sequence; [get_source_sop_instances] lists one triple per key,
    in the order of the keys, whose third component is the key;
    [_get_src_uid_index] returns for a referenced UID the position of that
    UID among the keys and raises [KeyError] for every other UID, so that
    the conversion of an index array with several elements never fails. *)
Theorem ref_instance_lut_round_trip (self : Segmentation) :
  exists self',
    _build_ref_instance_lut self = (self', Ok tt)
    /\ NoDup (_source_sop_instance_uids self')
    /\ (forall uid, In uid (_source_sop_instance_uids self')
                    <-> In uid (referenced_instance_uids self))
    /\ map snd (get_source_sop_instances self') = _source_sop_instance_uids self'
    /\ (forall uid, In uid (referenced_instance_uids self) ->
          exists i, _get_src_uid_index self' uid = Ok i
                    /\ nth_error (_source_sop_instance_uids self') i = Some uid)
    /\ (forall uid, ~ In uid (referenced_instance_uids self) ->
          _get_src_uid_index self' uid = Raise (KeyError "No such source frame")).
Proof.
  destruct (_build_ref_instance_lut_table self)
    as (lut & Hrun & Hnd & Hin & Hall).
  eexists. split; [exact Hrun |].
  unfold get_source_sop_instances, _get_src_uid_index.
  change (_source_sop_instance_uids
            (set_source_sop_instance_uids (map fst lut)
               (set_ref_ins_lut lut self))) with (map fst lut).
  change (_ref_ins_lut
            (set_source_sop_instance_uids (map fst lut)
               (set_ref_ins_lut lut self))) with lut.
  split; [exact Hnd |]. split; [exact Hin |]. split.
  { clear - Hall. induction Hall as [| kv l Hkv Hl IH]; [reflexivity |].
    simpl. now rewrite Hkv, IH. }
  split.
  - intros uid Huid. apply Hin in Huid.
    destruct (argwhere_eq_unique uid (map fst lut) 0 Hnd Huid) as (k & Hk & Hnth).
    exists k. rewrite Hk. split; [reflexivity | exact Hnth].
  - intros uid Huid.
    rewrite argwhere_eq_absent; [reflexivity |].
    intros H. apply Huid, Hin, H.
Qed.

(** ** The lookup table of the frames *)

Lemma _get_src_uid_index_found (self : Segmentation) (uid : string) :
  NoDup (_source_sop_instance_uids self) ->
  In uid (_source_sop_instance_uids self) ->
  exists i, _get_src_uid_index self uid = Ok i
            /\ nth_error (_source_sop_instance_uids self) i = Some uid.
Proof.
  intros Hnd Hin. unfold _get_src_uid_index.
  destruct (argwhere_eq_unique uid _ 0 Hnd Hin) as (k & Hk & Hnth).
  exists k. rewrite Hk. split; [reflexivity | exact Hnth].
Qed.

Section LenSet.

Context {A : Type}.
Variable dec : forall x y : A, {x = y} + {x <> y}.

Lemma len_set_one (d : A) (l : list A) :
  List.length (nodup dec l) = 1%nat
  <-> l <> [] /\ forall x, In x l -> x = hd d l.
Proof.
  split.
  - intros Hlen.
    destruct (nodup dec l) as [| y [| z rest]] eqn:Hset; try discriminate.
    assert (Hall : forall x, In x l -> x = y).
    { intros x Hx. apply (nodup_In dec) in Hx. rewrite Hset in Hx.
      destruct Hx as [Hx | []]. now symmetry. }
    destruct l as [| x l]; [discriminate |].
    split; [discriminate |].
    intros x' Hx'. cbn [hd].
    rewrite (Hall x' Hx'). symmetry. apply Hall. now left.
  - intros [Hne Hall].
    destruct l as [| x l]; [congruence |]. cbn [hd] in Hall. clear Hne.
    assert (Hrest : forall l', (forall x', In x' l' -> x' = x) ->
               nodup dec (x :: l') = [x]).
    { induction l' as [| y l' IH]; intros Hl'; [reflexivity |].
      assert (y = x) by (apply Hl'; now left). subst y.
      assert (IH' := IH (fun x' Hx' => Hl' x' (or_intror Hx'))).
      cbn [nodup] in IH' |- *.
      destruct (in_dec dec x (x :: l')) as [_ | Hnot];
        [| exfalso; apply Hnot; now left].
      exact IH'. }
    rewrite Hrest; [reflexivity |].
    intros x' Hx'. apply Hall. now right.
Qed.

End LenSet.

Lemma no_single_source_frame_false (frame_item : FrameItem) :
  no_single_source_frame frame_item = false <-> single_source_frame frame_item.
Proof.
  unfold no_single_source_frame, single_source_frame,
    len_set_string, len_set_Z.
  rewrite orb_false_iff, !negb_false_iff, !Nat.eqb_eq.
  rewrite (len_set_one string_dec ""), (len_set_one Z.eq_dec 0). tauto.
Qed.

(** The three ways a turn of the loop of [_build_luts] ends. *)
Lemma _build_luts_frame_cases (cols : LutColumns) (frame_item : FrameItem)
    (self : Segmentation) :
  let uid := hd "" (frame_source_instances_of frame_item) in
  let cols1 :=
    mk_LutColumns
      (segnum_col_data cols ++ [ReferencedSegmentNumber_of frame_item])
      (source_instance_col_data cols) (source_frame_col_data cols)
      (locations_preserved cols ++ frame_locations_preserved_of frame_item) in
  (no_single_source_frame frame_item = true
   /\ _build_luts_frame cols frame_item self
      = (set_single_source_frame_per_seg_frame false self, Ok cols1))
  \/ (no_single_source_frame frame_item = false
      /\ ~ In uid (_source_sop_instance_uids self)
      /\ exists msg,
           _build_luts_frame cols frame_item self
           = (self, Raise (DicomAttributeError msg)))
  \/ (no_single_source_frame frame_item = false
      /\ In uid (_source_sop_instance_uids self)
      /\ _build_luts_frame cols frame_item self
         = (self,
            match _get_src_uid_index self uid with
            | Ok i =>
                Ok (mk_LutColumns (segnum_col_data cols1)
                      (source_instance_col_data cols ++ [Z.of_nat i])
                      (source_frame_col_data cols
                       ++ [hd 0 (frame_source_frames_of frame_item)])
                      (locations_preserved cols1))
            | Raise e => Raise e
            end)).
Proof.
  intros uid cols1. unfold _build_luts_frame. fold uid.
  destruct (no_single_source_frame frame_item).
  - left. split; reflexivity.
  - right. cbv [bind get_self].
    destruct (string_mem uid (_source_sop_instance_uids self)) eqn:Hmem;
      cbn [negb].
    + right. split; [reflexivity |].
      split; [apply string_mem_In; exact Hmem |].
      cbv [lift ret].
      destruct (_get_src_uid_index self uid); reflexivity.
    + left. split; [reflexivity |]. split.
      * intros Hin. apply string_mem_In in Hin. congruence.
      * eexists. reflexivity.
Qed.

Lemma transpose3_snoc (a b c : list Z) (x y z : Z) :
  List.length a = List.length b -> List.length b = List.length c ->
  transpose3 (a ++ [x]) (b ++ [y]) (c ++ [z])
  = transpose3 a b c ++ [[x; y; z]].
Proof.
  revert b c. induction a as [| u a IH]; intros [| v b] [| w c] Hab Hbc;
    try discriminate; [reflexivity |].
  cbn [app transpose3]. rewrite IH; [reflexivity | |];
    simpl in Hab, Hbc; congruence.
Qed.

(** The loop of [_build_luts] returns when every frame with a single source
    frame refers to a known instance, and raises otherwise. *)
Lemma _build_luts_loop_run (frames : list FrameItem) :
  forall cols self,
    NoDup (_source_sop_instance_uids self) ->
    (Forall
       (fun frame_item =>
          no_single_source_frame frame_item = false ->
          In (hd "" (frame_source_instances_of frame_item))
            (_source_sop_instance_uids self)) frames ->
     exists self' cols',
       foldM _build_luts_frame cols frames self = (self', Ok cols'))
    /\ (Exists
          (fun frame_item =>
             no_single_source_frame frame_item = false
             /\ ~ In (hd "" (frame_source_instances_of frame_item))
                  (_source_sop_instance_uids self)) frames ->
        exists self' msg,
          foldM _build_luts_frame cols frames self
          = (self', Raise (DicomAttributeError msg))).
Proof.
  induction frames as [| frame_item frames IH]; intros cols self Hnd.
  - split; [intros _; eexists; eexists; reflexivity |].
    intros H. inversion H.
  - cbn [foldM]. unfold bind.
    destruct (_build_luts_frame_cases cols frame_item self)
      as [(Hamb & Hrun) | [(Hamb & Hnot & msg & Hrun) | (Hamb & Hin & Hrun)]];
      rewrite Hrun.
    + destruct (IH
        (mk_LutColumns
           (segnum_col_data cols ++ [ReferencedSegmentNumber_of frame_item])
           (source_instance_col_data cols) (source_frame_col_data cols)
           (locations_preserved cols
            ++ frame_locations_preserved_of frame_item))
        (set_single_source_frame_per_seg_frame false self) Hnd)
        as [IHa IHb].
      split.
      * intros Hall. inversion Hall; subst. apply IHa. assumption.
      * intros Hex. inversion Hex as [? ? [Hf _] | ? ? Hex']; subst;
          [congruence |]. apply IHb. exact Hex'.
    + split.
      * intros Hall. inversion Hall as [| ? ? Hhd _]; subst.
        exfalso. apply Hnot, Hhd, Hamb.
      * intros _. eexists. eexists. reflexivity.
    + destruct (_get_src_uid_index_found self _ Hnd Hin) as (i & Hi & _).
      rewrite Hi.
      match goal with
      | |- context [foldM _build_luts_frame ?c frames self] =>
          destruct (IH c self Hnd) as [IHa IHb]
      end.
      split.
      * intros Hall. inversion Hall; subst. apply IHa. assumption.
      * intros Hex. inversion Hex as [? ? [_ Hf] | ? ? Hex']; subst;
          [contradiction |]. apply IHb. exact Hex'.
Qed.

(** The columns the loop of [_build_luts] has collected when it returns. *)
Lemma _build_luts_loop_columns (frames : list FrameItem) :
  forall cols self self' cols',
    NoDup (_source_sop_instance_uids self) ->
    foldM _build_luts_frame cols frames self = (self', Ok cols') ->
    _source_sop_instance_uids self' = _source_sop_instance_uids self
    /\ locations_preserved cols'
       = locations_preserved cols
         ++ flat_map frame_locations_preserved_of frames
    /\ (Forall (fun frame_item => no_single_source_frame frame_item = false)
          frames ->
        List.length (segnum_col_data cols)
        = List.length (source_instance_col_data cols) ->
        List.length (source_instance_col_data cols)
        = List.length (source_frame_col_data cols) ->
        self' = self
        /\ exists rows,
             Forall2 (lut_row (_source_sop_instance_uids self)) frames rows
             /\ transpose3 (segnum_col_data cols')
                  (source_instance_col_data cols')
                  (source_frame_col_data cols')
                = transpose3 (segnum_col_data cols)
                    (source_instance_col_data cols)
                    (source_frame_col_data cols) ++ rows).
Proof.
  induction frames as [| frame_item frames IH];
    intros cols self self' cols' Hnd Hloop.
  - cbn [foldM] in Hloop. unfold ret in Hloop. inversion Hloop; subst.
    split; [reflexivity |]. split; [now rewrite app_nil_r |].
    intros _ _ _. split; [reflexivity |].
    exists []. split; [constructor | now rewrite app_nil_r].
  - cbn [foldM] in Hloop. unfold bind at 1 in Hloop.
    destruct (_build_luts_frame_cases cols frame_item self)
      as [(Hamb & Hrun) | [(Hamb & Hnot & msg & Hrun) | (Hamb & Hin & Hrun)]];
      rewrite Hrun in Hloop; [| discriminate |].
    + apply IH in Hloop; [| exact Hnd].
      destruct Hloop as (Huids & Hlp & _).
      split; [exact Huids |]. split.
      * rewrite Hlp. cbn [locations_preserved flat_map].
        now rewrite app_assoc.
      * intros Hall. inversion Hall; subst. congruence.
    + destruct (_get_src_uid_index_found self _ Hnd Hin) as (i & Hi & Hnth).
      rewrite Hi in Hloop. apply IH in Hloop; [| exact Hnd].
      destruct Hloop as (Huids & Hlp & Hrows).
      split; [exact Huids |]. split.
      * rewrite Hlp. cbn [locations_preserved flat_map].
        now rewrite app_assoc.
      * intros Hall Hlen1 Hlen2. inversion Hall as [| ? ? _ Hall']; subst.
        cbn [segnum_col_data source_instance_col_data source_frame_col_data]
          in Hrows.
        destruct (Hrows Hall') as (Hself & rows & Hrel & Ht).
        { rewrite !length_app. simpl. lia. }
        { rewrite !length_app. simpl. lia. }
        split; [exact Hself |].
        exists ([ReferencedSegmentNumber_of frame_item; Z.of_nat i;
                 hd 0 (frame_source_frames_of frame_item)] :: rows).
        split.
        -- constructor; [| exact Hrel]. exists i. split; [exact Hnth | reflexivity].
        -- rewrite Ht, transpose3_snoc by assumption.
           now rewrite <- app_assoc.
Qed.

(** [_build_luts] as the table of the referenced instances, the loop over
    the frame items and the assignments that follow it. *)
Lemma _build_luts_unfold (self : Segmentation) :
  exists lut : list (string * (string * string * string)),
    NoDup (map fst lut)
    /\ (forall uid, In uid (map fst lut)
                    <-> In uid (referenced_instance_uids self))
    /\ _build_luts self
       = match
           foldM _build_luts_frame (mk_LutColumns [] [] [] [])
             (PerFrameFunctionalGroupsSequence self)
             (set_single_source_frame_per_seg_frame true
                (set_source_sop_instance_uids (map fst lut)
                   (set_ref_ins_lut lut self)))
         with
         | (s, Ok cols) =>
             let s' :=
               set_locations_preserved
                 (if existsb (Preserved_eqb Preserved_NO)
                       (locations_preserved cols)
                  then Some Preserved_NO
                  else if forallb (Preserved_eqb Preserved_YES)
                            (locations_preserved cols)
                  then Some Preserved_YES
                  else None) s in
             (if _single_source_frame_per_seg_frame s
              then
                set_lut_src_frame_col (Some 2%nat)
                  (set_lut_src_instance_col (Some 1%nat)
                     (set_lut_seg_col (Some 0%nat)
                        (set_frame_lut
                           (Some (transpose3 (segnum_col_data cols)
                                    (source_instance_col_data cols)
                                    (source_frame_col_data cols))) s')))
              else s',
              Ok tt)
         | (s, Raise e) => (s, Raise e)
         end.
Proof.
  destruct (_build_ref_instance_lut_table self)
    as (lut & Hrun & Hnd & Hin & _).
  exists lut. split; [exact Hnd |]. split; [exact Hin |].
  unfold _build_luts. unfold bind at 1. rewrite Hrun.
  cbv [bind update get_self ret].
  change (PerFrameFunctionalGroupsSequence
            (set_single_source_frame_per_seg_frame true
               (set_source_sop_instance_uids (map fst lut)
                  (set_ref_ins_lut lut self))))
    with (PerFrameFunctionalGroupsSequence self).
  destruct (foldM _build_luts_frame _ _ _) as [s [cols | e]]; [| reflexivity].
  change (_single_source_frame_per_seg_frame (set_locations_preserved _ s))
    with (_single_source_frame_per_seg_frame s).
  destruct (_single_source_frame_per_seg_frame s); reflexivity.
Qed.

(** X9. [_build_luts] returns when every frame item with a single source
    frame refers to a SOP instance that the object references (in its
    Referenced Series Sequence or its Studies Containing Other Referenced
    Instances Sequence); when some such frame item refers to another
    instance it raises [DicomAttributeError]. The lookup of the index of the
    instance never raises inside [_build_luts]. *)
Theorem _build_luts_unreferenced_instance (self : Segmentation) :
  (Forall
     (fun frame_item =>
        single_source_frame frame_item ->
        In (hd "" (frame_source_instances_of frame_item))
          (referenced_instance_uids self))
     (PerFrameFunctionalGroupsSequence self) ->
   exists self', _build_luts self = (self', Ok tt))
  /\ (Exists
        (fun frame_item =>
           single_source_frame frame_item
           /\ ~ In (hd "" (frame_source_instances_of frame_item))
                (referenced_instance_uids self))
        (PerFrameFunctionalGroupsSequence self) ->
      exists self' msg,
        _build_luts self = (self', Raise (DicomAttributeError msg))).
Proof.
  destruct (_build_luts_unfold self) as (lut & Hnd & Hin & Hrun).
  rewrite Hrun. clear Hrun.
  destruct (_build_luts_loop_run (PerFrameFunctionalGroupsSequence self)
              (mk_LutColumns [] [] [] [])
              (set_single_source_frame_per_seg_frame true
                 (set_source_sop_instance_uids (map fst lut)
                    (set_ref_ins_lut lut self))) Hnd) as [Hret Hraise].
  split.
  - intros Hall.
    destruct Hret as (s & cols & Hloop).
    + eapply Forall_impl; [| exact Hall].
      intros frame_item Himp Hamb. apply Hin, Himp.
      apply no_single_source_frame_false. exact Hamb.
    + rewrite Hloop. eexists. reflexivity.
  - intros Hex.
    destruct Hraise as (s & msg & Hloop).
    + eapply Exists_impl; [| exact Hex].
      intros frame_item [Hsingle Hnot]. split.
      * apply no_single_source_frame_false. exact Hsingle.
      * intros H. apply Hnot, Hin, H.
    + rewrite Hloop. exists s, msg. reflexivity.
Qed.

Lemma Forall_or_Exists_true {A : Type} (f : A -> bool) (l : list A) :
  Forall (fun x => f x = false) l \/ Exists (fun x => f x = true) l.
Proof.
  induction l as [| x l [IH | IH]].
  - left. constructor.
  - destruct (f x) eqn:Hx.
    + right. now constructor.
    + left. now constructor.
  - right. now constructor 2.
Qed.

(** What [_build_luts] leaves when it returns. *)
Lemma _build_luts_returns (self self' : Segmentation) :
  _build_luts self = (self', Ok tt) ->
  PerFrameFunctionalGroupsSequence self'
  = PerFrameFunctionalGroupsSequence self
  /\ NoDup (_source_sop_instance_uids self')
  /\ (forall uid, In uid (_source_sop_instance_uids self')
                  <-> In uid (referenced_instance_uids self))
  /\ _locations_preserved self'
     = (let values :=
          flat_map frame_locations_preserved_of
            (PerFrameFunctionalGroupsSequence self) in
        if existsb (Preserved_eqb Preserved_NO) values
        then Some Preserved_NO
        else if forallb (Preserved_eqb Preserved_YES) values
        then Some Preserved_YES
        else None)
  /\ (Forall (fun frame_item => no_single_source_frame frame_item = false)
        (PerFrameFunctionalGroupsSequence self) ->
      _single_source_frame_per_seg_frame self' = true
      /\ _lut_seg_col self' = Some 0%nat
      /\ _lut_src_instance_col self' = Some 1%nat
      /\ _lut_src_frame_col self' = Some 2%nat
      /\ exists rows,
           _frame_lut self' = Some rows
           /\ Forall2 (lut_row (_source_sop_instance_uids self'))
                (PerFrameFunctionalGroupsSequence self) rows)
  /\ (Exists (fun frame_item => no_single_source_frame frame_item = true)
        (PerFrameFunctionalGroupsSequence self) ->
      _single_source_frame_per_seg_frame self' = false
      /\ _frame_lut self' = _frame_lut self
      /\ _lut_seg_col self' = _lut_seg_col self
      /\ _lut_src_instance_col self' = _lut_src_instance_col self
      /\ _lut_src_frame_col self' = _lut_src_frame_col self).
Proof.
  intros Hbuild.
  pose proof (_build_luts_flag self self' Hbuild) as Hflag.
  destruct (_build_luts_unfold self) as (lut & Hnd & Hin & Hrun).
  rewrite Hrun in Hbuild. clear Hrun.
  set (s1 := set_single_source_frame_per_seg_frame true
               (set_source_sop_instance_uids (map fst lut)
                  (set_ref_ins_lut lut self))) in *.
  destruct (foldM _build_luts_frame (mk_LutColumns [] [] [] [])
              (PerFrameFunctionalGroupsSequence self) s1)
    as [s [cols | e]] eqn:Hloop; [| discriminate].
  assert (Hframes : PerFrameFunctionalGroupsSequence s
                    = PerFrameFunctionalGroupsSequence self).
  { assert (Hp : preserves PerFrameFunctionalGroupsSequence
                   (foldM _build_luts_frame (mk_LutColumns [] [] [] [])
                      (PerFrameFunctionalGroupsSequence self))).
    { apply preserves_foldM. intros. unfold _build_luts_frame, _get_src_uid_index.
      preserves_auto. }
    specialize (Hp s1). rewrite Hloop in Hp. exact Hp. }
  destruct (_build_luts_loop_columns (PerFrameFunctionalGroupsSequence self)
              (mk_LutColumns [] [] [] []) s1 s cols Hnd Hloop)
    as (Huids & Hlp & Hrows).
  change (_source_sop_instance_uids s1) with (map fst lut) in Huids, Hrows.
  cbn [locations_preserved app] in Hlp.
  cbv zeta in Hbuild.
  destruct (Forall_or_Exists_true no_single_source_frame
              (PerFrameFunctionalGroupsSequence self)) as [Hall | Hex].
  - destruct (Hrows Hall eq_refl eq_refl) as (Hs & rows & Hrel & Ht).
    subst s.
    change (_single_source_frame_per_seg_frame s1) with true in Hbuild.
    cbv iota in Hbuild. inversion Hbuild as [Hself]. clear Hbuild.
    cbn [app] in Ht. rewrite Ht, Hlp.
    split; [reflexivity |]. split; [exact Hnd |]. split; [exact Hin |].
    split; [reflexivity |]. split.
    + intros _. split; [reflexivity |]. split; [reflexivity |].
      split; [reflexivity |]. split; [reflexivity |].
      exists rows. split; [reflexivity | exact Hrel].
    + intros Hex. exfalso. clear - Hall Hex.
      induction Hall as [| x l Hx Hl IH]; inversion Hex; subst;
        [congruence | auto].
  - specialize (Hflag Hex).
    destruct (_single_source_frame_per_seg_frame s) eqn:Hs.
    + inversion Hbuild as [Hself]. rewrite <- Hself in Hflag.
      cbn in Hflag. congruence.
    + inversion Hbuild as [Hself]. clear Hbuild. rewrite Hlp.
      assert (Hstale : _frame_lut s = _frame_lut self
                       /\ _lut_seg_col s = _lut_seg_col self
                       /\ _lut_src_instance_col s = _lut_src_instance_col self
                       /\ _lut_src_frame_col s = _lut_src_frame_col self).
      { assert (Hp : preserves
                       (fun x => (_frame_lut x, _lut_seg_col x,
                                  _lut_src_instance_col x,
                                  _lut_src_frame_col x))
                       (foldM _build_luts_frame (mk_LutColumns [] [] [] [])
                          (PerFrameFunctionalGroupsSequence self))).
        { apply preserves_foldM. intros.
          unfold _build_luts_frame, _get_src_uid_index. preserves_auto. }
        specialize (Hp s1). rewrite Hloop in Hp.
        change (_frame_lut s1) with (_frame_lut self) in Hp.
        change (_lut_seg_col s1) with (_lut_seg_col self) in Hp.
        change (_lut_src_instance_col s1)
          with (_lut_src_instance_col self) in Hp.
        change (_lut_src_frame_col s1) with (_lut_src_frame_col self) in Hp.
        injection Hp as H1 H2 H3 H4. auto. }
      destruct Hstale as (H1 & H2 & H3 & H4).
      split; [exact Hframes |].
      split; [cbn; rewrite Huids; exact Hnd |].
      split; [cbn; rewrite Huids; exact Hin |].
      split; [reflexivity |]. split.
      * intros Hall. exfalso. clear - Hall Hex.
        induction Hall as [| x l Hx Hl IH]; inversion Hex; subst;
          [congruence | auto].
      * intros _. split; [exact Hs |]. cbn. auto.
Qed.

(** X10. When [_build_luts] returns, [_single_source_frame_per_seg_frame] is
    true exactly when all source images of every frame item name one SOP
    instance and one frame number (and there is at least one). In that case
    [_frame_lut] has one row per frame item, in the order of the frame
    items: the segment number of the frame, the position of its source
    instance in [_source_sop_instance_uids] and its source frame number (-1
    when there is none), in the columns 0, 1 and 2. Otherwise [_frame_lut]
    and the three column attributes are not assigned: they keep what they
    held before the call. *)
Theorem _build_luts_frame_lut (self self' : Segmentation) :
  _build_luts self = (self', Ok tt) ->
  (_single_source_frame_per_seg_frame self' = true
   <-> Forall single_source_frame (PerFrameFunctionalGroupsSequence self))
  /\ (_single_source_frame_per_seg_frame self' = true ->
      _lut_seg_col self' = Some 0%nat
      /\ _lut_src_instance_col self' = Some 1%nat
      /\ _lut_src_frame_col self' = Some 2%nat
      /\ exists rows,
           _frame_lut self' = Some rows
           /\ Forall2 (lut_row (_source_sop_instance_uids self'))
                (PerFrameFunctionalGroupsSequence self') rows)
  /\ (_single_source_frame_per_seg_frame self' = false ->
      _frame_lut self' = _frame_lut self
      /\ _lut_seg_col self' = _lut_seg_col self
      /\ _lut_src_instance_col self' = _lut_src_instance_col self
      /\ _lut_src_frame_col self' = _lut_src_frame_col self).
Proof.
  intros Hbuild.
  destruct (_build_luts_returns self self' Hbuild)
    as (Hframes & _ & _ & _ & Hsingle & Hstale).
  rewrite Hframes.
  destruct (Forall_or_Exists_true no_single_source_frame
              (PerFrameFunctionalGroupsSequence self)) as [Hall | Hex].
  - destruct (Hsingle Hall) as (Hflag & Hrest).
    split; [| split].
    + split; [| intros _; exact Hflag]. intros _.
      eapply Forall_impl; [| exact Hall].
      intros frame_item. apply no_single_source_frame_false.
    + intros _. exact Hrest.
    + intros H. congruence.
  - destruct (Hstale Hex) as (Hflag & Hrest).
    split; [| split].
    + split; [intros H; congruence |]. intros Hall. exfalso.
      clear - Hall Hex.
      induction Hall as [| x l Hx Hl IH]; inversion Hex as [? ? H | ? ? H];
        subst; [| auto].
      apply no_single_source_frame_false in Hx. congruence.
    + intros H. congruence.
    + intros _. exact Hrest.
Qed.

Lemma _build_luts_frame_lut_witness :
  exists self self',
    binary_example = Ok self
    /\ _build_luts self = (self', Ok tt)
    /\ _frame_lut self' = Some [[1; 0; -1]; [2; 0; -1]; [3; 0; -1]; [4; 0; -1]]
    /\ (_single_source_frame_per_seg_frame self' = true ->
        _lut_seg_col self' = Some 0%nat
        /\ _lut_src_instance_col self' = Some 1%nat
        /\ _lut_src_frame_col self' = Some 2%nat
        /\ exists rows,
             _frame_lut self' = Some rows
             /\ Forall2 (lut_row (_source_sop_instance_uids self'))
                  (PerFrameFunctionalGroupsSequence self') rows).
Proof.
  eexists. eexists.
  split; [vm_compute; reflexivity |].
  match goal with
  | |- _build_luts ?s = _ /\ _ => pose (self := s)
  end.
  split; [vm_compute; reflexivity |].
  match goal with
  | |- _frame_lut ?s = _ /\ _ => pose (self' := s)
  end.
  split; [reflexivity |].
  apply (proj1 (proj2 (_build_luts_frame_lut self self' ltac:(vm_compute; reflexivity)))).
Defined.

(** ** The source frames of the objects the code builds *)

Lemma frame_added_derived_from (self self' : Segmentation)
    (source_images : list SourceImage)
    (plane_positions : list PlanePositionSequence)
    (plane_position_values : list (list (list Z)))
    (plane_sort_index : list nat)
    (dimension_position_values : list (list (list Z)))
    (are_spatial_locations_preserved : bool)
    (segment_descriptions : list SegmentDescription)
    (frame_item : FrameItem) :
  SourceImageSequence self' = SourceImageSequence self ->
  frame_added self source_images plane_positions plane_position_values
    plane_sort_index dimension_position_values
    are_spatial_locations_preserved segment_descriptions frame_item ->
  derived_from self' frame_item.
Proof.
  intros Hseq (description & j & index_values & derivation & _ & _ & _
               & Hder & ->).
  unfold derived_from. cbn [DerivationImageSequence]. rewrite Hseq.
  destruct are_spatial_locations_preserved; [| now left].
  destruct Hder as (d & Hd & ->). right.
  unfold derivation_of in Hd.
  destruct (nth_error (SourceImageSequence self) _) as [src_img_item |] eqn:Hnth;
    [| discriminate].
  injection Hd as <-.
  exists src_img_item. eexists.
  split; [eapply nth_error_In; exact Hnth |].
  split; [| reflexivity].
  destruct (_ <? _)%nat; [right; exists j; reflexivity | now left].
Qed.

Lemma derived_from_static (s s' : Segmentation) (frame_item : FrameItem) :
  SourceImageSequence s' = SourceImageSequence s ->
  derived_from s frame_item -> derived_from s' frame_item.
Proof.
  intros Hseq. unfold derived_from. now rewrite Hseq.
Qed.

Lemma static_SourceImageSequence (s s' : Segmentation) :
  static s' = static s -> SourceImageSequence s' = SourceImageSequence s.
Proof.
  intros Hst. unfold static in Hst. injection Hst. intros. assumption.
Qed.

Lemma static_referenced_instance_uids (s s' : Segmentation) :
  static s' = static s ->
  referenced_instance_uids s' = referenced_instance_uids s.
Proof.
  intros Hst.
  assert (Hseries : ReferencedSeriesSequence s' = ReferencedSeriesSequence s)
    by (unfold static in Hst; injection Hst; intros; assumption).
  assert (Hstudies : StudiesContainingOtherReferencedInstancesSequence s'
                     = StudiesContainingOtherReferencedInstancesSequence s)
    by (unfold static in Hst; injection Hst; intros; assumption).
  unfold referenced_instance_uids. now rewrite Hseries, Hstudies.
Qed.

(** Every object the code builds is left by a call of [_build_luts] that
    returned, and its frame items are those [add_segments] makes. *)
Lemma constructed_frames (ext : External) (self : Segmentation) :
  constructed ext self ->
  Forall (derived_from self) (PerFrameFunctionalGroupsSequence self)
  /\ exists s,
       _build_luts s = (self, Ok tt)
       /\ PerFrameFunctionalGroupsSequence s
          = PerFrameFunctionalGroupsSequence self
       /\ referenced_instance_uids s = referenced_instance_uids self.
Proof.
  assert (Hstep :
    forall pixel_array segment_descriptions plane_positions self0 self1,
      Forall (derived_from self0) (PerFrameFunctionalGroupsSequence self0) ->
      add_segments ext pixel_array segment_descriptions plane_positions self0
      = (self1, Ok tt) ->
      Forall (derived_from self1) (PerFrameFunctionalGroupsSequence self1)
      /\ exists s,
           _build_luts s = (self1, Ok tt)
           /\ PerFrameFunctionalGroupsSequence s
              = PerFrameFunctionalGroupsSequence self1
           /\ referenced_instance_uids s = referenced_instance_uids self1).
  { intros pixel_array segment_descriptions plane_positions self0 self1
      Hold Hrun.
    destruct (add_segments_effect _ _ _ _ _ _ _ Hrun)
      as (source_images & pixel_array2 & source_plane_positions & positions
          & values & plane_sort_index & positions_equal
          & dimension_position_values & items & s3 & _ & _ & _ & _ & _ & _
          & Hst & Hitems & _ & Hadded & _ & _ & Hluts & Hkept).
    pose proof (static_SourceImageSequence _ _ Hst) as Hseq.
    split.
    - rewrite Hitems. apply Forall_app. split.
      + eapply Forall_impl; [| exact Hold].
        intros frame_item. apply derived_from_static. exact Hseq.
      + eapply Forall_impl; [| exact Hadded].
        intros frame_item. apply frame_added_derived_from. exact Hseq.
    - exists s3. split; [exact Hluts |].
      destruct (kept_by_encoding_eq _ _ Hkept) as (Hst3 & Hfr3 & _).
      split; [now rewrite Hfr3 |].
      apply static_referenced_instance_uids. exact Hst3. }
  induction 1 as [source_images pixel_array segmentation_type
                    segment_descriptions fractional_type max_fractional_value
                    transfer_syntax_uid plane_orientation plane_positions
                    self Hinit
                 | self self' pixel_array segment_descriptions
                     plane_positions Hc IH Hrun].
  - destruct (Segmentation_init_inv _ _ _ _ _ _ _ _ _ _ _ Hinit)
      as (self0 & pixel_array1 & Hnew & Hrun).
    destruct (Segmentation_new_spec _ _ _ _ _ _ _ _ _ Hnew)
      as ((_ & Hframes & _) & _).
    eapply Hstep; [| exact Hrun]. rewrite Hframes. constructor.
  - eapply Hstep; [| exact Hrun]. apply IH.
Qed.

Lemma derived_from_single (self : Segmentation) (frame_item : FrameItem) :
  derived_from self frame_item ->
  Forall (fun v => v = Preserved_YES)
    (frame_locations_preserved_of frame_item)
  /\ (no_single_source_frame frame_item = true
      <-> DerivationImageSequence frame_item = []).
Proof.
  unfold frame_locations_preserved_of, no_single_source_frame,
    len_set_string, len_set_Z, frame_source_instances_of,
    frame_source_frames_of, frame_source_images.
  intros [Hnone | (src_img_item & frame_number & _ & Hnum & Hone)].
  - rewrite Hnone. split; [constructor |]. split; reflexivity.
  - rewrite Hone. cbn. split; [repeat constructor |].
    destruct Hnum as [-> | (j & ->)]; cbn; split; discriminate.
Qed.

Lemma all_locations_preserved (values : list SpatialLocationsPreservedValues) :
  Forall (fun v => v = Preserved_YES) values ->
  (if existsb (Preserved_eqb Preserved_NO) values
   then Some Preserved_NO
   else if forallb (Preserved_eqb Preserved_YES) values
   then Some Preserved_YES
   else None) = Some Preserved_YES.
Proof.
  induction 1 as [| v values Hv Hall IH]; [reflexivity |].
  subst v. cbn [existsb forallb Preserved_eqb orb andb]. exact IH.
Qed.

(** X11. On every object built by the constructor, also after later
    [add_segments] calls that return: every frame item has no derivation
    image or one derivation image with one source image, which repeats an
    item of the Source Image Sequence and states that the spatial locations
    are preserved; [_locations_preserved] is YES, also when no frame has a
    source image; [_single_source_frame_per_seg_frame] is true exactly when
    every frame item has a derivation image, and then [_frame_lut] has one
    row per frame item: its segment number, the position of its source
    instance among the referenced instances and its source frame number. *)
Theorem constructed_source_frames (ext : External) (self : Segmentation) :
  constructed ext self ->
  Forall (derived_from self) (PerFrameFunctionalGroupsSequence self)
  /\ _locations_preserved self = Some Preserved_YES
  /\ (_single_source_frame_per_seg_frame self = true
      <-> Forall (fun frame_item => DerivationImageSequence frame_item <> [])
            (PerFrameFunctionalGroupsSequence self))
  /\ (_single_source_frame_per_seg_frame self = true ->
      exists rows,
        _frame_lut self = Some rows
        /\ Forall2 (lut_row (_source_sop_instance_uids self))
             (PerFrameFunctionalGroupsSequence self) rows)
  /\ (forall uid, In uid (_source_sop_instance_uids self)
                  <-> In uid (referenced_instance_uids self)).
Proof.
  intros Hc.
  destruct (constructed_frames ext self Hc)
    as (Hder & s & Hluts & Hframes & Hrefs).
  destruct (_build_luts_returns s self Hluts)
    as (_ & _ & Huids & Hlp & Hsingle & Hstale).
  rewrite Hframes in Hlp, Hsingle, Hstale.
  split; [exact Hder |]. split.
  { rewrite Hlp. cbv zeta. apply all_locations_preserved.
    clear - Hder.
    induction Hder as [| frame_item frames Hitem Hder IH];
      [constructor |].
    cbn [flat_map]. apply Forall_app. split; [| exact IH].
    apply (derived_from_single self frame_item Hitem). }
  assert (Hcases :
    Forall (fun frame_item => no_single_source_frame frame_item = false)
      (PerFrameFunctionalGroupsSequence self)
    <-> Forall (fun frame_item => DerivationImageSequence frame_item <> [])
          (PerFrameFunctionalGroupsSequence self)).
  { clear - Hder.
    induction Hder as [| frame_item frames Hitem Hder IH];
      [split; constructor |].
    destruct (derived_from_single self frame_item Hitem) as [_ Hiff].
    split; intros Hall; inversion Hall as [| ? ? Hhd Htl]; subst;
      (constructor; [| now apply IH]).
    - intros Hnone. apply Hiff in Hnone. congruence.
    - destruct (no_single_source_frame frame_item); [| reflexivity].
      exfalso. apply Hhd, Hiff. reflexivity. }
  destruct (Forall_or_Exists_true no_single_source_frame
              (PerFrameFunctionalGroupsSequence self)) as [Hall | Hex].
  - destruct (Hsingle Hall) as (Hflag & _ & _ & _ & Hrows).
    split; [split; [intros _; apply Hcases; exact Hall
                   | intros _; exact Hflag] |].
    split; [intros _; exact Hrows |].
    intros uid. rewrite <- Hrefs. apply Huids.
  - destruct (Hstale Hex) as (Hflag & _).
    split.
    { split; [intros H; congruence |].
      intros Hall. apply Hcases in Hall. exfalso. clear - Hall Hex.
      induction Hall as [| x l Hx Hl IH]; inversion Hex; subst;
        [congruence | auto]. }
    split; [intros H; congruence |].
    intros uid. rewrite <- Hrefs. apply Huids.
Qed.

Lemma constructed_source_frames_witness :
  exists self,
    displaced_example = Ok self
    /\ PerFrameFunctionalGroupsSequence self <> []
    /\ all_source_images self = []
    /\ _single_source_frame_per_seg_frame self = false
    /\ _locations_preserved self = Some Preserved_YES.
Proof.
  eexists. split; [vm_compute; reflexivity |].
  split; [discriminate |]. split; [reflexivity |]. split; [reflexivity |].
  apply (constructed_source_frames plain_codecs).
  apply (constructed_init plain_codecs [ct_image "1.2.3.1.1" 2 4 0]
           (IntPixels (mk_ndarray np_bool [1; 2; 4]%nat
                         [1; 1; 0; 0; 0; 0; 0; 0]))
           "BINARY" [description 1] "PROBABILITY" 255 ExplicitVRLittleEndian
           None (Some [[(ImagePositionPatient, [0; 0; 9])]])).
  vm_compute. reflexivity.
Defined.

(** ** The queries on the objects the code builds *)

(** X12. On every object built by the constructor, also after later
    [add_segments] calls that return, the queries
    [list_seg_frames_for_source_frame], [list_segments_in_source_frame] and
    [list_seg_frames_for_segment_number] never return: for a source instance
    that the object does not reference, or a number that is not a segment
    number of the object, they raise [KeyError]; for every other argument
    they raise [AttributeError], since no method assigns the attribute
    [frame_lut] they read. *)
Theorem list_queries_raise (ext : External) (self : Segmentation) :
  constructed ext self ->
  (forall uid,
     list_seg_frames_for_source_frame self uid
     = Raise (if string_mem uid (_source_sop_instance_uids self)
              then AttributeError "frame_lut"
              else KeyError "No such source frame"))
  /\ (forall uid,
        list_segments_in_source_frame self uid
        = Raise (if string_mem uid (_source_sop_instance_uids self)
                 then AttributeError "frame_lut"
                 else KeyError "No such source frame"))
  /\ (forall segment_number,
        list_seg_frames_for_segment_number self segment_number
        = Raise (if in_segment_numbers self segment_number
                 then AttributeError "frame_lut"
                 else KeyError
                        "No segment found with specified segment number"))
  /\ (forall uid, string_mem uid (_source_sop_instance_uids self) = true
                  <-> In uid (referenced_instance_uids self)).
Proof.
  intros Hc.
  destruct (constructed_invariant ext self Hc)
    as (_ & _ & _ & _ & _ & Hlut & _).
  destruct (constructed_frames ext self Hc) as (_ & s & Hluts & _ & Hrefs).
  destruct (_build_luts_returns s self Hluts) as (_ & Hnd & Huids & _).
  assert (Hindex : forall uid,
    _get_src_uid_index self uid
    = if string_mem uid (_source_sop_instance_uids self)
      then _get_src_uid_index self uid
      else Raise (KeyError "No such source frame")).
  { intros uid.
    destruct (string_mem uid (_source_sop_instance_uids self)) eqn:Hmem;
      [reflexivity |].
    unfold _get_src_uid_index. rewrite argwhere_eq_absent; [reflexivity |].
    intros Hin. apply string_mem_In in Hin. congruence. }
  assert (Hfound : forall uid,
    string_mem uid (_source_sop_instance_uids self) = true ->
    exists i, _get_src_uid_index self uid = Ok i).
  { intros uid Hmem. apply string_mem_In in Hmem.
    destruct (_get_src_uid_index_found self uid Hnd Hmem) as (i & Hi & _).
    now exists i. }
  split; [| split; [| split]].
  - intros uid. unfold list_seg_frames_for_source_frame.
    rewrite Hindex.
    destruct (string_mem uid (_source_sop_instance_uids self)) eqn:Hmem;
      [| reflexivity].
    destruct (Hfound uid Hmem) as (i & ->). cbn [rbind].
    rewrite Hlut. reflexivity.
  - intros uid. unfold list_segments_in_source_frame.
    rewrite Hindex.
    destruct (string_mem uid (_source_sop_instance_uids self)) eqn:Hmem;
      [| reflexivity].
    destruct (Hfound uid Hmem) as (i & ->). cbn [rbind].
    rewrite Hlut. reflexivity.
  - intros segment_number. unfold list_seg_frames_for_segment_number.
    destruct (in_segment_numbers self segment_number); [| reflexivity].
    rewrite Hlut. reflexivity.
  - intros uid. rewrite string_mem_In, <- Hrefs. apply Huids.
Qed.

Lemma list_queries_raise_witness :
  exists self,
    binary_example = Ok self
    /\ list_seg_frames_for_source_frame self "1.2.3.1.1"
       = Raise (AttributeError "frame_lut")
    /\ list_seg_frames_for_source_frame self "1.2.3.1.2"
       = Raise (KeyError "No such source frame")
    /\ forall uid,
         list_segments_in_source_frame self uid
         = Raise (if string_mem uid (_source_sop_instance_uids self)
                  then AttributeError "frame_lut"
                  else KeyError "No such source frame").
Proof.
  eexists. split; [vm_compute; reflexivity |].
  split; [reflexivity |]. split; [reflexivity |].
  apply (list_queries_raise plain_codecs).
  apply (constructed_init plain_codecs [ct_image "1.2.3.1.1" 2 4 0]
           (IntPixels (mk_ndarray np_uint8 [1; 2; 4]%nat
                         [1; 2; 3; 4; 0; 0; 0; 0]))
           "BINARY"
           [description 1; description 2; description 3; description 4]
           "PROBABILITY" 255 ExplicitVRLittleEndian None None).
  vm_compute. reflexivity.
Defined.

(** ** Stored samples: bits and bytes of several frames *)

Lemma list_by_eight_rest (P : list Z -> Prop) :
  (forall l, (List.length l < 8)%nat -> P l) ->
  (forall b0 b1 b2 b3 b4 b5 b6 b7 rest,
      P rest -> P (b0 :: b1 :: b2 :: b3 :: b4 :: b5 :: b6 :: b7 :: rest)) ->
  forall l, P l.
Proof.
  intros Hshort Hcons l.
  remember (List.length l / 8)%nat as n eqn:Hn.
  revert l Hn. induction n as [| n IH]; intros l Hn.
  - apply Hshort.
    pose proof (Nat.div_mod_eq (List.length l) 8) as Hd.
    pose proof (Nat.mod_upper_bound (List.length l) 8 ltac:(lia)). lia.
  - assert (Hlen : (8 <= List.length l)%nat).
    { pose proof (Nat.div_mod_eq (List.length l) 8) as Hd. lia. }
    do 8 (destruct l as [| ? l]; [simpl in Hlen; lia |]).
    apply Hcons, IH.
    cbn [List.length] in Hn.
    replace (S (S (S (S (S (S (S (S (List.length l)))))))))
      with (List.length l + 1 * 8)%nat in Hn by lia.
    rewrite Nat.div_add in Hn by lia. lia.
Qed.

Lemma packbits_little_cons8 (b0 b1 b2 b3 b4 b5 b6 b7 : Z) (rest : list Z) :
  packbits_little (b0 :: b1 :: b2 :: b3 :: b4 :: b5 :: b6 :: b7 :: rest)
  = bits_to_byte b0 b1 b2 b3 b4 b5 b6 b7 :: packbits_little rest.
Proof. reflexivity. Qed.

Lemma packbits_little_app (a b : list Z) :
  (List.length a mod 8 = 0)%nat ->
  packbits_little (a ++ b) = packbits_little a ++ packbits_little b.
Proof.
  intros Hlen. pattern a. apply list_by_eight; [reflexivity | | exact Hlen].
  intros b0 b1 b2 b3 b4 b5 b6 b7 rest IH.
  cbn [app]. rewrite !packbits_little_cons8, IH. reflexivity.
Qed.

Lemma length_packbits_little_any (l : list Z) :
  List.length (packbits_little l)
  = (List.length l / 8
     + if (List.length l mod 8 =? 0)%nat then 0 else 1)%nat.
Proof.
  pattern l. apply list_by_eight_rest; clear l.
  - intros l Hlen.
    do 8 (destruct l as [| ? l]; [reflexivity |]).
    simpl in Hlen. lia.
  - intros b0 b1 b2 b3 b4 b5 b6 b7 rest IH.
    rewrite packbits_little_cons8. cbn [List.length]. rewrite IH.
    replace (S (S (S (S (S (S (S (S (List.length rest)))))))))
      with (List.length rest + 1 * 8)%nat by lia.
    rewrite Nat.div_add, Nat.Div0.mod_add by lia. lia.
Qed.

Lemma forallb_is_bit_cons (b : Z) (l : list Z) :
  forallb is_bit (b :: l) = true ->
  is_bit b = true /\ forallb is_bit l = true.
Proof. cbn [forallb]. apply andb_true_iff. Qed.

(** The samples come back from the packed bytes, whatever follows them. *)
Lemma firstn_unpack_bits_packbits_little (l : list Z) (rest : bytes) :
  forallb is_bit l = true ->
  firstn (List.length l) (unpack_bits (packbits_little l ++ rest)) = l.
Proof.
  pattern l. apply list_by_eight_rest; clear l.
  - intros l Hlen Hbits.
    assert (Hzero : is_bit 0 = true) by reflexivity.
    do 8 (destruct l as [| ? l];
          [ repeat match goal with
                   | H : forallb is_bit (_ :: _) = true |- _ =>
                       apply forallb_is_bit_cons in H; destruct H as [? H]
                   end;
            try reflexivity;
            unfold unpack_bits; cbn [packbits_little app flat_map];
            rewrite byte_of_bits by assumption; reflexivity
          | ]).
    simpl in Hlen. lia.
  - intros b0 b1 b2 b3 b4 b5 b6 b7 l IH Hbits.
    repeat match goal with
           | H : forallb is_bit (_ :: _) = true |- _ =>
               apply forallb_is_bit_cons in H; destruct H as [? H]
           end.
    rewrite packbits_little_cons8. unfold unpack_bits in *.
    cbn [app flat_map]. rewrite byte_of_bits by assumption.
    cbn [List.length app firstn]. rewrite IH by assumption. reflexivity.
Qed.

Lemma in_range_bits (l : list Z) :
  Forall (in_dtype_range np_bool) l <-> forallb is_bit l = true.
Proof.
  rewrite forallb_forall, Forall_forall.
  split; intros H v Hv; specialize (H v Hv); unfold is_bit in *; simpl in *.
  - apply orb_true_iff. destruct (Z.eqb_spec v 0); [now left |].
    right. apply Z.eqb_eq. lia.
  - apply orb_true_iff in H. destruct H as [H | H]; apply Z.eqb_eq in H; lia.
Qed.

Lemma tobytes_app (d : dtype) (a b : list Z) :
  tobytes d (a ++ b) = tobytes d a ++ tobytes d b.
Proof. unfold tobytes. apply flat_map_app. Qed.

Lemma tobytes_itemsize (d d' : dtype) (l : list Z) :
  itemsize d = itemsize d' -> tobytes d l = tobytes d' l.
Proof. unfold tobytes. now intros ->. Qed.

Lemma firstn_app_exact {A : Type} (l rest : list A) :
  firstn (List.length l) (l ++ rest) = l.
Proof.
  rewrite firstn_app, Nat.sub_diag, firstn_all. cbn [firstn].
  apply app_nil_r.
Qed.

Lemma length_pad_of (data : bytes) :
  List.length (pad_of data) = (List.length data mod 2)%nat.
Proof.
  unfold pad_of.
  pose proof (Nat.mod_upper_bound (List.length data) 2 ltac:(lia)).
  destruct (Nat.eqb_spec (List.length data mod 2) 1) as [-> | Hne];
    [reflexivity |]. cbn [List.length]. lia.
Qed.

Lemma native_transfer_syntax (ts : TransferSyntax) :
  supported_by_segmentation ts = true -> is_encapsulated ts = false ->
  ts = ImplicitVRLittleEndian \/ ts = ExplicitVRLittleEndian.
Proof. destruct ts; try discriminate; auto. Qed.

(** The samples an object holds come back from its pixel data. *)
Lemma pixel_array_holds_samples (ext : External) (self : Segmentation)
    (samples : list Z) :
  is_encapsulated (TransferSyntaxUID self) = false ->
  segmentation_format self ->
  holds_samples self samples ->
  NumberOfFrames self <> 0%nat ->
  pixel_array ext self
  = Ok (mk_ndarray np_uint8 (frames_shape self) samples).
Proof.
  intros Hnative (Hspp & Hpi & Hpr & _ & Hts & Htype) (Hlen & Hrange & Hdata)
    Hframes.
  unfold pixel_array, pixel_array_of.
  assert (Hpix : get_expected_length_pixels (pixel_format_of self)
                 = List.length samples).
  { unfold get_expected_length_pixels, pixel_format_of.
    cbn [pf_rows pf_columns pf_samples_per_pixel pf_number_of_frames].
    rewrite Hspp, Hlen. unfold get_nr_frames.
    destruct (NumberOfFrames self); [congruence | lia]. }
  assert (Hnr : get_nr_frames (NumberOfFrames self) = NumberOfFrames self).
  { unfold get_nr_frames. destruct (NumberOfFrames self); congruence. }
  assert (Hnum :
    numpy_pixel_array (pixel_format_of self) (PixelData self)
    = Ok (mk_ndarray np_uint8 (frames_shape self) samples)).
  { unfold numpy_pixel_array, get_expected_length. rewrite Hpix.
    change (pf_photometric_interpretation (pixel_format_of self))
      with (PhotometricInterpretation self).
    change (pf_bits_allocated (pixel_format_of self))
      with (BitsAllocated self).
    rewrite Hpi. cbn [is_ybr_full_422].
    assert (Hreshape :
      reshape_pixel_array (pixel_format_of self) np_uint8 samples
      = Ok (mk_ndarray np_uint8 (frames_shape self) samples)).
    { unfold reshape_pixel_array, frames_shape, pixel_format_of.
      cbn [pf_rows pf_columns pf_samples_per_pixel pf_number_of_frames
           pf_planar_configuration].
      rewrite Hspp, Hnr. change (1 <=? 1)%nat with true. cbv iota.
      replace (List.length samples
               =? NumberOfFrames self * Rows self * Columns self * 1)%nat
        with true by (symmetry; apply Nat.eqb_eq; lia).
      reflexivity. }
    unfold encode_samples in Hdata.
    destruct (SegmentationType self).
    - destruct Htype as (Hbits & _). rewrite Hbits.
      change (1 =? 1) with true. cbv iota.
      rewrite <- length_packbits_little_any.
      rewrite Hdata, length_app, length_pad_of.
      set (n := List.length (packbits_little samples)).
      replace ((n + n mod 2 <? n + n mod 2)%nat) with false
        by (symmetry; apply Nat.ltb_irrefl).
      cbn [andb negb]. unfold pixel_dtype.
      change (pf_bits_allocated (pixel_format_of self))
        with (BitsAllocated self).
      rewrite Hbits. change (1 =? 1) with true. cbv iota. cbn [rbind].
      rewrite firstn_unpack_bits_packbits_little
        by (apply in_range_bits; exact Hrange).
      exact Hreshape.
    - destruct Htype as (Hbits & _). rewrite Hbits.
      change (8 =? 1) with false. cbv iota.
      change (Z.to_nat (8 / 8)) with 1%nat. rewrite Nat.mul_1_r.
      assert (Hn : List.length (tobytes np_uint8 samples)
                   = List.length samples)
        by (rewrite length_tobytes; simpl; lia).
      rewrite Hdata, length_app, length_pad_of, Hn.
      set (n := List.length samples) in *.
      replace ((n + n mod 2 <? n + n mod 2)%nat) with false
        by (symmetry; apply Nat.ltb_irrefl).
      cbn [andb negb]. unfold pixel_dtype.
      change (pf_bits_allocated (pixel_format_of self))
        with (BitsAllocated self).
      change (pf_pixel_representation (pixel_format_of self))
        with (PixelRepresentation self).
      rewrite Hbits, Hpr. cbv zeta. change (8 =? 1) with false.
      change ((0 <? 8) && (8 mod 8 =? 0)) with true.
      change (8 =? 8) with true. cbv iota. cbn [pr_signed rbind].
      change (itemsize np_uint8) with 1%nat. rewrite Nat.div_1_r.
      change (is_signed np_uint8) with false.
      subst n. rewrite <- Hn at 2. rewrite firstn_app_exact.
      pose proof (frombuffer_tobytes np_uint8 samples Hrange) as Hfb.
      change (itemsize np_uint8) with 1%nat in Hfb.
      change (is_signed np_uint8) with false in Hfb.
      rewrite Hfb. exact Hreshape. }
  destruct (native_transfer_syntax _ Hts Hnative) as [Hts' | Hts'];
    rewrite Hts'; cbv iota;
    change (pf_photometric_interpretation (pixel_format_of self))
      with (PhotometricInterpretation self);
    rewrite Hpi; cbn [is_ybr_full_422]; exact Hnum.
Qed.

(** ** Stored samples: the planes of a call *)

Lemma uint8_range_mod (v : Z) : in_dtype_range np_uint8 (v mod 256).
Proof.
  unfold in_dtype_range. cbn [is_signed itemsize].
  change (2 ^ (8 * Z.of_nat 1)) with 256.
  apply Z.mod_pos_bound. lia.
Qed.

Lemma astype_uint8_range (x : option Z) :
  in_dtype_range np_uint8 (astype_uint8 x).
Proof.
  destruct x as [n |]; cbn [astype_uint8]; [apply uint8_range_mod |].
  unfold in_dtype_range. cbn [is_signed itemsize].
  change (2 ^ (8 * Z.of_nat 1)) with 256. lia.
Qed.

Lemma check_pixel_array_shape_well_formed (self : Segmentation)
    (pixel_array pixel_array1 : PixelArray) :
  check_pixel_array_shape self pixel_array = Ok pixel_array1 ->
  pa_well_formed pixel_array ->
  pa_well_formed pixel_array1
  /\ exists n, pa_shape pixel_array1 = [n; Rows self; Columns self].
Proof.
  unfold check_pixel_array_shape. intros H Hwf.
  set (p := if (List.length (pa_shape pixel_array) =? 2)%nat
            then pa_reshape (1%nat :: pa_shape pixel_array) pixel_array
            else pixel_array) in *.
  assert (Hp : pa_well_formed p).
  { subst p. destruct (List.length (pa_shape pixel_array) =? 2)%nat;
      [| exact Hwf].
    destruct pixel_array as [a | sh data];
      unfold pa_well_formed, pa_reshape, prod_shape in *;
      cbn [arr_data arr_shape arr_dtype pa_shape fold_right] in *.
    - destruct Hwf as [Hlen Hrange]. split; [lia | exact Hrange].
    - lia. }
  destruct (pa_shape p) as [| n [| rows [| cols [| ? ?]]]] eqn:Hshape;
    try discriminate.
  destruct ((rows =? Rows self)%nat && (cols =? Columns self)%nat) eqn:Heq;
    [| discriminate].
  apply andb_true_iff in Heq. destruct Heq as [Hr Hc].
  apply Nat.eqb_eq in Hr, Hc. subst rows cols.
  inversion H; subst pixel_array1.
  split; [exact Hp |]. exists n. exact Hshape.
Qed.

Lemma classify_pixels_well_formed (self : Segmentation)
    (pixel_array pixel_array2 : PixelArray)
    (segment_descriptions : list SegmentDescription)
    (described_segment_numbers : list Z) :
  classify_pixels self pixel_array segment_descriptions
    described_segment_numbers = Ok pixel_array2 ->
  pa_well_formed pixel_array ->
  pa_well_formed pixel_array2 /\ pa_shape pixel_array2 = pa_shape pixel_array.
Proof.
  unfold classify_pixels. intros H Hwf.
  destruct pixel_array as [a | d sh data].
  - assert (Hcase :
      (let segments_present :=
         np_unique (filter (fun v => 0 <? v) (arr_data a)) in
       if list_Z_eqb segments_present [1]
          && (List.length segment_descriptions =? 1)%nat
       then
         Ok (IntPixels
               (mk_ndarray np_uint8 (arr_shape a)
                  (map (fun v => (v mod 256
                                  * hd 0 described_segment_numbers) mod 256)
                     (arr_data a))))
       else
         check forallb (fun v => Z_mem v described_segment_numbers)
                 segments_present
         else ValueError "Pixel array contains segments that lack descriptions."
         in Ok (IntPixels a)) = Ok pixel_array2 ->
      pa_well_formed pixel_array2
      /\ pa_shape pixel_array2 = pa_shape (IntPixels a)).
    { cbv zeta. intros Hc.
      destruct (list_Z_eqb _ _ && _).
      - inversion Hc; subst pixel_array2. cbn. destruct Hwf as [Hlen _].
        split; [| reflexivity]. split; [now rewrite length_map |].
        apply Forall_map, Forall_forall. intros v _. apply uint8_range_mod.
      - destruct (forallb _ _); [| discriminate].
        inversion Hc; subst pixel_array2. split; [exact Hwf | reflexivity]. }
    destruct (arr_dtype a); try discriminate; apply Hcase; exact H.
  - assert (Hcase :
      (let zero := float_value d 0 0 in
       let one := float_value d 1 0 in
       let? lowest := np_min data in
       let? highest := np_max data in
       check negb (SFltb lowest zero || SFltb one highest)
       else ValueError
         "Floating point pixel array values must be in the range [0, 1]."
       in
       check (List.length segment_descriptions =? 1)%nat
       else ValueError
         "When providing a float-valued pixel array, provide only a single segment description"
       in
       match SegmentationType self with
       | BINARY =>
           check negb (existsb (fun v => SFltb zero v && SFltb v one) data)
           else ValueError
             "Floating point pixel array values must be either 0.0 or 1.0 in case of BINARY segmentation type."
           in
           Ok (IntPixels
                 (mk_ndarray np_bool sh
                    (map (fun v => if SFeqb v zero then 0 else 1) data)))
       | FRACTIONAL => Ok (FloatPixels d sh data)
       end) = Ok pixel_array2 ->
      pa_well_formed pixel_array2
      /\ pa_shape pixel_array2 = pa_shape (FloatPixels d sh data)).
    { cbv zeta. intros Hc.
      destruct (np_min data); [| discriminate]. cbn [rbind] in Hc.
      destruct (np_max data); [| discriminate]. cbn [rbind] in Hc.
      destruct (negb (SFltb _ _ || SFltb _ _)); [| discriminate].
      destruct (List.length segment_descriptions =? 1)%nat; [| discriminate].
      destruct (SegmentationType self).
      - destruct (negb _); [| discriminate].
        inversion Hc; subst pixel_array2. cbn in *.
        split; [| reflexivity]. split; [now rewrite length_map |].
        apply Forall_map, Forall_forall. intros v _.
        unfold in_dtype_range.
        destruct (SFeqb _ _); lia.
      - inversion Hc; subst pixel_array2. split; [exact Hwf | reflexivity]. }
    destruct d; try discriminate; apply Hcase; exact H.
Qed.

Lemma validation_well_formed (self : Segmentation)
    (pixel_array pixel_array2 : PixelArray)
    (segment_descriptions : list SegmentDescription) :
  validation self pixel_array segment_descriptions = Ok pixel_array2 ->
  pa_well_formed pixel_array ->
  pa_well_formed pixel_array2
  /\ exists n, pa_shape pixel_array2 = [n; Rows self; Columns self].
Proof.
  unfold validation. intros H Hwf.
  destruct (check_pixel_array_shape self pixel_array)
    as [pixel_array1 |] eqn:Hshape; [| discriminate].
  cbn [rbind] in H.
  destruct (check_segment_numbers self segment_descriptions)
    as [numbers |]; [| discriminate].
  cbn [rbind] in H.
  destruct (classify_pixels self pixel_array1 segment_descriptions numbers)
    as [p |] eqn:Hclass; [| discriminate].
  cbn [rbind] in H.
  destruct (check_new_segments self numbers); [| discriminate].
  cbn [rbind] in H. inversion H; subst p.
  destruct (check_pixel_array_shape_well_formed _ _ _ Hshape Hwf)
    as (Hwf1 & n & Hn).
  destruct (classify_pixels_well_formed _ _ _ _ _ Hclass Hwf1)
    as (Hwf2 & Hsame).
  split; [exact Hwf2 |]. exists n. now rewrite Hsame.
Qed.

(** The planes of a segment: one byte per sample, as many samples as the
    pixel array has. *)
Lemma planes_of_well_formed (self : Segmentation) (pixel_array : PixelArray)
    (segment_number : Z) (planes_dtype : dtype) (planes : list Z) :
  planes_of self pixel_array segment_number = Ok (planes_dtype, planes) ->
  pa_well_formed pixel_array ->
  List.length planes = prod_shape (pa_shape pixel_array)
  /\ itemsize planes_dtype = 1%nat
  /\ Forall (in_dtype_range np_uint8) planes.
Proof.
  unfold planes_of. intros H Hwf.
  assert (Hbit : forall v : Z, 0 <= v <= 1 -> in_dtype_range np_uint8 v).
  { intros v Hv. unfold in_dtype_range. cbn [is_signed itemsize].
    change (2 ^ (8 * Z.of_nat 1)) with 256. lia. }
  destruct pixel_array as [a | d sh data]; cbn [pa_shape].
  - destruct Hwf as [Hlen Hrange].
    assert (Hmask :
      List.length
        (map (fun v => if v =? segment_number then 1 else 0) (arr_data a))
      = prod_shape (arr_shape a)
      /\ Forall (in_dtype_range np_uint8)
           (map (fun v => if v =? segment_number then 1 else 0) (arr_data a))).
    { split; [now rewrite length_map |].
      apply Forall_map, Forall_forall. intros v _. apply Hbit.
      destruct (v =? segment_number); lia. }
    destruct (arr_dtype a) eqn:Hd; try discriminate;
      inversion H; subst planes_dtype planes.
    + split; [exact Hlen |]. split; [reflexivity |].
      eapply Forall_impl; [| exact Hrange]. intros v Hv. apply Hbit.
      exact Hv.
    + split; [apply Hmask |]. split; [reflexivity | apply Hmask].
    + split; [apply Hmask |]. split; [reflexivity | apply Hmask].
  - destruct d; try discriminate; inversion H; subst planes_dtype planes;
      (split; [rewrite length_map; exact Hwf |]); (split; [reflexivity |]);
      apply Forall_map, Forall_forall; intros v _;
      apply astype_uint8_range.
Qed.

Lemma length_plane_at {A : Type} (size j n : nat) (data : list A) :
  List.length data = (n * size)%nat -> (j < n)%nat ->
  List.length (plane_at size j data) = size.
Proof.
  intros Hlen Hj. unfold plane_at.
  rewrite length_firstn, length_skipn, Hlen. nia.
Qed.

Lemma Forall_firstn_of {A : Type} (P : A -> Prop) (n : nat) (l : list A) :
  Forall P l -> Forall P (firstn n l).
Proof.
  intros H. revert n. induction H as [| x l Hx Hl IH]; intros [| n];
    cbn [firstn]; constructor; auto.
Qed.

Lemma Forall_skipn_of {A : Type} (P : A -> Prop) (n : nat) (l : list A) :
  Forall P l -> Forall P (skipn n l).
Proof.
  intros H. revert n. induction H as [| x l Hx Hl IH]; intros [| n];
    cbn [skipn]; try constructor; auto.
Qed.

Lemma Forall_plane_at {A : Type} (P : A -> Prop) (size j : nat)
    (data : list A) :
  Forall P data -> Forall P (plane_at size j data).
Proof.
  intros H. unfold plane_at. apply Forall_firstn_of, Forall_skipn_of, H.
Qed.

Lemma static_format (s s0 : Segmentation) :
  static s = static s0 ->
  SegmentationType s = SegmentationType s0
  /\ Rows s = Rows s0 /\ Columns s = Columns s0
  /\ TransferSyntaxUID s = TransferSyntaxUID s0.
Proof.
  intros Hst. unfold static in Hst. injection Hst. intros. auto.
Qed.

Lemma encode_samples_app (self : Segmentation) (a b : list Z) :
  (SegmentationType self = BINARY -> (List.length a mod 8 = 0)%nat) ->
  encode_samples self (a ++ b)
  = encode_samples self a ++ encode_samples self b.
Proof.
  unfold encode_samples. intros Hlen.
  destruct (SegmentationType self).
  - apply packbits_little_app. now apply Hlen.
  - apply tobytes_app.
Qed.

(** What [_encode_pixels] makes of samples when the pixel data are not
    encapsulated. *)
Lemma _encode_pixels_native (ext : External) (self : Segmentation)
    (d : dtype) (shape : list nat) (samples : list Z) (data : bytes) :
  is_encapsulated (TransferSyntaxUID self) = false ->
  itemsize d = 1%nat ->
  Forall (in_dtype_range np_uint8) samples ->
  _encode_pixels ext self (mk_ndarray d shape samples) = Ok data ->
  data = encode_samples self samples
  /\ Forall (in_dtype_range
               match SegmentationType self with
               | BINARY => np_bool
               | FRACTIONAL => np_uint8
               end) samples.
Proof.
  intros Hnative Hsize Hrange. unfold _encode_pixels, encode_samples.
  rewrite Hnative. cbn [arr_data arr_dtype].
  destruct (SegmentationType self).
  - unfold pack_bits.
    destruct (forallb is_bit samples) eqn:Hbits; [| discriminate].
    intros H. inversion H. split; [reflexivity |].
    apply in_range_bits. exact Hbits.
  - intros H. inversion H. split; [| exact Hrange].
    apply tobytes_itemsize. exact Hsize.
Qed.

Section KeptPlanes.

Variable ext : External.
Variable self : Segmentation.
Variable pixel_array : PixelArray.
Variable plane_sort_index : list nat.
Variable n : nat.

Hypothesis Hnative : is_encapsulated (TransferSyntaxUID self) = false.
Hypothesis Hwf : pa_well_formed pixel_array.
Hypothesis Hshape : pa_shape pixel_array = [n; Rows self; Columns self].
Hypothesis Hindex : Forall (fun j => (j < n)%nat) plane_sort_index.

Lemma kept_planes_samples_spec (description : SegmentDescription)
    (samples : list Z) :
  kept_planes_samples self pixel_array plane_sort_index description
  = Ok samples ->
  List.length samples
  = (List.length
       (kept_planes self pixel_array plane_sort_index description)
     * (Rows self * Columns self))%nat
  /\ Forall (in_dtype_range np_uint8) samples.
Proof.
  unfold kept_planes_samples.
  destruct (planes_of self pixel_array (SegmentNumber description))
    as [[planes_dtype planes] |] eqn:Hplanes; [| discriminate].
  cbn [rbind]. intros H. injection H as <-.
  destruct (planes_of_well_formed _ _ _ _ _ Hplanes Hwf)
    as (Hlen & _ & Hrange).
  rewrite Hshape in Hlen. unfold prod_shape in Hlen.
  cbn [fold_right] in Hlen.
  assert (Hkept : Forall (fun j => (j < n)%nat)
                    (kept_planes self pixel_array plane_sort_index
                       description)).
  { unfold kept_planes. apply Forall_forall. intros j Hj.
    apply filter_In in Hj. destruct Hj as [Hj _].
    revert j Hj. apply Forall_forall. exact Hindex. }
  split.
  - induction Hkept as [| j kept Hj _ IH]; [reflexivity |].
    cbn [flat_map List.length]. rewrite length_app, IH.
    rewrite (length_plane_at _ _ n) by (assumption || lia). lia.
  - clear Hkept.
    induction (kept_planes self pixel_array plane_sort_index description)
      as [| j kept IH]; [constructor |].
    cbn [flat_map]. apply Forall_app. split; [| exact IH].
    apply Forall_plane_at. exact Hrange.
Qed.

Lemma kept_planes_bytes_spec (description : SegmentDescription)
    (chunk : bytes) :
  kept_planes_bytes ext self pixel_array plane_sort_index description
  = Ok chunk ->
  exists samples,
    kept_planes_samples self pixel_array plane_sort_index description
    = Ok samples
    /\ chunk = encode_samples self samples
    /\ Forall (in_dtype_range
                 match SegmentationType self with
                 | BINARY => np_bool
                 | FRACTIONAL => np_uint8
                 end) samples.
Proof.
  intros H.
  destruct (kept_planes_samples self pixel_array plane_sort_index description)
    as [samples |] eqn:Hsamples.
  - exists samples. split; [reflexivity |].
    destruct (kept_planes_samples_spec _ _ Hsamples) as [_ Hrange].
    unfold kept_planes_bytes in H. unfold kept_planes_samples in Hsamples.
    destruct (planes_of self pixel_array (SegmentNumber description))
      as [[planes_dtype planes] |] eqn:Hplanes; [| discriminate].
    cbn [rbind] in H, Hsamples. cbv zeta in H.
    injection Hsamples as Hs. rewrite Hs in H.
    destruct (planes_of_well_formed _ _ _ _ _ Hplanes Hwf)
      as (_ & Hsize & _).
    exact (_encode_pixels_native ext self planes_dtype _ samples chunk
             Hnative Hsize Hrange H).
  - unfold kept_planes_bytes in H. unfold kept_planes_samples in Hsamples.
    destruct (planes_of self pixel_array (SegmentNumber description))
      as [[planes_dtype planes] |]; discriminate.
Qed.

(** The samples of all described segments, for the count of the frame items
    the loop appends. *)
Lemma kept_samples_length (descriptions : list SegmentDescription)
    (key : SegmentDescription -> nat -> Z * PlanePositionSequence) :
  forall samples,
    mapM (kept_planes_samples self pixel_array plane_sort_index) descriptions
    = Ok samples ->
    List.length (List.concat samples)
    = (List.length
         (flat_map
            (fun d =>
               map (key d)
                 (kept_planes self pixel_array plane_sort_index d))
            descriptions)
       * (Rows self * Columns self))%nat
    /\ Forall (in_dtype_range np_uint8) (List.concat samples).
Proof.
  induction descriptions as [| d descriptions IH]; intros samples H.
  - inversion H. split; [reflexivity | constructor].
  - cbn [mapM] in H.
    destruct (kept_planes_samples self pixel_array plane_sort_index d)
      as [s |] eqn:Hs; [| discriminate].
    cbn [rbind] in H.
    destruct (mapM _ descriptions) as [rest |]; [| discriminate].
    cbn [rbind] in H. inversion H. subst samples.
    destruct (kept_planes_samples_spec _ _ Hs) as [Hlen Hrange].
    destruct (IH rest eq_refl) as [Hlen' Hrange'].
    cbn [List.concat flat_map]. split.
    + rewrite !length_app, length_map, Hlen, Hlen'. lia.
    + apply Forall_app. split; assumption.
Qed.

(** With framewise encoding the bytes of the described segments are the
    encoded samples of their kept planes. *)
Lemma kept_bytes_samples (descriptions : list SegmentDescription) :
  (SegmentationType self = BINARY ->
   ((Rows self * Columns self) mod 8 = 0)%nat) ->
  forall chunks,
    mapM (kept_planes_bytes ext self pixel_array plane_sort_index)
      descriptions = Ok chunks ->
    exists samples,
      mapM (kept_planes_samples self pixel_array plane_sort_index)
        descriptions = Ok samples
      /\ List.concat chunks = encode_samples self (List.concat samples)
      /\ Forall (in_dtype_range
                   match SegmentationType self with
                   | BINARY => np_bool
                   | FRACTIONAL => np_uint8
                   end) (List.concat samples).
Proof.
  intros Hmod.
  induction descriptions as [| d descriptions IH]; intros chunks H.
  - inversion H. exists []. split; [reflexivity |].
    split; [| constructor].
    unfold encode_samples. destruct (SegmentationType self); reflexivity.
  - cbn [mapM] in H.
    destruct (kept_planes_bytes ext self pixel_array plane_sort_index d)
      as [chunk |] eqn:Hchunk; [| discriminate].
    cbn [rbind] in H.
    destruct (mapM _ descriptions) as [rest |]; [| discriminate].
    cbn [rbind] in H. inversion H. subst chunks.
    destruct (kept_planes_bytes_spec _ _ Hchunk)
      as (s & Hs & Hc & Hrange).
    destruct (IH rest eq_refl) as (samples & Hsamples & Hcs & Hranges).
    exists (s :: samples). cbn [mapM]. rewrite Hs, Hsamples. cbn [rbind].
    split; [reflexivity |]. cbn [List.concat]. split.
    + rewrite encode_samples_app, Hc, Hcs; [reflexivity |].
      intros Hbin.
      destruct (kept_planes_samples_spec _ _ Hs) as [Hlen _].
      rewrite Hlen, Nat.mul_comm.
      apply Nat.Div0.mod_divides. apply Nat.Div0.mod_divides in Hmod;
        [| exact Hbin].
      destruct Hmod as [q Hq]. rewrite Hq.
      eexists. rewrite <- Nat.mul_assoc. reflexivity.
    + apply Forall_app. split; assumption.
Qed.

End KeptPlanes.

(** ** Stored samples: the pixel data before and after the loop *)

Lemma expected_length_samples (self : Segmentation) (samples : list Z) :
  segmentation_format self ->
  holds_samples self samples ->
  NumberOfFrames self <> 0%nat ->
  get_expected_length (pixel_format_of self)
  = List.length (encode_samples self samples).
Proof.
  intros (Hspp & Hpi & _ & _ & _ & Htype) (Hlen & _ & _) Hframes.
  assert (Hpix : get_expected_length_pixels (pixel_format_of self)
                 = List.length samples).
  { unfold get_expected_length_pixels, pixel_format_of.
    cbn [pf_rows pf_columns pf_samples_per_pixel pf_number_of_frames].
    rewrite Hspp, Hlen. unfold get_nr_frames.
    destruct (NumberOfFrames self); [congruence | lia]. }
  unfold get_expected_length. rewrite Hpix.
  change (pf_photometric_interpretation (pixel_format_of self))
    with (PhotometricInterpretation self).
  change (pf_bits_allocated (pixel_format_of self)) with (BitsAllocated self).
  rewrite Hpi. cbn [is_ybr_full_422]. unfold encode_samples.
  destruct (SegmentationType self); destruct Htype as (Hbits & _);
    rewrite Hbits.
  - change (1 =? 1) with true. cbv iota.
    symmetry. apply length_packbits_little_any.
  - change (8 =? 1) with false. cbv iota.
    change (Z.to_nat (8 / 8)) with 1%nat.
    rewrite length_tobytes. reflexivity.
Qed.

Lemma encode_samples_nil (self : Segmentation) (samples : list Z) :
  encode_samples self samples = [] -> samples = [].
Proof.
  unfold encode_samples. intros H. apply length_zero_iff_nil.
  apply (f_equal (@List.length Z)) in H. cbn [List.length] in H.
  destruct (SegmentationType self).
  - rewrite length_packbits_little_any in H.
    pose proof (Nat.div_mod_eq (List.length samples) 8).
    destruct (Nat.eqb_spec (List.length samples mod 8) 0); lia.
  - rewrite length_tobytes in H. simpl in H. lia.
Qed.

Lemma holds_samples_no_frames (self : Segmentation) (samples : list Z) :
  holds_samples self samples -> NumberOfFrames self = 0%nat ->
  samples = [] /\ PixelData self = [].
Proof.
  intros (Hlen & _ & Hdata) Hzero. rewrite Hzero in Hlen.
  apply length_zero_iff_nil in Hlen. subst samples.
  split; [reflexivity |]. rewrite Hdata. unfold encode_samples.
  destruct (SegmentationType self); reflexivity.
Qed.

(** The pixel data without the pad byte are the encoded samples. *)
Lemma without_pad_samples (self : Segmentation) (samples : list Z) :
  segmentation_format self ->
  holds_samples self samples ->
  without_pad self = encode_samples self samples.
Proof.
  intros Hfmt Hold. unfold without_pad.
  destruct (Nat.eq_dec (NumberOfFrames self) 0) as [Hzero | Hframes].
  - destruct (holds_samples_no_frames _ _ Hold Hzero) as [-> Hdata].
    rewrite Hdata. cbn [List.length].
    replace (0 =? get_expected_length (pixel_format_of self) + 1)%nat
      with false by (symmetry; apply Nat.eqb_neq; lia).
    unfold encode_samples. destruct (SegmentationType self); reflexivity.
  - rewrite (expected_length_samples _ _ Hfmt Hold Hframes).
    destruct Hold as (_ & _ & Hdata). rewrite Hdata, length_app.
    set (e := encode_samples self samples).
    unfold pad_of. destruct (List.length e mod 2 =? 1)%nat.
    + cbn [List.length]. rewrite Nat.eqb_refl. apply removelast_last.
    + cbn [List.length]. rewrite Nat.add_0_r, app_nil_r.
      replace (List.length e =? List.length e + 1)%nat
        with false by (symmetry; apply Nat.eqb_neq; lia).
      reflexivity.
Qed.

(** How [prepare_encoding] starts on an object whose pixel data are not
    encapsulated: frame by frame from the encoded samples, or with all
    samples unpacked. *)
Lemma prepare_encoding_native (ext : External) (s s1 : Segmentation)
    (encoding : Encoding) (old : list Z) :
  is_encapsulated (TransferSyntaxUID s) = false ->
  segmentation_format s ->
  holds_samples s old ->
  prepare_encoding ext s = (s1, Ok encoding) ->
  (encoding = Framewise
   /\ PixelData s1 = encode_samples s old
   /\ (SegmentationType s = BINARY ->
       ((Rows s * Columns s) mod 8 = 0)%nat))
  \/ (encoding = Repacked old /\ SegmentationType s = BINARY).
Proof.
  intros Hnative Hfmt Hold Hprep.
  pose proof (prepare_encoding_spec _ _ _ _ Hprep) as (_ & _ & _ & Hpd).
  unfold prepare_encoding in Hprep. cbv [bind get_self] in Hprep.
  destruct (framewise_encoding_of s) eqn:Hfw.
  - left.
    assert (Henc : encoding = Framewise).
    { destruct (List.length (PixelData s)
                =? get_expected_length (pixel_format_of s) + 1)%nat;
        cbv [update ret] in Hprep; now inversion Hprep. }
    subst encoding. split; [reflexivity |]. split.
    + rewrite Hpd. apply without_pad_samples; assumption.
    + intros Hbin. unfold framewise_encoding_of in Hfw.
      rewrite Hnative, Hbin in Hfw. cbn [negb] in Hfw.
      destruct Hfmt as (Hspp & _). rewrite Hspp, Nat.mul_1_r in Hfw.
      apply Nat.eqb_eq. exact Hfw.
  - right.
    assert (Hbin : SegmentationType s = BINARY).
    { unfold framewise_encoding_of in Hfw. rewrite Hnative in Hfw.
      cbn [negb] in Hfw. destruct (SegmentationType s);
        [reflexivity | discriminate]. }
    split; [| exact Hbin].
    rewrite Hnative in Hprep.
    destruct (Nat.eq_dec (NumberOfFrames s) 0) as [Hzero | Hframes].
    + destruct (holds_samples_no_frames _ _ Hold Hzero) as [-> Hdata].
      rewrite Hdata in Hprep. cbn [List.length] in Hprep.
      change (0 <? 0)%nat with false in Hprep. cbv [ret] in Hprep.
      now inversion Hprep.
    + destruct (0 <? List.length (PixelData s))%nat eqn:Hlen.
      * rewrite (pixel_array_holds_samples ext s old Hnative Hfmt Hold
                   Hframes) in Hprep.
        cbv [lift ret] in Hprep. now inversion Hprep.
      * apply Nat.ltb_ge in Hlen.
        assert (Hnil : PixelData s = [])
          by (apply length_zero_iff_nil; lia).
        destruct Hold as (_ & _ & Hdata). rewrite Hdata in Hnil.
        apply app_eq_nil in Hnil. destruct Hnil as [Hnil _].
        apply encode_samples_nil in Hnil. subst old.
        cbv [ret] in Hprep. now inversion Hprep.
Qed.

Lemma plane_sort_index_bound (self : list Keyword)
    (plane_positions : list PlanePositionSequence)
    (values : list (list (list Z))) (plane_sort_index : list nat) :
  get_index_values self plane_positions = Ok (values, plane_sort_index) ->
  Forall (fun j => (j < List.length plane_positions)%nat) plane_sort_index.
Proof.
  intros H. destruct (get_index_values_length _ _ _ _ H) as [Hlen ->].
  destruct (np_unique_rows_indices (map (@List.concat Z) values))
    as (Hidx & _).
  apply Forall_forall. intros j Hj. destruct (Hidx j Hj) as [Hlt _].
  rewrite length_map, Hlen in Hlt. exact Hlt.
Qed.

(** A call of [add_segments] on an object with native pixel data appends
    the samples of the kept planes to the samples the object holds. *)
Lemma add_segments_stores (ext : External) (pixel_array : PixelArray)
    (segment_descriptions : list SegmentDescription)
    (plane_positions : option (list PlanePositionSequence))
    (self self' : Segmentation) (old : list Z) :
  is_encapsulated (TransferSyntaxUID self) = false ->
  segmentation_format self ->
  pa_well_formed pixel_array ->
  holds_samples self old ->
  add_segments ext pixel_array segment_descriptions plane_positions self
  = (self', Ok tt) ->
  exists source_images pixel_array2 source_plane_positions positions values
         plane_sort_index samples,
    _source_images self = Some source_images
    /\ validation self pixel_array segment_descriptions = Ok pixel_array2
    /\ resolve_plane_positions source_images pixel_array2 plane_positions
       = Ok (source_plane_positions, positions)
    /\ get_index_values (DimensionIndexSequence_of self) positions
       = Ok (values, plane_sort_index)
    /\ mapM (kept_planes_samples self pixel_array2 plane_sort_index)
         segment_descriptions = Ok samples
    /\ static self' = static self
    /\ holds_samples self' (old ++ List.concat samples).
Proof.
  intros Hnative Hfmt Hwf Hold Hrun.
  destruct (add_segments_returns_inv _ _ _ _ _ _ _ Hrun)
    as (source_images & pixel_array2 & source_plane_positions & positions
        & values & plane_sort_index & positions_equal
        & dimension_position_values & encoding & s1 & encoding' & s2 & s3
        & Hsrc & Hval & Hres & Hidx & Hprep & Hloop & Hfin & Hluts).
  exists source_images, pixel_array2, source_plane_positions, positions,
    values, plane_sort_index.
  destruct (validation_well_formed _ _ _ _ Hval Hwf) as (Hwf2 & n & Hshape).
  assert (Hindex : Forall (fun j => (j < n)%nat) plane_sort_index).
  { pose proof (plane_sort_index_bound _ _ _ _ Hidx) as Hb.
    rewrite (resolve_plane_positions_length _ _ _ _ _ Hres), Hshape in Hb.
    exact Hb. }
  set (s0 := set_SegmentsOverlap (Some (assigned_overlap self)) self) in *.
  assert (Hold0 : holds_samples s0 old) by exact Hold.
  assert (Hfmt0 : segmentation_format s0) by exact Hfmt.
  destruct (prepare_encoding_spec _ _ _ _ Hprep)
    as (Hst1 & _ & Hnf1 & _).
  change (static s0) with (static self) in Hst1.
  change (NumberOfFrames s0) with (NumberOfFrames self) in Hnf1.
  pose proof (prepare_encoding_native ext s0 s1 encoding old Hnative Hfmt0
                Hold0 Hprep) as Hcase.
  change (encode_samples s0 old) with (encode_samples self old) in Hcase.
  change (SegmentationType s0) with (SegmentationType self) in Hcase.
  change (Rows s0) with (Rows self) in Hcase.
  change (Columns s0) with (Columns self) in Hcase.
  apply add_segments_loop_spec with (self0 := self) in Hloop;
    [| exact Hst1].
  destruct Hloop as (Hst2 & (items & _ & Hkeys & Hnf2) & Hstored).
  destruct (finish_encoding_spec _ _ _ _ _ Hfin)
    as (Hst3 & _ & Hnf3 & data & Hdata & Hpd3).
  pose proof (_build_luts_preserves_frames s3) as Hb.
  pose proof (_build_luts_preserves_PixelData s3) as Hbpd.
  pose proof (_build_luts_preserves_static s3) as Hbst.
  rewrite Hluts in Hb, Hbpd, Hbst. cbn [fst] in Hb, Hbpd, Hbst.
  injection Hb as _ Hnf' _ _ _.
  assert (Hst' : static self' = static self) by congruence.
  destruct (static_format _ _ Hst') as (Htype' & Hrows' & Hcols' & _).
  assert (Hcount : NumberOfFrames self'
                   = (NumberOfFrames self + List.length items)%nat)
    by congruence.
  assert (Hitems : List.length items
                   = List.length
                       (flat_map
                          (fun d =>
                             map (fun j => (SegmentNumber d,
                                            nth j positions []))
                               (kept_planes self pixel_array2
                                  plane_sort_index d))
                          segment_descriptions))
    by (rewrite <- Hkeys; symmetry; apply length_map).
  destruct Hold as (Hlen & Hrange & Hpd).
  assert (Hfinal : forall samples,
    mapM (kept_planes_samples self pixel_array2 plane_sort_index)
      segment_descriptions = Ok samples ->
    Forall (in_dtype_range
              match SegmentationType self with
              | BINARY => np_bool
              | FRACTIONAL => np_uint8
              end) (old ++ List.concat samples) ->
    data = encode_samples self (old ++ List.concat samples) ->
    holds_samples self' (old ++ List.concat samples)).
  { intros samples Hsamples Hranges Henc.
    destruct (kept_samples_length self pixel_array2 plane_sort_index n
                Hwf2 Hshape Hindex segment_descriptions
                (fun d j => (SegmentNumber d, nth j positions []))
                samples Hsamples) as [Hlens _].
    unfold holds_samples, encode_samples.
    rewrite Htype', Hrows', Hcols', Hcount.
    split; [rewrite length_app, Hlen, Hlens, Hitems; lia |].
    split; [exact Hranges |].
    fold (encode_samples self (old ++ List.concat samples)).
    rewrite <- Henc. congruence. }
  destruct Hcase as [(-> & Hpd1 & Hmod) | (-> & Hbin)].
  - cbn [stored_by_loop] in Hstored.
    destruct Hstored as (-> & chunks & Hchunks & Hpd2).
    destruct (kept_bytes_samples ext self pixel_array2 plane_sort_index n
                Hnative Hwf2 Hshape Hindex segment_descriptions Hmod
                chunks Hchunks) as (samples & Hsamples & Hcs & Hranges).
    exists samples. do 4 (split; [assumption |]).
    split; [exact Hsamples |]. split; [exact Hst' |].
    apply Hfinal; [exact Hsamples | apply Forall_app; split; assumption |].
    rewrite Hdata, Hpd2, Hpd1, Hcs. symmetry. apply encode_samples_app.
    intros Hbin. rewrite Hlen, Nat.mul_comm.
    apply Nat.Div0.mod_divides. apply Nat.Div0.mod_divides in Hmod;
      [| exact Hbin].
    destruct Hmod as [q Hq]. rewrite Hq.
    eexists. rewrite <- Nat.mul_assoc. reflexivity.
  - cbn [stored_by_loop] in Hstored.
    destruct Hstored as (_ & samples & Hsamples & ->).
    exists samples. do 4 (split; [assumption |]).
    split; [exact Hsamples |]. split; [exact Hst' |].
    rewrite (static_encode_pixels ext s2 self _ Hst2) in Hdata.
    destruct (kept_samples_length self pixel_array2 plane_sort_index n
                Hwf2 Hshape Hindex segment_descriptions
                (fun d j => (SegmentNumber d, nth j positions []))
                samples Hsamples) as [_ Hr8].
    assert (Hall8 : Forall (in_dtype_range np_uint8)
                      (old ++ List.concat samples)).
    { apply Forall_app. split; [| exact Hr8].
      rewrite Hbin in Hrange. eapply Forall_impl; [| exact Hrange].
      intros v Hv. unfold in_dtype_range in *. cbn [is_signed itemsize].
      change (2 ^ (8 * Z.of_nat 1)) with 256. lia. }
    destruct (_encode_pixels_native ext self np_uint8 _ _ data Hnative
                eq_refl Hall8 Hdata) as [Henc Hranges].
    apply Hfinal; assumption.
Qed.

Lemma add_segments_kept_samples (ext : External) (pixel_array : PixelArray)
    (segment_descriptions : list SegmentDescription)
    (plane_positions : option (list PlanePositionSequence))
    (self self' : Segmentation) (old : list Z) :
  is_encapsulated (TransferSyntaxUID self) = false ->
  segmentation_format self ->
  pa_well_formed pixel_array ->
  holds_samples self old ->
  add_segments ext pixel_array segment_descriptions plane_positions self
  = (self', Ok tt) ->
  exists new,
    kept_samples self pixel_array segment_descriptions plane_positions
    = Ok new
    /\ static self' = static self
    /\ holds_samples self' (old ++ new).
Proof.
  intros Hnative Hfmt Hwf Hold Hrun.
  destruct (add_segments_stores _ _ _ _ _ _ _ Hnative Hfmt Hwf Hold Hrun)
    as (source_images & pixel_array2 & source_plane_positions & positions
        & values & plane_sort_index & samples & Hsrc & Hval & Hres & Hidx
        & Hsamples & Hst & Hholds).
  exists (List.concat samples). split; [| split; assumption].
  unfold kept_samples. rewrite Hsrc, Hval. cbn [rbind].
  rewrite Hres. cbn [rbind]. rewrite Hidx. cbn [rbind].
  rewrite Hsamples. reflexivity.
Qed.

Lemma holds_samples_pixel_array (ext : External) (self : Segmentation)
    (samples : list Z) :
  is_encapsulated (TransferSyntaxUID self) = false ->
  segmentation_format self ->
  holds_samples self samples ->
  (NumberOfFrames self <> 0%nat ->
   pixel_array ext self
   = Ok (mk_ndarray np_uint8 (frames_shape self) samples))
  /\ (NumberOfFrames self = 0%nat -> samples = [] /\ PixelData self = []).
Proof.
  intros Hnative Hfmt Hold. split.
  - apply pixel_array_holds_samples; assumption.
  - apply holds_samples_no_frames. exact Hold.
Qed.

(** X13. The pixel data the constructor stores can be read back. When the
    constructor returns for a native (not encapsulated) transfer syntax and a
    pixel array whose data fill its shape, [pixel_array] of the new object
    is the array of the planes that [add_segments] keeps: for every described
    segment in turn the planes whose samples do not sum to 0, in the order of
    the sorted plane indices, one frame per plane, with the shape (frames,
    rows, columns), or (rows, columns) for a single frame. When no plane
    is kept the object has no frame and empty pixel data. *)
Theorem constructor_pixel_array (ext : External)
    (source_images : list SourceImage) (pixels : PixelArray)
    (segmentation_type : string)
    (segment_descriptions : list SegmentDescription)
    (fractional_type : string) (max_fractional_value : Z)
    (transfer_syntax_uid : TransferSyntax)
    (plane_orientation : option (list Z))
    (plane_positions : option (list PlanePositionSequence))
    (self : Segmentation) :
  is_encapsulated transfer_syntax_uid = false ->
  pa_well_formed pixels ->
  Segmentation_init ext source_images pixels segmentation_type
    segment_descriptions fractional_type max_fractional_value
    transfer_syntax_uid plane_orientation plane_positions = Ok self ->
  exists self0 pixel_array1 samples,
    Segmentation_new source_images pixels segmentation_type
      fractional_type max_fractional_value transfer_syntax_uid
      plane_orientation = Ok (self0, pixel_array1)
    /\ kept_samples self0 pixel_array1 segment_descriptions plane_positions
       = Ok samples
    /\ holds_samples self samples
    /\ (NumberOfFrames self <> 0%nat ->
        pixel_array ext self
        = Ok (mk_ndarray np_uint8 (frames_shape self) samples))
    /\ (NumberOfFrames self = 0%nat -> samples = [] /\ PixelData self = []).
Proof.
  intros Hnative Hwf Hinit.
  destruct (Segmentation_init_inv _ _ _ _ _ _ _ _ _ _ _ Hinit)
    as (self0 & pixel_array1 & Hnew & Hrun).
  destruct (Segmentation_new_spec _ _ _ _ _ _ _ _ _ Hnew)
    as ((Hnf & _ & _ & _ & Hpd & _) & Hfmt & _ & Hts & _).
  assert (Hnative0 : is_encapsulated (TransferSyntaxUID self0) = false)
    by (rewrite Hts; exact Hnative).
  assert (Hwf1 : pa_well_formed pixel_array1).
  { unfold Segmentation_new in Hnew.
    destruct source_images as [| src_img rest]; [discriminate |].
    destruct (forallb _ _); [| discriminate].
    destruct (negb _); [| discriminate].
    destruct (supported_by_segmentation _); [| discriminate].
    cbv zeta in Hnew.
    set (p := if (List.length (pa_shape pixels) =? 2)%nat
              then pa_reshape (1%nat :: pa_shape pixels) pixels
              else pixels) in *.
    assert (Hp : pa_well_formed p).
    { subst p. destruct (List.length (pa_shape pixels) =? 2)%nat;
        [| exact Hwf].
      destruct pixels as [a | sh data];
        unfold pa_well_formed, pa_reshape, prod_shape in *;
        cbn [arr_data arr_shape arr_dtype pa_shape fold_right] in *.
      - destruct Hwf as [Hlen Hrange]. split; [lia | exact Hrange].
      - lia. }
    destruct (pa_shape p) as [| ? [| ? [| ? ?]]]; try discriminate.
    destruct (SegmentationTypeValues_of segmentation_type);
      [| discriminate].
    cbn [rbind] in Hnew.
    match type of Hnew with
    | rbind ?r _ = _ => destruct r as [[[[? ?] ?] ?] |]; [| discriminate]
    end.
    cbn [rbind] in Hnew. inversion Hnew; subst. exact Hp. }
  assert (Hold : holds_samples self0 []).
  { unfold holds_samples. rewrite Hnf, Hpd. split; [reflexivity |].
    split; [constructor |].
    unfold encode_samples. destruct (SegmentationType self0); reflexivity. }
  destruct (add_segments_kept_samples _ _ _ _ _ _ _ Hnative0 Hfmt Hwf1 Hold
              Hrun) as (samples & Hkept & Hst & Hholds).
  cbn [app] in Hholds.
  exists self0, pixel_array1, samples.
  split; [exact Hnew |]. split; [exact Hkept |]. split; [exact Hholds |].
  apply holds_samples_pixel_array; [| | exact Hholds].
  - destruct (static_format _ _ Hst) as (_ & _ & _ & ->). exact Hnative0.
  - eapply segmentation_format_static; eauto.
Qed.

Lemma constructor_pixel_array_witness :
  exists self,
    fractional_example = Ok self
    /\ pixel_array plain_codecs self
       = Ok (mk_ndarray np_uint8 [1; 1]%nat [255])
    /\ exists self0 pixel_array1 samples,
         Segmentation_new
           [ct_image "1.2.3.1.1" 1 1 0; ct_image "1.2.3.1.2" 1 1 1]
           (FloatPixels np_float64 [2; 1; 1]%nat
               [float_value np_float64 1 0; float_value np_float64 0 0])
           "FRACTIONAL" "PROBABILITY" 255 ImplicitVRLittleEndian None
         = Ok (self0, pixel_array1)
         /\ kept_samples self0 pixel_array1 [description 1] None = Ok samples
         /\ holds_samples self samples
         /\ (NumberOfFrames self <> 0%nat ->
             pixel_array plain_codecs self
             = Ok (mk_ndarray np_uint8 (frames_shape self) samples))
         /\ (NumberOfFrames self = 0%nat ->
             samples = [] /\ PixelData self = []).
Proof.
  eexists. split; [vm_compute; reflexivity |].
  split; [vm_compute; reflexivity |].
  apply (constructor_pixel_array plain_codecs
           [ct_image "1.2.3.1.1" 1 1 0; ct_image "1.2.3.1.2" 1 1 1]
           (FloatPixels np_float64 [2; 1; 1]%nat
               [float_value np_float64 1 0; float_value np_float64 0 0])
           "FRACTIONAL" [description 1] "PROBABILITY" 255
           ImplicitVRLittleEndian None None).
  - reflexivity.
  - reflexivity.
  - vm_compute. reflexivity.
Defined.

(** X14. A later call of [add_segments] keeps the stored frames and appends
    the new ones. On an object with a native transfer syntax whose pixel
    data hold the samples of its frames, a call that returns for a pixel
    array whose data fill its shape leaves pixel data that hold the former
    samples followed by the samples of the planes the call keeps, whether
    the new frames are appended to the pixel data or all samples are packed
    again, and [pixel_array] returns them as one array. *)
Theorem add_segments_appends_samples (ext : External) (pixels : PixelArray)
    (segment_descriptions : list SegmentDescription)
    (plane_positions : option (list PlanePositionSequence))
    (self self' : Segmentation) (old : list Z) :
  is_encapsulated (TransferSyntaxUID self) = false ->
  segmentation_format self ->
  pa_well_formed pixels ->
  holds_samples self old ->
  add_segments ext pixels segment_descriptions plane_positions self
  = (self', Ok tt) ->
  exists new,
    kept_samples self pixels segment_descriptions plane_positions = Ok new
    /\ holds_samples self' (old ++ new)
    /\ segmentation_format self'
    /\ TransferSyntaxUID self' = TransferSyntaxUID self
    /\ (NumberOfFrames self' <> 0%nat ->
        pixel_array ext self'
        = Ok (mk_ndarray np_uint8 (frames_shape self') (old ++ new))).
Proof.
  intros Hnative Hfmt Hwf Hold Hrun.
  destruct (add_segments_kept_samples _ _ _ _ _ _ _ Hnative Hfmt Hwf Hold
              Hrun) as (new & Hkept & Hst & Hholds).
  destruct (static_format _ _ Hst) as (_ & _ & _ & Hts).
  assert (Hfmt' : segmentation_format self')
    by (eapply segmentation_format_static; eauto).
  exists new. split; [exact Hkept |]. split; [exact Hholds |].
  split; [exact Hfmt' |]. split; [exact Hts |].
  apply pixel_array_holds_samples; [| exact Hfmt' | exact Hholds].
  rewrite Hts. exact Hnative.
Qed.

Lemma add_segments_appends_samples_witness :
  exists self self',
    binary_example = Ok self
    /\ add_segments plain_codecs
         (IntPixels (mk_ndarray np_bool [1; 2; 4]%nat
                       [0; 0; 0; 0; 1; 1; 0; 0]))
         [description 5] None self = (self', Ok tt)
    /\ PixelData self = [1; 2; 4; 8]
    /\ PixelData self' = [1; 2; 4; 8; 48; 48]
    /\ exists new,
         kept_samples self
           (IntPixels (mk_ndarray np_bool [1; 2; 4]%nat
                         [0; 0; 0; 0; 1; 1; 0; 0]))
           [description 5] None = Ok new
         /\ holds_samples self'
              ([1; 0; 0; 0; 0; 0; 0; 0; 0; 1; 0; 0; 0; 0; 0; 0;
                0; 0; 1; 0; 0; 0; 0; 0; 0; 0; 0; 1; 0; 0; 0; 0] ++ new)
         /\ segmentation_format self'
         /\ TransferSyntaxUID self' = TransferSyntaxUID self
         /\ (NumberOfFrames self' <> 0%nat ->
             pixel_array plain_codecs self'
             = Ok (mk_ndarray np_uint8 (frames_shape self')
                     ([1; 0; 0; 0; 0; 0; 0; 0; 0; 1; 0; 0; 0; 0; 0; 0;
                       0; 0; 1; 0; 0; 0; 0; 0; 0; 0; 0; 1; 0; 0; 0; 0]
                      ++ new))).
Proof.
  eexists. eexists. split; [vm_compute; reflexivity |].
  match goal with
  | |- add_segments _ _ _ _ ?s = _ /\ _ => pose (self := s)
  end.
  split; [vm_compute; reflexivity |].
  split; [reflexivity |]. split; [reflexivity |].
  match goal with
  | |- context [holds_samples ?s _] => pose (self' := s)
  end.
  apply (add_segments_appends_samples plain_codecs
           (IntPixels (mk_ndarray np_bool [1; 2; 4]%nat
                         [0; 0; 0; 0; 1; 1; 0; 0]))
           [description 5] None self self').
  - reflexivity.
  - unfold segmentation_format. cbn. repeat split; reflexivity.
  - split; [reflexivity |]. cbn [arr_data arr_dtype].
    repeat (apply Forall_cons; [unfold in_dtype_range; lia |]).
    apply Forall_nil.
  - split; [reflexivity |]. split; [| vm_compute; reflexivity].
    change (SegmentationType self) with BINARY. cbv iota.
    repeat (apply Forall_cons; [unfold in_dtype_range; lia |]).
    apply Forall_nil.
  - vm_compute. reflexivity.
Defined.

(** ** The source instances of the objects the code builds *)

Lemma append_to_series_items (uid : string) (ref : SourceImageItem)
    (d : list ReferencedSeriesItem) :
  (forall ref_series ref',
     In ref_series (append_to_series uid ref d) ->
     In ref' (ReferencedInstanceSequence ref_series) ->
     (ref' = ref /\ ref_SeriesInstanceUID ref_series = uid)
     \/ exists ref_series0,
          In ref_series0 d
          /\ ref_SeriesInstanceUID ref_series0
             = ref_SeriesInstanceUID ref_series
          /\ In ref' (ReferencedInstanceSequence ref_series0))
  /\ (exists ref_series,
        In ref_series (append_to_series uid ref d)
        /\ In ref (ReferencedInstanceSequence ref_series))
  /\ (forall ref_series0 ref',
        In ref_series0 d ->
        In ref' (ReferencedInstanceSequence ref_series0) ->
        exists ref_series,
          In ref_series (append_to_series uid ref d)
          /\ In ref' (ReferencedInstanceSequence ref_series)).
Proof.
  induction d as [| item d (IH1 & IH2 & IH3)]; cbn [append_to_series].
  - split; [| split].
    + intros ref_series ref' [<- | []] [<- | []]. left. split; reflexivity.
    + eexists. split; [left; reflexivity | left; reflexivity].
    + intros ? ? [].
  - destruct (String.eqb (ref_SeriesInstanceUID item) uid) eqn:Heq.
    + apply String.eqb_eq in Heq. split; [| split].
      * intros ref_series ref' [<- | Hin] Href.
        -- cbn [ReferencedInstanceSequence ref_SeriesInstanceUID] in *.
           apply in_app_iff in Href. destruct Href as [Hold | [<- | []]].
           ++ right. exists item. split; [now left |]. split; assumption.
           ++ left. split; reflexivity.
        -- right. exists ref_series. split; [now right |].
           split; [reflexivity | exact Href].
      * eexists. split; [left; reflexivity |].
        cbn [ReferencedInstanceSequence]. apply in_app_iff. right. now left.
      * intros ref_series0 ref' [<- | Hin] Href.
        -- eexists. split; [left; reflexivity |].
           cbn [ReferencedInstanceSequence]. apply in_app_iff. now left.
        -- exists ref_series0. split; [now right | exact Href].
    + split; [| split].
      * intros ref_series ref' [<- | Hin] Href.
        -- right. exists item. split; [now left |].
           split; [reflexivity | exact Href].
        -- destruct (IH1 ref_series ref' Hin Href)
             as [Hnew | (ref_series0 & H0 & Huid & Href0)];
             [now left |].
           right. exists ref_series0. split; [now right |]. split; assumption.
      * destruct IH2 as (ref_series & Hin & Href).
        exists ref_series. split; [now right | exact Href].
      * intros ref_series0 ref' [<- | Hin] Href.
        -- exists item. split; [now left | exact Href].
        -- destruct (IH3 ref_series0 ref' Hin Href)
             as (ref_series & Hin' & Href').
           exists ref_series. split; [now right | exact Href'].
Qed.

Lemma referenced_series_items (images done : list SourceImage) :
  forall d,
    (forall ref_series ref,
       In ref_series d -> In ref (ReferencedInstanceSequence ref_series) ->
       exists img,
         In img done /\ ref = source_image_reference img
         /\ src_SeriesInstanceUID img = ref_SeriesInstanceUID ref_series) ->
    (forall img, In img done ->
       exists ref_series,
         In ref_series d
         /\ In (source_image_reference img)
              (ReferencedInstanceSequence ref_series)) ->
    let d' :=
      fold_left
        (fun d s_img =>
           append_to_series (src_SeriesInstanceUID s_img)
             (source_image_reference s_img) d)
        images d in
    (forall ref_series ref,
       In ref_series d' -> In ref (ReferencedInstanceSequence ref_series) ->
       exists img,
         In img (done ++ images) /\ ref = source_image_reference img
         /\ src_SeriesInstanceUID img = ref_SeriesInstanceUID ref_series)
    /\ (forall img, In img (done ++ images) ->
          exists ref_series,
            In ref_series d'
            /\ In (source_image_reference img)
                 (ReferencedInstanceSequence ref_series)).
Proof.
  revert done. induction images as [| s_img images IH];
    intros done d Hitems Hcover; cbn [fold_left].
  - rewrite app_nil_r. split; assumption.
  - replace (done ++ s_img :: images) with ((done ++ [s_img]) ++ images)
      by (rewrite <- app_assoc; reflexivity).
    destruct (append_to_series_items (src_SeriesInstanceUID s_img)
                (source_image_reference s_img) d) as (H1 & H2 & H3).
    apply IH.
    + intros ref_series ref Hin Href.
      destruct (H1 ref_series ref Hin Href)
        as [[-> Huid] | (ref_series0 & Hin0 & Huid & Href0)].
      * exists s_img. split; [apply in_app_iff; right; now left |].
        split; [reflexivity | now symmetry].
      * destruct (Hitems ref_series0 ref Hin0 Href0)
          as (img & Himg & -> & Hs).
        exists img. split; [apply in_app_iff; now left |].
        split; [reflexivity | congruence].
    + intros img Himg. apply in_app_iff in Himg.
      destruct Himg as [Himg | [<- | []]].
      * destruct (Hcover img Himg) as (ref_series0 & Hin0 & Href0).
        apply (H3 ref_series0 _ Hin0 Href0).
      * exact H2.
Qed.

(** The references of the object the constructor makes. *)
Lemma Segmentation_new_references
    (source_images : list SourceImage) (pixels : PixelArray)
    (segmentation_type : string) (fractional_type : string)
    (max_fractional_value : Z) (transfer_syntax_uid : TransferSyntax)
    (plane_orientation : option (list Z))
    (self : Segmentation) (pixel_array1 : PixelArray) :
  Segmentation_new source_images pixels segmentation_type
    fractional_type max_fractional_value transfer_syntax_uid
    plane_orientation = Ok (self, pixel_array1) ->
  references_of source_images self.
Proof.
  unfold Segmentation_new. intros H.
  destruct source_images as [| src_img rest]; [discriminate |].
  destruct (forallb (same_series_and_size src_img) (src_img :: rest))
    eqn:Hsame; [| discriminate].
  destruct (negb _); [| discriminate].
  destruct (supported_by_segmentation _); [| discriminate].
  cbv zeta in H.
  destruct (pa_shape _) as [| ? [| ? [| ? ?]]]; try discriminate.
  destruct (SegmentationTypeValues_of segmentation_type); [| discriminate].
  cbn [rbind] in H.
  match type of H with
  | rbind ?r _ = _ => destruct r as [[[[? ?] ?] ?] |]; [| discriminate]
  end.
  cbn [rbind] in H. inversion H; subst. clear H.
  unfold references_of.
  cbn [_source_images StudyInstanceUID ReferencedSeriesSequence
       StudiesContainingOtherReferencedInstancesSequence].
  split; [reflexivity |]. split.
  { intros img Himg. rewrite forallb_forall in Hsame.
    specialize (Hsame img Himg). unfold same_series_and_size in Hsame.
    repeat (apply andb_true_iff in Hsame; destruct Hsame as [Hsame ?]).
    apply String.eqb_eq in Hsame. now symmetry. }
  split.
  { assert (Hfirst : forall img, In img (src_img :: rest) ->
              src_SeriesInstanceUID img = src_SeriesInstanceUID src_img).
    { intros img Himg. rewrite forallb_forall in Hsame.
      specialize (Hsame img Himg). unfold same_series_and_size in Hsame.
      repeat (apply andb_true_iff in Hsame; destruct Hsame as [Hsame ?]).
      match goal with
      | E : String.eqb (src_SeriesInstanceUID _) _ = true |- _ =>
          apply String.eqb_eq in E; now symmetry
      end. }
    intros img img' Himg Himg'.
    rewrite (Hfirst img Himg), (Hfirst img' Himg'). reflexivity. }
  split; [reflexivity |].
  apply (referenced_series_items (src_img :: rest) [] []).
  - intros ? ? [].
  - intros ? [].
Qed.

Lemma references_of_static (source_images : list SourceImage)
    (s s' : Segmentation) :
  static s' = static s ->
  references_of source_images s -> references_of source_images s'.
Proof.
  intros Hst. unfold references_of. now use_static Hst.
Qed.

Lemma od_set_entries {V : Type} (k : string) (v : V) (d : list (string * V))
    (kv : string * V) :
  In kv (od_set k v d) -> In kv d \/ kv = (k, v).
Proof.
  induction d as [| [k' v'] d IH]; cbn [od_set].
  - intros [<- | []]. now right.
  - destruct (String.eqb k' k) eqn:Heq.
    + apply String.eqb_eq in Heq. subst k'.
      intros [<- | Hin]; [now right | left; now right].
    + intros [<- | Hin]; [left; now left |].
      destruct (IH Hin) as [H | H]; [left; now right | now right].
Qed.

Lemma fold_left_entries {A V : Type}
    (step : list (string * V) -> A -> list (string * V))
    (R : A -> string * V -> Prop) (l : list A) :
  (forall d a kv, In kv (step d a) -> In kv d \/ R a kv) ->
  forall d kv,
    In kv (fold_left step l d) ->
    In kv d \/ exists a, In a l /\ R a kv.
Proof.
  intros Hstep. induction l as [| a l IH]; intros d kv Hin;
    cbn [fold_left] in Hin.
  - now left.
  - destruct (IH _ _ Hin) as [H | (a' & Ha' & HR)].
    + destruct (Hstep _ _ _ H) as [H' | H']; [now left |].
      right. exists a. split; [now left | exact H'].
    + right. exists a'. split; [now right | exact HR].
Qed.

Lemma add_referenced_series_entries (study_uid : string)
    (d : list (string * (string * string * string)))
    (ref_series : ReferencedSeriesItem)
    (kv : string * (string * string * string)) :
  In kv (add_referenced_series study_uid d ref_series) ->
  In kv d
  \/ exists ref,
       In ref (ReferencedInstanceSequence ref_series)
       /\ kv = (ReferencedSOPInstanceUID ref,
                (study_uid, ref_SeriesInstanceUID ref_series,
                 ReferencedSOPInstanceUID ref)).
Proof.
  unfold add_referenced_series.
  apply (fold_left_entries
           (fun d ref_ins =>
              od_set (ReferencedSOPInstanceUID ref_ins)
                (study_uid, ref_SeriesInstanceUID ref_series,
                 ReferencedSOPInstanceUID ref_ins) d)
           (fun ref kv =>
              kv = (ReferencedSOPInstanceUID ref,
                    (study_uid, ref_SeriesInstanceUID ref_series,
                     ReferencedSOPInstanceUID ref)))).
  intros d' ref kv'. apply od_set_entries.
Qed.

(** The table [_build_luts] leaves is the one [_build_ref_instance_lut]
    builds. *)
Lemma _build_luts_ref_ins_lut (s self' : Segmentation) :
  _build_luts s = (self', Ok tt) ->
  _ref_ins_lut self' = _ref_ins_lut (fst (_build_ref_instance_lut s))
  /\ _source_sop_instance_uids self'
     = _source_sop_instance_uids (fst (_build_ref_instance_lut s))
  /\ static self' = static s.
Proof.
  intros Hbuild.
  pose proof (_build_luts_preserves_static s) as Hst.
  rewrite Hbuild in Hst. cbn [fst] in Hst.
  split; [| split; [| exact Hst]].
  - unfold _build_luts in Hbuild. apply bind_returns_inv in Hbuild.
    destruct Hbuild as (s1 & [] & Href & Hrest). rewrite Href. cbn [fst].
    match type of Hrest with
    | ?m s1 = _ =>
        assert (Hp : preserves _ref_ins_lut m)
          by (unfold _build_luts_frame, _get_src_uid_index; preserves_auto)
    end.
    specialize (Hp s1). rewrite Hrest in Hp. exact Hp.
  - unfold _build_luts in Hbuild. apply bind_returns_inv in Hbuild.
    destruct Hbuild as (s1 & [] & Href & Hrest). rewrite Href. cbn [fst].
    match type of Hrest with
    | ?m s1 = _ =>
        assert (Hp : preserves _source_sop_instance_uids m)
          by (unfold _build_luts_frame, _get_src_uid_index; preserves_auto)
    end.
    specialize (Hp s1). rewrite Hrest in Hp. exact Hp.
Qed.

Lemma constructed_references (ext : External) (self : Segmentation) :
  constructed ext self ->
  (exists source_images, references_of source_images self)
  /\ exists s, _build_luts s = (self, Ok tt).
Proof.
  assert (Hstep :
    forall pixels segment_descriptions plane_positions self0 self1,
      (exists source_images, references_of source_images self0) ->
      add_segments ext pixels segment_descriptions plane_positions self0
      = (self1, Ok tt) ->
      (exists source_images, references_of source_images self1)
      /\ exists s, _build_luts s = (self1, Ok tt)).
  { intros pixels segment_descriptions plane_positions self0 self1
      (source_images & Href) Hrun.
    destruct (add_segments_effect _ _ _ _ _ _ _ Hrun)
      as (? & ? & ? & ? & ? & ? & ? & ? & ? & s3 & _ & _ & _ & _ & _ & _
          & Hst & _ & _ & _ & _ & _ & Hluts & _).
    split.
    - exists source_images. eapply references_of_static; eauto.
    - exists s3. exact Hluts. }
  induction 1 as [source_images pixels segmentation_type
                    segment_descriptions fractional_type max_fractional_value
                    transfer_syntax_uid plane_orientation plane_positions
                    self Hinit
                 | self self' pixels segment_descriptions
                     plane_positions Hc IH Hrun].
  - destruct (Segmentation_init_inv _ _ _ _ _ _ _ _ _ _ _ Hinit)
      as (self0 & pixel_array1 & Hnew & Hrun).
    eapply Hstep; [| exact Hrun].
    exists source_images. eapply Segmentation_new_references. exact Hnew.
  - eapply Hstep; [| exact Hrun]. apply IH.
Qed.

(** X15. On every object built by the constructor, also after later
    [add_segments] calls that return, [get_source_sop_instances] lists the
    identifiers of the source images passed to the constructor: a triple is
    listed exactly when it is the Study, Series and SOP Instance UID of one
    of the source images, no triple is listed twice, and the third
    components are the keys [_source_sop_instance_uids] in their order. *)
Theorem constructed_source_sop_instances (ext : External)
    (self : Segmentation) :
  constructed ext self ->
  exists source_images,
    _source_images self = Some source_images
    /\ (forall triple,
          In triple (get_source_sop_instances self)
          <-> In triple (map source_instance_triple source_images))
    /\ NoDup (get_source_sop_instances self)
    /\ map snd (get_source_sop_instances self)
       = _source_sop_instance_uids self.
Proof.
  intros Hc.
  destruct (constructed_references ext self Hc)
    as ((source_images & Href) & s & Hluts).
  destruct (_build_luts_ref_ins_lut s self Hluts) as (Hlut & Huids & Hst).
  assert (Href_s : references_of source_images s).
  { eapply references_of_static; [| exact Href]. now symmetry. }
  destruct Href_s as (Hsrc & Hstudy & Hseries & Hnone & Hitems & Hcover).
  destruct (_build_ref_instance_lut_table s)
    as (lut & Hrun & Hnd & Hkeys & Hentries).
  rewrite Hrun in Hlut, Huids. cbn [fst] in Hlut, Huids.
  change (_ref_ins_lut
            (set_source_sop_instance_uids (map fst lut)
               (set_ref_ins_lut lut s))) with lut in Hlut.
  change (_source_sop_instance_uids
            (set_source_sop_instance_uids (map fst lut)
               (set_ref_ins_lut lut s))) with (map fst lut) in Huids.
  assert (Hfold : lut
                  = fold_left (add_referenced_series (StudyInstanceUID s))
                      (ReferencedSeriesSequence s) []).
  { unfold _build_ref_instance_lut in Hrun.
    cbv [bind get_self update ret] in Hrun. rewrite Hnone in Hrun.
    apply (f_equal (fun r => _ref_ins_lut (fst r))) in Hrun.
    cbn [fst] in Hrun. symmetry. exact Hrun. }
  assert (Hfrom : forall kv, In kv lut ->
            exists img, In img source_images
                        /\ kv = (src_SOPInstanceUID img,
                                 source_instance_triple img)).
  { intros kv Hkv. rewrite Hfold in Hkv.
    apply (fold_left_entries
             (add_referenced_series (StudyInstanceUID s))
             (fun ref_series kv =>
                exists ref,
                  In ref (ReferencedInstanceSequence ref_series)
                  /\ kv = (ReferencedSOPInstanceUID ref,
                           (StudyInstanceUID s,
                            ref_SeriesInstanceUID ref_series,
                            ReferencedSOPInstanceUID ref)))) in Hkv;
      [| intros d a kv'; apply add_referenced_series_entries].
    destruct Hkv as [[] | (ref_series & Hin & ref & Hr & ->)].
    destruct (Hitems ref_series ref Hin Hr) as (img & Himg & -> & Hs).
    exists img. split; [exact Himg |].
    unfold source_instance_triple, source_image_reference.
    cbn [ReferencedSOPInstanceUID].
    rewrite (Hstudy img Himg), Hs. reflexivity. }
  exists source_images.
  destruct (public_luts_static _ _ Hst) as (_ & _ & _ & Hsame).
  split; [rewrite Hsame; exact Hsrc |].
  unfold get_source_sop_instances. rewrite Hlut, Huids. split; [| split].
  - intros triple. rewrite !in_map_iff. split.
    + intros ([k v] & <- & Hkv).
      destruct (Hfrom _ Hkv) as (img & Himg & Heq).
      exists img. split; [| exact Himg]. inversion Heq. reflexivity.
    + intros (img & <- & Himg).
      destruct (Hcover img Himg) as (ref_series & Hin & Hr).
      assert (Hkey : In (src_SOPInstanceUID img) (map fst lut)).
      { apply Hkeys. unfold referenced_instance_uids.
        apply in_app_iff. left. apply in_flat_map.
        exists ref_series. split; [exact Hin |].
        unfold series_instance_uids. apply in_map_iff.
        exists (source_image_reference img). split; [reflexivity | exact Hr]. }
      apply in_map_iff in Hkey. destruct Hkey as ([k v] & Hk & Hkv).
      cbn [fst] in Hk. subst k.
      exists (src_SOPInstanceUID img, v). split; [| exact Hkv].
      destruct (Hfrom _ Hkv) as (img' & Himg' & Heq).
      inversion Heq as [[Huid Hv]]. cbn [snd].
      unfold source_instance_triple.
      rewrite <- Huid, (Hstudy img Himg), (Hstudy img' Himg'),
        (Hseries img' img Himg' Himg). reflexivity.
  - apply (NoDup_map_inv (fun triple : string * string * string =>
                            snd triple)).
    replace (map (fun triple : string * string * string => snd triple)
               (map snd lut)) with (map fst lut); [exact Hnd |].
    clear - Hentries. induction Hentries as [| kv l Hkv Hl IH];
      [reflexivity |].
    cbn [map]. now rewrite Hkv, IH.
  - clear - Hentries. induction Hentries as [| kv l Hkv Hl IH];
      [reflexivity |].
    cbn [map]. now rewrite Hkv, IH.
Qed.

Lemma constructed_source_sop_instances_witness :
  exists self,
    fractional_example = Ok self
    /\ get_source_sop_instances self
       = [("1.2.3", "1.2.3.1", "1.2.3.1.1"); ("1.2.3", "1.2.3.1", "1.2.3.1.2")]
    /\ exists source_images,
         _source_images self = Some source_images
         /\ (forall triple,
               In triple (get_source_sop_instances self)
               <-> In triple (map source_instance_triple source_images))
         /\ NoDup (get_source_sop_instances self)
         /\ map snd (get_source_sop_instances self)
            = _source_sop_instance_uids self.
Proof.
  eexists. split; [vm_compute; reflexivity |].
  split; [reflexivity |].
  apply (constructed_source_sop_instances plain_codecs).
  apply (constructed_init plain_codecs
           [ct_image "1.2.3.1.1" 1 1 0; ct_image "1.2.3.1.2" 1 1 1]
           (FloatPixels np_float64 [2; 1; 1]%nat
               [float_value np_float64 1 0; float_value np_float64 0 0])
           "FRACTIONAL" [description 1] "PROBABILITY" 255
           ImplicitVRLittleEndian None None).
  vm_compute. reflexivity.
Defined.

(** ** From the constructor to the queries by source instance *)

(** The frame items a call appends, in order: one per kept plane of every
    described segment. *)
Lemma add_segments_frame_keys (ext : External) (pixels : PixelArray)
    (segment_descriptions : list SegmentDescription)
    (plane_positions : option (list PlanePositionSequence))
    (self self' : Segmentation)
    (source_images : list SourceImage) (pixel_array2 : PixelArray)
    (source_plane_positions positions : list PlanePositionSequence)
    (values : list (list (list Z))) (plane_sort_index : list nat) :
  add_segments ext pixels segment_descriptions plane_positions self
  = (self', Ok tt) ->
  _source_images self = Some source_images ->
  validation self pixels segment_descriptions = Ok pixel_array2 ->
  resolve_plane_positions source_images pixel_array2 plane_positions
  = Ok (source_plane_positions, positions) ->
  get_index_values (DimensionIndexSequence_of self) positions
  = Ok (values, plane_sort_index) ->
  exists items,
    PerFrameFunctionalGroupsSequence self'
    = PerFrameFunctionalGroupsSequence self ++ items
    /\ map frame_key items
       = map (fun dj => (SegmentNumber (fst dj), nth (snd dj) positions []))
           (kept_pairs self pixel_array2 plane_sort_index
              segment_descriptions).
Proof.
  intros Hrun Hsrc Hval Hres Hidx.
  destruct (add_segments_returns_inv _ _ _ _ _ _ _ Hrun)
    as (source_images' & pixel_array2' & source_plane_positions'
        & positions' & values' & plane_sort_index' & positions_equal
        & dimension_position_values & encoding & s1 & encoding' & s2 & s3
        & Hsrc' & Hval' & Hres' & Hidx' & Hprep & Hloop & Hfin & Hluts).
  rewrite Hsrc in Hsrc'. injection Hsrc' as <-.
  rewrite Hval in Hval'. injection Hval' as <-.
  rewrite Hres in Hres'. injection Hres' as <- <-.
  rewrite Hidx in Hidx'. injection Hidx' as <- <-.
  destruct (prepare_encoding_spec _ _ _ _ Hprep) as (Hst1 & Hframes1 & _).
  apply add_segments_loop_spec with (self0 := self) in Hloop;
    [| exact Hst1].
  destruct Hloop as (_ & (items & Hitems & Hkeys & _) & _).
  destruct (finish_encoding_spec _ _ _ _ _ Hfin) as (_ & Hframes3 & _).
  pose proof (_build_luts_preserves_frames s3) as Hb.
  rewrite Hluts in Hb. cbn [fst] in Hb. injection Hb as Hframes' _ _ _ _.
  exists items. split.
  - rewrite Hframes', Hframes3, Hitems, Hframes1. reflexivity.
  - rewrite Hkeys. unfold kept_pairs.
    clear. induction segment_descriptions as [| d l IH]; [reflexivity |].
    cbn [flat_map]. rewrite map_app, IH, map_map. reflexivity.
Qed.

(** Planes at different sorted indices are at different positions. *)
Lemma plane_sort_index_positions (self : list Keyword)
    (positions : list PlanePositionSequence)
    (values : list (list (list Z))) (plane_sort_index : list nat)
    (j j' : nat) :
  get_index_values self positions = Ok (values, plane_sort_index) ->
  In j plane_sort_index -> In j' plane_sort_index ->
  nth j positions [] = nth j' positions [] -> j = j'.
Proof.
  intros Hidx Hj Hj' Heq.
  destruct (get_index_values_length _ _ _ _ Hidx) as [Hlen Hpsi].
  unfold get_index_values in Hidx.
  destruct (mapM (fun p => mapM (get_value p) (tl self)) positions)
    as [vs |] eqn:Hvs; [| discriminate].
  cbn [rbind] in Hidx.
  destruct (np_unique_rows (map (@List.concat Z) vs)) as [urows idx].
  injection Hidx as <- _.
  apply mapM_Forall2 in Hvs.
  destruct (np_unique_rows_indices (map (@List.concat Z) vs))
    as (Hfirst & _ & Hsorted & _).
  rewrite <- Hpsi in Hfirst, Hsorted.
  destruct (Hfirst j Hj) as [Hjn _]. destruct (Hfirst j' Hj') as [Hjn' _].
  rewrite length_map in Hjn, Hjn'.
  assert (Hrow : forall k, (k < List.length vs)%nat ->
            mapM (get_value (nth k positions [])) (tl self)
            = Ok (nth k vs [])).
  { intros k Hk.
    assert (Hkp : (k < List.length positions)%nat) by lia.
    destruct (nth_error positions k) as [p |] eqn:Hp;
      [| apply nth_error_None in Hp; lia].
    destruct (Forall2_nth_error_l _ _ _ _ _ Hvs Hp) as (v & Hv & Hpv).
    rewrite (nth_error_nth _ _ _ Hp), (nth_error_nth _ _ _ Hv).
    exact Hpv. }
  assert (Hsame : nth j (map (@List.concat Z) vs) []
                  = nth j' (map (@List.concat Z) vs) []).
  { change (@nil Z) with (List.concat (@nil (list Z))).
    rewrite !map_nth.
    pose proof (Hrow j Hjn) as H1. pose proof (Hrow j' Hjn') as H2.
    rewrite Heq in H1. rewrite H1 in H2. injection H2 as ->. reflexivity. }
  destruct (Nat.eq_dec j j') as [E | Hne]; [exact E | exfalso].
  assert (Hnd : forall l, StronglySorted
              (fun i k => lex_compare (nth i (map (@List.concat Z) vs) [])
                            (nth k (map (@List.concat Z) vs) []) = Lt) l ->
            In j l -> In j' l -> False).
  { induction 1 as [| x l Hl IH Hx]; intros Hin Hin'; [destruct Hin |].
    rewrite Forall_forall in Hx.
    destruct Hin as [<- | Hin], Hin' as [<- | Hin'].
    - congruence.
    - specialize (Hx _ Hin'). rewrite Hsame in Hx.
      now apply lex_compare_lt_irrefl in Hx.
    - specialize (Hx _ Hin). rewrite Hsame in Hx.
      now apply lex_compare_lt_irrefl in Hx.
    - now apply IH. }
  exact (Hnd _ Hsorted Hj Hj').
Qed.

Lemma Keyword_eqb_refl (k : Keyword) : Keyword_eqb k k = true.
Proof. destruct k; reflexivity. Qed.

Lemma PlanePosition_eqb_refl (p : PlanePositionSequence) :
  PlanePosition_eqb p p = true.
Proof.
  induction p as [| [k v] p IH]; [reflexivity |].
  cbn [PlanePosition_eqb]. rewrite Keyword_eqb_refl, IH.
  replace (list_Z_eqb v v) with true
    by (symmetry; apply list_Z_eqb_eq; reflexivity).
  reflexivity.
Qed.

Lemma all_positions_equal_refl (positions : list PlanePositionSequence) :
  all_positions_equal positions positions = Ok true.
Proof.
  induction positions as [| p positions IH]; [reflexivity |].
  cbn [all_positions_equal]. now rewrite PlanePosition_eqb_refl.
Qed.

(** The positions of the planes when the constructor is called for a series
    of single-frame images without plane positions. *)
Lemma resolve_plane_positions_series (source_images : list SourceImage)
    (pixels : PixelArray)
    (source_plane_positions positions : list PlanePositionSequence) :
  Forall (fun img => src_NumberOfFrames img = None) source_images ->
  resolve_plane_positions source_images pixels None
  = Ok (source_plane_positions, positions) ->
  source_plane_positions = positions
  /\ positions
     = map (fun img => [(ImagePositionPatient, src_ImagePositionPatient img)])
         source_images
  /\ hd 0%nat (pa_shape pixels) = List.length source_images.
Proof.
  intros Hsingle. unfold resolve_plane_positions.
  destruct source_images as [| src_image rest]; [discriminate |].
  inversion Hsingle as [| ? ? Hfirst _]; subst. rewrite Hfirst.
  unfold get_plane_positions_of_series.
  destruct (negb (existsb _ (src_image :: rest))); [| discriminate].
  cbn [rbind].
  destruct (_ =? _)%nat eqn:Hn; [| discriminate].
  apply Nat.eqb_eq in Hn.
  intros H. injection H as <- <-.
  rewrite length_map in Hn. auto.
Qed.

Lemma positions_of_series_nth (source_images : list SourceImage)
    (j j' : nat) :
  NoDup (map src_ImagePositionPatient source_images) ->
  (j < List.length source_images)%nat ->
  (j' < List.length source_images)%nat ->
  nth j (map (fun img =>
                [(ImagePositionPatient, src_ImagePositionPatient img)])
           source_images) []
  = nth j' (map (fun img =>
                   [(ImagePositionPatient, src_ImagePositionPatient img)])
              source_images) [] ->
  j = j'.
Proof.
  intros Hnd Hj Hj' Heq.
  destruct (nth_error source_images j) as [img |] eqn:Himg;
    [| apply nth_error_None in Himg; lia].
  destruct (nth_error source_images j') as [img' |] eqn:Himg';
    [| apply nth_error_None in Himg'; lia].
  rewrite (nth_error_nth _ _ _ (map_nth_error _ _ _ Himg)),
    (nth_error_nth _ _ _ (map_nth_error _ _ _ Himg')) in Heq.
  injection Heq as Heq.
  rewrite NoDup_nth_error in Hnd. apply Hnd.
  - now rewrite length_map.
  - rewrite (map_nth_error _ _ _ Himg), (map_nth_error _ _ _ Himg').
    now rewrite Heq.
Qed.

(** The frame item [add_segments] makes for plane [j] when the planes are at
    the positions of single-frame source images. *)
Lemma frame_added_of_source (self : Segmentation)
    (source_images : list SourceImage)
    (positions : list PlanePositionSequence)
    (values : list (list (list Z))) (plane_sort_index : list nat)
    (dimension_position_values : list (list (list Z)))
    (segment_descriptions : list SegmentDescription)
    (frame_item : FrameItem) (segment_number : Z) (j : nat) :
  SourceImageSequence self = map source_image_reference source_images ->
  (List.length plane_sort_index <= List.length source_images)%nat ->
  (forall j', In j' plane_sort_index ->
     nth j' positions [] = nth j positions [] -> j' = j) ->
  frame_added self source_images positions values plane_sort_index
    dimension_position_values true segment_descriptions frame_item ->
  frame_key frame_item = (segment_number, nth j positions []) ->
  frame_of_source segment_number
    (nth j (map src_SOPInstanceUID source_images) "") frame_item
  /\ (j < List.length source_images)%nat.
Proof.
  intros Hseq Hlen Hinj
    (description & j' & index_values & derivation & _ & Hj' & _
     & (der & Hder & ->) & ->) Hkey.
  unfold frame_key in Hkey.
  cbn [ReferencedSegmentNumber_of PlanePosition] in Hkey.
  injection Hkey as Hseg Hpos.
  apply Hinj in Hpos; [| exact Hj']. subst j'.
  unfold derivation_of in Hder.
  replace (List.length source_images <? List.length plane_sort_index)%nat
    with false in Hder by (symmetry; apply Nat.ltb_ge; exact Hlen).
  rewrite Hseq in Hder.
  destruct (nth_error (map source_image_reference source_images) j)
    as [src_img_item |] eqn:Hnth; [| discriminate].
  injection Hder as <-.
  assert (Hjn : (j < List.length source_images)%nat).
  { assert (Hsome : nth_error (map source_image_reference source_images) j
                     <> None) by congruence.
    apply nth_error_Some in Hsome. now rewrite length_map in Hsome. }
  split; [| exact Hjn].
  destruct (nth_error source_images j) as [img |] eqn:Himg;
    [| apply nth_error_None in Himg; lia].
  rewrite (map_nth_error _ _ _ Himg) in Hnth. injection Hnth as <-.
  rewrite (nth_error_nth _ _ _ (map_nth_error _ _ _ Himg)).
  unfold frame_of_source, frame_source_instances_of, frame_source_frames_of,
    frame_locations_preserved_of, frame_source_images.
  cbn. auto.
Qed.

Lemma Forall2_common {A B C : Type} (P : A -> B -> Prop) (Q : A -> C -> Prop)
    (l : list A) (a : list B) (b : list C) :
  Forall2 P l a -> Forall2 Q l b ->
  Forall2 (fun x y => exists z, P z x /\ Q z y) a b.
Proof.
  intros HP. revert b. induction HP as [| z x l a Hzx _ IH]; intros b HQ;
    inversion HQ; subst; constructor; eauto.
Qed.

Lemma frame_of_source_single (segment_number : Z) (uid : string)
    (frame_item : FrameItem) :
  frame_of_source segment_number uid frame_item ->
  no_single_source_frame frame_item = false.
Proof.
  intros (_ & Hinst & Hframes & _).
  apply no_single_source_frame_false. unfold single_source_frame.
  rewrite Hinst, Hframes. cbn [hd].
  split; [discriminate |]. split; [discriminate |].
  split; intros x [<- | []]; reflexivity.
Qed.

Lemma references_of_referenced (source_images : list SourceImage)
    (s : Segmentation) (j : nat) :
  references_of source_images s ->
  (j < List.length source_images)%nat ->
  In (nth j (map src_SOPInstanceUID source_images) "")
    (referenced_instance_uids s).
Proof.
  intros (_ & _ & _ & _ & _ & Hcover) Hj.
  destruct (nth_error source_images j) as [img |] eqn:Himg;
    [| apply nth_error_None in Himg; lia].
  rewrite (nth_error_nth _ _ _ (map_nth_error _ _ _ Himg)).
  destruct (Hcover img (nth_error_In _ _ Himg)) as (ref_series & Hin & Hr).
  unfold referenced_instance_uids. apply in_app_iff. left.
  apply in_flat_map. exists ref_series. split; [exact Hin |].
  unfold series_instance_uids. apply in_map_iff.
  exists (source_image_reference img). split; [reflexivity | exact Hr].
Qed.

(** *** Lists of chunks and rows *)

Lemma nth_concat_chunks {A : Type} (chunks : list (list A)) (size k p : nat)
    (d : A) :
  Forall (fun c => List.length c = size) chunks -> (p < size)%nat ->
  nth (k * size + p) (List.concat chunks) d = nth p (nth k chunks []) d.
Proof.
  intros Hall Hp. revert k.
  induction Hall as [| c chunks Hc _ IH]; intros k.
  - cbn [List.concat].
    replace (nth k (@nil (list A)) []) with (@nil A) by (now destruct k).
    destruct (k * size + p)%nat, p; reflexivity.
  - cbn [List.concat]. destruct k as [| k]; cbn [nth].
    + rewrite app_nth1 by lia. reflexivity.
    + rewrite app_nth2 by lia. rewrite <- IH. f_equal. lia.
Qed.

Lemma nth_plane_at (size j p : nat) (data : list Z) :
  (p < size)%nat ->
  nth p (plane_at size j data) 0 = nth (j * size + p) data 0.
Proof.
  intros Hp. unfold plane_at.
  rewrite nth_firstn.
  replace (p <? size)%nat with true by (symmetry; apply Nat.ltb_lt; exact Hp).
  rewrite nth_skipn. reflexivity.
Qed.

Lemma sum_Z_zero (l : list Z) (k : nat) :
  Forall (fun v => 0 <= v) l -> sum_Z l = 0 -> nth k l 0 = 0.
Proof.
  intros Hl Hsum. pose proof (sum_Z_ge_nth l k Hl) as Hle.
  assert (Hk : 0 <= nth k l 0).
  { destruct (nth_in_or_default k l 0) as [Hin | ->]; [| lia].
    rewrite Forall_forall in Hl. now apply Hl. }
  lia.
Qed.

Lemma fold_left_min_in (rest : list Z) (x : Z) :
  In (fold_left Z.min rest x) (x :: rest).
Proof.
  revert x. induction rest as [| z rest IH]; intros x; cbn [fold_left].
  - now left.
  - destruct (IH (Z.min x z)) as [Heq | Hin]; [| right; now right].
    destruct (Z.min_spec x z) as [[_ Hm] | [_ Hm]]; rewrite Hm in *.
    + left. exact Heq.
    + right. left. exact Heq.
Qed.

(** [np.where] on the rows of a table without repeated rows. *)
Lemma rows_matching_from (lut : list (list Z)) (qry : list Z) (start : nat) :
  NoDup lut ->
  (forall k, nth_error lut k = Some qry ->
     np_where (map (fun row => list_Z_eqb row qry) lut) start
     = [(start + k)%nat])
  /\ (~ In qry lut ->
      np_where (map (fun row => list_Z_eqb row qry) lut) start = []).
Proof.
  intros Hnd. revert start.
  induction Hnd as [| row lut Hrow Hnd IH]; intros start.
  - split; [intros [| k] H; discriminate | reflexivity].
  - destruct (IH (S start)) as [IHin IHout].
    cbn [map np_where].
    destruct (list_Z_eqb row qry) eqn:Heq.
    + apply list_Z_eqb_eq in Heq. subst row. split.
      * intros [| k] Hk.
        -- rewrite IHout by exact Hrow. now rewrite Nat.add_0_r.
        -- cbn [nth_error] in Hk. apply nth_error_In in Hk. contradiction.
      * intros Hnot. exfalso. apply Hnot. now left.
    + assert (Hne : row <> qry).
      { intros ->.
        assert (H : list_Z_eqb qry qry = true)
          by (apply list_Z_eqb_eq; reflexivity).
        congruence. }
      split.
      * intros [| k] Hk; cbn [nth_error] in Hk; [congruence |].
        rewrite (IHin k Hk). f_equal. lia.
      * intros Hnot. apply IHout. intros Hin. apply Hnot. now right.
Qed.

Lemma seg_frame_entry_unique (lut : list (list Z)) (qry : list Z) :
  NoDup lut ->
  (forall k, nth_error lut k = Some qry ->
     seg_frame_entry lut qry = Ok (Z.of_nat k + 1))
  /\ (~ In qry lut -> seg_frame_entry lut qry = Ok (-1)).
Proof.
  intros Hnd. unfold seg_frame_entry, rows_matching.
  destruct (rows_matching_from lut qry 0 Hnd) as [Hin Hout]. split.
  - intros k Hk. rewrite (Hin k Hk). reflexivity.
  - intros Hnot. rewrite (Hout Hnot). reflexivity.
Qed.

Lemma lut_column_rows (lut : list (list Z)) (col : nat) :
  Forall (fun row => (col < List.length row)%nat) lut ->
  lut_column lut col = Ok (map (fun row => nth col row 0) lut).
Proof.
  unfold lut_column. induction 1 as [| row lut Hrow _ IH]; [reflexivity |].
  cbn [mapM map]. rewrite IH.
  destruct (nth_error row col) as [v |] eqn:Hv;
    [| apply nth_error_None in Hv; lia].
  cbn [rbind]. rewrite (nth_error_nth _ _ _ Hv). reflexivity.
Qed.

Lemma unique_rows_length (rows : list (list Z)) :
  NoDup rows ->
  List.length (fst (np_unique_rows rows)) = List.length rows.
Proof.
  intros Hnd.
  destruct (np_unique_rows_indices rows) as (_ & _ & _ & ->).
  rewrite length_map.
  rewrite (Permutation_length (np_unique_rows_permutation rows Hnd)).
  apply length_seq.
Qed.

Lemma mapM_Ok {A B : Type} (f : A -> result B) (g : A -> B) (l : list A) :
  (forall x, In x l -> f x = Ok (g x)) -> mapM f l = Ok (map g l).
Proof.
  induction l as [| x l IH]; intros H; [reflexivity |].
  cbn [mapM map]. rewrite (H x (or_introl eq_refl)). cbn [rbind].
  rewrite IH by (intros y Hy; apply H; now right). reflexivity.
Qed.

Lemma kept_samples_chunks (self : Segmentation) (pixel_array : PixelArray)
    (plane_sort_index : list nat)
    (segment_descriptions : list SegmentDescription) :
  forall samples,
    mapM (kept_planes_samples self pixel_array plane_sort_index)
      segment_descriptions = Ok samples ->
    List.concat samples
    = List.concat
        (map (fun dj =>
                plane_at (Rows self * Columns self) (snd dj)
                  (planes_data self pixel_array (fst dj)))
           (kept_pairs self pixel_array plane_sort_index
              segment_descriptions)).
Proof.
  unfold kept_pairs.
  induction segment_descriptions as [| d l IH]; intros samples H.
  - inversion H. reflexivity.
  - cbn [mapM] in H.
    destruct (kept_planes_samples self pixel_array plane_sort_index d)
      as [s |] eqn:Hs; [| discriminate].
    cbn [rbind] in H.
    destruct (mapM _ l) as [rest |]; [| discriminate].
    cbn [rbind] in H. injection H as <-.
    cbn [List.concat flat_map]. rewrite map_app, concat_app, <- (IH rest eq_refl).
    f_equal. unfold kept_planes_samples in Hs.
    destruct (planes_of self pixel_array (SegmentNumber d))
      as [[planes_dtype planes] |] eqn:Hp; [| discriminate].
    cbn [rbind] in Hs. injection Hs as <-.
    rewrite map_map, flat_map_concat_map. f_equal.
    apply map_ext. intros j. unfold planes_data. cbn [fst snd].
    rewrite Hp. reflexivity.
Qed.

(** The values of the planes of a series of single-frame images. *)
Lemma get_index_values_series (coordinate_system : CoordinateSystemNames)
    (source_images : list SourceImage)
    (values : list (list (list Z))) (plane_sort_index : list nat) :
  get_index_values (DimensionIndexSequence coordinate_system)
    (map (fun img => [(ImagePositionPatient, src_ImagePositionPatient img)])
       source_images)
  = Ok (values, plane_sort_index) ->
  source_images <> [] ->
  values = map (fun img => [src_ImagePositionPatient img]) source_images.
Proof.
  unfold get_index_values. intros H Hne.
  destruct (mapM _ _) as [vs |] eqn:Hvs; [| discriminate].
  cbn [rbind] in H. destruct (np_unique_rows _). injection H as <- _.
  destruct coordinate_system.
  - cbn [DimensionIndexSequence tl] in Hvs.
    rewrite (mapM_Ok _ (fun p : PlanePositionSequence =>
                          [match p with
                           | (_, v) :: _ => v
                           | [] => @nil Z
                           end])) in Hvs.
    + injection Hvs as <-. rewrite map_map. reflexivity.
    + intros p Hp. apply in_map_iff in Hp. destruct Hp as (img & <- & _).
      reflexivity.
  - destruct source_images as [| img rest]; [congruence |].
    cbn in Hvs. discriminate.
Qed.

Lemma Forall2_in_left {A B : Type} (R : A -> B -> Prop) (l : list A)
    (l' : list B) (x : A) :
  Forall2 R l l' -> In x l -> exists y, In y l' /\ R x y.
Proof.
  induction 1 as [| a b l l' Hab _ IH]; intros Hin; [destruct Hin |].
  destruct Hin as [-> | Hin].
  - exists b. split; [now left | exact Hab].
  - destruct (IH Hin) as (y & Hy & Hxy). exists y. split; [now right | exact Hxy].
Qed.

Lemma NoDup_flat_map_pairs {A B : Type} (f : A -> list B) (l : list A) :
  NoDup l -> (forall x, In x l -> NoDup (f x)) ->
  NoDup (flat_map (fun x => map (pair x) (f x)) l).
Proof.
  induction l as [| x l IH]; intros Hnd Hf; [constructor |].
  inversion Hnd as [| ? ? Hx Hl]; subst. cbn [flat_map].
  apply NoDup_app.
  - assert (Hfx : NoDup (f x)) by (apply Hf; now left).
    induction Hfx as [| y ys Hy _ IHy]; [constructor |].
    cbn [map]. constructor; [| exact IHy].
    intros Hin. apply in_map_iff in Hin. destruct Hin as (y' & Heq & Hy').
    injection Heq as ->. contradiction.
  - apply IH; [exact Hl |]. intros y Hy. apply Hf. now right.
  - intros [x' y] Hin Hin'. apply in_map_iff in Hin.
    destruct Hin as (y' & Heq & _). injection Heq as <- _.
    apply in_flat_map in Hin'. destruct Hin' as (x'' & Hx'' & Hin').
    apply in_map_iff in Hin'. destruct Hin' as (y'' & Heq & _).
    injection Heq as -> _. contradiction.
Qed.

Lemma nth_map_seq {A : Type} (g : nat -> A) (n k : nat) (d : A) :
  (k < n)%nat -> nth k (map g (seq 0 n)) d = g k.
Proof.
  intros Hk. rewrite (nth_indep _ d (g 0%nat)) by now rewrite length_map, length_seq.
  rewrite (map_nth g (seq 0 n) 0%nat k), seq_nth by exact Hk. reflexivity.
Qed.

(** The sample of an output array at frame [f], pixel [p] and segment [s]. *)
Lemma nth_cells (g : nat -> nat -> nat -> Z) (frames size segments : nat)
    (f p s : nat) :
  (f < frames)%nat -> (p < size)%nat -> (s < segments)%nat ->
  nth ((f * size + p) * segments + s)
    (flat_map (@List.concat Z)
       (map (fun f =>
               map (fun p => map (g f p) (seq 0 segments)) (seq 0 size))
          (seq 0 frames))) 0
  = g f p s.
Proof.
  intros Hf Hp Hs. rewrite flat_map_concat_map.
  replace ((f * size + p) * segments + s)%nat
    with (f * (size * segments) + (p * segments + s))%nat by lia.
  rewrite (nth_concat_chunks _ (size * segments)).
  - rewrite (nth_indep _ [] (List.concat [])),
      (map_nth (@List.concat Z)), nth_map_seq by
      (rewrite ?length_map, ?length_map, ?length_seq; exact Hf).
    rewrite (nth_concat_chunks _ segments).
    + rewrite nth_map_seq by exact Hp. apply nth_map_seq. exact Hs.
    + apply Forall_forall. intros c Hc. apply in_map_iff in Hc.
      destruct Hc as (q & <- & _). now rewrite length_map, length_seq.
    + exact Hs.
  - apply Forall_forall. intros c Hc. apply in_map_iff in Hc.
    destruct Hc as (c' & <- & Hc'). apply in_map_iff in Hc'.
    destruct Hc' as (q & <- & _).
    assert (Hlen : forall l : list nat,
              List.length
                (List.concat
                   (map (fun p => map (g q p) (seq 0 segments)) l))
              = (List.length l * segments)%nat).
    { induction l as [| x l IH]; [reflexivity |].
      cbn [map List.concat]. rewrite length_app, IH, length_map, length_seq.
      cbn [List.length]. lia. }
    rewrite Hlen, length_seq. reflexivity.
  - nia.
Qed.

Lemma combine_map_same {A B C : Type} (f : A -> B) (g : A -> C)
    (l : list A) :
  combine (map f l) (map g l) = map (fun x => (f x, g x)) l.
Proof.
  induction l as [| x l IH]; [reflexivity |]. cbn [map combine].
  now rewrite IH.
Qed.

Lemma mapM_exists {A B : Type} (f : A -> result B) (P : A -> B -> Prop)
    (l : list A) :
  (forall x, In x l -> exists y, f x = Ok y /\ P x y) ->
  exists ys, mapM f l = Ok ys /\ Forall2 P l ys.
Proof.
  induction l as [| x l IH]; intros H.
  - exists []. split; [reflexivity | constructor].
  - destruct (H x (or_introl eq_refl)) as (y & Hy & Hxy).
    destruct IH as (ys & Hys & Hall); [intros z Hz; apply H; now right |].
    exists (y :: ys). cbn [mapM]. rewrite Hy. cbn [rbind]. rewrite Hys.
    split; [reflexivity | now constructor].
Qed.

Lemma Forall2_nth_both {A B : Type} (R : A -> B -> Prop) (l : list A)
    (l' : list B) (k : nat) (x : A) :
  Forall2 R l l' -> nth_error l k = Some x ->
  exists y, nth_error l' k = Some y /\ R x y.
Proof.
  intros H. revert k. induction H as [| a b l l' Hab _ IH]; intros [| k] Hk;
    try discriminate.
  - injection Hk as <-. exists b. split; [reflexivity | exact Hab].
  - apply IH. exact Hk.
Qed.

Lemma Forall2_nth_right {A B : Type} (R : A -> B -> Prop) (l : list A)
    (l' : list B) (k : nat) (y : B) :
  Forall2 R l l' -> nth_error l' k = Some y ->
  exists x, nth_error l k = Some x /\ R x y.
Proof.
  intros H. revert k. induction H as [| a b l l' Hab _ IH]; intros [| k] Hk;
    try discriminate.
  - injection Hk as <-. exists a. split; [reflexivity | exact Hab].
  - apply IH. exact Hk.
Qed.

Lemma Forall2_NoDup {A B : Type} (R : A -> B -> Prop) (l : list A)
    (l' : list B) :
  Forall2 R l l' -> NoDup l' ->
  (forall x y y', In y l' -> In y' l' -> R x y -> R x y' -> y = y') ->
  NoDup l.
Proof.
  induction 1 as [| a b l l' Hab Hall IH]; intros Hnd Hinj; [constructor |].
  inversion Hnd as [| ? ? Hb Hl']; subst. constructor.
  - intros Ha. destruct (Forall2_in_left _ _ _ _ Hall Ha) as (b' & Hb' & Hab').
    apply Hb.
    rewrite (Hinj a b b' (or_introl eq_refl) (or_intror Hb') Hab Hab').
    exact Hb'.
  - apply IH; [exact Hl' |]. intros x y y' Hy Hy'. apply Hinj; now right.
Qed.

Lemma NoDup_map_injective {A B : Type} (f : A -> B) (l : list A) :
  (forall x y, f x = f y -> x = y) -> NoDup l -> NoDup (map f l).
Proof.
  intros Hinj. induction 1 as [| x l Hx _ IH]; [constructor |].
  cbn [map]. constructor; [| exact IH].
  intros Hin. apply in_map_iff in Hin. destruct Hin as (y & Heq & Hy).
  apply Hinj in Heq. subst y. contradiction.
Qed.

Lemma numbers_to_nth (n s : nat) :
  (s < n)%nat -> nth_error (numbers_to n) s = Some (Z.of_nat (S s)).
Proof.
  intros Hs. unfold numbers_to.
  rewrite nth_error_map, (nth_error_nth' _ 0%nat) by now rewrite length_seq.
  rewrite seq_nth by exact Hs. reflexivity.
Qed.

Lemma mapM_map {A B C : Type} (f : B -> result C) (g : A -> B) (l : list A) :
  mapM f (map g l) = mapM (fun x => f (g x)) l.
Proof.
  induction l as [| x l IH]; [reflexivity |]. cbn [map mapM].
  now rewrite IH.
Qed.

Lemma numbers_to_bounds (n : nat) :
  n <> 0%nat ->
  exists lowest highest,
    min_Z (numbers_to n) = Ok lowest /\ max_Z (numbers_to n) = Ok highest
    /\ 1 <= lowest /\ highest <= Z.of_nat n.
Proof.
  intros Hn.
  assert (Hall : forall v, In v (numbers_to n) -> 1 <= v <= Z.of_nat n).
  { intros v Hv. unfold numbers_to in Hv. apply in_map_iff in Hv.
    destruct Hv as (k & <- & Hk). apply in_seq in Hk. lia. }
  destruct (numbers_to n) as [| x rest] eqn:Hnum.
  - apply (f_equal (@List.length Z)) in Hnum.
    rewrite length_numbers_to in Hnum. cbn in Hnum. congruence.
  - exists (fold_left Z.min rest x), (fold_left Z.max rest x).
    split; [reflexivity |]. split; [reflexivity |]. split.
    + apply (Hall _ (fold_left_min_in rest x)).
    + apply (Hall _ (proj1 (fold_left_max_is_max rest x))).
Qed.

Section ConstructorCall.

Variable ext : External.
Variable source_images : list SourceImage.
Variable segment_descriptions : list SegmentDescription.
Variables self0 self : Segmentation.
Variables pixel_array1 pixel_array2 : PixelArray.
Variable positions : list PlanePositionSequence.
Variable values : list (list (list Z)).
Variable plane_sort_index : list nat.

Hypothesis Hsingle :
  Forall (fun img => src_NumberOfFrames img = None) source_images.
Hypothesis Huids : NoDup (map src_SOPInstanceUID source_images).
Hypothesis Hfresh : fresh self0.
Hypothesis Hsrc : _source_images self0 = Some source_images.
Hypothesis Hrefs : references_of source_images self0.
Hypothesis Hseq :
  SourceImageSequence self0 = map source_image_reference source_images.
Hypothesis Horientation :
  _source_plane_orientation self0 = Some (_plane_orientation self0).
Hypothesis Hrun :
  add_segments ext pixel_array1 segment_descriptions None self0
  = (self, Ok tt).
Hypothesis Hval :
  validation self0 pixel_array1 segment_descriptions = Ok pixel_array2.
Hypothesis Hres :
  resolve_plane_positions source_images pixel_array2 None
  = Ok (positions, positions).
Hypothesis Hidx :
  get_index_values (DimensionIndexSequence_of self0) positions
  = Ok (values, plane_sort_index).

Let pairs :=
  kept_pairs self0 pixel_array2 plane_sort_index segment_descriptions.

Let uid (j : nat) : string := nth j (map src_SOPInstanceUID source_images) "".

Lemma constructor_positions :
  List.length positions = List.length source_images
  /\ (List.length plane_sort_index <= List.length source_images)%nat
  /\ Forall (fun j => (j < List.length source_images)%nat) plane_sort_index
  /\ NoDup plane_sort_index.
Proof.
  destruct (resolve_plane_positions_series _ _ _ _ Hsingle Hres)
    as (_ & Hpos & _).
  assert (Hlen : List.length positions = List.length source_images)
    by (rewrite Hpos; apply length_map).
  pose proof (plane_sort_index_bound _ _ _ _ Hidx) as Hbound.
  rewrite Hlen in Hbound.
  assert (Hnd : NoDup plane_sort_index).
  { destruct (get_index_values_length _ _ _ _ Hidx) as [_ ->].
    destruct (np_unique_rows_indices (map (@List.concat Z) values))
      as (_ & _ & Hsorted & _).
    eapply StronglySorted_NoDup; [| exact Hsorted].
    intros x. apply lex_compare_lt_irrefl. }
  split; [exact Hlen |]. split; [| split; assumption].
  replace (List.length source_images)
    with (List.length (seq 0 (List.length source_images)))
    by apply length_seq.
  apply NoDup_incl_length; [exact Hnd |].
  intros j Hj. apply in_seq.
  rewrite Forall_forall in Hbound. specialize (Hbound j Hj). lia.
Qed.

Lemma kept_pairs_in (d : SegmentDescription) (j : nat) :
  In (d, j) pairs ->
  In d segment_descriptions /\ In j plane_sort_index
  /\ (j < List.length source_images)%nat.
Proof.
  unfold pairs, kept_pairs. intros Hin. apply in_flat_map in Hin.
  destruct Hin as (d' & Hd' & Hin). apply in_map_iff in Hin.
  destruct Hin as (j' & Heq & Hj'). injection Heq as -> ->.
  unfold kept_planes in Hj'. apply filter_In in Hj'. destruct Hj' as [Hj _].
  split; [exact Hd' |]. split; [exact Hj |].
  destruct constructor_positions as (_ & _ & Hbound & _).
  rewrite Forall_forall in Hbound. now apply Hbound.
Qed.

(** The frame items of the new object, in the order of the kept planes. *)
Lemma constructor_frame_items :
  Forall2
    (fun frame_item dj =>
       frame_of_source (SegmentNumber (fst dj)) (uid (snd dj)) frame_item)
    (PerFrameFunctionalGroupsSequence self) pairs.
Proof.
  destruct (add_segments_frame_keys _ _ _ _ _ _ _ _ _ _ _ _ Hrun Hsrc Hval
              Hres Hidx) as (items & Hitems & Hkeys).
  destruct Hfresh as (_ & Hnone & _). rewrite Hnone in Hitems.
  cbn [app] in Hitems. rewrite Hitems. fold pairs in Hkeys.
  destruct (add_segments_effect _ _ _ _ _ _ _ Hrun)
    as (source_images' & pixel_array2' & source_plane_positions'
        & positions' & values' & plane_sort_index' & positions_equal
        & dimension_position_values & items' & s3 & Hsrc' & Hval' & Hres'
        & Hidx' & Heq & _ & _ & Hitems' & _ & Hadded & _).
  rewrite Hsrc in Hsrc'. injection Hsrc' as <-.
  rewrite Hval in Hval'. injection Hval' as <-.
  rewrite Hres in Hres'. injection Hres' as <- <-.
  rewrite Hidx in Hidx'. injection Hidx' as <- <-.
  rewrite Hnone in Hitems'. cbn [app] in Hitems'.
  rewrite Hitems in Hitems'. subst items'.
  rewrite all_positions_equal_refl in Heq. injection Heq as <-.
  rewrite Horientation in Hadded.
  replace (list_Z_eqb (_plane_orientation self0) (_plane_orientation self0))
    with true in Hadded by (symmetry; apply list_Z_eqb_eq; reflexivity).
  cbn [andb] in Hadded.
  destruct constructor_positions as (_ & Hlen & _ & _).
  assert (Hin : forall dj, In dj pairs -> In (snd dj) plane_sort_index).
  { intros [d j] Hdj. apply (kept_pairs_in d j Hdj). }
  clear Hitems. revert Hkeys Hadded Hin.
  generalize pairs. clear pairs.
  induction items as [| item items IH]; intros [| dj l] Hkeys Hadded Hin;
    try discriminate; [constructor |].
  cbn [map] in Hkeys. injection Hkeys as Hseg Hpos Hkeys.
  assert (Hkey : frame_key item
                 = (SegmentNumber (fst dj), nth (snd dj) positions []))
    by (unfold frame_key; now rewrite Hseg, Hpos).
  inversion Hadded as [| ? ? Hitem Hrest]; subst.
  constructor.
  - eapply (frame_added_of_source self0 source_images positions values
              plane_sort_index dimension_position_values
              segment_descriptions item (SegmentNumber (fst dj)) (snd dj)
              Hseq Hlen); [| exact Hitem | exact Hkey].
    intros j' Hj' Hsame.
    apply (plane_sort_index_positions _ _ _ _ j' (snd dj) Hidx Hj');
      [| exact Hsame].
    apply Hin. now left.
  - apply IH; [exact Hkeys | exact Hrest |].
    intros dj' Hdj'. apply Hin. now right.
Qed.

(** The lookup tables of the new object. *)
Lemma constructor_luts :
  _single_source_frame_per_seg_frame self = true
  /\ _locations_preserved self = Some Preserved_YES
  /\ _lut_seg_col self = Some 0%nat
  /\ _lut_src_instance_col self = Some 1%nat
  /\ NoDup (_source_sop_instance_uids self)
  /\ (forall j, (j < List.length source_images)%nat ->
        In (uid j) (_source_sop_instance_uids self))
  /\ exists rows,
       _frame_lut self = Some rows
       /\ Forall2
            (fun row dj =>
               exists i,
                 nth_error (_source_sop_instance_uids self) i
                 = Some (uid (snd dj))
                 /\ row = [SegmentNumber (fst dj); Z.of_nat i; -1])
            rows pairs.
Proof.
  pose proof constructor_frame_items as Hitems.
  destruct (add_segments_effect _ _ _ _ _ _ _ Hrun)
    as (? & ? & ? & ? & ? & ? & ? & ? & ? & s3 & _ & _ & _ & _ & _ & _
        & Hst & _ & _ & _ & _ & _ & Hluts & Hkept).
  destruct (kept_by_encoding_eq _ _ Hkept) as (Hst3 & Hframes3 & _).
  destruct (_build_luts_returns s3 self Hluts)
    as (_ & Hnd & Hkeys & Hlp & Hsingle' & _).
  rewrite Hframes3 in Hlp, Hsingle'.
  assert (Hall : Forall
            (fun frame_item => no_single_source_frame frame_item = false)
            (PerFrameFunctionalGroupsSequence self)).
  { clear - Hitems. induction Hitems as [| item dj l l' H _ IH];
      constructor; [| exact IH].
    eapply frame_of_source_single. exact H. }
  destruct (Hsingle' Hall) as (Hflag & Hc0 & Hc1 & _ & rows & Hrows & Hrel).
  split; [exact Hflag |]. split.
  { rewrite Hlp. cbv zeta. apply all_locations_preserved.
    clear - Hitems. induction Hitems as [| item dj l l' H _ IH];
      [constructor |].
    cbn [flat_map]. apply Forall_app. split; [| exact IH].
    destruct H as (_ & _ & _ & ->). repeat constructor. }
  split; [exact Hc0 |]. split; [exact Hc1 |]. split; [exact Hnd |].
  split.
  { intros j Hj. apply Hkeys.
    rewrite (static_referenced_instance_uids _ _ Hst3),
      (static_referenced_instance_uids _ _ Hst).
    apply references_of_referenced; assumption. }
  exists rows. split; [exact Hrows |].
  eapply Forall2_impl; [| exact (Forall2_common _ _ _ _ _ Hrel Hitems)].
  intros row dj (item & (i & Hi & ->) & (Hseg & Hinst & Hframes & _)).
  exists i. rewrite Hinst in Hi. cbn [hd] in Hi.
  split; [exact Hi |]. rewrite Hseg, Hframes. reflexivity.
Qed.



Hypothesis Hnative : is_encapsulated (TransferSyntaxUID self0) = false.
Hypothesis Hfmt : segmentation_format self0.
Hypothesis Hwf1 : pa_well_formed pixel_array1.
Hypothesis Hdis :
  DimensionIndexSequence_of self0
  = DimensionIndexSequence (_coordinate_system self0).
Hypothesis Hdistinct : NoDup (map src_ImagePositionPatient source_images).

Let size := (Rows self0 * Columns self0)%nat.

Let planes (d : SegmentDescription) : list Z :=
  planes_data self0 pixel_array2 d.

Lemma constructor_stored :
  static self = static self0
  /\ holds_samples self
       (List.concat (map (fun dj => plane_at size (snd dj) (planes (fst dj)))
                       pairs))
  /\ forall d, In d segment_descriptions ->
       List.length (planes d) = (List.length source_images * size)%nat
       /\ Forall (fun v => 0 <= v) (planes d)
       /\ forall j, plane_sum self0 pixel_array2 d j
                    = sum_Z (plane_at size j (planes d)).
Proof.
  assert (Hold : holds_samples self0 []).
  { destruct Hfresh as (Hnf & _ & _ & _ & Hpd & _).
    unfold holds_samples. rewrite Hnf, Hpd. split; [reflexivity |].
    split; [constructor |].
    unfold encode_samples. destruct (SegmentationType self0); reflexivity. }
  destruct (add_segments_stores _ _ _ _ _ _ _ Hnative Hfmt Hwf1 Hold Hrun)
    as (source_images' & pixel_array2' & source_plane_positions'
        & positions' & values' & plane_sort_index' & samples & Hsrc' & Hval'
        & Hres' & Hidx' & Hsamples & Hst & Hholds).
  rewrite Hsrc in Hsrc'. injection Hsrc' as <-.
  rewrite Hval in Hval'. injection Hval' as <-.
  rewrite Hres in Hres'. injection Hres' as <- <-.
  rewrite Hidx in Hidx'. injection Hidx' as <- <-.
  cbn [app] in Hholds.
  rewrite (kept_samples_chunks _ _ _ _ _ Hsamples) in Hholds.
  split; [exact Hst |]. split; [exact Hholds |].
  intros d Hd.
  destruct (validation_well_formed _ _ _ _ Hval Hwf1) as (Hwf2 & n & Hshape).
  destruct (resolve_plane_positions_series _ _ _ _ Hsingle Hres)
    as (_ & _ & Hn).
  rewrite Hshape in Hn. cbn [hd] in Hn. subst n.
  apply mapM_Forall2 in Hsamples.
  destruct (Forall2_in_left _ _ _ _ Hsamples Hd) as (s & _ & Hs).
  unfold kept_planes_samples in Hs. unfold planes, planes_data, plane_sum.
  destruct (planes_of self0 pixel_array2 (SegmentNumber d))
    as [[planes_dtype data] |] eqn:Hp; [| discriminate].
  destruct (planes_of_well_formed _ _ _ _ _ Hp Hwf2) as (Hlen & _ & Hrange).
  split.
  { rewrite Hlen, Hshape. unfold prod_shape, size. cbn [fold_right]. lia. }
  split; [| reflexivity].
  eapply Forall_impl; [| exact Hrange].
  intros v Hv. unfold in_dtype_range in Hv. cbn [is_signed itemsize] in Hv.
  lia.
Qed.

(** With distinct positions of the source images every plane is among the
    sorted plane indices. *)
Lemma constructor_all_planes (j : nat) :
  (j < List.length source_images)%nat -> In j plane_sort_index.
Proof.
  intros Hj.
  destruct (resolve_plane_positions_series _ _ _ _ Hsingle Hres)
    as (_ & Hpos & _).
  assert (Hne : source_images <> []).
  { intros ->. cbn in Hj. lia. }
  pose proof Hidx as Hidx'. rewrite Hdis, Hpos in Hidx'.
  pose proof (get_index_values_series _ _ _ _ Hidx' Hne) as Hvalues.
  destruct (get_index_values_length _ _ _ _ Hidx) as [_ ->].
  assert (Hrows : map (@List.concat Z) values
                  = map (fun img => src_ImagePositionPatient img)
                      source_images).
  { rewrite Hvalues, map_map. apply map_ext. intros img.
    cbn [List.concat]. apply app_nil_r. }
  rewrite Hrows.
  eapply Permutation_in;
    [apply Permutation_sym, np_unique_rows_permutation; exact Hdistinct |].
  apply in_seq. rewrite length_map. lia.
Qed.

Lemma constructor_segments :
  SegmentSequence self = segment_descriptions
  /\ map SegmentNumber segment_descriptions
     = numbers_to (List.length segment_descriptions)
  /\ NoDup segment_descriptions.
Proof.
  assert (Hnumbered : segments_numbered self0).
  { destruct Hfresh as (_ & _ & Hseg & Hinv & _).
    unfold segments_numbered, number_of_segments. rewrite Hseg, Hinv.
    split; [reflexivity |]. intros n. cbn. lia. }
  destruct (add_segments_numbered _ _ _ _ _ _ _ Hnumbered Hrun)
    as ((Hnum & _) & Hseq' & _).
  destruct Hfresh as (_ & _ & Hseg & _). rewrite Hseg in Hseq'.
  cbn [app] in Hseq'. unfold number_of_segments in Hnum.
  rewrite Hseq' in Hnum.
  split; [exact Hseq' |]. split; [exact Hnum |].
  apply (NoDup_map_inv SegmentNumber). rewrite Hnum. unfold numbers_to.
  apply NoDup_map_injective; [| apply seq_NoDup].
  intros x y. apply Nat2Z.inj.
Qed.

Lemma constructor_pairs :
  NoDup pairs
  /\ NumberOfFrames self = List.length pairs
  /\ forall d j,
       In d segment_descriptions -> (j < List.length source_images)%nat ->
       (In (d, j) pairs <-> sum_Z (plane_at size j (planes d)) <> 0).
Proof.
  destruct constructor_segments as (_ & _ & Hnd).
  destruct constructor_positions as (_ & _ & _ & Hpsi).
  destruct constructor_stored as (_ & _ & Hplanes).
  split; [| split].
  - unfold pairs, kept_pairs.
    apply (NoDup_flat_map_pairs
             (kept_planes self0 pixel_array2 plane_sort_index));
      [exact Hnd |].
    intros d _. unfold kept_planes. apply NoDup_filter. exact Hpsi.
  - destruct (add_segments_effect _ _ _ _ _ _ _ Hrun)
      as (? & ? & ? & ? & ? & ? & ? & ? & items & ? & _ & _ & _ & _ & _ & _
          & _ & Hitems & Hcount & _).
    destruct Hfresh as (Hnf & Hnone & _). rewrite Hnf in Hcount.
    rewrite Hnone in Hitems. cbn [app] in Hitems. cbn [Nat.add] in Hcount.
    rewrite Hcount, <- Hitems.
    exact (Forall2_length constructor_frame_items).
  - intros d j Hd Hj. destruct (Hplanes d Hd) as (_ & _ & Hsum).
    rewrite <- Hsum. unfold pairs, kept_pairs. split.
    + intros Hin. apply in_flat_map in Hin. destruct Hin as (d' & _ & Hin).
      apply in_map_iff in Hin. destruct Hin as (j' & Heq & Hin).
      injection Heq as -> ->. unfold kept_planes in Hin.
      apply filter_In in Hin. destruct Hin as [_ Hin].
      apply negb_true_iff, Z.eqb_neq in Hin. exact Hin.
    + intros Hne. apply in_flat_map. exists d. split; [exact Hd |].
      apply in_map. unfold kept_planes. apply filter_In.
      split; [apply constructor_all_planes; exact Hj |].
      apply negb_true_iff, Z.eqb_neq. exact Hne.
Qed.

(** The rows of source instance and segment number of the frame table, in
    the order of the kept planes. *)
Lemma constructor_lut :
  exists rows lut,
    _frame_lut self = Some rows
    /\ lut_columns rows 1 0 = Ok lut
    /\ NoDup lut
    /\ Forall2
         (fun row dj =>
            exists i,
              nth_error (_source_sop_instance_uids self) i
              = Some (uid (snd dj))
              /\ row = [Z.of_nat i; SegmentNumber (fst dj)])
         lut pairs.
Proof.
  destruct constructor_luts
    as (_ & _ & _ & _ & Hnd & _ & rows & Hrows & Hrel).
  destruct constructor_segments as (_ & Hnum & Hdescs).
  destruct constructor_pairs as (Hpairs & _ & _).
  exists rows, (map (fun row => [nth 1 row 0; nth 0 row 0]) rows).
  assert (Hcols : forall col, (col < 3)%nat ->
            Forall (fun row => (col < List.length row)%nat) rows).
  { intros col Hcol. clear - Hrel Hcol.
    induction Hrel as [| row dj l l' (i & _ & ->) _ IH]; constructor;
      [exact Hcol | exact IH]. }
  assert (Hlut :
    Forall2
      (fun row dj =>
         exists i,
           nth_error (_source_sop_instance_uids self) i = Some (uid (snd dj))
           /\ row = [Z.of_nat i; SegmentNumber (fst dj)])
      (map (fun row => [nth 1 row 0; nth 0 row 0]) rows) pairs).
  { clear - Hrel. induction Hrel as [| row dj l l' (i & Hi & ->) _ IH];
      cbn [map]; constructor; [| exact IH].
    exists i. split; [exact Hi | reflexivity]. }
  split; [exact Hrows |]. split; [| split; [| exact Hlut]].
  - unfold lut_columns.
    rewrite (lut_column_rows rows 1) by (apply Hcols; lia). cbn [rbind].
    rewrite (lut_column_rows rows 0) by (apply Hcols; lia). cbn [rbind].
    rewrite combine_map_same, map_map. reflexivity.
  - apply (Forall2_NoDup _ _ _ Hlut Hpairs).
    intros row [d j] [d' j'] Hdj Hdj' (i & Hi & ->) (i' & Hi' & Heq).
    cbn [fst snd] in *. injection Heq as Hii Hseg.
    apply Nat2Z.inj in Hii. subst i'. rewrite Hi in Hi'.
    injection Hi' as Huid.
    destruct (kept_pairs_in _ _ Hdj) as (Hd & _ & Hj).
    destruct (kept_pairs_in _ _ Hdj') as (Hd' & _ & Hj').
    f_equal.
    + destruct (In_nth_error _ _ Hd) as (s & Hs).
      destruct (In_nth_error _ _ Hd') as (s' & Hs').
      pose proof (map_nth_error SegmentNumber _ _ Hs) as Hn.
      pose proof (map_nth_error SegmentNumber _ _ Hs') as Hn'.
      rewrite Hseg in Hn.
      assert (Hss : s = s').
      { apply (proj1 (NoDup_nth_error
                        (map SegmentNumber segment_descriptions))).
        - rewrite Hnum. apply NoDup_map_injective; [| apply seq_NoDup].
          intros x y. apply Nat2Z.inj.
        - rewrite length_map. apply nth_error_Some. congruence.
        - congruence. }
      subst s'. congruence.
    + unfold uid in Huid.
      apply (proj1 (NoDup_nth (map src_SOPInstanceUID source_images) "")
               Huids); rewrite ?length_map; auto.
Qed.

Lemma constructor_segment_numbers (d : SegmentDescription) (s : nat) :
  nth_error segment_descriptions s = Some d ->
  SegmentNumber d = Z.of_nat (S s).
Proof.
  intros Hs. destruct constructor_segments as (_ & Hnum & _).
  pose proof (map_nth_error SegmentNumber _ _ Hs) as Hn.
  rewrite Hnum, numbers_to_nth in Hn
    by (apply nth_error_Some; congruence).
  now injection Hn.
Qed.

Let stored : list Z :=
  List.concat (map (fun dj => plane_at size (snd dj) (planes (fst dj))) pairs).

(** The entry of the matrix of frame numbers for a source image and a
    segment names the frame that holds the plane, or no frame when the plane
    is empty. *)
Lemma constructor_entry (lut : list (list Z)) (a s : nat)
    (d : SegmentDescription) :
  NoDup lut ->
  Forall2
    (fun row dj =>
       exists i,
         nth_error (_source_sop_instance_uids self) i = Some (uid (snd dj))
         /\ row = [Z.of_nat i; SegmentNumber (fst dj)])
    lut pairs ->
  (a < List.length source_images)%nat ->
  nth_error segment_descriptions s = Some d ->
  exists i e,
    _get_src_uid_index self (uid a) = Ok i
    /\ seg_frame_entry lut [Z.of_nat i; Z.of_nat (S s)] = Ok e
    /\ -1 <= e <= Z.of_nat (NumberOfFrames self)
    /\ forall p, (p < size)%nat ->
         (if 1 <=? e
          then nth (Z.to_nat (e - 1) * size + p) stored 0
          else 0)
         = nth (a * size + p) (planes d) 0.
Proof.
  intros Hlut Hrel Ha Hs.
  destruct constructor_luts as (_ & _ & _ & _ & Hnd & Hin & _).
  destruct constructor_pairs as (_ & Hcount & Hkept).
  destruct constructor_stored as (_ & _ & Hplanes).
  destruct constructor_segments as (_ & Hnum & Hdescs).
  pose proof (nth_error_In _ _ Hs) as Hd.
  destruct (_get_src_uid_index_found self (uid a) Hnd (Hin a Ha))
    as (i & Hi & Hnth).
  pose proof (constructor_segment_numbers d s Hs) as Hseg.
  exists i. rewrite Hi.
  destruct (seg_frame_entry_unique lut [Z.of_nat i; Z.of_nat (S s)] Hlut)
    as [Hfound Habsent].
  destruct (Z.eq_dec (sum_Z (plane_at size a (planes d))) 0) as [Hzero | Hne].
  - exists (-1). split; [reflexivity |]. split; [| split; [lia |]].
    + apply Habsent. intros Hrow.
      destruct (In_nth_error _ _ Hrow) as (k & Hk).
      destruct (Forall2_nth_both _ _ _ _ _ Hrel Hk)
        as ([d' a'] & Hk' & i' & Hi' & Heq).
      cbn [fst snd] in Hi', Heq. injection Heq as Hii Hseg'.
      apply Nat2Z.inj in Hii. subst i'.
      destruct (kept_pairs_in _ _ (nth_error_In _ _ Hk')) as (Hd' & _ & Ha').
      assert (a' = a).
      { rewrite Hnth in Hi'. injection Hi' as Huid. unfold uid in Huid.
        apply (proj1 (NoDup_nth (map src_SOPInstanceUID source_images) "")
                 Huids); rewrite ?length_map; auto. }
      subst a'.
      assert (d' = d).
      { destruct (In_nth_error _ _ Hd') as (s' & Hs').
        pose proof (constructor_segment_numbers d' s' Hs') as Hseg''.
        assert (s' = s) by lia. subst s'. congruence. }
      subst d'.
      apply (proj1 (Hkept d a Hd Ha)) in Hzero; [exact Hzero |].
      exact (nth_error_In _ _ Hk').
    + intros p Hp. cbn. rewrite <- nth_plane_at by exact Hp.
      symmetry. apply sum_Z_zero; [| exact Hzero].
      apply Forall_plane_at. apply (Hplanes d Hd).
  - apply (Hkept d a Hd Ha) in Hne.
    destruct (In_nth_error _ _ Hne) as (k & Hk).
    destruct (Forall2_nth_right _ _ _ _ _ Hrel Hk)
      as (row & Hrow & i' & Hi' & ->).
    cbn [fst snd] in Hi', Hrow.
    assert (i' = i).
    { apply (proj1 (NoDup_nth_error (_source_sop_instance_uids self)) Hnd).
      - apply nth_error_Some. congruence.
      - congruence. }
    subst i'. rewrite Hseg in Hrow.
    assert (Hlt : (k < List.length pairs)%nat)
      by (apply nth_error_Some; congruence).
    exists (Z.of_nat k + 1). split; [reflexivity |].
    split; [exact (Hfound k Hrow) |]. split; [lia |].
    intros p Hp.
    replace (1 <=? Z.of_nat k + 1) with true by (symmetry; apply Z.leb_le; lia).
    replace (Z.to_nat (Z.of_nat k + 1 - 1)) with k by lia.
    unfold stored. rewrite (nth_concat_chunks _ size).
    + rewrite (nth_indep _ [] (plane_at size (snd (d, a)) (planes (fst (d, a))))),
        (map_nth (fun dj => plane_at size (snd dj) (planes (fst dj)))),
        (nth_error_nth _ _ _ Hk) by now rewrite length_map.
      cbn [fst snd]. apply nth_plane_at. exact Hp.
    + apply Forall_forall. intros c Hc. apply in_map_iff in Hc.
      destruct Hc as ([d' a'] & <- & Hdj). cbn [fst snd].
      destruct (kept_pairs_in _ _ Hdj) as (Hd' & _ & Ha').
      apply (length_plane_at size a' (List.length source_images));
        [apply (Hplanes d' Hd') | exact Ha'].
    + exact Hp.
Qed.

(** The planes the query by source instance gives back. *)
Lemma constructor_round_trip (indices : list nat)
    (assert_locations_preserved assert_missing_frames_are_empty : bool) :
  NumberOfFrames self <> 0%nat ->
  indices <> [] ->
  Forall (fun a => (a < List.length source_images)%nat) indices ->
  exists out,
    get_pixels_by_source_frame ext self (map uid indices) None None false
      false assert_locations_preserved assert_missing_frames_are_empty
    = Ok out
    /\ arr_dtype out = np_uint8
    /\ arr_shape out
       = [List.length indices; Rows self; Columns self;
          List.length segment_descriptions]
    /\ forall f a p s d,
         nth_error indices f = Some a ->
         (p < Rows self * Columns self)%nat ->
         nth_error segment_descriptions s = Some d ->
         nth ((f * (Rows self * Columns self) + p)
              * List.length segment_descriptions + s) (arr_data out) 0
         = nth (a * (Rows self * Columns self) + p) (planes d) 0.
Proof.
  intros Hframes Hne Hbound.
  destruct constructor_luts as (Hflag & Hlp & Hc0 & Hc1 & _).
  destruct constructor_lut as (rows & lut & Hrows & Hcols & Hlut & Hrel).
  destruct constructor_segments as (Hsegs & _ & _).
  destruct constructor_pairs as (_ & Hcount & _).
  destruct constructor_stored as (Hst & Hholds & _).
  destruct (static_format _ _ Hst) as (_ & Hr & Hc & Hts).
  assert (Hsize : (Rows self * Columns self)%nat = size)
    by (unfold size; now rewrite Hr, Hc).
  set (m := List.length segment_descriptions).
  assert (Hm : m <> 0%nat).
  { subst m. intros Hzero. apply length_zero_iff_nil in Hzero.
    apply Hframes. rewrite Hcount. unfold pairs, kept_pairs.
    rewrite Hzero. reflexivity. }
  assert (Hstored :
    pixel_array ext self = Ok (mk_ndarray np_uint8 (frames_shape self) stored)).
  { apply pixel_array_holds_samples; [| | exact Hholds | exact Hframes].
    - rewrite Hts. exact Hnative.
    - eapply segmentation_format_static; [exact Hst | exact Hfmt]. }
  (* the matrix of frame numbers *)
  set (entry_ok := fun (a : nat) (n : nat) (e : Z) =>
         exists s d,
           n = S s /\ nth_error segment_descriptions s = Some d
           /\ -1 <= e <= Z.of_nat (NumberOfFrames self)
           /\ forall p, (p < size)%nat ->
                (if 1 <=? e
                 then nth (Z.to_nat (e - 1) * size + p) stored 0
                 else 0)
                = nth (a * size + p) (planes d) 0).
  destruct (mapM_exists
              (fun a =>
                 match _get_src_uid_index self (uid a) with
                 | Raise (KeyError _) =>
                     if assert_missing_frames_are_empty
                     then Ok (repeat (-1) (List.length (numbers_to m)))
                     else Raise (KeyError
                       "SOP Instance UID does not match any referenced source frames.")
                 | Raise e => Raise e
                 | Ok src_uid_ind =>
                     mapM (fun seg_num =>
                             seg_frame_entry lut [Z.of_nat src_uid_ind; seg_num])
                       (numbers_to m)
                 end)
              (fun a row => Forall2 (entry_ok a) (seq 1 m) row)
              indices) as (seg_frames & Hmatrix & Hentries).
  { intros a Ha. rewrite Forall_forall in Hbound. specialize (Hbound a Ha).
    assert (Hi : exists i, _get_src_uid_index self (uid a) = Ok i
                   /\ forall s d, nth_error segment_descriptions s = Some d ->
                        exists e,
                          seg_frame_entry lut [Z.of_nat i; Z.of_nat (S s)]
                          = Ok e
                          /\ entry_ok a (S s) e).
    { destruct (nth_error segment_descriptions 0) as [d0 |] eqn:Hd0;
        [| apply nth_error_None in Hd0; fold m in Hd0; lia].
      destruct (constructor_entry lut a 0 d0 Hlut Hrel Hbound Hd0)
        as (i & _ & Hi & _).
      exists i. split; [exact Hi |]. intros s d Hs.
      destruct (constructor_entry lut a s d Hlut Hrel Hbound Hs)
        as (i' & e & Hi' & He & Hrange & Hvalue).
      rewrite Hi in Hi'. injection Hi' as <-.
      exists e. split; [exact He |]. exists s, d. auto. }
    destruct Hi as (i & Hi & Hrow). rewrite Hi.
    unfold numbers_to. rewrite mapM_map.
    apply mapM_exists. intros n Hn. apply in_seq in Hn.
    destruct n as [| s]; [lia |].
    destruct (nth_error segment_descriptions s) as [d |] eqn:Hs;
      [| apply nth_error_None in Hs; fold m in Hs; lia].
    exact (Hrow s d Hs). }
  assert (Hlen : List.length seg_frames = List.length indices)
    by (symmetry; exact (Forall2_length Hentries)).
  assert (Hwidth : Forall (fun row => List.length row = m) seg_frames).
  { clear - Hentries. induction Hentries as [| a row l l' H _ IH];
      constructor; [| exact IH].
    rewrite <- (Forall2_length H). apply length_seq. }
  assert (Hcell : forall f a s d,
            nth_error indices f = Some a ->
            nth_error segment_descriptions s = Some d ->
            let e := nth (f * m + s) (List.concat seg_frames) 0 in
            -1 <= e <= Z.of_nat (NumberOfFrames self)
            /\ forall p, (p < size)%nat ->
                 (if 1 <=? e
                  then nth (Z.to_nat (e - 1) * size + p) stored 0
                  else 0)
                 = nth (a * size + p) (planes d) 0).
  { intros f a s d Hf Hs.
    assert (Hsm : (s < m)%nat) by (apply nth_error_Some; congruence).
    destruct (Forall2_nth_both _ _ _ _ _ Hentries Hf) as (row & Hrow & Hall).
    assert (Hnum : nth_error (seq 1 m) s = Some (S s)).
    { rewrite (nth_error_nth' _ 0%nat) by now rewrite length_seq.
      now rewrite seq_nth. }
    destruct (Forall2_nth_both _ _ _ _ _ Hall Hnum)
      as (e & He & s' & d' & Heq & Hs' & Hrange & Hvalue).
    injection Heq as <-. rewrite Hs in Hs'. injection Hs' as <-.
    cbv zeta. rewrite (nth_concat_chunks _ m _ _ _ Hwidth Hsm).
    rewrite (nth_error_nth _ _ _ Hrow), (nth_error_nth _ _ _ He).
    split; assumption. }
  assert (Hall : Forall (fun e => -1 <= e <= Z.of_nat (NumberOfFrames self))
                   (List.concat seg_frames)).
  { apply Forall_concat. clear - Hentries.
    induction Hentries as [| a row l l' H _ IH]; constructor; [| exact IH].
    clear - H. induction H as [| n e l l' (s & d & _ & _ & He & _) _ IH];
      constructor; [exact He | exact IH]. }
  assert (Hnonempty : List.concat seg_frames <> []).
  { destruct seg_frames as [| row rest].
    - destruct indices; [congruence | discriminate].
    - inversion Hwidth as [| ? ? Hrow _]; subst.
      destruct row; [cbn in Hrow; lia | discriminate]. }
  (* the call *)
  unfold get_pixels_by_source_frame.
  rewrite Hlp, Hflag. cbn [rbind].
  unfold number_of_segments. rewrite Hsegs. fold m.
  change (map Z.of_nat (seq 1 m)) with (numbers_to m).
  rewrite length_numbers_to, length_map.
  replace (m =? 0)%nat with false by (symmetry; apply Nat.eqb_neq; exact Hm).
  replace (List.length indices =? 0)%nat with false
    by (symmetry; apply Nat.eqb_neq; destruct indices; [congruence | discriminate]).
  cbn [negb]. rewrite Hc1, Hc0, Hrows. cbn [get_attribute rbind].
  rewrite Hcols. cbn [rbind].
  rewrite (unique_rows_length lut Hlut), Nat.eqb_refl.
  rewrite mapM_map. rewrite length_numbers_to in Hmatrix.
  rewrite Hmatrix. cbn [rbind].
  unfold _get_pixels_by_seg_frame. cbn [andb negb arr_shape arr_dtype arr_data].
  cbn [dtype_eqb negb].
  destruct (List.concat seg_frames) as [| x matrix] eqn:Hconcat;
    [congruence |].
  cbn [min_Z max_Z rbind].
  assert (Hlow : (fold_left Z.min matrix x <? -1) = false).
  { apply Z.ltb_ge. rewrite Forall_forall in Hall.
    apply (Hall _ (fold_left_min_in matrix x)). }
  assert (Hhigh : (Z.of_nat (NumberOfFrames self) <? fold_left Z.max matrix x)
                  = false).
  { apply Z.ltb_ge. rewrite Forall_forall in Hall.
    apply (Hall _ (proj1 (fold_left_max_is_max matrix x))). }
  rewrite Hlow, Hhigh. cbn [negb].
  rewrite length_numbers_to, Nat.eqb_refl.
  unfold number_of_segments. rewrite Hsegs. fold m.
  destruct (numbers_to_bounds m Hm) as (lo & hi & -> & -> & Hlo & Hhi).
  cbn [rbind].
  replace (lo <? 1) with false by (symmetry; apply Z.ltb_ge; exact Hlo).
  replace (Z.of_nat m <? hi) with false
    by (symmetry; apply Z.ltb_ge; exact Hhi).
  cbn [orb negb]. rewrite Hstored. cbn [rbind].
  eexists. split; [reflexivity |]. cbn [arr_dtype arr_shape arr_data].
  split; [reflexivity |]. split; [now rewrite Hlen |].
  intros f a p s d Hf Hp Hs.
  assert (Hfm : (f < List.length seg_frames)%nat)
    by (rewrite Hlen; apply nth_error_Some; congruence).
  assert (Hsm : (s < m)%nat) by (apply nth_error_Some; congruence).
  unfold output_cells. rewrite (nth_cells _ _ _ _ f p s Hfm Hp Hsm).
  destruct (Hcell f a s d Hf Hs) as [Hrange Hvalue].
  cbv zeta in Hrange, Hvalue.
  rewrite Hsize in *. specialize (Hvalue p Hp).
  rewrite <- Hvalue. cbn [arr_data].
  destruct (1 <=? nth (f * m + s) (x :: matrix) 0) eqn:Hone;
    [| reflexivity].
  apply Z.leb_le in Hone.
  unfold ndim, frames_shape. cbn [arr_shape].
  destruct (1 <? NumberOfFrames self)%nat eqn:Hmany; [reflexivity |].
  apply Nat.ltb_ge in Hmany. cbn [app List.length Nat.eqb].
  replace (Z.to_nat (nth (f * m + s) (x :: matrix) 0 - 1)) with 0%nat by lia.
  reflexivity.
Qed.

End ConstructorCall.

Lemma Segmentation_new_well_formed
    (source_images : list SourceImage) (pixels : PixelArray)
    (segmentation_type : string) (fractional_type : string)
    (max_fractional_value : Z) (transfer_syntax_uid : TransferSyntax)
    (plane_orientation : option (list Z))
    (self : Segmentation) (pixel_array1 : PixelArray) :
  Segmentation_new source_images pixels segmentation_type
    fractional_type max_fractional_value transfer_syntax_uid
    plane_orientation = Ok (self, pixel_array1) ->
  pa_well_formed pixels -> pa_well_formed pixel_array1.
Proof.
  intros Hnew Hwf. unfold Segmentation_new in Hnew.
  destruct source_images as [| src_img rest]; [discriminate |].
  destruct (forallb _ _); [| discriminate].
  destruct (negb _); [| discriminate].
  destruct (supported_by_segmentation _); [| discriminate].
  cbv zeta in Hnew.
  set (p := if (List.length (pa_shape pixels) =? 2)%nat
            then pa_reshape (1%nat :: pa_shape pixels) pixels
            else pixels) in *.
  assert (Hp : pa_well_formed p).
  { subst p. destruct (List.length (pa_shape pixels) =? 2)%nat;
      [| exact Hwf].
    destruct pixels as [a | sh data];
      unfold pa_well_formed, pa_reshape, prod_shape in *;
      cbn [arr_data arr_shape arr_dtype pa_shape fold_right] in *.
    - destruct Hwf as [Hlen Hrange]. split; [lia | exact Hrange].
    - lia. }
  destruct (pa_shape p) as [| ? [| ? [| ? ?]]]; try discriminate.
  destruct (SegmentationTypeValues_of segmentation_type);
    [| discriminate].
  cbn [rbind] in Hnew.
  match type of Hnew with
  | rbind ?r _ = _ => destruct r as [[[[? ?] ?] ?] |]; [| discriminate]
  end.
  cbn [rbind] in Hnew. inversion Hnew; subst. exact Hp.
Qed.

(** X17. The planes given to the constructor come back from the query by
    source instance. Let the constructor return, without plane positions
    and plane orientation of its own, for a native (not encapsulated)
    transfer syntax, a pixel array whose data fill its shape and a series of
    single-frame source images with distinct SOP Instance UIDs and distinct
    positions, and let the new object have a frame. Then
    [get_pixels_by_source_frame], called with SOP Instance UIDs of source
    images and without frame numbers, segment numbers and combination of
    segments, returns an array of unsigned bytes with one frame per given
    instance and one channel per described segment; its sample for an
    instance, a pixel and a segment is the sample [add_segments] derived
    from the pixel array for the plane of that source image and that
    segment, also where the plane was empty and no frame stores it. *)
Theorem source_frames_round_trip (ext : External)
    (source_images : list SourceImage) (pixels : PixelArray)
    (segmentation_type : string)
    (segment_descriptions : list SegmentDescription)
    (fractional_type : string) (max_fractional_value : Z)
    (transfer_syntax_uid : TransferSyntax)
    (self : Segmentation) (indices : list nat)
    (assert_locations_preserved assert_missing_frames_are_empty : bool) :
  is_encapsulated transfer_syntax_uid = false ->
  pa_well_formed pixels ->
  Forall (fun img => src_NumberOfFrames img = None) source_images ->
  NoDup (map src_SOPInstanceUID source_images) ->
  NoDup (map src_ImagePositionPatient source_images) ->
  Segmentation_init ext source_images pixels segmentation_type
    segment_descriptions fractional_type max_fractional_value
    transfer_syntax_uid None None = Ok self ->
  NumberOfFrames self <> 0%nat ->
  indices <> [] ->
  Forall (fun a => (a < List.length source_images)%nat) indices ->
  exists self0 pixel_array1 pixel_array2 out,
    Segmentation_new source_images pixels segmentation_type
      fractional_type max_fractional_value transfer_syntax_uid None
    = Ok (self0, pixel_array1)
    /\ validation self0 pixel_array1 segment_descriptions = Ok pixel_array2
    /\ get_pixels_by_source_frame ext self
         (map (fun a => nth a (map src_SOPInstanceUID source_images) "")
            indices)
         None None false false assert_locations_preserved
         assert_missing_frames_are_empty
       = Ok out
    /\ arr_dtype out = np_uint8
    /\ arr_shape out
       = [List.length indices; Rows self; Columns self;
          List.length segment_descriptions]
    /\ forall f a p s d,
         nth_error indices f = Some a ->
         (p < Rows self * Columns self)%nat ->
         nth_error segment_descriptions s = Some d ->
         nth ((f * (Rows self * Columns self) + p)
              * List.length segment_descriptions + s) (arr_data out) 0
         = nth (a * (Rows self * Columns self) + p)
             (planes_data self0 pixel_array2 d) 0.
Proof.
  intros Hnative Hwf Hsingle Huids Hdistinct Hinit Hframes Hne Hbound.
  destruct (Segmentation_init_inv _ _ _ _ _ _ _ _ _ _ _ Hinit)
    as (self0 & pixel_array1 & Hnew & Hrun).
  destruct (Segmentation_new_spec _ _ _ _ _ _ _ _ _ Hnew)
    as (Hfresh & Hfmt & Hsrc & Hts & _ & _ & _ & Hseq & _ & Hspo & Hpo
        & Hdis).
  pose proof (Segmentation_new_references _ _ _ _ _ _ _ _ _ Hnew) as Hrefs.
  pose proof (Segmentation_new_well_formed _ _ _ _ _ _ _ _ _ Hnew Hwf)
    as Hwf1.
  assert (Hnative0 : is_encapsulated (TransferSyntaxUID self0) = false)
    by (rewrite Hts; exact Hnative).
  assert (Horientation :
    _source_plane_orientation self0 = Some (_plane_orientation self0))
    by (rewrite Hspo, Hpo; reflexivity).
  destruct (add_segments_effect _ _ _ _ _ _ _ Hrun)
    as (source_images' & pixel_array2 & source_plane_positions & positions
        & values & plane_sort_index & ? & ? & ? & ? & Hsrc' & Hval & Hres
        & Hidx & _).
  rewrite Hsrc in Hsrc'. injection Hsrc' as <-.
  destruct (resolve_plane_positions_series _ _ _ _ Hsingle Hres)
    as (-> & _ & _).
  destruct (constructor_round_trip ext source_images segment_descriptions
              self0 self pixel_array1 pixel_array2 positions values
              plane_sort_index Hsingle Huids Hfresh Hsrc Hrefs Hseq
              Horientation Hrun Hval Hres Hidx Hnative0 Hfmt Hwf1 Hdis
              Hdistinct indices assert_locations_preserved
              assert_missing_frames_are_empty Hframes Hne Hbound)
    as (out & Hout & Hdtype & Hshape & Hcells).
  exists self0, pixel_array1, pixel_array2, out.
  split; [exact Hnew |]. split; [exact Hval |]. split; [exact Hout |].
  split; [exact Hdtype |]. split; [exact Hshape |]. exact Hcells.
Qed.

Lemma source_frames_round_trip_witness :
  exists self,
    fractional_example = Ok self
    /\ get_pixels_by_source_frame plain_codecs self
         ["1.2.3.1.2"; "1.2.3.1.1"] None None false false false false
       = Ok (mk_ndarray np_uint8 [2; 1; 1; 1]%nat [0; 255])
    /\ exists self0 pixel_array1 pixel_array2 out,
         Segmentation_new
           [ct_image "1.2.3.1.1" 1 1 0; ct_image "1.2.3.1.2" 1 1 1]
           (FloatPixels np_float64 [2; 1; 1]%nat
               [float_value np_float64 1 0; float_value np_float64 0 0])
           "FRACTIONAL" "PROBABILITY" 255 ImplicitVRLittleEndian None
         = Ok (self0, pixel_array1)
         /\ validation self0 pixel_array1 [description 1] = Ok pixel_array2
         /\ get_pixels_by_source_frame plain_codecs self
              (map (fun a =>
                      nth a
                        (map src_SOPInstanceUID
                           [ct_image "1.2.3.1.1" 1 1 0;
                            ct_image "1.2.3.1.2" 1 1 1]) "")
                 [1; 0]%nat)
              None None false false false false
            = Ok out
         /\ arr_dtype out = np_uint8
         /\ arr_shape out
            = [List.length [1; 0]%nat; Rows self; Columns self;
               List.length [description 1]]
         /\ forall f a p s d,
              nth_error [1; 0]%nat f = Some a ->
              (p < Rows self * Columns self)%nat ->
              nth_error [description 1] s = Some d ->
              nth ((f * (Rows self * Columns self) + p)
                   * List.length [description 1] + s) (arr_data out) 0
              = nth (a * (Rows self * Columns self) + p)
                  (planes_data self0 pixel_array2 d) 0.
Proof.
  eexists. split; [vm_compute; reflexivity |].
  split; [vm_compute; reflexivity |].
  apply (source_frames_round_trip plain_codecs
           [ct_image "1.2.3.1.1" 1 1 0; ct_image "1.2.3.1.2" 1 1 1]
           (FloatPixels np_float64 [2; 1; 1]%nat
               [float_value np_float64 1 0; float_value np_float64 0 0])
           "FRACTIONAL" [description 1] "PROBABILITY" 255
           ImplicitVRLittleEndian).
  - reflexivity.
  - reflexivity.
  - repeat constructor.
  - repeat constructor; simpl; intuition discriminate.
  - repeat constructor; simpl; intuition discriminate.
  - vm_compute. reflexivity.
  - discriminate.
  - discriminate.
  - repeat constructor.
Defined.
